(* ===== verification/_CoqProject ===== *)
-Q . S2P
Prelude.v
Crypto.v
Text.v
Netip.v
BuildLink.v
Proxy.v
Claim.v
Dhcp.v
Frames.v
Netlink.v
Modes.v
ModesSpec.v
Ledger.v
LedgerVerify.v
Writer.v
LedgerExamples.v
Environment.v
LayerCache.v
Paths.v
Translate.v
Streams.v
Fair.v
Collector.v
CollectorSpec.v
Relay.v
RelaySpec.v
EndToEnd.v
Dns.v
Serve.v
ServeSpec.v
Session.v
Fmt.v
Failure.v
Gpt.v
GptSpec.v
Slots.v
Host.v
Preflight.v
Pids.v
Vmms.v
VmmsSpec.v
Cpio.v
CpioSpec.v
Iso.v
IsoSpec.v
FcBuild.v
FcBuildSpec.v
Creds.v
FcImages.v
Firewall.v
SetupSpec.v
Inspect.v
InspectSpec.v
RecordedBuild.v
GuestFs.v
Trust.v
TrustSpec.v
Baseline.v
Agent.v
AgentSpec.v
CopySpec.v
AgentExamples.v
Isolation.v
Container.v
ContainerSpec.v
ContainerSafe.v
Command.v
CommandSpec.v
