(* ===== verification/Prelude.v ===== *)
(** * BuildWarden: a verification development

    BuildWarden runs a build in an isolated environment whose only network is a
    relay.  The relay terminates the build's TLS, sends its requests upstream,
    records every exchange in a signed ledger, and is the build's only way to
    get its inputs and to hand over its outputs.  The ledger and the outputs go
    through an authenticated tunnel to a collector on the host, where [warden
    inspect] checks them afterwards.  A driver brings the environment up; inside
    it a guest agent fetches what it needs from the relay and runs the script a
    Containerfile was translated to.

    ** How the parts follow each other

    The driver ([FcBuild], [Vmms], [Host]; or [Container]) opens a session ([Session]), which
    stages the inputs, starts the collector ([Collector]) and claims the relay
    ([Claim]).  The claim starts the relay in a mode ([Modes]), which configures
    the build's link ([BuildLink], [Netlink], [Dhcp], [Frames]).  The agent
    ([Agent]) sets the environment up ([Trust], [Baseline]) and runs the script
    ([Translate]), whose files it fetches ([CopySpec]).  Connections of the build
    are served ([Serve], [Proxy], [Dns], [Fair]) and recorded ([Relay],
    [Streams], [Writer]).  On exit the relay flushes its ledger and completes
    the build, the session's wait returns ([EndToEnd], [Session]), and [warden
    inspect] ([Inspect]) reads the ledger back ([Ledger], [Environment],
    [LayerCache]).

    ** The files, by component

    Shared: [Prelude] (errors, bytes, arithmetic, automation), [Crypto] (hashes,
    Ed25519 and CBOR as classes with laws, and executable instances), [Text]
    (Go's strings), [Netip] (addresses), [Failure] and [Fmt] (fixable errors and
    printed text).

    - Ledger.  [Ledger] is the reader and verifier of ledger/ledger.go, [Writer]
      the header writer, the loop's body and the hashers of relay/ledger.go,
      [Writer.Channel] the goroutine and its callers as a step relation.
      [LedgerVerify] states which bytes [Verify] accepts, what its report means,
      that valid ledgers with one last signature agree on what is signed, and
      what cutting a ledger does; [Writer] that whatever is written verifies and
      reads back, in every interleaving.  [LedgerExamples] evaluates both.
    - Environment records.  [Environment] (ledger/environment.go) and
      [LayerCache] (driver/layercache.go, envdesc.go): a descriptor states each
      layer's hash as of its last recording, however the cache is used.
    - Collector.  [Collector], [Paths]; [CollectorSpec]: nothing is written
      outside the output, nothing without the token, an upload is whole or
      absent, and the first completion is the one.
    - Relay.  [Relay] (relay.go, collector_client.go, heartbeat.go,
      controlplane.go), [Streams] (the readers around bodies), [Proxy] and
      [Serve] (proxy.go), [Dns], [Fair].  [RelaySpec] and [ServeSpec]: what is
      recorded is what passed, before the upstream is contacted; no blocked
      address is dialled; credentials are not recorded.  [EndToEnd] composes the
      relay with the collector: the ledger says what the collector holds.
    - Claim and link.  [Claim] is the one-claim server as a step relation,
      [BuildLink] the link's arithmetic on both sides, [Dhcp], [Frames] and
      [Netlink] the formats a hostile guest or the kernel sends, with Go's
      run-time panics as [None]; [Modes] and [ModesSpec]: a claim configures the
      link and nothing else, and leaves nothing behind when it fails.
    - Host session.  [Session] (driver/session.go, compress.go, hostutil.go).
    - Containerfiles.  [Translate] (driver/script/translate.go) with the shell's
      lexer: each directive is lexed as the words it means.
    - Firecracker.  [Slots], [Host], [Creds], [Firewall], [SetupSpec] (the setup
      command: what its rules let through, that it installs exactly those, and
      holds the slots meanwhile), [Preflight], [Pids], [Vmms], [VmmsSpec]
      (taking a slot and cleaning up), [FcBuild], [FcBuildSpec] (a build closes
      what it opened, whatever the machine answers), [FcImages], [Gpt],
      [GptSpec], [Cpio], [CpioSpec], [Iso], [IsoSpec] (the formats it reads and
      writes, against a reader of each).
    - Containers.  [Isolation] has the subnets (driver/subnet.go) and the
      isolation script, its text read as iptables commands and their rules as the
      kernel reads them; [Container] a build and an interactive shell of
      driver/container as programs over calls to the runtime, the host and the
      session.  [ContainerSpec]: whatever they answer, what came up is taken
      down.  [ContainerSafe]: nothing of the build's image runs but in a
      namespace isolated before, beside a claimed relay.
    - Command line.  [Command] is the build and shell commands of cmd/warden
      (main.go, config.go) from the configuration to the exit status.
      [CommandSpec]: which source each setting comes from, and what every request
      a driver gets satisfies.
    - Inspection.  [Inspect], [InspectSpec]; [RecordedBuild] composes the relay's
      writer with the inspect command.
    - Guest agent (Linux).  [GuestFs] is the guest's file system, with symbolic
      links and calls that fail; [Trust], [Baseline] and [Agent] are the code of
      cmd/warden-io.  [TrustSpec]: exclusive trust leaves the relay's CA the only
      root, and its hook restores that.  [AgentSpec]: the order of a run, that
      the script runs under the relay's policy, and that its output arrives.
      [CopySpec] composes the translator, the shell and the agent.
      [AgentExamples] evaluates them on a guest.

    ** How code becomes definitions

    A Go function is a function of the same name where there is one.  Integers
    are [Z] with their width's wrap-around where the code relies on it, byte
    slices are lists of bytes, strings are byte strings; a slice or an index out
    of range is [None] where the input is untrusted.  State is passed and
    returned; an error is a value of [error].  What a component calls outside
    itself is a class or a record of operations, with documented behaviour as
    its laws: the operating system may fail any call, the kernel, the packet
    filter and the machine a VM runs on answer arbitrarily within their manuals.
    Code that interleaves ([Claim], [Writer.Channel], [Fair], the wait of
    [FcBuild], the collector's [Wait]) is a step relation or a machine whose
    next step is chosen by its environment, and theorems are about every
    schedule.

    ** Bounds and fuel

    Every loop that is not structural runs on fuel, which the code's own bound
    covers: 101 passes of the kill loop (ten seconds by tenths, [Vmms]), 121 of
    the wait for the relay (sixty seconds by halves, [Agent]; enough by
    [AgentSpec.wait_passes_enough]), 481 of the wait for a held container (two
    minutes by quarters, [Container]), 8 starts of its relay (the code's own
    count), 4 of the build's wait ([FcBuildSpec]), 40 links in a path (Linux's
    own bound, [GuestFs]), the bytes left for the ledger reader, whose
    [Verify_exact] shows it always returns, the reads left for the streams, and
    the requests left for a connection, with [connection_recorded] showing that
    serving ends.

    ** Not modelled

    The qemu, vz and hyperv drivers and the guest image preparation (command
    lines of external tools and bindings to system frameworks; the firecracker
    driver stands for their topology), what a container runtime leaves behind
    when a command of it fails, IPv6 in a container's namespace, the warden
    command's other subcommands and its printing, the tunnel's transport (an HTTP/2
    connection over a hijacked one, third-party code), the macOS and Windows
    variants of the agent, and the repository's own tools.  X.509, TLS, DNS,
    CBOR, JSON, TOML, zstd and gzip are libraries, and so parameters.  The
    agent's run takes its steps in one order: what the script writes and the
    clock's ticks come as the script's steps, in every order, but a post and a
    heartbeat do not overlap. *)

From Stdlib Require Export ZArith Lia String Ascii.
From Stdlib Require Import Strings.Byte.
From stdpp Require Export base gmap sets list strings.
From stdpp Require Export option list_numbers.
From stdpp Require Import pretty.

#[export] Set Default Proof Using "Type".

Declare Scope go_scope.
Delimit Scope go_scope with go.

Create HintDb go.
Create Rewrite HintDb golen.

(** ** Errors and results

    A Go [error] value.  [Sentinel] is a package-level error variable compared
    by identity ([io.EOF], [relaycfg.ErrRefused], ...), [Msg] an error made from
    text, [Errorf f args] what [fmt.Errorf(f, args...)] returns (its text is
    left unrendered), [Wrap ctx e] what [fmt.Errorf] with a [%w] verb returns,
    [Wrap2] with two. *)
Inductive error :=
  | Msg (text : string)
  | Errorf (format : string) (args : list string)
  | Sentinel (name : string)
  | Wrap (ctx : string) (cause : error)
  | Wrap2 (ctx : string) (first second : error).

#[export] Instance error_eq_dec : EqDecision error.
Proof. solve_decision. Defined.

Definition EOF : error := Sentinel "EOF".

(** [errors.Is(err, target)]: the wrapping chain holds [target]. *)
Fixpoint errors_Is (err target : error) : bool :=
  bool_decide (err = target) ||
  match err with
  | Wrap _ e => errors_Is e target
  | Wrap2 _ e1 e2 => errors_Is e1 target || errors_Is e2 target
  | _ => false
  end.

Lemma errors_Is_refl e : errors_Is e e = true.
Proof. destruct e; cbn [errors_Is]; by rewrite bool_decide_eq_true_2. Qed.
Lemma errors_Is_Wrap ctx e t : errors_Is e t = true -> errors_Is (Wrap ctx e) t = true.
Proof. intros H. cbn [errors_Is]. rewrite H. apply orb_true_r. Qed.
Lemma errors_Is_first ctx e1 e2 t : errors_Is e1 t = true -> errors_Is (Wrap2 ctx e1 e2) t = true.
Proof. intros H. cbn [errors_Is]. rewrite H. apply orb_true_r. Qed.

Inductive result (A : Type) : Type :=
  | Ok (a : A)
  | Err (e : error).
Arguments Ok {A} a.
Arguments Err {A} e.

Definition result_bind {A B} (r : result A) (k : A -> result B) : result B :=
  match r with Ok a => k a | Err e => Err e end.

(** [if err != nil { return fmt.Errorf("ctx: %w", err) }] *)
Definition wrap_err {A} (ctx : string) (r : result A) : result A :=
  match r with Ok a => Ok a | Err e => Err (Wrap ctx e) end.

(** [if cond { return err }] *)
Definition fail_if (cond : bool) (e : error) : result unit :=
  if cond then Err e else Ok tt.

Notation "'let?' p := c 'in' k" := (result_bind c (fun p => k))
  (at level 10, p pattern, c at level 100, k at level 200) : go_scope.
Notation "c ;;? k" := (result_bind c (fun _ => k))
  (at level 60, right associativity) : go_scope.

Definition is_ok {A} (r : result A) : bool :=
  match r with Ok _ => true | Err _ => false end.

Lemma result_bind_Ok {A B} (r : result A) (k : A -> result B) b :
  result_bind r k = Ok b <-> exists a, r = Ok a /\ k a = Ok b.
Proof. destruct r; split; [eauto | intros (? & [= ->] & ?); done | done | by intros (? & ? & ?)]. Qed.

Lemma Ok_inj {A} (a b : A) : Ok a = Ok b -> a = b.
Proof. congruence. Qed.

Lemma fail_if_Ok b e u : fail_if b e = Ok u <-> b = false.
Proof. destruct b, u; naive_solver. Qed.

Lemma wrap_err_Ok {A} ctx (r : result A) a : wrap_err ctx r = Ok a <-> r = Ok a.
Proof. destruct r; naive_solver. Qed.

(** Inverts a chain of binds that returned [Ok]. *)
Ltac ok_inv :=
  repeat match goal with
  | H : result_bind _ _ = Ok _ |- _ =>
      let H1 := fresh in apply result_bind_Ok in H; destruct H as (? & H1 & H)
  | H : fail_if _ _ = Ok _ |- _ => apply fail_if_Ok in H
  | H : wrap_err _ _ = Ok _ |- _ => apply wrap_err_Ok in H
  | H : Ok _ = Ok _ |- _ => injection H as H; subst
  | H : Err _ = Ok _ |- _ => discriminate H
  | H : Ok _ = Err _ |- _ => discriminate H
  end.

(** Case analysis on every [if] and [match] of the goal or a hypothesis. *)
Ltac go_cases :=
  repeat (case_match; simplify_eq/=).

(** Turns the boolean comparisons of the code into propositions. *)
Ltac bool_to_prop :=
  repeat match goal with
  | H : (_ <? _)%Z = true |- _ => apply Z.ltb_lt in H
  | H : (_ <? _)%Z = false |- _ => apply Z.ltb_ge in H
  | H : (_ <=? _)%Z = true |- _ => apply Z.leb_le in H
  | H : (_ <=? _)%Z = false |- _ => apply Z.leb_gt in H
  | H : (_ >? _)%Z = _ |- _ => rewrite Z.gtb_ltb in H
  | H : (_ >=? _)%Z = _ |- _ => rewrite Z.geb_leb in H
  | H : (_ =? _)%Z = true |- _ => apply Z.eqb_eq in H
  | H : (_ =? _)%Z = false |- _ => apply Z.eqb_neq in H
  | H : bool_decide _ = true |- _ => apply bool_decide_eq_true in H
  | H : bool_decide _ = false |- _ => apply bool_decide_eq_false in H
  | H : negb _ = true |- _ => apply negb_true_iff in H
  | H : negb _ = false |- _ => apply negb_false_iff in H
  | H : (_ && _)%bool = true |- _ => apply andb_true_iff in H; destruct H as [? H]
  | H : (_ || _)%bool = false |- _ => apply orb_false_iff in H; destruct H as [? H]
  end.

(** ** Bytes *)

Abbreviation byte := Byte.byte.
Abbreviation bytes := (list Byte.byte).

#[export] Instance byte_eq_dec : EqDecision byte := Byte.byte_eq_dec.

#[export] Instance byte_countable : Countable byte.
Proof.
  refine (inj_countable Byte.to_N Byte.of_N _).
  intros b. apply Byte.of_to_N.
Defined.

Definition byte_val (b : byte) : Z := Z.of_N (Byte.to_N b).

(** [byte(z)]: conversion truncates to 8 bits. *)
Definition byte_of_Z (z : Z) : byte :=
  match Byte.of_N (Z.to_N (z mod 256)) with Some b => b | None => Byte.x00 end.

Lemma byte_val_range b : (0 <= byte_val b < 256)%Z.
Proof. unfold byte_val. pose proof (Byte.to_N_bounded b). lia. Qed.

Lemma byte_val_of_Z z : byte_val (byte_of_Z z) = (z mod 256)%Z.
Proof.
  unfold byte_val, byte_of_Z.
  pose proof (Z.mod_pos_bound z 256 ltac:(lia)) as Hb.
  destruct (Byte.of_N _) as [b|] eqn:E.
  - apply Byte.to_of_N in E. rewrite E. lia.
  - apply Byte.of_N_None_iff in E. lia.
Qed.

Lemma byte_of_Z_val b : byte_of_Z (byte_val b) = b.
Proof.
  unfold byte_of_Z, byte_val.
  pose proof (byte_val_range b) as Hb. unfold byte_val in Hb.
  rewrite Z.mod_small, N2Z.id, Byte.of_to_N by lia. done.
Qed.

Lemma byte_val_inj a b : byte_val a = byte_val b -> a = b.
Proof. intros H. by rewrite <- (byte_of_Z_val a), <- (byte_of_Z_val b), H. Qed.

(** The length of a Go slice or string, as a Go [int]. *)
Definition len {A} (l : list A) : Z := Z.of_nat (length l).

Lemma mjoin_cons {A} (l : list A) ls : mjoin (l :: ls) = l ++ mjoin ls.
Proof. done. Qed.

(** [s[i:j]] for indices the caller has checked; Go panics outside. *)
Definition slice {A} (l : list A) (i j : Z) : list A :=
  take (Z.to_nat (j - i)) (drop (Z.to_nat i) l).

Lemma len_nonneg {A} (l : list A) : (0 <= len l)%Z.
Proof. unfold len; lia. Qed.
Lemma len_app {A} (l k : list A) : len (l ++ k) = (len l + len k)%Z.
Proof. unfold len. rewrite length_app. lia. Qed.
Lemma len_cons {A} (a : A) l : len (a :: l) = (1 + len l)%Z.
Proof. unfold len. cbn [length]. lia. Qed.
Lemma len_nil {A} : @len A [] = 0%Z.
Proof. done. Qed.

#[export] Hint Rewrite @len_app @len_cons @len_nil : golen.
#[export] Hint Resolve len_nonneg byte_val_range : go.

Lemma slice_app_r {A} (l k m : list A) i j :
  i = len l -> (j = len l + len k)%Z -> slice (l ++ k ++ m) i j = k.
Proof.
  intros -> ->. unfold slice, len.
  rewrite Nat2Z.id, drop_app_length.
  replace (Z.to_nat _) with (length k) by lia.
  by rewrite take_app_length.
Qed.

Lemma len_slice {A} (l : list A) i j :
  (0 <= i <= j)%Z -> (j <= len l)%Z -> len (slice l i j) = (j - i)%Z.
Proof.
  intros ? ?. unfold slice, len in *. rewrite length_take, length_drop. lia.
Qed.

Lemma slice_split {A} (l : list A) i j k :
  (0 <= i <= j)%Z -> (j <= k)%Z -> slice l i k = slice l i j ++ slice l j k.
Proof.
  intros ? ?. unfold slice.
  replace (Z.to_nat (k - i)) with (Z.to_nat (j - i) + Z.to_nat (k - j)) by lia.
  rewrite <- take_take_drop, drop_drop. do 3 f_equal. lia.
Qed.

Lemma slice_nil {A} (l : list A) i : slice l i i = [].
Proof. unfold slice. by rewrite Z.sub_diag. Qed.
Lemma slice_eq {A} (l : list A) i j i' j' :
  i = i' -> j = j' -> slice l i j = slice l i' j'.
Proof. by intros -> ->. Qed.
Lemma slice_full {A} (l : list A) : slice l 0 (len l) = l.
Proof. unfold slice, len. rewrite drop_0. apply take_ge. lia. Qed.
Lemma slice_0 {A} (l : list A) j : slice l 0 j = take (Z.to_nat j) l.
Proof. unfold slice. rewrite drop_0. by rewrite Z.sub_0_r. Qed.

(** ** Big-endian integers ([encoding/binary])

    [be_encode n z] is the [n]-byte big-endian form of [z], as
    [binary.BigEndian.AppendUint16/32/64] and [PutUint*] write it; the value is
    truncated to [8 * n] bits by the conversion the callers make. *)
Fixpoint be_encode (n : nat) (z : Z) : bytes :=
  match n with
  | O => []
  | S n' => be_encode n' (z / 256) ++ [byte_of_Z z]
  end.

(** [binary.BigEndian.Uint16/32/64] of the whole list. *)
Definition be_decode (l : bytes) : Z :=
  foldl (fun acc b => (acc * 256 + byte_val b)%Z) 0%Z l.

Lemma length_be_encode n z : length (be_encode n z) = n.
Proof. revert z. induction n; intros; simpl; [done|]. rewrite length_app, IHn. simpl. lia. Qed.

Lemma len_be_encode n z : len (be_encode n z) = Z.of_nat n.
Proof. unfold len. by rewrite length_be_encode. Qed.

Lemma be_decode_snoc l b : be_decode (l ++ [b]) = (be_decode l * 256 + byte_val b)%Z.
Proof. unfold be_decode. by rewrite foldl_app. Qed.

Lemma be_decode_encode n z : be_decode (be_encode n z) = (z mod 2 ^ (8 * Z.of_nat n))%Z.
Proof.
  revert z. induction n as [|n IH]; intros z; simpl be_encode.
  - by rewrite Z.mod_1_r.
  - rewrite be_decode_snoc, IH, byte_val_of_Z.
    replace (8 * Z.of_nat (S n))%Z with (8 + 8 * Z.of_nat n)%Z by lia.
    rewrite Z.pow_add_r by lia. change (2 ^ 8)%Z with 256%Z.
    rewrite Z.rem_mul_r by lia. lia.
Qed.

Lemma be_decode_range l : (0 <= be_decode l < 2 ^ (8 * len l))%Z.
Proof.
  induction l as [|b l IH] using rev_ind; [done|].
  rewrite be_decode_snoc. autorewrite with golen.
  pose proof (byte_val_range b). replace (8 * (len l + (1 + 0)))%Z with (8 * len l + 8)%Z by lia.
  rewrite Z.pow_add_r by (pose proof (len_nonneg l); lia).
  change (2 ^ 8)%Z with 256%Z. lia.
Qed.

Lemma be_encode_decode l : be_encode (length l) (be_decode l) = l.
Proof.
  induction l as [|b l IH] using rev_ind; [done|].
  rewrite length_app. replace (length l + length [b]) with (S (length l)) by (simpl; lia).
  rewrite be_decode_snoc. simpl be_encode. pose proof (byte_val_range b).
  rewrite Z.div_add_l, (Z.div_small (byte_val b)), Z.add_0_r, IH by lia. f_equal. f_equal.
  apply byte_val_inj. rewrite byte_val_of_Z, Z.add_comm, Z.mod_add, Z.mod_small; lia.
Qed.

(** ** Little-endian integers ([binary.LittleEndian], and [NativeEndian] on the
    amd64 and arm64 targets) *)
Definition le_encode (n : nat) (z : Z) : bytes := rev (be_encode n z).
Definition le_decode (l : bytes) : Z := be_decode (rev l).

Lemma len_le_encode n z : len (le_encode n z) = Z.of_nat n.
Proof. unfold len, le_encode. by rewrite length_rev, length_be_encode. Qed.

Lemma le_decode_encode n z : le_decode (le_encode n z) = (z mod 2 ^ (8 * Z.of_nat n))%Z.
Proof. unfold le_decode, le_encode. by rewrite rev_involutive, be_decode_encode. Qed.

Lemma le_decode_small n z : (0 <= z < 2 ^ (8 * Z.of_nat n))%Z -> le_decode (le_encode n z) = z.
Proof. intros ?. by rewrite le_decode_encode, Z.mod_small. Qed.

Lemma le_decode_range l : (0 <= le_decode l < 2 ^ (8 * len l))%Z.
Proof. unfold le_decode. pose proof (be_decode_range (rev l)) as H. unfold len in *. by rewrite length_rev in H. Qed.

#[export] Hint Rewrite len_le_encode : golen.
#[global] Arguments le_encode : simpl never.
#[global] Arguments le_decode : simpl never.

(** ** Machine integers *)

(** [uint64(x)], [uint32(x)], [uint16(x)]. *)
Definition wrap_u (w : Z) (z : Z) : Z := (z mod 2 ^ w)%Z.

(** [int64(u)] of an unsigned 64-bit value, and the wrap-around of int64
    arithmetic. *)
Definition to_int64 (z : Z) : Z := ((z + 2 ^ 63) mod 2 ^ 64 - 2 ^ 63)%Z.

Definition int64_ok (z : Z) : Prop := (- 2 ^ 63 <= z < 2 ^ 63)%Z.

Lemma to_int64_id z : int64_ok z -> to_int64 z = z.
Proof. unfold int64_ok, to_int64. intros. rewrite Z.mod_small; lia. Qed.

Lemma to_int64_range z : int64_ok (to_int64 z).
Proof. unfold int64_ok, to_int64. pose proof (Z.mod_pos_bound (z + 2 ^ 63) (2 ^ 64)). lia. Qed.

Lemma to_int64_mod z : to_int64 (z mod 2 ^ 64) = to_int64 z.
Proof.
  unfold to_int64. generalize (2 ^ 64)%Z as m, (2 ^ 63)%Z as h. intros m h.
  by rewrite Zplus_mod_idemp_l.
Qed.

Lemma to_int64_mod_eq z : (to_int64 z mod 2 ^ 64 = z mod 2 ^ 64)%Z.
Proof.
  unfold to_int64. generalize (2 ^ 64)%Z as m, (2 ^ 63)%Z as h. intros m h.
  rewrite Zminus_mod_idemp_l. by rewrite Z.add_simpl_r.
Qed.

Lemma to_int64_add a b : to_int64 (to_int64 a + b) = to_int64 (a + b).
Proof.
  rewrite <- to_int64_mod, <- (to_int64_mod (a + b)). f_equal.
  rewrite <- Zplus_mod_idemp_l, to_int64_mod_eq. apply Zplus_mod_idemp_l.
Qed.

Lemma be_encode_int64_decode l :
  len l = 8%Z -> be_encode 8 (wrap_u 64 (to_int64 (be_decode l))) = l.
Proof.
  intros Hl. unfold wrap_u. rewrite to_int64_mod_eq.
  pose proof (be_decode_range l) as Hr. rewrite Hl in Hr.
  rewrite Z.mod_small by done. rewrite <- (be_encode_decode l) at 2.
  f_equal. unfold len in Hl. lia.
Qed.

Lemma be_encode_decode_len n l :
  len l = Z.of_nat n -> be_encode n (be_decode l) = l.
Proof. unfold len. intros. rewrite <- (be_encode_decode l) at 2. f_equal. lia. Qed.

(** An unsigned field of [n] bytes read at [i]. *)
Lemma be_field (l : bytes) i j n z :
  z = be_decode (slice l i j) -> j = (i + Z.of_nat n)%Z -> (0 <= i)%Z -> (j <= len l)%Z ->
  (0 <= z < 2 ^ (8 * Z.of_nat n))%Z /\ be_encode n z = slice l i j.
Proof.
  intros -> -> ? ?. assert (Hl : len (slice l i (i + Z.of_nat n)) = Z.of_nat n).
  { rewrite len_slice; lia. }
  split; [|by apply be_encode_decode_len].
  pose proof (be_decode_range (slice l i (i + Z.of_nat n))) as Hr. by rewrite Hl in Hr.
Qed.

#[export] Hint Rewrite len_be_encode : golen.
#[global] Arguments be_encode : simpl never.
#[global] Arguments be_decode : simpl never.
#[global] Arguments slice : simpl never.
#[global] Arguments len : simpl never.
#[global] Arguments to_int64 : simpl never.
#[global] Arguments wrap_u : simpl never.
#[export] Hint Resolve be_decode_range to_int64_range to_int64_id : go.

(** Normalises lengths in the goal and closes linear arithmetic. *)
Ltac len_lia :=
  autorewrite with golen in *;
  repeat match goal with
  | |- context [@len ?A ?l] => lazymatch goal with
      | _ : (0 <= len l)%Z |- _ => fail | _ => pose proof (@len_nonneg A l) end
  | _ : context [@len ?A ?l] |- _ => lazymatch goal with
      | _ : (0 <= len l)%Z |- _ => fail | _ => pose proof (@len_nonneg A l) end
  end; lia.

(** ** Slices of a concatenation *)

Lemma slice_skip {A} (l k : list A) i j :
  (len l <= i)%Z -> slice (l ++ k) i j = slice k (i - len l) (j - len l).
Proof.
  unfold slice, len. intros H. rewrite drop_app, (drop_ge l), app_nil_l by lia.
  f_equal; [lia|]. f_equal; lia.
Qed.

Lemma slice_cons_skip {A} (a : A) (k : list A) i j :
  (1 <= i)%Z -> slice (a :: k) i j = slice k (i - 1) (j - 1).
Proof. intros. by apply (slice_skip [a] k i j). Qed.

Lemma slice_take {A} (l k : list A) i j :
  i = 0%Z -> j = len l -> slice (l ++ k) i j = l.
Proof. intros -> ->. rewrite slice_0. unfold len. by rewrite Nat2Z.id, take_app_length. Qed.

Lemma slice_prefix {A} (l k : list A) i j :
  (j <= len l)%Z -> (0 <= i)%Z -> slice (l ++ k) i j = slice l i j.
Proof.
  unfold slice, len. intros ? ?.
  destruct (decide (j <= i)%Z) as [|Hij].
  { replace (Z.to_nat (j - i)) with 0 by lia. by rewrite !take_0. }
  rewrite drop_app_le by lia. by rewrite take_app_le by (rewrite length_drop; lia).
Qed.

Lemma slice_drop {A} (l : list A) k i j :
  (0 <= k)%Z -> (0 <= i)%Z ->
  slice (drop (Z.to_nat k) l) i j = slice l (k + i) (k + j).
Proof.
  unfold slice. intros. rewrite drop_drop.
  replace (Z.to_nat k + Z.to_nat i) with (Z.to_nat (k + i)) by lia.
  f_equal; lia.
Qed.

Lemma len_drop {A} (l : list A) k : (0 <= k <= len l)%Z -> len (drop (Z.to_nat k) l) = (len l - k)%Z.
Proof. unfold len. intros. rewrite length_drop. lia. Qed.

(** Computes a slice of an explicit concatenation whose lengths are known. *)
Ltac slice_app :=
  repeat first
    [ rewrite slice_take by len_lia
    | rewrite slice_skip by len_lia
    | rewrite slice_cons_skip by len_lia ].

(** [bytes.IndexByte(l, c)]: [None] for Go's [-1]. *)
Fixpoint index_byte (l : bytes) (c : byte) : option Z :=
  match l with
  | [] => None
  | b :: l' => if decide (b = c) then Some 0%Z else (fun n => (n + 1)%Z) <$> index_byte l' c
  end.

Lemma index_byte_Some l c n :
  index_byte l c = Some n <->
  exists l1 l2, l = l1 ++ c :: l2 /\ len l1 = n /\ c ∉ l1.
Proof.
  revert n. induction l as [|b l IH]; intros n; cbn [index_byte].
  - split; [done|]. by intros (l1 & l2 & H & _); destruct l1.
  - destruct (decide (b = c)) as [->|Hne].
    + split.
      * intros [= <-]. exists [], l. split_and!; [done..|set_solver].
      * intros ([|b l1] & l2 & [= ] & Hn & Hc); [by subst|set_solver].
    + rewrite fmap_Some. setoid_rewrite IH. split.
      * intros (m & (l1 & l2 & -> & <- & ?) & ->). exists (b :: l1), l2.
        split_and!; [done| autorewrite with golen; lia | set_solver].
      * intros ([|b' l1] & l2 & [= -> ->] & Hn & Hc); [done|].
        exists (len l1). split; [|autorewrite with golen in Hn; lia].
        exists l1, l2. split_and!; [done..|set_solver].
Qed.

(** Go strings are byte sequences; conversions to and from [[]byte]. *)
Definition bytes_of (s : string) : bytes := list_byte_of_string s.
Definition string_of (b : bytes) : string := string_of_list_byte b.

Lemma string_of_bytes_of s : string_of (bytes_of s) = s.
Proof. apply string_of_list_byte_of_string. Qed.
Lemma bytes_of_string_of b : bytes_of (string_of b) = b.
Proof. apply list_byte_of_string_of_list_byte. Qed.
#[export] Hint Rewrite string_of_bytes_of bytes_of_string_of : golen.
#[global] Arguments bytes_of : simpl never.
#[global] Arguments string_of : simpl never.
#[global] Arguments index_byte : simpl never.

(** [strconv.Itoa], [fmt.Sprint] of an integer. *)
Definition Itoa (z : Z) : string := pretty z.

Lemma Itoa_inj a b : Itoa a = Itoa b -> a = b.
Proof. apply (inj pretty). Qed.

Lemma nth_skip {A} (l k : list A) i d :
  (len l <= i)%Z -> nth (Z.to_nat i) (l ++ k) d = nth (Z.to_nat (i - len l)) k d.
Proof. unfold len. intros. rewrite app_nth2 by lia. f_equal. lia. Qed.
Lemma nth_cons_skip {A} (a : A) (k : list A) i d :
  (1 <= i)%Z -> nth (Z.to_nat i) (a :: k) d = nth (Z.to_nat (i - 1)) k d.
Proof. intros. by apply (nth_skip [a] k). Qed.
Lemma nth_0 {A} (a : A) k i d : i = 0%Z -> nth (Z.to_nat i) (a :: k) d = a.
Proof. by intros ->. Qed.

Lemma slice_one {A} (l : list A) i j d :
  (0 <= i < len l)%Z -> j = (i + 1)%Z -> slice l i j = [nth (Z.to_nat i) l d].
Proof.
  unfold slice, len. intros ? ->. replace (Z.to_nat (i + 1 - i)) with 1 by lia.
  destruct (drop (Z.to_nat i) l) as [|a k] eqn:E.
  - apply (f_equal length) in E. rewrite length_drop in E. simpl in E. lia.
  - simpl. rewrite take_0. f_equal.
    rewrite <- (take_drop (Z.to_nat i) l), E.
    rewrite app_nth2; rewrite length_take_le by lia; [|lia]. by rewrite Nat.sub_diag.
Qed.

(** Linear arithmetic with division and remainder by constants. *)
Ltac div_lia := Z.to_euclidean_division_equations; lia.

(** Resolves the bounds checks of a parser whose outcome arithmetic decides. *)
Ltac check_false :=
  match goal with
  | |- context [if (?a >? ?b)%Z then _ else _] =>
      replace (a >? b)%Z with false by (symmetry; rewrite Z.gtb_ltb; apply Z.ltb_ge; len_lia)
  | |- context [if (?a >=? ?b)%Z then _ else _] =>
      replace (a >=? b)%Z with false by (symmetry; rewrite Z.geb_leb; apply Z.leb_gt; len_lia)
  | |- context [if (?a <? ?b)%Z then _ else _] =>
      replace (a <? b)%Z with false by (symmetry; apply Z.ltb_ge; len_lia)
  end.
Ltac parse_app :=
  repeat first
    [ progress slice_app
    | progress rewrite <- ?app_comm_cons, <- ?app_assoc
    | rewrite nth_0 by len_lia
    | rewrite nth_skip by len_lia
    | rewrite nth_cons_skip by len_lia
    | check_false ].
