(* ===== verification/Crypto.v ===== *)
(** * Interfaces to the primitives the program calls

    The hash functions, Ed25519 and the CBOR codec are libraries the code under
    src/ calls, so they are classes here: an operations class the definitions
    take as an argument, and a laws class stating what their documentation
    promises.  [Toy] instantiates both with small executable functions, so that
    every statement that assumes the laws can be evaluated. *)
From S2P Require Import Prelude.

#[local] Open Scope Z_scope.

(** ** Hash functions

    [hash.Hash] objects are accumulating: [h.Write(a); h.Write(b)] hashes
    [a ++ b], and [h.Sum(block)] appends the digest of what was written. *)
Class HashOps := {
  blake2b_256 : bytes -> bytes;
  sha256 : bytes -> bytes;
  sha1 : bytes -> bytes;
  md5 : bytes -> bytes;
  sha512 : bytes -> bytes }.

Class HashLaws `{HashOps} := {
  len_blake2b_256 b : len (blake2b_256 b) = 32;
  len_sha256 b : len (sha256 b) = 32;
  len_sha1 b : len (sha1 b) = 20;
  len_md5 b : len (md5 b) = 16;
  len_sha512 b : len (sha512 b) = 64 }.

#[export] Hint Rewrite @len_blake2b_256 @len_sha256 @len_sha1 @len_md5 @len_sha512
  using typeclasses eauto : golen.

(** ** Ed25519

    [ed_keypair seed] is [ed25519.GenerateKey] on the random [seed]: the public
    and the private key. *)
Class Ed25519Ops := {
  ed_keypair : bytes -> bytes * bytes;
  ed_sign : bytes -> bytes -> bytes;
  ed_verify : bytes -> bytes -> bytes -> bool }.

Definition PublicKeySize : Z := 32.
Definition SignatureSize : Z := 64.

Class Ed25519Laws `{Ed25519Ops} := {
  ed_public_len seed : len (ed_keypair seed).1 = PublicKeySize;
  ed_sign_len key m : len (ed_sign key m) = SignatureSize;
  ed_verify_sign seed m :
    ed_verify (ed_keypair seed).1 m (ed_sign (ed_keypair seed).2 m) = true }.

(** ** CBOR values

    [any] is a decoded CBOR data item: the dynamic value [cbor.Unmarshal] puts
    in an [any], and what [cbor.Marshal] is given. *)
Inductive any :=
  | ANull
  | ABool (b : bool)
  | AInt (z : Z)
  | ABytes (b : bytes)
  | AText (s : string)
  | AArray (l : list any)
  | AMap (m : list (any * any))
  | AStrMap (m : list (string * any)).

(** The header metadata the ledger carries (ledger/ledger.go, HeaderMeta). *)
Record HeaderMeta := {
  Hashes : list string;
  Schemas : list string;
  Environment : option (list (string * any)) }.

(** [cbor.Marshal] of a [map[string]any] and of a [HeaderMeta] (it fails on
    values CBOR cannot represent), and the matching [cbor.Unmarshal]s. *)
Class CborOps := {
  cbor_marshal_map : list (string * any) -> result bytes;
  cbor_unmarshal_map : bytes -> result (list (string * any));
  cbor_marshal_header : HeaderMeta -> result bytes;
  cbor_unmarshal_header : bytes -> result HeaderMeta }.

(** ** Executable instances *)
Module Toy.

(** A polynomial hash with an [n]-byte digest. *)
Definition digest (n : nat) (m : bytes) : bytes :=
  be_encode n (foldl (fun acc b => (acc * 263 + byte_val b + 1) mod 2 ^ (8 * Z.of_nat n))
                     (Z.of_nat n) m).

#[export] Instance hashes : HashOps :=
  {| blake2b_256 := digest 32; sha256 := digest 32; sha1 := digest 20;
     md5 := digest 16; sha512 := digest 64 |}.

#[export] Instance hash_laws : HashLaws.
Proof. split; intros; cbn; by autorewrite with golen. Qed.

Definition keypair (seed : bytes) : bytes * bytes :=
  (digest 32 seed, digest 32 seed ++ digest 32 seed).
Definition sign (key m : bytes) : bytes := digest 64 (take 32 key ++ m).
Definition verify (pub m sig : bytes) : bool := bool_decide (sig = digest 64 (pub ++ m)).

#[export] Instance ed : Ed25519Ops :=
  {| ed_keypair := keypair; ed_sign := sign; ed_verify := verify |}.

#[export] Instance ed_laws : Ed25519Laws.
Proof.
  split; intros.
  - apply len_be_encode.
  - apply len_be_encode.
  - cbn [ed_verify ed_sign ed_keypair ed keypair fst snd]. unfold verify, sign.
    apply bool_decide_eq_true. by rewrite take_app_length' by (symmetry; apply length_be_encode).
Qed.

(** A codec for headers whose environment label is [{"type": text}], with
    zero-terminated strings. *)
Definition cstring (s : string) : bytes := bytes_of s ++ [Byte.x00].

Definition marshal_map (m : list (string * any)) : bytes :=
  mjoin ((fun kv : string * any => cstring kv.1 ++ match kv.2 with AText t => cstring t | _ => [] end) <$> m).

Definition marshal_header (m : HeaderMeta) : bytes :=
  [byte_of_Z (len (Hashes m)); byte_of_Z (len (Schemas m))] ++
  match Environment m with
  | Some [(_, AText t)] => Byte.x01 :: cstring t
  | _ => [Byte.x00]
  end ++
  mjoin (cstring <$> Hashes m) ++ mjoin (cstring <$> Schemas m).

Fixpoint strings (fuel : nat) (n : Z) (b : bytes) : list string * bytes :=
  match fuel with
  | O => ([], b)
  | S fuel' =>
      if n <=? 0 then ([], b) else
      match index_byte b Byte.x00 with
      | None => ([], b)
      | Some i =>
          let '(ss, r) := strings fuel' (n - 1) (drop (Z.to_nat (i + 1)) b) in
          (string_of (take (Z.to_nat i) b) :: ss, r)
      end
  end.

Definition unmarshal_header (b : bytes) : result HeaderMeta :=
  match b with
  | nh :: ns :: tag :: rest =>
      let '(env, rest) :=
        if decide (tag = Byte.x01)
        then let '(t, r) := strings (length b) 1 rest in
             ((fun t => [("type"%string, AText t)]) <$> head t, r)
        else (None, rest) in
      let '(hs, rest) := strings (length b) (byte_val nh) rest in
      let '(ss, _) := strings (length b) (byte_val ns) rest in
      Ok {| Hashes := hs; Schemas := ss; Environment := env |}
  | _ => Err (Msg "cbor")
  end.

#[export] Instance cbor : CborOps :=
  {| cbor_marshal_map := fun m => Ok (marshal_map m);
     cbor_unmarshal_map := fun _ => Ok [];
     cbor_marshal_header := fun m => Ok (marshal_header m);
     cbor_unmarshal_header := unmarshal_header |}.

Example header_codec_example :
  let m := {| Hashes := ["sha256"; "md5"]%string; Schemas := ["a"; "bc"]%string;
              Environment := Some [("type"%string, AText "oci-image/v1")] |} in
  (let? b := cbor_marshal_header m in cbor_unmarshal_header b)%go = Ok m.
Proof. vm_compute. reflexivity. Qed.
End Toy.
