(* ===== verification/Text.v ===== *)
(** * Go string functions

    The functions of [strings], [strconv] and [net/url] the program uses, on
    byte strings, with the lemmas the components share. *)
From stdpp Require Import pretty.
From S2P Require Import Prelude.

#[local] Open Scope string_scope.

#[global] Arguments String.append : simpl nomatch.

(** ** Characters *)

Definition code (c : ascii) : Z := Z.of_nat (nat_of_ascii c).

Definition is_digit (c : ascii) : bool := (48 <=? code c)%Z && (code c <=? 57)%Z.
Definition is_lower (c : ascii) : bool := (97 <=? code c)%Z && (code c <=? 122)%Z.
Definition is_upper (c : ascii) : bool := (65 <=? code c)%Z && (code c <=? 90)%Z.
Definition is_alnum (c : ascii) : bool := is_lower c || is_upper c || is_digit c.

(** [unicode.IsSpace] on ASCII. *)
Definition is_space (c : ascii) : bool :=
  bool_decide (code c = 32)%Z || ((9 <=? code c)%Z && (code c <=? 13)%Z).

Lemma code_range c : (0 <= code c < 256)%Z.
Proof. unfold code. pose proof (nat_ascii_bounded c). lia. Qed.

Lemma code_inj c d : code c = code d -> c = d.
Proof.
  unfold code. intros H. rewrite <- (ascii_nat_embedding c), <- (ascii_nat_embedding d).
  f_equal. lia.
Qed.

(** ** Strings *)

Definition slen (s : string) : Z := Z.of_nat (String.length s).

Lemma slen_nonneg s : (0 <= slen s)%Z.
Proof. unfold slen. lia. Qed.
#[export] Hint Resolve slen_nonneg code_range : go.

Lemma str_length_app s t : String.length (s ++ t) = (String.length s + String.length t)%nat.
Proof. induction s; cbn; [done|]. by rewrite IHs. Qed.

Lemma slen_app s t : slen (s ++ t) = (slen s + slen t)%Z.
Proof. unfold slen. rewrite str_length_app. lia. Qed.

Lemma slen_cons c s : slen (String c s) = (1 + slen s)%Z.
Proof. unfold slen. cbn [String.length]. lia. Qed.

Lemma slen_zero s : slen s = 0%Z <-> s = "".
Proof. destruct s; [done|]. rewrite slen_cons. pose proof (slen_nonneg s). split; [lia|done]. Qed.

Lemma str_app_nil_r (s : string) : s ++ "" = s.
Proof. induction s; cbn; [done|]. by rewrite IHs. Qed.

Lemma str_app_assoc (s t u : string) : (s ++ t) ++ u = s ++ t ++ u.
Proof. induction s; cbn; [done|]. by rewrite IHs. Qed.

Lemma str_app_inj_l (s t u : string) : s ++ t = s ++ u -> t = u.
Proof. induction s; cbn; [done|]. intros [= H]. auto. Qed.

Fixpoint str_forallb (f : ascii -> bool) (s : string) : bool :=
  match s with "" => true | String c s' => f c && str_forallb f s' end.

Lemma str_forallb_app f s t : str_forallb f (s ++ t) = str_forallb f s && str_forallb f t.
Proof. induction s; cbn; [done|]. by rewrite IHs, andb_assoc. Qed.

Lemma str_forallb_impl (f g : ascii -> bool) s :
  (forall c, f c = true -> g c = true) -> str_forallb f s = true -> str_forallb g s = true.
Proof.
  intros Hfg. induction s; cbn; [done|]. rewrite !andb_true_iff. intros [? ?]. auto.
Qed.

(** [strings.Map] with a byte function. *)
Fixpoint str_map (f : ascii -> ascii) (s : string) : string :=
  match s with "" => "" | String c s' => String (f c) (str_map f s') end.

Lemma slen_map f s : slen (str_map f s) = slen s.
Proof. induction s; [done|]. cbn [str_map]. rewrite !slen_cons. lia. Qed.

Definition last_char (s : string) : option ascii :=
  match String.length s with O => None | S n => String.get n s end.

(** [strings.HasPrefix], [strings.TrimPrefix], [strings.CutPrefix]. *)
Fixpoint CutPrefix (s p : string) {struct p} : option string :=
  match p, s with
  | "", _ => Some s
  | String a p', String b s' => if decide (a = b) then CutPrefix s' p' else None
  | String _ _, "" => None
  end.

Definition HasPrefix (s p : string) : bool := bool_decide (is_Some (CutPrefix s p)).
Definition TrimPrefix (s p : string) : string := default s (CutPrefix s p).

Lemma CutPrefix_Some s p r : CutPrefix s p = Some r <-> s = p ++ r.
Proof.
  revert s. induction p as [|a p IH]; intros s; cbn; [split; congruence|].
  destruct s as [|b s]; [done|]. case_decide as H; [subst; rewrite IH|]; split; congruence.
Qed.

Lemma TrimPrefix_app p r : TrimPrefix (p ++ r) p = r.
Proof. unfold TrimPrefix. by rewrite (proj2 (CutPrefix_Some _ _ _) eq_refl). Qed.

Fixpoint str_rev_onto (s acc : string) : string :=
  match s with "" => acc | String c s' => str_rev_onto s' (String c acc) end.
Definition str_rev (s : string) : string := str_rev_onto s "".

(** [strings.HasSuffix], [strings.TrimSuffix]. *)
Definition CutSuffix (s p : string) : option string :=
  str_rev <$> CutPrefix (str_rev s) (str_rev p).
Definition HasSuffix (s p : string) : bool := bool_decide (is_Some (CutSuffix s p)).
Definition TrimSuffix (s p : string) : string := default s (CutSuffix s p).

Lemma str_rev_onto_app s t acc : str_rev_onto (s ++ t) acc = str_rev_onto t (str_rev_onto s acc).
Proof. revert acc. induction s; intros; cbn; auto. Qed.

Lemma str_rev_onto_spec s acc : str_rev_onto s acc = str_rev s ++ acc.
Proof.
  revert acc. induction s as [|c s IH]; intros acc; [done|].
  unfold str_rev. cbn. rewrite IH, (IH (String c "")), str_app_assoc. done.
Qed.

Lemma str_rev_app s t : str_rev (s ++ t) = str_rev t ++ str_rev s.
Proof. unfold str_rev at 1. rewrite str_rev_onto_app, str_rev_onto_spec. done. Qed.

Lemma str_rev_cons c s : str_rev (String c s) = str_rev s ++ String c "".
Proof. apply (str_rev_app (String c "") s). Qed.

Lemma str_rev_involutive s : str_rev (str_rev s) = s.
Proof. induction s as [|c s IH]; [done|]. rewrite str_rev_cons, str_rev_app, IH. done. Qed.

Lemma CutSuffix_Some s p r : CutSuffix s p = Some r <-> s = r ++ p.
Proof.
  unfold CutSuffix. rewrite fmap_Some. setoid_rewrite CutPrefix_Some. split.
  - intros (x & Hs & ->). rewrite <- (str_rev_involutive s), Hs, str_rev_app, str_rev_involutive. done.
  - intros ->. exists (str_rev r). by rewrite str_rev_app, str_rev_involutive.
Qed.

(** [strings.Split(s, sep)] for a one-byte separator. *)
Fixpoint Split (s : string) (sep : ascii) : list string :=
  match s with
  | "" => [""]
  | String c s' =>
      if decide (c = sep) then "" :: Split s' sep
      else match Split s' sep with
           | [] => [String c ""]
           | x :: xs => String c x :: xs
           end
  end.

(** [strings.Join]. *)
Definition Join (l : list string) (sep : string) : string := String.concat sep l.
#[global] Arguments Join : simpl never.

(** [strings.SplitN(s, sep, n)] with [n > 0]. *)
Definition SplitN (s : string) (sep : ascii) (n : nat) : list string :=
  let l := Split s sep in
  if (length l <=? n)%nat then l else (take (n - 1) l ++ [Join (drop (n - 1) l) (String sep "")])%list.

Definition no_char (sep : ascii) (s : string) : Prop :=
  str_forallb (fun c => negb (bool_decide (c = sep))) s = true.

Lemma no_char_cons sep c s : no_char sep (String c s) <-> c <> sep /\ no_char sep s.
Proof. unfold no_char. cbn. rewrite andb_true_iff, negb_true_iff, bool_decide_eq_false. done. Qed.

Lemma Split_nonnil s sep : Split s sep <> [].
Proof. destruct s; cbn; [done|]. case_decide; [done|]. by destruct (Split s sep). Qed.

Lemma Split_no_char s sep : Forall (no_char sep) (Split s sep).
Proof.
  induction s as [|c s IH]; cbn; [by repeat constructor|]. case_decide; [by constructor|].
  destruct (Split s sep) as [|x xs]; apply Forall_cons_1 in IH || clear IH.
  - constructor; [by apply no_char_cons|constructor].
  - destruct IH. constructor; [by apply no_char_cons|done].
Qed.

Lemma Join_cons x y l sep : Join (x :: y :: l) sep = x ++ sep ++ Join (y :: l) sep.
Proof. done. Qed.

Lemma Join_Split s sep : Join (Split s sep) (String sep "") = s.
Proof.
  induction s as [|c s IH]; cbn; [done|]. pose proof (Split_nonnil s sep).
  case_decide as Hc.
  - subst. destruct (Split s sep); [done|]. rewrite Join_cons, IH. done.
  - destruct (Split s sep) as [|x xs] eqn:E; [done|]. rewrite <- IH.
    destruct xs; [done|]. by rewrite !Join_cons.
Qed.

Lemma Split_none s sep : no_char sep s -> Split s sep = [s].
Proof.
  induction s as [|c s IH]; [done|]. intros [Hc Hs]%no_char_cons. cbn.
  rewrite decide_False by done. by rewrite IH.
Qed.

Lemma Split_app s t sep : no_char sep s -> Split (s ++ String sep t) sep = s :: Split t sep.
Proof.
  induction s as [|c s IH]; intros Hn; cbn.
  - by rewrite decide_True.
  - apply no_char_cons in Hn as [Hc Hs]. rewrite decide_False by done. by rewrite IH.
Qed.

Lemma Split_Join l sep :
  l <> [] -> Forall (no_char sep) l -> Split (Join l (String sep "")) sep = l.
Proof.
  intros Hl Hf. induction Hf as [|x l Hx Hf IH]; [done|]. destruct l as [|y l].
  - cbn. by apply Split_none.
  - rewrite Join_cons. cbn [append]. by rewrite Split_app, IH.
Qed.

Lemma no_char_app sep s t : no_char sep (s ++ t) <-> no_char sep s /\ no_char sep t.
Proof. unfold no_char. by rewrite str_forallb_app, andb_true_iff. Qed.

Lemma SplitN_4 a b c d sep :
  no_char sep a -> no_char sep b -> no_char sep c ->
  SplitN (a ++ String sep (b ++ String sep (c ++ String sep d))) sep 4 = [a; b; c; d].
Proof.
  intros. unfold SplitN. rewrite !Split_app by done. pose proof (Split_nonnil d sep).
  pose proof (Join_Split d sep) as Hj. destruct (Split d sep) as [|x [|y l] ] eqn:E; [done|by cbn in *; subst|].
  rewrite <- Hj. done.
Qed.

Lemma SplitN_short s sep n : (length (Split s sep) <= n)%nat -> SplitN s sep n = Split s sep.
Proof. intros. unfold SplitN. by rewrite (proj2 (Nat.leb_le _ _)). Qed.

(** [strings.Fields] on ASCII white space. *)
Fixpoint fields_go (cur s : string) : list string :=
  match s with
  | "" => if decide (cur = "") then [] else [cur]
  | String c s' =>
      if is_space c then (if decide (cur = "") then [] else [cur]) ++ fields_go "" s'
      else fields_go (cur ++ String c "") s'
  end%list.
Definition Fields (s : string) : list string := fields_go "" s.

(** [strings.TrimSpace] on ASCII white space. *)
Fixpoint TrimLeftSpace (s : string) : string :=
  match s with String c s' => if is_space c then TrimLeftSpace s' else s | "" => "" end.
Definition TrimSpace (s : string) : string :=
  str_rev (TrimLeftSpace (str_rev (TrimLeftSpace s))).

(** [strings.Contains]. *)
Fixpoint Contains (s sub : string) : bool :=
  HasPrefix s sub || match s with "" => false | String _ s' => Contains s' sub end.

Lemma Contains_spec s sub : Contains s sub = true <-> exists a b, s = a ++ sub ++ b.
Proof.
  induction s as [|c s IH]; cbn; rewrite orb_true_iff; unfold HasPrefix; rewrite bool_decide_eq_true.
  - split.
    + intros [[r Hr%CutPrefix_Some]|?]; [by exists "", r|done].
    + intros ([|] & b & H); [|done]. left. exists b. by apply CutPrefix_Some.
  - rewrite IH. split.
    + intros [[r Hr%CutPrefix_Some]|(a & b & ->)]; [by exists "", r|by exists (String c a), b].
    + intros ([|d a] & b & H); cbn in H.
      * left. exists b. by apply CutPrefix_Some.
      * right. injection H as -> ->. eauto.
Qed.

(** [strings.ReplaceAll] of one byte by a string. *)
Fixpoint ReplaceByte (s : string) (old : ascii) (new : string) : string :=
  match s with
  | "" => ""
  | String c s' => (if decide (c = old) then new else String c "") ++ ReplaceByte s' old new
  end.

(** [strings.TrimRight(s, cutset)] and [strings.Trim] for one byte. *)
Fixpoint TrimLeftByte (s : string) (b : ascii) : string :=
  match s with String c s' => if decide (c = b) then TrimLeftByte s' b else s | "" => "" end.
Definition TrimRightByte (s : string) (b : ascii) : string := str_rev (TrimLeftByte (str_rev s) b).
Definition TrimByte (s : string) (b : ascii) : string := TrimRightByte (TrimLeftByte s b) b.

Lemma TrimLeftByte_nil s b :
  TrimLeftByte s b = "" <-> str_forallb (fun c => bool_decide (c = b)) s = true.
Proof.
  induction s as [|c s IH]; cbn; [done|]. rewrite andb_true_iff, bool_decide_eq_true.
  case_decide; naive_solver.
Qed.

(** ** Decimal and hexadecimal numbers *)

Fixpoint digits_val (acc : Z) (s : string) : option Z :=
  match s with
  | "" => Some acc
  | String c s' => if is_digit c then digits_val (acc * 10 + (code c - 48)) s' else None
  end%Z.

(** [strconv.Atoi] of an unsigned decimal. *)
Definition parse_dec (s : string) : option Z :=
  match s with "" => None | _ => digits_val 0 s end.

(** [strconv.ParseUint(s, 10, 64)] *)
Definition ParseUint (s : string) : option Z :=
  n ← parse_dec s; if (n <? 2 ^ 64)%Z then Some n else None.

Lemma pretty_digit n : (n < 10)%N -> code (pretty_N_char n) = (Z.of_N n + 48)%Z.
Proof.
  intros H. destruct n as [|p]; [done|]. by do 4 (destruct p as [p|p|]; [..|reflexivity]; try lia).
Qed.

Lemma pretty_digit_is n : (n < 10)%N -> is_digit (pretty_N_char n) = true.
Proof.
  intros H. unfold is_digit. rewrite pretty_digit by done.
  apply andb_true_iff. rewrite !Z.leb_le. lia.
Qed.

(** A number printed in front of [s] and read back. *)
Lemma pretty_N_go_read x s :
  digits_val 0 (pretty_N_go x s) = digits_val (Z.of_N x) s /\
  str_forallb is_digit (pretty_N_go x s) = str_forallb is_digit s.
Proof.
  revert s. induction (N.lt_wf_0 x) as [x _ IH]. intros s. destruct (decide (x = 0%N)) as [->|Hx].
  { by rewrite pretty_N_go_0. }
  pose proof (N.mod_lt x 10 ltac:(done)) as Hm.
  rewrite pretty_N_go_step by lia. destruct (IH (x / 10)%N ltac:(apply N.div_lt; lia) (String (pretty_N_char (x mod 10)) s)) as [-> ->].
  cbn [digits_val str_forallb]. rewrite pretty_digit_is, pretty_digit by done. split; [|done]. f_equal.
  pose proof (N.div_mod x 10 ltac:(done)). lia.
Qed.

Lemma Itoa_N z : (0 <= z)%Z -> Itoa z = pretty (Z.to_N z).
Proof. intros. by destruct z. Qed.

Lemma Itoa_digits z : (0 <= z)%Z -> str_forallb is_digit (Itoa z) = true.
Proof.
  intros. rewrite Itoa_N by done. unfold pretty, pretty_N. case_decide; [done|]. by rewrite (proj2 (pretty_N_go_read _ _)).
Qed.

Lemma Itoa_nonempty z : (0 <= z)%Z -> Itoa z <> "".
Proof.
  intros. rewrite Itoa_N by done. unfold pretty, pretty_N. case_decide as Hz; [done|]. intros He.
  pose proof (proj1 (pretty_N_go_read (Z.to_N z) "")) as Hv. rewrite He in Hv. cbn in Hv. injection Hv. lia.
Qed.

Lemma parse_dec_Itoa z : (0 <= z)%Z -> parse_dec (Itoa z) = Some z.
Proof.
  intros Hz. pose proof (Itoa_nonempty z Hz) as Hne.
  transitivity (digits_val 0 (Itoa z)); [by destruct (Itoa z)|].
  rewrite Itoa_N by done. unfold pretty, pretty_N. case_decide as H0; [change (Some 0%Z = Some z); f_equal; lia|].
  rewrite (proj1 (pretty_N_go_read _ _)). cbn. f_equal. lia.
Qed.

Lemma ParseUint_Itoa z : (0 <= z < 2 ^ 64)%Z -> ParseUint (Itoa z) = Some z.
Proof.
  intros Hz. unfold ParseUint. rewrite parse_dec_Itoa by lia. cbn [mbind option_bind].
  by rewrite (proj2 (Z.ltb_lt _ _)) by lia.
Qed.

Definition hex_val (c : ascii) : option Z :=
  if is_digit c then Some (code c - 48)%Z
  else if (97 <=? code c)%Z && (code c <=? 102)%Z then Some (code c - 87)%Z
  else if (65 <=? code c)%Z && (code c <=? 70)%Z then Some (code c - 55)%Z
  else None.

Definition ascii_of_Z (z : Z) : ascii := ascii_of_nat (Z.to_nat (z mod 256)).

Lemma code_ascii_of_Z z : (0 <= z < 256)%Z -> code (ascii_of_Z z) = z.
Proof.
  intros. unfold code, ascii_of_Z. rewrite Z.mod_small by lia.
  rewrite nat_ascii_embedding; lia.
Qed.

Lemma ascii_of_Z_code c : ascii_of_Z (code c) = c.
Proof. apply code_inj, code_ascii_of_Z, code_range. Qed.

(** The upper-case hexadecimal digit of [0 <= n < 16]. *)
Definition upper_hex (n : Z) : ascii := ascii_of_Z (if (n <? 10)%Z then n + 48 else n + 55)%Z.

Lemma hex_val_upper n : (0 <= n < 16)%Z -> hex_val (upper_hex n) = Some n.
Proof.
  intros. unfold hex_val, upper_hex, is_digit.
  destruct (Z.ltb_spec n 10); rewrite code_ascii_of_Z by lia;
    repeat match goal with |- context [(?a <=? ?b)%Z] => destruct (Z.leb_spec a b) end;
    cbn [andb]; try lia; f_equal; lia.
Qed.

#[global] Arguments code : simpl never.
#[global] Arguments slen : simpl never.

(** ** The order of [sort.Strings] and of [<] on strings *)
Abbreviation str_le := (fun a b : string => String.leb a b = true).

Lemma leb_cons a b (s t : string) :
  str_le (String a s) (String b t) <-> (code a < code b)%Z \/ (a = b /\ str_le s t).
Proof.
  unfold String.leb. cbn [String.compare]. unfold Ascii.compare.
  assert (Hc : forall c, Z.of_N (N_of_ascii c) = code c) by (intros c; unfold code, nat_of_ascii; lia).
  pose proof (Hc a). pose proof (Hc b). destruct (N.compare_spec (N_of_ascii a) (N_of_ascii b)) as [He|Hl|Hl].
  - assert (a = b) as -> by (apply code_inj; lia). split; [by right|]. intros [?|[_ ?] ]; [lia|done].
  - split; [left; lia|done].
  - split; [done|]. intros [?|[-> _] ]; lia.
Qed.

#[export] Instance str_le_trans : Transitive str_le.
Proof.
  intros s. induction s as [|a s IH]; intros [|b t] [|c u]; try done.
  rewrite !leb_cons. intros [?|[-> ?] ] [?|[-> ?] ]; [left; lia|left; lia|left; lia|right; eauto].
Qed.
#[export] Instance str_le_total : Total str_le.
Proof. intros s t. apply String.leb_total. Qed.
#[export] Instance str_le_antisymm : AntiSymm (=) str_le.
Proof. intros s t. apply String.leb_antisym. Qed.

Lemma len_bytes_of s : len (bytes_of s) = slen s.
Proof.
  unfold len, slen, bytes_of, list_byte_of_string. rewrite length_map. f_equal.
  induction s; cbn; [done|]. by f_equal.
Qed.

Lemma digits_val_nonneg s : forall acc n, (0 <= acc)%Z -> digits_val acc s = Some n -> (0 <= n)%Z.
Proof.
  induction s as [|c s IH]; intros acc n Ha H; cbn in H; [by injection H as <-|].
  destruct (is_digit c) eqn:Hc; [|done]. apply IH in H; [done|].
  unfold is_digit in Hc. apply andb_true_iff in Hc as [Hc _]. bool_to_prop. lia.
Qed.

Lemma substring_all s : substring 0 (String.length s) s = s.
Proof. induction s as [|c s IH]; [done|]. cbn. by rewrite IH. Qed.
