(* ===== verification/Netip.v ===== *)
(** * IP addresses and prefixes ([net/netip], [net.IP])

    The part of the standard library the build link, the dialer and the DHCP
    responder use: parsing and printing of addresses and prefixes, membership,
    and the address classes. *)
From S2P Require Import Prelude Text.

#[local] Open Scope Z_scope.

Module Netip.

(** [netip.Addr]: a 32-bit or a 128-bit value, the latter with its zone. *)
Inductive Addr := A4 (v : Z) | A6 (v : Z) (zone : string).

#[export] Instance Addr_eq_dec : EqDecision Addr.
Proof. solve_decision. Defined.

(** [netip.Prefix]; [pBits] is -1 when it is invalid. *)
Record Prefix := mkPrefix { pAddr : Addr; pBits : Z }.

#[export] Instance Prefix_eq_dec : EqDecision Prefix.
Proof. solve_decision. Defined.

Definition BitLen (a : Addr) : Z := match a with A4 _ => 32 | A6 _ _ => 128 end.
Definition addr_val (a : Addr) : Z := match a with A4 v | A6 v _ => v end.
Definition addr_ok (a : Addr) : Prop := 0 <= addr_val a < 2 ^ BitLen a.
Definition Is4 (a : Addr) : bool := match a with A4 _ => true | A6 _ _ => false end.

Definition AddrFrom4 (a b c d : Z) : Z := a * 2 ^ 24 + b * 2 ^ 16 + c * 2 ^ 8 + d.

(** The bytes of an IPv4 value, [As4]. *)
Definition octet (v i : Z) : Z := v / 2 ^ (24 - 8 * i) mod 256.

(** [Unmap]: an IPv4-mapped IPv6 address as IPv4. *)
Definition Unmap (a : Addr) : Addr :=
  match a with
  | A6 v z => if v / 2 ^ 32 =? 0xffff then A4 (v mod 2 ^ 32) else a
  | A4 _ => a
  end.

Definition Next (a : Addr) : Addr := match a with A4 v => A4 (v + 1) | A6 v z => A6 (v + 1) z end.

(** ** Parsing *)

Definition parse_octet (s : string) : option Z :=
  match s with
  | String "0" (String _ _) => None
  | _ => n ← parse_dec s; if n <=? 255 then Some n else None
  end.

Definition parseIPv4 (s : string) : option Z :=
  match Split s "." with
  | [a; b; c; d] =>
      a ← parse_octet a; b ← parse_octet b; c ← parse_octet c; d ← parse_octet d;
      Some (AddrFrom4 a b c d)
  | _ => None
  end.

(** The hexadecimal number a string starts with, its digits and what follows. *)
Fixpoint hex_group (acc : Z) (n : nat) (s : string) : Z * nat * string :=
  match s with
  | String c s' =>
      match hex_val c with
      | Some d => hex_group (acc * 16 + d) (S n) s'
      | None => (acc, n, s)
      end
  | EmptyString => (acc, n, s)
  end.

(** The 16-bit groups of an IPv6 address, and where its [::] stands. *)
Fixpoint groups6 (fuel : nat) (s : string) (gs : list Z) (ellipsis : option nat) :
    option (list Z * option nat) :=
  match fuel with
  | O => None
  | S fuel' =>
      if bool_decide (length gs = 8%nat) then None else
      let '(v, n, rest) := hex_group 0 0 s in
      if bool_decide (n = 0%nat) || bool_decide (4 < n)%nat then None else
      match rest with
      | EmptyString => Some (gs ++ [v], ellipsis)
      | String "." _ =>
          if (negb (bool_decide (is_Some ellipsis)) && negb (bool_decide (length gs = 6%nat)))
             || bool_decide (6 < length gs)%nat then None
          else v4 ← parseIPv4 s; Some (gs ++ [v4 / 2 ^ 16; v4 mod 2 ^ 16], ellipsis)
      | String ":" EmptyString => None
      | String ":" (String ":" rest') =>
          match ellipsis with
          | Some _ => None
          | None =>
              if decide (rest' = ""%string) then Some (gs ++ [v], Some (S (length gs)))
              else groups6 fuel' rest' (gs ++ [v]) (Some (S (length gs)))
          end
      | String ":" rest' => groups6 fuel' rest' (gs ++ [v]) ellipsis
      | _ => None
      end
  end.

Definition expand6 (r : list Z * option nat) : option (list Z) :=
  let '(gs, ellipsis) := r in
  match ellipsis with
  | None => if bool_decide (length gs = 8%nat) then Some gs else None
  | Some k =>
      if bool_decide (length gs < 8)%nat
      then Some (take k gs ++ replicate (8 - length gs) 0 ++ drop k gs) else None
  end.

Definition of_groups (gs : list Z) : Z := foldl (fun acc g => acc * 2 ^ 16 + g) 0 gs.

Definition parseIPv6 (s : string) : option Addr :=
  let (s, zone) := match Split s "%" with
                   | [s] => (s, Some ""%string)
                   | s :: z => let z := Join z "%" in (s, if decide (z = ""%string) then None else Some z)
                   | [] => (s, None)
                   end in
  zone ← zone;
  match s with
  | String ":" (String ":" rest) =>
      if decide (rest = ""%string) then Some (A6 0 zone)
      else gs ← groups6 9 rest [] (Some 0%nat); gs ← expand6 gs; Some (A6 (of_groups gs) zone)
  | _ => gs ← groups6 9 s [] None; gs ← expand6 gs; Some (A6 (of_groups gs) zone)
  end.

(** The first of the bytes that tell the formats apart. *)
Fixpoint addr_kind (s : string) : option ascii :=
  match s with
  | String c s' => if bool_decide (c ∈ ["."; ":"; "%"]%char) then Some c else addr_kind s'
  | EmptyString => None
  end.

Definition ParseAddr (s : string) : result Addr :=
  match match addr_kind s with
        | Some "."%char => A4 <$> parseIPv4 s
        | Some ":"%char => parseIPv6 s
        | _ => None
        end with
  | Some a => Ok a
  | None => Err (Errorf "ParseAddr(%q)" [s])
  end.

(** The text before and after the last slash. *)
Definition cut_last_slash (s : string) : option (string * string) :=
  match rev (Split s "/") with
  | b :: a :: rest => Some (Join (rev (a :: rest)) "/", b)
  | _ => None
  end.

Definition parse_bits (s : string) : option Z :=
  match s with
  | String "0" (String _ _) => None
  | _ => parse_dec s
  end.

Definition withoutZone (a : Addr) : Addr := match a with A4 v => A4 v | A6 v _ => A6 v "" end.

Definition ParsePrefix (s : string) : result Prefix :=
  let err := Err (Errorf "netip.ParsePrefix(%q)" [s]) in
  match cut_last_slash s with
  | None => err
  | Some (ip, bits) =>
      match ParseAddr ip with
      | Err e => Err e
      | Ok (A6 v (String _ _)) => err
      | Ok a =>
          match parse_bits bits with
          | None => err
          | Some n => if n >? BitLen a then err else Ok (mkPrefix a n)
          end
      end
  end.

(** ** Printing *)

Definition String4 (v : Z) : string :=
  Join [Itoa (octet v 0); Itoa (octet v 1); Itoa (octet v 2); Itoa (octet v 3)] ".".

Definition groups_of (v : Z) : list Z :=
  (fun i => v / 2 ^ (112 - 16 * Z.of_nat i) mod 2 ^ 16) <$> seq 0 8.

Definition lower_hex (n : Z) : ascii := ascii_of_Z (if n <? 10 then n + 48 else n + 87).

Definition hex16 (g : Z) : string :=
  let d i := lower_hex (g / 16 ^ i mod 16) in
  if g <? 16 then String (d 0) ""
  else if g <? 256 then String (d 1) (String (d 0) "")
  else if g <? 4096 then String (d 2) (String (d 1) (String (d 0) ""))
  else String (d 3) (String (d 2) (String (d 1) (String (d 0) ""))).

Fixpoint zero_run (gs : list Z) : nat :=
  match gs with g :: gs' => if g =? 0 then S (zero_run gs') else O | [] => O end.

(** The first longest run of two or more zero groups. *)
Definition best_run (gs : list Z) : option (nat * nat) :=
  foldl (fun best i =>
    let n := zero_run (drop i gs) in
    if bool_decide (2 <= n)%nat && bool_decide (default 0%nat (snd <$> best) < n)%nat then Some (i, n) else best)
    None (seq 0 8).

Definition with_zone (s zone : string) : string :=
  if decide (zone = ""%string) then s else (s ++ "%" ++ zone)%string.

Definition Addr_String (a : Addr) : string :=
  match a with
  | A4 v => String4 v
  | A6 v zone =>
      with_zone
        (if v / 2 ^ 32 =? 0xffff then ("::ffff:" ++ String4 (v mod 2 ^ 32))%string
         else
           let gs := groups_of v in
           match best_run gs with
           | None => Join (hex16 <$> gs) ":"
           | Some (i, n) =>
               (Join (hex16 <$> take i gs) ":" ++ "::" ++ Join (hex16 <$> drop (i + n) gs) ":")%string
           end) zone
  end.

Definition Prefix_String (p : Prefix) : string := (Addr_String (pAddr p) ++ "/" ++ Itoa (pBits p))%string.

(** ** Prefixes *)

(** [netip.PrefixFrom] *)
Definition PrefixFrom (a : Addr) (bits : Z) : Prefix :=
  mkPrefix (withoutZone a) (if (0 <=? bits) && (bits <=? BitLen a) then bits else -1).

Definition mask_val (w bits v : Z) : Z := v / 2 ^ (w - bits) * 2 ^ (w - bits).

(** [Masked] of a valid prefix. *)
Definition mask_addr (a : Addr) (bits : Z) : Addr :=
  match a with
  | A4 v => A4 (mask_val 32 bits v)
  | A6 v z => A6 (mask_val 128 bits v) z
  end.
Definition Masked (p : Prefix) : Prefix := mkPrefix (mask_addr (pAddr p) (pBits p)) (pBits p).

Definition Contains (p : Prefix) (a : Addr) : bool :=
  (0 <=? pBits p) &&
  match pAddr p, a with
  | A4 v, A4 w => v / 2 ^ (32 - pBits p) =? w / 2 ^ (32 - pBits p)
  | A6 v _, A6 w "" => v / 2 ^ (128 - pBits p) =? w / 2 ^ (128 - pBits p)
  | _, _ => false
  end.

Definition Overlaps (p o : Prefix) : bool :=
  if (pBits p <? 0) || (pBits o <? 0) then false
  else if bool_decide (p = o) then true
  else if negb (bool_decide (Is4 (pAddr p) = Is4 (pAddr o))) then false
  else
    let bits := Z.min (pBits p) (pBits o) in
    if bits =? 0 then true
    else bool_decide (mask_addr (withoutZone (pAddr p)) bits = mask_addr (withoutZone (pAddr o)) bits).

(** ** [net.IP] *)

Definition ip_byte (ip : bytes) (i : nat) : Z := match ip !! i with Some b => byte_val b | None => 0 end.

Definition v4InV6Prefix : bytes := replicate 10 Byte.x00 ++ [Byte.xff; Byte.xff].

Definition To4 (ip : bytes) : option bytes :=
  if decide (length ip = 4%nat) then Some ip
  else if decide (length ip = 16%nat /\ take 12 ip = v4InV6Prefix) then Some (drop 12 ip)
  else None.

Definition IPv4 (a b c d : byte) : bytes := v4InV6Prefix ++ [a; b; c; d].

(** [IP.Equal] *)
Definition ip_Equal (ip x : bytes) : bool :=
  if decide (length ip = length x) then bool_decide (ip = x)
  else if decide (length ip = 4%nat /\ length x = 16%nat)
  then bool_decide (take 12 x = v4InV6Prefix /\ ip = drop 12 x)
  else if decide (length ip = 16%nat /\ length x = 4%nat)
  then bool_decide (take 12 ip = v4InV6Prefix /\ drop 12 ip = x)
  else false.

Definition IPv6loopback : bytes := replicate 15 Byte.x00 ++ [Byte.x01].
Definition IPv6unspecified : bytes := replicate 16 Byte.x00.

Definition ip_IsLoopback (ip : bytes) : bool :=
  match To4 ip with Some ip4 => ip_byte ip4 0 =? 127 | None => ip_Equal ip IPv6loopback end.
Definition ip_IsUnspecified (ip : bytes) : bool :=
  ip_Equal ip (IPv4 Byte.x00 Byte.x00 Byte.x00 Byte.x00) || ip_Equal ip IPv6unspecified.
Definition ip_IsPrivate (ip : bytes) : bool :=
  match To4 ip with
  | Some ip4 =>
      (ip_byte ip4 0 =? 10) ||
      ((ip_byte ip4 0 =? 172) && (Z.land (ip_byte ip4 1) 0xf0 =? 16)) ||
      ((ip_byte ip4 0 =? 192) && (ip_byte ip4 1 =? 168))
  | None => (len ip =? 16) && (Z.land (ip_byte ip 0) 0xfe =? 0xfc)
  end.
Definition ip_IsLinkLocalUnicast (ip : bytes) : bool :=
  match To4 ip with
  | Some ip4 => (ip_byte ip4 0 =? 169) && (ip_byte ip4 1 =? 254)
  | None => (len ip =? 16) && (ip_byte ip 0 =? 0xfe) && (Z.land (ip_byte ip 1) 0xc0 =? 0x80)
  end.
Definition ip_IsLinkLocalMulticast (ip : bytes) : bool :=
  match To4 ip with
  | Some ip4 => (ip_byte ip4 0 =? 224) && (ip_byte ip4 1 =? 0) && (ip_byte ip4 2 =? 0)
  | None => (len ip =? 16) && (ip_byte ip 0 =? 0xff) && (Z.land (ip_byte ip 1) 0x0f =? 0x02)
  end.

(** [netip.AddrFromSlice] *)
Definition AddrFromSlice (ip : bytes) : option Addr :=
  if decide (length ip = 4%nat) then Some (A4 (be_decode ip))
  else if decide (length ip = 16%nat) then Some (A6 (be_decode ip) "")
  else None.

(** ** Round trips of IPv4 text *)

Definition octet_text_ok (n : Z) : bool :=
  bool_decide (parse_octet (Itoa n) = Some n) && bool_decide (parse_bits (Itoa n) = Some n) &&
  str_forallb is_digit (Itoa n) && bool_decide (Itoa n <> ""%string).

Lemma octet_texts : forallb octet_text_ok (seqZ 0 256) = true.
Proof. vm_compute. reflexivity. Qed.

Lemma octet_text n :
  0 <= n < 256 ->
  parse_octet (Itoa n) = Some n /\ parse_bits (Itoa n) = Some n /\ str_forallb is_digit (Itoa n) = true.
Proof.
  intros Hn. pose proof (proj1 (forallb_forall _ _) octet_texts n) as H.
  rewrite <- list_elem_of_In, elem_of_seqZ in H. specialize (H ltac:(lia)).
  unfold octet_text_ok in H. rewrite !andb_true_iff in H. destruct H as [ [ [H1 H2] H3] _].
  bool_to_prop. done.
Qed.

Lemma digits_no_char sep s : is_digit sep = false -> str_forallb is_digit s = true -> no_char sep s.
Proof.
  intros Hsep. apply str_forallb_impl. intros c Hc. apply negb_true_iff, bool_decide_eq_false.
  congruence.
Qed.

Lemma octet_range v i : 0 <= octet v i < 256.
Proof. unfold octet. apply Z.mod_pos_bound. lia. Qed.

Lemma octet_sum v :
  0 <= v < 2 ^ 32 -> AddrFrom4 (octet v 0) (octet v 1) (octet v 2) (octet v 3) = v.
Proof. unfold AddrFrom4, octet. cbn. intros Hv. Z.to_euclidean_division_equations. lia. Qed.

Lemma addr_kind_digits s t : str_forallb is_digit s = true -> addr_kind (s ++ t) = addr_kind t.
Proof.
  induction s as [|c s IH]; [done|]. cbn [str_forallb append addr_kind].
  intros [Hc Hs]%andb_true_iff. rewrite bool_decide_eq_false_2; [by apply IH|].
  intros Hin. repeat (apply elem_of_cons in Hin as [-> | Hin]; [discriminate Hc|]).
  by apply elem_of_nil in Hin.
Qed.

Lemma octet_digits v i : str_forallb is_digit (Itoa (octet v i)) = true.
Proof. apply octet_text, octet_range. Qed.

Lemma parse_String4 v : 0 <= v < 2 ^ 32 -> ParseAddr (String4 v) = Ok (A4 v).
Proof.
  intros Hv. unfold ParseAddr.
  assert (Hk : addr_kind (String4 v) = Some "."%char).
  { unfold String4. rewrite Join_cons. by rewrite addr_kind_digits by apply octet_digits. }
  rewrite Hk. unfold parseIPv4, String4. change "."%string with (String "." "").
  rewrite Split_Join; [|done|].
  - cbn [fmap]. rewrite !(proj1 (octet_text _ (octet_range _ _))). cbn [mbind option_bind fmap option_fmap option_map].
    by rewrite octet_sum.
  - repeat constructor; apply digits_no_char; done || apply octet_digits.
Qed.

Lemma String4_no_slash v : no_char "/" (String4 v).
Proof.
  assert (Hd : forall i, str_forallb (fun c => negb (bool_decide (c = "/"%char))) (Itoa (octet v i)) = true)
    by (intros i; apply digits_no_char; done || apply octet_digits).
  unfold no_char, String4. rewrite !Join_cons, !str_forallb_app. unfold Join. cbn [String.concat str_forallb].
  by rewrite !Hd.
Qed.

Lemma parse_Prefix_String v n :
  0 <= v < 2 ^ 32 -> 0 <= n <= 32 -> ParsePrefix (Prefix_String (mkPrefix (A4 v) n)) = Ok (mkPrefix (A4 v) n).
Proof.
  intros Hv Hn. unfold ParsePrefix, Prefix_String, cut_last_slash. cbn [pAddr pBits Addr_String].
  destruct (octet_text n) as (_ & Hb & Hd); [lia|].
  change ("/" ++ Itoa n)%string with (String "/" (Itoa n)).
  rewrite Split_app by apply String4_no_slash. rewrite Split_none by by apply digits_no_char.
  cbn [rev app]. unfold Join. cbn [String.concat]. rewrite parse_String4, Hb by done. cbn [BitLen].
  rewrite Z.gtb_ltb. by destruct (Z.ltb_spec 32 n); [lia|].
Qed.

(** ** Parsed addresses are in range *)

Lemma parse_dec_nonneg s n : parse_dec s = Some n -> 0 <= n.
Proof. destruct s; [done|]. apply digits_val_nonneg. lia. Qed.

Lemma parse_bits_nonneg s n : parse_bits s = Some n -> 0 <= n.
Proof.
  unfold parse_bits. intros H. apply (parse_dec_nonneg s). destruct s as [|c s]; [done|].
  repeat case_match; done.
Qed.

Lemma parse_octet_range s n : parse_octet s = Some n -> 0 <= n < 256.
Proof.
  unfold parse_octet. intros H.
  assert (Hd : (n ← parse_dec s; if n <=? 255 then Some n else None) = Some n)
    by (destruct s as [|c s]; [done|]; repeat case_match; done).
  apply bind_Some in Hd as (m & Hm & H'). apply parse_dec_nonneg in Hm.
  destruct (Z.leb_spec m 255); [injection H' as <-; lia|done].
Qed.

Lemma parseIPv4_range s v : parseIPv4 s = Some v -> 0 <= v < 2 ^ 32.
Proof.
  unfold parseIPv4. destruct (Split s "."%char) as [|a [|b [|c [|d [|? ?] ] ] ] ]; try done. intros H.
  apply bind_Some in H as (na & Ha & H). apply bind_Some in H as (nb & Hb & H).
  apply bind_Some in H as (nc & Hc & H). apply bind_Some in H as (nd & Hd & [= <-]).
  apply parse_octet_range in Ha, Hb, Hc, Hd. unfold AddrFrom4. lia.
Qed.

Lemma parseIPv6_A6 s a : parseIPv6 s = Some a -> Is4 a = false.
Proof.
  unfold parseIPv6. destruct (match Split s "%" with [] => _ | _ => _ end) as [s' z]. intros H.
  apply bind_Some in H as (zone & _ & H).
  repeat case_match; try (by injection H as <-);
    apply bind_Some in H as (gs & _ & H); apply bind_Some in H as (gs' & _ & [= <-]); done.
Qed.

Lemma ParseAddr_v4 s v : ParseAddr s = Ok (A4 v) -> 0 <= v < 2 ^ 32.
Proof.
  unfold ParseAddr. intros H.
  assert (Hk : parseIPv4 s = Some v \/ parseIPv6 s = Some (A4 v)).
  { destruct (addr_kind s) as [c|]; [|done].
    destruct (decide (c = "."%char)) as [-> | Hd].
    - left. destruct (parseIPv4 s); [|done]. by injection H as ->.
    - destruct (decide (c = ":"%char)) as [-> | Hc].
      + right. destruct (parseIPv6 s); [|done]. by injection H as ->.
      + exfalso. revert H Hd Hc. clear. destruct c as [ [] [] [] [] [] [] [] []]; congruence. }
  destruct Hk as [Hk|Hk]; [by apply parseIPv4_range in Hk|by apply parseIPv6_A6 in Hk].
Qed.

Lemma ParsePrefix_ok s p :
  ParsePrefix s = Ok p ->
  0 <= pBits p <= BitLen (pAddr p) /\ (forall w, pAddr p = A4 w -> 0 <= w < 2 ^ 32).
Proof.
  unfold ParsePrefix. destruct (cut_last_slash s) as [ [ip bits] |]; [|done].
  destruct (ParseAddr ip) as [a|e] eqn:Ha; [|done].
  destruct a as [w|w [|c z] ]; [| |done].
  all: destruct (parse_bits bits) as [m|] eqn:Hm; [|done].
  all: match goal with |- context [if ?b then _ else _] => destruct b eqn:Hb end; [done|].
  all: intros [= <-]; apply parse_bits_nonneg in Hm; bool_to_prop; cbn [pAddr pBits].
  all: split; [lia|]. all: intros w' [= <-]. by apply ParseAddr_v4 in Ha.
Qed.

Lemma ParsePrefix_v4 s v n :
  ParsePrefix s = Ok (mkPrefix (A4 v) n) -> 0 <= v < 2 ^ 32 /\ 0 <= n <= 32.
Proof. intros H. apply ParsePrefix_ok in H as [Hb Hv]. split; [by apply Hv|done]. Qed.
End Netip.
