(* ===== verification/BuildLink.v ===== *)
(** * The build link (src/relaycfg/buildlink.go, src/driver/buildlink/buildlink.go,
    src/driver/hostlink.go)

    [LinkClaim] is the claim's form of the link and its validation by the relay,
    [BuildLink] the orchestrator's link and the checks against the host. *)
From S2P Require Import Prelude Text Netip.

#[local] Open Scope Z_scope.

Module LinkClaim.
Import Netip.

Record BuildLink := mkBuildLink { bPrefix : string; bRelay : string; bGuest : string }.

Definition ErrRefused : error := Sentinel "claim refused".

(** The classes of an IPv4 address. *)
Definition IsUnspecified4 (v : Z) : bool := v =? 0.
Definition IsLoopback4 (v : Z) : bool := octet v 0 =? 127.
Definition IsLinkLocal4 (v : Z) : bool := (octet v 0 =? 169) && (octet v 1 =? 254).
Definition IsMulticast4 (v : Z) : bool := Z.land (octet v 0) 0xf0 =? 0xe0.

(** Both callers have checked [Is4]. *)
Definition checkUnicast (name : string) (v : Z) : option error :=
  let e f := Some (Errorf f [name; String4 v]) in
  if IsUnspecified4 v || (octet v 0 =? 0) then e "%s %s is in 0.0.0.0/8"
  else if IsLoopback4 v then e "%s %s is a loopback address"
  else if IsLinkLocal4 v then e "%s %s is a link-local address"
  else if IsMulticast4 v then e "%s %s is a multicast address"
  else if octet v 0 >=? 240 then e "%s %s is a class E address"
  else None.

(** The last address of the IPv4 prefix [v/bits]. *)
Definition broadcast (v bits : Z) : Z :=
  let host := wrap_u 32 (Z.shiftl 1 (32 - bits)) - 1 in
  Z.lor (AddrFrom4 (octet (mask_val 32 bits v) 0) (octet (mask_val 32 bits v) 1)
           (octet (mask_val 32 bits v) 2) (octet (mask_val 32 bits v) 3)) host.

Definition parseHost (name s : string) (v bits : Z) : result Addr :=
  match ParseAddr s with
  | Err e => Err (Wrap name e)
  | Ok (A6 _ _) => Err (Errorf "%s %s is not IPv4" [name; s])
  | Ok (A4 a) =>
      let p := mkPrefix (A4 v) bits in
      if negb (Contains p (A4 a))
      then Err (Errorf "%s %s is outside prefix %s" [name; s; Prefix_String p])
      else if (a =? v) || (a =? broadcast v bits)
      then Err (Errorf "%s %s is the network or broadcast address of %s" [name; s; Prefix_String p])
      else match checkUnicast name a with Some e => Err e | None => Ok (A4 a) end
  end.

Definition Parse (b : BuildLink) : result (Prefix * Addr * Addr) :=
  match ParsePrefix (bPrefix b) with
  | Err e => Err (Wrap "prefix" e)
  | Ok prefix =>
      match pAddr prefix with
      | A6 _ _ => Err (Errorf "prefix %s is not IPv4" [bPrefix b])
      | A4 v =>
          if negb (bool_decide (Masked prefix = prefix))
          then Err (Errorf "prefix %s is not a network address (did you mean %s?)"
                      [bPrefix b; Prefix_String (Masked prefix)])
          else if (pBits prefix <? 8) || (pBits prefix >? 30)
          then Err (Errorf "prefix %s: length must be 8 to 30" [bPrefix b])
          else match checkUnicast "prefix" v with
          | Some e => Err e
          | None =>
              let? relay := parseHost "relay" (bRelay b) v (pBits prefix) in
              let? guest := parseHost "guest" (bGuest b) v (pBits prefix) in
              if bool_decide (relay = guest)
              then Err (Errorf "relay and guest are both %s" [Addr_String relay])
              else Ok (prefix, relay, guest)
          end
      end
  end%go.

(** ** What is accepted *)

(** An address a build segment may use: outside 0/8, 127/8, 169.254/16,
    multicast and class E. *)
Definition unicast (v : Z) : Prop :=
  2 ^ 24 <= v < 0xe0000000 /\ ~ (0x7f000000 <= v < 0x80000000) /\ ~ (0xa9fe0000 <= v < 0xa9ff0000).

Lemma octet0 v : 0 <= v < 2 ^ 32 -> octet v 0 = v / 2 ^ 24.
Proof. intros Hv. unfold octet. cbn. apply Z.mod_small. Z.to_euclidean_division_equations. lia. Qed.

Lemma IsMulticast4_range v : 0 <= v < 2 ^ 32 -> IsMulticast4 v = true <-> 0xe0000000 <= v < 0xf0000000.
Proof.
  intros Hv. unfold IsMulticast4. rewrite octet0, Z.eqb_eq by done.
  assert (Hq : 0 <= v / 2 ^ 24 < 256) by (Z.to_euclidean_division_equations; lia).
  assert (Hall : forallb (fun q => Bool.eqb (Z.land q 0xf0 =? 0xe0) ((224 <=? q) && (q <? 240)))
    (seqZ 0 256) = true) by (vm_compute; reflexivity).
  pose proof (proj1 (forallb_forall _ _) Hall (v / 2 ^ 24)) as H.
  rewrite <- list_elem_of_In, elem_of_seqZ in H. specialize (H ltac:(lia)).
  apply eqb_prop in H. rewrite <- Z.eqb_eq, H, andb_true_iff. bool_to_prop.
  rewrite Z.leb_le, Z.ltb_lt. split; intros; Z.to_euclidean_division_equations; lia.
Qed.

Lemma checkUnicast_exact name v : 0 <= v < 2 ^ 32 -> checkUnicast name v = None <-> unicast v.
Proof.
  intros Hv. unfold checkUnicast, unicast, IsUnspecified4, IsLoopback4, IsLinkLocal4.
  pose proof (IsMulticast4_range v Hv) as Hm. rewrite octet0 by done.
  assert (H1 : octet v 1 = v / 2 ^ 16 mod 256) by done. rewrite H1. clear H1.
  rewrite Z.geb_leb.
  destruct (Z.eqb_spec v 0); cbn [orb];
  [split; [done|lia]|].
  destruct (Z.eqb_spec (v / 2 ^ 24) 0);
  [split; [done|Z.to_euclidean_division_equations; lia]|].
  destruct (Z.eqb_spec (v / 2 ^ 24) 127);
  [split; [done|Z.to_euclidean_division_equations; lia]|].
  destruct (Z.eqb_spec (v / 2 ^ 24) 169) as [E|E]; cbn [andb].
  - destruct (Z.eqb_spec (v / 2 ^ 16 mod 256) 254).
    + split; [done|Z.to_euclidean_division_equations; lia].
    + destruct (IsMulticast4 v); [split; [done|lia]|].
      destruct (Z.leb_spec 240 (v / 2 ^ 24)); [split; [done|lia]|].
      split; [intros _|done]. Z.to_euclidean_division_equations. lia.
  - destruct (IsMulticast4 v); [split; [done|lia]|].
    destruct (Z.leb_spec 240 (v / 2 ^ 24)); split; try done; intros;
      Z.to_euclidean_division_equations; lia.
Qed.

(** [v/bits] is a network address. *)
Lemma masked_exact v bits :
  0 <= v < 2 ^ 32 -> 0 <= bits <= 32 ->
  Masked (mkPrefix (A4 v) bits) = mkPrefix (A4 v) bits <-> v mod 2 ^ (32 - bits) = 0.
Proof.
  intros Hv Hb. unfold Masked, mask_addr, mask_val. cbn [pAddr pBits].
  assert (0 < 2 ^ (32 - bits)) by (apply Z.pow_pos_nonneg; lia).
  pose proof (Z.div_mod v (2 ^ (32 - bits)) ltac:(lia)).
  split; [intros [=]; lia|]. intros. do 2 f_equal. lia.
Qed.

Lemma broadcast_exact v bits :
  0 <= v < 2 ^ 32 -> 1 <= bits <= 32 -> v mod 2 ^ (32 - bits) = 0 ->
  broadcast v bits = v + 2 ^ (32 - bits) - 1.
Proof.
  intros Hv Hb Hm. unfold broadcast.
  assert (Hp : 0 < 2 ^ (32 - bits)) by (apply Z.pow_pos_nonneg; lia).
  pose proof (Z.div_mod v (2 ^ (32 - bits)) ltac:(lia)) as Hd.
  assert (Hmask : mask_val 32 bits v = v) by (unfold mask_val; lia). rewrite Hmask, octet_sum by done.
  rewrite Z.shiftl_mul_pow2, Z.mul_1_l by lia. unfold wrap_u.
  rewrite (Z.mod_small (2 ^ (32 - bits))); [|split; [lia|apply Z.pow_lt_mono_r; lia] ].
  pose proof (Z.add_lor_land v (Z.ones (32 - bits))) as Hl.
  rewrite Z.land_ones, Hm in Hl by lia. rewrite Z.ones_equiv in Hl.
  change (2 ^ (32 - bits) - 1) with (Z.pred (2 ^ (32 - bits))). lia.
Qed.

Lemma contains_exact v bits a :
  0 <= bits <= 32 -> v mod 2 ^ (32 - bits) = 0 ->
  Contains (mkPrefix (A4 v) bits) (A4 a) = true <-> v <= a < v + 2 ^ (32 - bits).
Proof.
  intros Hb Hm. unfold Contains. cbn [pAddr pBits].
  assert (0 < 2 ^ (32 - bits)) by (apply Z.pow_pos_nonneg; lia).
  pose proof (Z.div_mod v (2 ^ (32 - bits)) ltac:(lia)).
  pose proof (Z.div_mod a (2 ^ (32 - bits)) ltac:(lia)).
  pose proof (Z.mod_pos_bound a (2 ^ (32 - bits)) ltac:(lia)).
  destruct (Z.leb_spec 0 bits); [|lia]. cbn [andb]. rewrite Z.eqb_eq. split; intros; nia.
Qed.

(** A host of the network [v/bits]. *)
Definition host_ok (v bits a : Z) : Prop := v < a < v + 2 ^ (32 - bits) - 1 /\ unicast a.

Lemma parseHost_exact name s v bits r :
  0 <= v < 2 ^ 32 -> 1 <= bits <= 32 -> v mod 2 ^ (32 - bits) = 0 ->
  parseHost name s v bits = Ok r <-> exists a, r = A4 a /\ ParseAddr s = Ok (A4 a) /\ host_ok v bits a.
Proof.
  intros Hv Hb Hm. unfold parseHost, host_ok. destruct (ParseAddr s) as [ [a|a z]|e] eqn:Hs; cycle 1.
  { split; [done|]. intros (a0 & _ & [=] & _). }
  { split; [done|]. intros (a0 & _ & [=] & _). }
  pose proof (ParseAddr_v4 _ _ Hs) as Ha. pose proof (contains_exact v bits a ltac:(lia) Hm) as Hc.
  pose proof (checkUnicast_exact name a Ha) as Hu. rewrite broadcast_exact by done.
  destruct (Contains _ _); cbn [negb].
  - destruct (Z.eqb_spec a v); cbn [orb].
    { split; [done|]. intros (a0 & _ & [= <-] & ? & _). lia. }
    destruct (Z.eqb_spec a (v + 2 ^ (32 - bits) - 1)).
    { split; [done|]. intros (a0 & _ & [= <-] & ? & _). lia. }
    destruct (checkUnicast name a).
    + split; [done|]. intros (a0 & _ & [= <-] & _ & Hua). by apply Hu in Hua.
    + split; [intros [= <-]|]. { exists a. split_and!; try done; try lia. by apply Hu. }
      intros (a0 & -> & [= <-] & _). done.
  - split; [done|]. intros (a0 & _ & [= <-] & Hr & _). exfalso.
    assert (false = true) by (apply Hc; lia). done.
Qed.

(** The build links a relay accepts. *)
Record link_ok (v bits r g : Z) : Prop := {
  lk_bits : 8 <= bits <= 30;
  lk_network : v mod 2 ^ (32 - bits) = 0;
  lk_unicast : unicast v;
  lk_relay : host_ok v bits r;
  lk_guest : host_ok v bits g;
  lk_distinct : r <> g }.

Lemma claim_Parse_spec b x :
  Parse b = Ok x <-> exists v bits r g,
    x = (mkPrefix (A4 v) bits, A4 r, A4 g) /\
    ParsePrefix (bPrefix b) = Ok (mkPrefix (A4 v) bits) /\
    ParseAddr (bRelay b) = Ok (A4 r) /\ ParseAddr (bGuest b) = Ok (A4 g) /\ link_ok v bits r g.
Proof.
  unfold Parse. destruct (ParsePrefix (bPrefix b)) as [ [ [v|w z] bits]|e] eqn:Hp; cycle 1.
  { split; [done|]. by intros (? & ? & ? & ? & _ & [=] & _). }
  { split; [done|]. by intros (? & ? & ? & ? & _ & [=] & _). }
  cbn [pAddr pBits]. destruct (ParsePrefix_v4 _ _ _ Hp) as [Hv Hb].
  pose proof (masked_exact v bits Hv Hb) as Hmask.
  destruct (bool_decide_reflect (Masked (mkPrefix (A4 v) bits) = mkPrefix (A4 v) bits)) as [Hm|Hm]; cycle 1.
  { split; [done|]. intros (v' & b' & r & g & _ & [= <- <-] & _ & _ & Hl). exfalso. apply Hm, Hmask, Hl. }
  apply Hmask in Hm. cbn [negb]. rewrite Z.gtb_ltb.
  destruct (Z.ltb_spec bits 8); cbn [orb].
  { split; [done|]. intros (v' & b' & r & g & _ & [= <- <-] & _ & _ & [? _ _ _ _ _]). lia. }
  destruct (Z.ltb_spec 30 bits).
  { split; [done|]. intros (v' & b' & r & g & _ & [= <- <-] & _ & _ & [? _ _ _ _ _]). lia. }
  pose proof (checkUnicast_exact "prefix" v Hv) as Hu. destruct (checkUnicast "prefix" v) as [e|].
  { split; [done|]. intros (v' & b' & r & g & _ & [= <- <-] & _ & _ & [_ _ Hc _ _ _]). by apply Hu in Hc. }
  rewrite result_bind_Ok. split.
  - intros (r & Hr & Hg). apply result_bind_Ok in Hg as (g & Hg & Hx).
    apply parseHost_exact in Hr as (ra & -> & Hra & Hrok); [|done|lia|done].
    apply parseHost_exact in Hg as (ga & -> & Hga & Hgok); [|done|lia|done].
    case_bool_decide as Heq; [done|]. injection Hx as <-. exists v, bits, ra, ga.
    split_and!; try done. split; try done; [by apply Hu|congruence].
  - intros (v' & b' & r & g & -> & [= <- <-] & Hr & Hg & [_ _ _ Hrok Hgok Hne]).
    exists (A4 r). split; [apply parseHost_exact; eauto; lia|]. apply result_bind_Ok.
    exists (A4 g). split; [apply parseHost_exact; eauto; lia|].
    rewrite bool_decide_eq_false_2; [done|congruence].
Qed.

(** The relay accepts exactly the build links its rules allow: the prefix
    parses as an IPv4 network address of length 8 to 30, relay and guest as
    distinct hosts inside it (neither its network nor its broadcast address),
    and no address is in 0/8, loopback, link-local, multicast or class E; it
    returns the parsed parts. *)
Theorem BuildLink_Parse_exact b x :
  Parse b = Ok x <-> exists v bits r g,
    x = (mkPrefix (A4 v) bits, A4 r, A4 g) /\
    ParsePrefix (bPrefix b) = Ok (mkPrefix (A4 v) bits) /\
    ParseAddr (bRelay b) = Ok (A4 r) /\ ParseAddr (bGuest b) = Ok (A4 g) /\ link_ok v bits r g.
Proof. apply claim_Parse_spec. Qed.
End LinkClaim.

Module BuildLink.
Import Netip LinkClaim.

Definition DefaultCIDR : string := "100.127.255.252/30".
Definition Channel : Z := 1.
Definition StampKey : string := "WARDEN_LINK_CHANNEL".
Definition ErrNoStamp : error := Sentinel "no link-channel stamp".

Record Link := mkLink { Net : Prefix; Relay : Addr; Guest : Addr }.

(** The zero link: its prefix is not valid. *)
Definition zeroLink : Link := mkLink (mkPrefix (A4 0) (-1)) (A4 0) (A4 0).
Definition IsZero (l : Link) : bool := negb (0 <=? pBits (Net l)).

Definition Parse (cidr : string) : result Link :=
  match ParsePrefix (TrimSpace cidr) with
  | Err e => Err (Errorf "%q is not a CIDR network such as %s" [cidr; DefaultCIDR])
  | Ok p =>
      let e f := Err (Errorf f [Prefix_String p]) in
      match pAddr p with
      | A6 _ _ => e "%s is not IPv4"
      | A4 v =>
          if negb (pBits p =? 30)
          then Err (Errorf "%s is a /%d; the build link must be a /30" [Prefix_String p; Itoa (pBits p)])
          else if negb (bool_decide (Masked p = p))
          then Err (Errorf "%s is not a network address; did you mean %s?"
                      [Prefix_String p; Prefix_String (Masked p)])
          else if octet v 0 =? 0 then e "%s is in 0.0.0.0/8"
          else if IsLoopback4 v then e "%s is a loopback network"
          else if IsLinkLocal4 v then e "%s is a link-local network"
          else if IsMulticast4 v then e "%s is a multicast network"
          else if octet v 0 >=? 240 then e "%s is a class E network"
          else Ok (mkLink p (Next (A4 v)) (Next (Next (A4 v))))
      end
  end.

Definition Default : Link := match Parse DefaultCIDR with Ok l => l | Err _ => zeroLink end.
Definition OrDefault (l : Link) : Link := if IsZero l then Default else l.
Definition Link_String (l : Link) : string := Prefix_String (Net l).

(** ** Overlaps *)
Record Range := mkRange { rName : string; rCIDR : string }.

Fixpoint Disjoint (l : Link) (ranges : list Range) : option error :=
  match ranges with
  | [] => None
  | r :: ranges' =>
      match ParsePrefix (rCIDR r) with
      | Err e => Some (Wrap (rName r) e)
      | Ok p =>
          if Overlaps p (Net l)
          then Some (Errorf "%s overlaps %s (%s)" [Prefix_String (Net l); rName r; Prefix_String p])
          else Disjoint l ranges'
      end
  end.

Definition overlap_step (l : Link) (acc : list Prefix * list Prefix) (a : Prefix) : list Prefix * list Prefix :=
  let '(refuse, warn) := acc in
  if negb (Is4 (Unmap (pAddr a))) then acc
  else
    let a := PrefixFrom (Unmap (pAddr a)) (pBits a) in
    if Contains (Net l) (pAddr a) then (refuse ++ [a], warn)
    else if (pBits a <=? pBits (Net l)) && Contains a (pAddr (Net l)) then (refuse, warn ++ [a])
    else acc.

Definition HostOverlap (l : Link) (addrs : list Prefix) : list Prefix * list Prefix :=
  foldl (overlap_step l) ([], []) addrs.

(** ** The link's forms *)
Definition Claim (l : Link) : LinkClaim.BuildLink :=
  mkBuildLink (Prefix_String (Net l)) (Addr_String (Relay l)) (Addr_String (Guest l)).

Definition GuestCIDR (l : Link) : string := Prefix_String (PrefixFrom (Guest l) (pBits (Net l))).
Definition RelayCIDR (l : Link) : string := Prefix_String (PrefixFrom (Relay l) (pBits (Net l))).
Definition BootArgs (l : Link) : string :=
  ("warden.link_ip=" ++ GuestCIDR l ++ " warden.link_gw=" ++ Addr_String (Relay l))%string.

(** [uint32(0xffffffff) << (32 - bits)] *)
Definition mask_bits (bits : Z) : Z := wrap_u 32 (Z.shiftl 0xffffffff (32 - bits)).
Definition Mask (l : Link) : string := String4 (mask_bits (pBits (Net l))).

(** ** Launcher stamps *)

(** [strconv.Atoi] *)
Definition Atoi (s : string) : option Z :=
  n ← match s with
      | String "-" s' => Z.opp <$> parse_dec s'
      | String "+" s' => parse_dec s'
      | _ => parse_dec s
      end;
  if (- 2 ^ 63 <=? n) && (n <? 2 ^ 63) then Some n else None.

Definition Cut (s : string) (sep : ascii) : option (string * string) :=
  match Split s sep with
  | a :: b :: rest => Some (a, Join (b :: rest) (String sep ""))
  | _ => None
  end.

(** [bufio.Scanner] stops at a line its 64 KiB buffer cannot hold. *)
Definition MaxScanTokenSize : Z := 64 * 1024.

Fixpoint scan_stamp (path : string) (lines : list string) : result Z :=
  match lines with
  | [] => Err (Errorf "%s: no %s line" [path; StampKey])
  | line :: lines' =>
      if MaxScanTokenSize <=? slen line then Err (Sentinel "bufio.Scanner: token too long") else
      match Cut (TrimSpace line) "=" with
      | Some (k, v) =>
          if decide (k = StampKey) then
            match Atoi (TrimSpace v) with
            | Some n => Ok n
            | None => Err (Errorf "%s: malformed %s %q" [path; StampKey; v])
            end
          else scan_stamp path lines'
      | None => scan_stamp path lines'
      end
  end.

(** A file: missing, unreadable, or its text. *)
Inductive stamp_file := Missing | Unreadable (e : error) | Text (s : string).

Definition ReadStamp (path : string) (f : stamp_file) : result Z :=
  match f with
  | Missing => Err (Wrap path ErrNoStamp)
  | Unreadable e => Err e
  | Text s => scan_stamp path (Split s "010")
  end.

Definition CheckStamp (path : string) (f : stamp_file) : option error :=
  match ReadStamp path f with
  | Err e => Some e
  | Ok n =>
      if negb (n =? Channel)
      then Some (Errorf "%s holds link channel %d; this warden needs %d" [path; Itoa n; Itoa Channel])
      else None
  end.

Definition StampState (path : string) (f : stamp_file) : string :=
  match CheckStamp path f with
  | None => "current"
  | Some e => if errors_Is e ErrNoStamp then "missing" else "stale"
  end.

(** ** The host's side (driver/hostlink.go) *)

(** [HostPrefixes] for one interface network: its address bytes and mask length. *)
Definition HostPrefix (ip : bytes) (ones : Z) : option Prefix :=
  a ← AddrFromSlice ip;
  Some (if bool_decide (Unmap a = a) then PrefixFrom a ones
        else PrefixFrom (Unmap a) (if 96 <=? ones then ones - 96 else ones)).

Definition HostPrefixes (addrs : list (bytes * Z)) : list Prefix :=
  omap (fun x => HostPrefix x.1 x.2) addrs.

Definition LinkFix : string :=
  "set [vm] build_link in warden.toml (or pass --build-link) to a /30 no host network uses".

Definition CheckHostOverlap (l : Link) (host : list Prefix) : option error :=
  match (HostOverlap l host).1 with
  | [] => None
  | refuse =>
      Some (Wrap LinkFix (Errorf "the build link %s holds a host interface address (%s)"
              [Link_String l; Join (Prefix_String <$> refuse) ", "]))
  end.

Record LauncherStamp := mkStamp { What : string; StampPath : string; Rebuild : string; Required : bool }.

Definition CheckLauncherStamp (s : LauncherStamp) (f : stamp_file) : option error :=
  match CheckStamp (StampPath s) f with
  | Some e => Some (Wrap (Rebuild s) (Wrap (What s) e))
  | None => None
  end.

Definition Blocks (s : LauncherStamp) (f : stamp_file) : bool :=
  Required s && negb (bool_decide (StampPath s = ""%string)) && negb (bool_decide (CheckLauncherStamp s f = None)).

(** ** Properties *)

(** The links the orchestrator accepts: a /30 network of unicast addresses. *)
Lemma Parse_spec cidr l :
  Parse cidr = Ok l <-> exists v,
    ParsePrefix (TrimSpace cidr) = Ok (mkPrefix (A4 v) 30) /\ v mod 4 = 0 /\ unicast v /\
    l = mkLink (mkPrefix (A4 v) 30) (A4 (v + 1)) (A4 (v + 2)).
Proof.
  unfold Parse. destruct (ParsePrefix (TrimSpace cidr)) as [ [ [v|w z] bits]|e] eqn:Hp; cycle 1.
  { split; [done|]. by intros (? & [=] & _). }
  { split; [done|]. by intros (? & [=] & _). }
  cbn [pAddr pBits]. destruct (ParsePrefix_v4 _ _ _ Hp) as [Hv Hb].
  destruct (Z.eqb_spec bits 30) as [->|Hne]; cbn [negb]; cycle 1.
  { split; [done|]. intros (v' & [=] & _). done. }
  pose proof (masked_exact v 30 Hv Hb) as Hmask. change (2 ^ (32 - 30)) with 4 in Hmask.
  destruct (bool_decide_reflect (Masked (mkPrefix (A4 v) 30) = mkPrefix (A4 v) 30)) as [Hm|Hm]; cycle 1.
  { split; [done|]. intros (v' & [= <-] & H & _). exfalso. by apply Hm, Hmask. }
  apply Hmask in Hm. cbn [negb]. pose proof (checkUnicast_exact "link" v Hv) as Hu.
  unfold checkUnicast in Hu.
  assert (H0 : (IsUnspecified4 v || (octet v 0 =? 0)) = (octet v 0 =? 0)).
  { unfold IsUnspecified4. destruct (Z.eqb_spec v 0) as [->|]; done. }
  rewrite H0 in Hu. cbv zeta in Hu.
  repeat match goal with |- context [if ?c then _ else _] => destruct c end;
    try (split; [done|]; intros (v' & [= <-] & _ & Hun & _); by apply Hu in Hun).
  cbn [Next]. assert (Hn : v + 1 + 1 = v + 2) by lia. rewrite Hn.
  split; [|by intros (v' & [= <-] & _ & _ & ->)]. intros [= <-]. exists v. by split_and!; [..|apply Hu|].
Qed.

Lemma TrimSpace_none s : str_forallb (fun c => negb (is_space c)) s = true -> TrimSpace s = s.
Proof.
  assert (Hl : forall t, str_forallb (fun c => negb (is_space c)) t = true -> TrimLeftSpace t = t).
  { intros [|c t]; [done|]. cbn. by intros [->%negb_true_iff _]%andb_true_iff. }
  intros Hs. unfold TrimSpace. rewrite (Hl s) by done. rewrite Hl; [apply str_rev_involutive|].
  clear Hl. revert Hs. induction s as [|c s IH]; [done|]. rewrite str_rev_cons, str_forallb_app. cbn.
  intros [Hc Hs]%andb_true_iff. rewrite IH, Hc by done. done.
Qed.

Lemma TrimSpace_prefix v bits :
  0 <= bits < 256 ->
  TrimSpace (Prefix_String (mkPrefix (A4 v) bits)) = Prefix_String (mkPrefix (A4 v) bits).
Proof.
  intros Hb. apply TrimSpace_none.
  assert (Hd : forall s, str_forallb is_digit s = true -> str_forallb (fun c => negb (is_space c)) s = true).
  { intros s. apply str_forallb_impl. intros c. unfold is_digit, is_space. intros [H1 H2]%andb_true_iff.
    bool_to_prop. apply negb_true_iff. rewrite bool_decide_eq_false_2 by lia. cbn [orb].
    apply andb_false_iff. right. apply Z.leb_gt. lia. }
  unfold Prefix_String, Addr_String, String4. cbn [pAddr pBits].
  rewrite !Join_cons, !str_forallb_app. unfold Join. cbn [String.concat].
  by rewrite (Hd _ (octet_digits v 0)), (Hd _ (octet_digits v 1)), (Hd _ (octet_digits v 2)),
    (Hd _ (octet_digits v 3)), (Hd (Itoa bits)) by by apply octet_text.
Qed.

Lemma link4_ok v : v mod 4 = 0 -> 0 <= v -> unicast v -> link_ok v 30 (v + 1) (v + 2).
Proof.
  intros Hm Hv Hu. unfold unicast in Hu.
  assert (Hun : forall i, 0 <= i < 4 -> unicast (v + i)).
  { intros i Hi. unfold unicast. Z.to_euclidean_division_equations. lia. }
  split; try done; try lia; unfold host_ok; change (2 ^ (32 - 30)) with 4; split; try lia; apply Hun; lia.
Qed.

(** What the orchestrator hands over is what the relay applies: a link
    accepted from the configuration is a /30 network with the relay its first
    and the guest its second host; its claim passes the relay's validation and
    parses back to the same prefix and addresses; its own text parses back to
    it; and [GuestCIDR]/[RelayCIDR] parse to the addresses with length 30.  The
    default link is such a link. *)
Theorem link_claim_roundtrip cidr l :
  Parse cidr = Ok l ->
  (exists v, l = mkLink (mkPrefix (A4 v) 30) (A4 (v + 1)) (A4 (v + 2)) /\ link_ok v 30 (v + 1) (v + 2)) /\
  LinkClaim.Parse (Claim l) = Ok (Net l, Relay l, Guest l) /\
  Parse (Link_String l) = Ok l /\
  ParsePrefix (GuestCIDR l) = Ok (mkPrefix (Guest l) 30) /\
  ParsePrefix (RelayCIDR l) = Ok (mkPrefix (Relay l) 30) /\
  Parse DefaultCIDR = Ok Default /\ OrDefault l = l.
Proof.
  intros H. apply Parse_spec in H as (v & Hp & Hm & Hu & ->).
  destruct (ParsePrefix_v4 _ _ _ Hp) as [Hv _]. pose proof (link4_ok v Hm (proj1 Hv) Hu) as Hok.
  assert (Hr1 : 0 <= v + 1 < 2 ^ 32) by (unfold unicast in Hu; lia).
  assert (Hr2 : 0 <= v + 2 < 2 ^ 32) by (unfold unicast in Hu; lia).
  assert (Htext : ParsePrefix (Prefix_String (mkPrefix (A4 v) 30)) = Ok (mkPrefix (A4 v) 30))
    by (apply parse_Prefix_String; lia).
  split_and!.
  - eauto.
  - apply claim_Parse_spec. exists v, 30, (v + 1), (v + 2). cbn. split_and!; try done;
      by apply parse_String4.
  - apply Parse_spec. exists v. unfold Link_String. cbn [Net]. by rewrite TrimSpace_prefix by done.
  - apply parse_Prefix_String; lia.
  - apply parse_Prefix_String; lia.
  - vm_compute. reflexivity.
  - done.
Qed.
(** ** Overlaps *)

Lemma div_coarser a b k j : 0 <= j <= k -> a / 2 ^ j = b / 2 ^ j -> a / 2 ^ k = b / 2 ^ k.
Proof.
  intros Hj H. replace k with (j + (k - j)) by lia.
  rewrite Z.pow_add_r by lia. rewrite <- !Z.div_div by (apply Z.pow_nonzero || apply Z.pow_pos_nonneg; lia).
  by rewrite H.
Qed.

Lemma mask_eq k a b : 0 <= k -> a / 2 ^ k * 2 ^ k = b / 2 ^ k * 2 ^ k <-> a / 2 ^ k = b / 2 ^ k.
Proof. intros Hk. assert (0 < 2 ^ k) by (apply Z.pow_pos_nonneg; lia). split; [nia|by intros ->]. Qed.

(** Prefixes overlap when an address is in both. *)
Lemma Overlaps_exact p v :
  0 <= pBits p <= BitLen (pAddr p) -> (forall w, pAddr p = A4 w -> 0 <= w < 2 ^ 32) -> 0 <= v < 2 ^ 32 ->
  Overlaps p (mkPrefix (A4 v) 30) = true <->
  exists a, Contains p (A4 a) = true /\ Contains (mkPrefix (A4 v) 30) (A4 a) = true.
Proof.
  destruct p as [ [w|w z] bits]; cbn [pAddr pBits BitLen]; intros Hb Hw Hv; cycle 1.
  { unfold Overlaps, Contains. cbn [pAddr pBits]. split.
    - destruct (_ || _); [done|]. rewrite bool_decide_eq_false_2 by done. done.
    - intros (a & Ha & _). rewrite andb_false_r in Ha. done. }
  specialize (Hw w eq_refl).
  unfold Overlaps, Contains. cbn [pAddr pBits Is4].
  destruct (Z.leb_spec 0 bits) as [_|]; [|lia]. destruct (Z.ltb_spec bits 0); [lia|].
  change (30 <? 0) with false. change (0 <=? 30) with true. cbn [orb andb].
  destruct (bool_decide_reflect (mkPrefix (A4 w) bits = mkPrefix (A4 v) 30)) as [ [= -> ->]|_].
  { split; [|done]. intros _. exists v. split; by apply Z.eqb_eq. }
  rewrite bool_decide_eq_true_2 by done. cbn [negb].
  destruct (Z.eqb_spec (Z.min bits 30) 0) as [H0|H0].
  - split; [|done]. intros _. exists v. assert (bits = 0) as -> by lia. change (32 - 0) with 32.
    rewrite !Z.eqb_eq, !Z.div_small by lia. done.
  - rewrite bool_decide_eq_true. cbn [withoutZone mask_addr]. unfold mask_val.
    assert (Hm : A4 (w / 2 ^ (32 - Z.min bits 30) * 2 ^ (32 - Z.min bits 30)) =
                 A4 (v / 2 ^ (32 - Z.min bits 30) * 2 ^ (32 - Z.min bits 30)) <->
                 w / 2 ^ (32 - Z.min bits 30) = v / 2 ^ (32 - Z.min bits 30)).
    { rewrite <- mask_eq by lia. split; [by intros [= ->]|by intros ->]. }
    rewrite Hm. setoid_rewrite Z.eqb_eq. split.
    + intros He. destruct (Z.min_spec bits 30) as [ [? Hmin]|[? Hmin] ]; rewrite Hmin in He.
      * exists v. done.
      * exists w. done.
    + intros (a & Ha1 & Ha2). apply (div_coarser w v _ (32 - Z.min bits 30)); [lia|].
      transitivity (a / 2 ^ (32 - Z.min bits 30)).
      * apply (div_coarser w a _ (32 - bits)); [lia|done].
      * apply (div_coarser a v _ (32 - 30)); [lia|done].
Qed.

(** The interface addresses inside the link. *)
Lemma HostOverlap_refuse l host v :
  Net l = mkPrefix (A4 v) 30 -> v mod 4 = 0 ->
  (HostOverlap l host).1 = [] <->
  Forall (fun p => forall a, Unmap (pAddr p) = A4 a -> ~ (v <= a < v + 4)) host.
Proof.
  intros Hl Hm. unfold HostOverlap.
  cut (forall acc, (foldl (overlap_step l) acc host).1 = [] <->
    acc.1 = [] /\ Forall (fun p => forall a, Unmap (pAddr p) = A4 a -> ~ (v <= a < v + 4)) host).
  { intros H. rewrite H. cbn. naive_solver. }
  induction host as [|p host IH]; intros [refuse warn]; cbn [foldl fst]; [naive_solver|].
  rewrite IH, Forall_cons. clear IH. unfold overlap_step. rewrite Hl.
  destruct (Unmap (pAddr p)) as [a|a z] eqn:Hu; cbn [Is4 negb]; cycle 1.
  { cbn [fst]. naive_solver. }
  cbn [PrefixFrom withoutZone pAddr]. pose proof (contains_exact v 30 a ltac:(lia) Hm) as Hc.
  change (2 ^ (32 - 30)) with 4 in Hc. change (pAddr (PrefixFrom (A4 a) (pBits p))) with (A4 a).
  destruct (Contains (mkPrefix (A4 v) 30) (A4 a)).
  - cbn [fst]. split; [by intros [ [? [=] ]%app_nil _]|]. intros (_ & Hf & _). exfalso.
    apply (Hf a eq_refl). by apply Hc.
  - assert (Hn : ~ (v <= a < v + 4)) by (intros H; by apply Hc in H).
    destruct (_ && _); cbn [fst]; (split; [intros [? ?]|intros (? & _ & ?)]; [split_and!|split]; try done; by intros a' [= <-]).
Qed.

Lemma Disjoint_exact l v ranges :
  Net l = mkPrefix (A4 v) 30 -> 0 <= v < 2 ^ 32 ->
  Disjoint l ranges = None <-> Forall (fun r => exists p, ParsePrefix (rCIDR r) = Ok p /\
    forall a, ~ (Contains p (A4 a) = true /\ Contains (Net l) (A4 a) = true)) ranges.
Proof.
  intros Hl Hv. induction ranges as [|r ranges IH]; cbn [Disjoint]; [by split|].
  rewrite Forall_cons. destruct (ParsePrefix (rCIDR r)) as [p|e] eqn:Hp.
  - destruct (ParsePrefix_ok _ _ Hp) as [Hb Ha]. pose proof (Overlaps_exact p v Hb Ha Hv) as Ho.
    rewrite Hl in *. destruct (Overlaps p _).
    + split; [done|]. intros [ (p' & [= <-] & Hn) _]. destruct (proj1 Ho eq_refl) as (a & Ha').
      by apply Hn in Ha'.
    + rewrite IH. split; [|tauto]. intros Hf. split; [|done]. exists p. split; [done|].
      intros a Ha'. assert (false = true) by (apply Ho; eauto). done.
  - split; [done|]. by intros [ (p & [=] & _) _].
Qed.

(** Overlap checks are exact: the build-start check passes exactly when no
    host interface address (IPv4-mapped ones included) is one of the link's
    four addresses, and [Disjoint] passes exactly when every named range
    parses and shares no address with the link. *)
Theorem overlap_checks_exact cidr l host ranges :
  Parse cidr = Ok l ->
  (CheckHostOverlap l host = None <->
   Forall (fun p => forall a, Unmap (pAddr p) = A4 a -> Contains (Net l) (A4 a) = false) host) /\
  (Disjoint l ranges = None <->
   Forall (fun r => exists p, ParsePrefix (rCIDR r) = Ok p /\
     forall a, ~ (Contains p (A4 a) = true /\ Contains (Net l) (A4 a) = true)) ranges).
Proof.
  intros H. apply Parse_spec in H as (v & Hp & Hm & Hu & ->).
  destruct (ParsePrefix_v4 _ _ _ Hp) as [Hv _]. split; [|by apply (Disjoint_exact _ v)].
  pose proof (HostOverlap_refuse (mkLink (mkPrefix (A4 v) 30) (A4 (v + 1)) (A4 (v + 2))) host v eq_refl Hm) as Hr.
  unfold CheckHostOverlap. destruct (HostOverlap _ host).1 as [|a refuse].
  - split; [|done]. intros _. eapply Forall_impl; [by apply Hr|]. intros p Hf a Ha. cbn beta in Hf. cbn [Net].
    specialize (Hf a Ha). pose proof (contains_exact v 30 a ltac:(lia) Hm) as Hc.
    destruct (Contains _ _); [|done]. exfalso. apply Hf. by apply Hc.
  - split; [done|]. intros Hf. assert ((a :: refuse) = []); [|done]. apply Hr.
    eapply Forall_impl; [exact Hf|]. intros p Hf' b Hb Hin. cbn [Net] in Hf'. specialize (Hf' b Hb).
    pose proof (contains_exact v 30 b ltac:(lia) Hm) as Hc. apply Hc in Hin. congruence.
Qed.

(** ** Witnesses *)

Lemma link_claim_roundtrip_witness :
  LinkClaim.Parse (Claim Default) = Ok (Net Default, Relay Default, Guest Default).
Proof. apply (link_claim_roundtrip DefaultCIDR Default). vm_compute. reflexivity. Defined.

Lemma overlap_checks_exact_witness :
  CheckHostOverlap Default [mkPrefix (A4 (AddrFrom4 192 168 1 5)) 24] = None.
Proof.
  destruct (overlap_checks_exact DefaultCIDR Default [mkPrefix (A4 (AddrFrom4 192 168 1 5)) 24] [])
    as [H _]; [vm_compute; reflexivity|].
  apply H. constructor; [|constructor]. intros a [= <-]. vm_compute. reflexivity.
Defined.
End BuildLink.
