(* ===== verification/Proxy.v ===== *)
(** * Upstream connections (src/relay/proxy.go, relay.go)

    [Proxy] models which addresses the relay dials and which nameserver it
    asks.  The resolver and the network are parameters. *)
From Stdlib Require Import Btauto.
From S2P Require Import Prelude Text Netip BuildLink.

#[local] Open Scope Z_scope.

Module Proxy.
Import Netip.

(** The configuration that matters here: [SSRF], and [BuildLink] when valid. *)
Record Config := mkConfig { SSRF : bool; BuildLink : option Prefix }.

Definition isBlockedIP (ip : bytes) : bool :=
  if ip_IsLoopback ip then true
  else if ip_IsUnspecified ip then true
  else if ip_IsPrivate ip then true
  else if ip_IsLinkLocalUnicast ip || ip_IsLinkLocalMulticast ip then true
  else if ip_Equal ip (IPv4 Byte.xa9 Byte.xfe Byte.xa9 Byte.xfe) then true
  else if ip_Equal ip (IPv4 Byte.x64 Byte.x64 Byte.x64 Byte.xc8) then true
  else false.

Definition blockedDial (cfg : Config) (ip : bytes) : bool :=
  match AddrFromSlice ip, BuildLink cfg with
  | Some a, Some link => if Contains link (Unmap a) then true else SSRF cfg && isBlockedIP ip
  | _, _ => SSRF cfg && isBlockedIP ip
  end.

(** [IP.String] of a four- or sixteen-byte address. *)
Definition ip_String (ip : bytes) : string :=
  match AddrFromSlice ip with
  | Some a => Addr_String (Unmap a)
  | None => ""
  end.

(** [net.SplitHostPort] *)
Definition no_byte (c : ascii) (s : string) : bool := str_forallb (fun d => negb (bool_decide (d = c))) s.

Definition SplitHostPort (s : string) : result (string * string) :=
  let err := Err (Errorf "address %s" [s]) in
  match rev (Split s ":") with
  | port :: (_ :: _ as before) =>
      let host := Join (rev before) ":" in
      match host with
      | String "[" rest =>
          match Split rest "]" with
          | [h; ""] => if no_byte "[" h && no_byte "[" port && no_byte "]" port then Ok (h, port) else err
          | _ => err
          end
      | _ =>
          if no_byte ":" host && no_byte "[" s && no_byte "]" s then Ok (host, port) else err
      end
  | _ => err
  end.

Section Dial.
Context {Conn : Type}.
Context (lookup : string -> result (list bytes)) (dial : bytes -> string -> result Conn).

(** Addresses in turn until one connects; also lists what was dialed. *)
Fixpoint dial_all (host port : string) (ips : list bytes) : list bytes * result Conn :=
  match ips with
  | [] => ([], Err (Errorf "all addresses for %s failed" [host]))
  | ip :: ips' =>
      match dial ip port with
      | Ok conn => ([ip], Ok conn)
      | Err _ => let '(tried, r) := dial_all host port ips' in (ip :: tried, r)
      end
  end.

Definition safeDialContext (cfg : Config) (addr : string) : list bytes * result Conn :=
  match SplitHostPort addr with
  | Err e => ([], Err e)
  | Ok (host, port) =>
      match lookup host with
      | Err e => ([], Err e)
      | Ok ips =>
          match List.find (blockedDial cfg) ips with
          | Some ip => ([], Err (Errorf "blocked: connection to %s (%s) denied" [host; ip_String ip]))
          | None => dial_all host port ips
          end
      end
  end.

(** [buildTransport]: the dialer is replaced when there is something to block. *)
Definition custom_dialer (cfg : Config) : bool := SSRF cfg || bool_decide (is_Some (BuildLink cfg)).
End Dial.

(** The upstream nameserver. *)
Definition JoinHostPort (host port : string) : string :=
  if negb (no_byte ":" host) then ("[" ++ host ++ "]:" ++ port)%string else (host ++ ":" ++ port)%string.

Definition skip_nameserver (self : string) (link : option Prefix) (ns : string) : bool :=
  bool_decide (ns = self) || bool_decide (ns = "127.0.0.1"%string) ||
  match ParseAddr ns, link with
  | Ok a, Some l => Contains l (Unmap a)
  | _, _ => false
  end.

Fixpoint pick_lines (self : string) (link : option Prefix) (lines : list string) : string :=
  match lines with
  | [] => "8.8.8.8:53"
  | line :: lines' =>
      match Fields line with
      | f :: ns :: _ =>
          if negb (bool_decide (f = "nameserver"%string)) then pick_lines self link lines'
          else if skip_nameserver self link ns then pick_lines self link lines'
          else JoinHostPort ns "53"
      | _ => pick_lines self link lines'
      end
  end.

Definition pickNameserver (resolvConf self : string) (link : option Prefix) : string :=
  pick_lines self link (Split resolvConf "010").

(** ** Keep-alive *)
Record Req := mkReq { Close : bool; ProtoMajor : Z; ProtoMinor : Z; ConnectionHeader : string }.

Definition ProtoAtLeast (r : Req) (major minor : Z) : bool :=
  (ProtoMajor r >? major) || ((ProtoMajor r =? major) && (ProtoMinor r >=? minor)).

Definition shouldKeepAlive (req : Req) (respConnection : string) : bool :=
  if Close req then false
  else if bool_decide (respConnection = "close"%string) then false
  else if ProtoAtLeast req 1 1 then true
  else bool_decide (ConnectionHeader req = "keep-alive"%string).

(** ** What is blocked *)

(** The blocked networks. *)
Definition blocked_nets : list Prefix :=
  [mkPrefix (A4 (AddrFrom4 127 0 0 0)) 8; mkPrefix (A4 0) 32; mkPrefix (A4 (AddrFrom4 10 0 0 0)) 8;
   mkPrefix (A4 (AddrFrom4 172 16 0 0)) 12; mkPrefix (A4 (AddrFrom4 192 168 0 0)) 16;
   mkPrefix (A4 (AddrFrom4 169 254 0 0)) 16; mkPrefix (A4 (AddrFrom4 224 0 0 0)) 24;
   mkPrefix (A4 (AddrFrom4 100 100 100 200)) 32;
   mkPrefix (A6 1 "") 128; mkPrefix (A6 0 "") 128; mkPrefix (A6 (0xfc * 2 ^ 120) "") 7;
   mkPrefix (A6 (0xfe80 * 2 ^ 112) "") 10].

(** Link-local multicast [ffx2::/16], with any flags. *)
Definition link_multicast6 (a : Addr) : bool :=
  match a with
  | A4 _ => false
  | A6 v _ => (v / 2 ^ 120 =? 0xff) && (v / 2 ^ 112 mod 16 =? 2)
  end.

Definition reserved (a : Addr) : bool := existsb (fun p => Contains p a) blocked_nets || link_multicast6 a.

Lemma be_decode_app l k : be_decode (l ++ k) = be_decode l * 2 ^ (8 * len k) + be_decode k.
Proof.
  induction k as [|b k IH] using rev_ind.
  - rewrite app_nil_r. change (len []) with 0. change (be_decode []) with 0. change (2 ^ (8 * 0)) with 1. lia.
  - rewrite app_assoc, !be_decode_snoc, IH, len_app. change (len [b]) with 1.
    replace (8 * (len k + 1)) with (8 * len k + 8) by lia.
    rewrite Z.pow_add_r by (pose proof (len_nonneg k); lia). change (2 ^ 8) with 256. lia.
Qed.

Lemma be_decode_inj l k : length l = length k -> be_decode l = be_decode k -> l = k.
Proof. intros Hl Hd. by rewrite <- (be_encode_decode l), <- (be_encode_decode k), Hl, Hd. Qed.

Lemma byte_cases (P : Z -> bool) : forallb P (seqZ 0 256) = true -> forall b, P (byte_val b) = true.
Proof.
  intros Hall b. apply (proj1 (forallb_forall _ _) Hall). rewrite <- list_elem_of_In, elem_of_seqZ.
  pose proof (byte_val_range b). lia.
Qed.

Lemma land_f0 b : (Z.land (byte_val b) 0xf0 =? 16) = (byte_val b / 16 =? 1).
Proof. apply eqb_prop, (byte_cases (fun q => Bool.eqb (Z.land q 0xf0 =? 16) (q / 16 =? 1))). vm_compute. reflexivity. Qed.
Lemma land_fe b : (Z.land (byte_val b) 0xfe =? 0xfc) = (byte_val b / 2 =? 0x7e).
Proof. apply eqb_prop, (byte_cases (fun q => Bool.eqb (Z.land q 0xfe =? 0xfc) (q / 2 =? 0x7e))). vm_compute. reflexivity. Qed.
Lemma land_c0 b : (Z.land (byte_val b) 0xc0 =? 0x80) = (byte_val b / 64 =? 2).
Proof. apply eqb_prop, (byte_cases (fun q => Bool.eqb (Z.land q 0xc0 =? 0x80) (q / 64 =? 2))). vm_compute. reflexivity. Qed.
Lemma land_0f b : (Z.land (byte_val b) 0x0f =? 2) = (byte_val b mod 16 =? 2).
Proof. apply eqb_prop, (byte_cases (fun q => Bool.eqb (Z.land q 0x0f =? 2) (q mod 16 =? 2))). vm_compute. reflexivity. Qed.

(** A sixteen-byte address is mapped IPv4 when it has the prefix. *)
Lemma To4_mapped ip :
  length ip = 16%nat ->
  (be_decode ip / 2 ^ 32 =? 0xffff) = bool_decide (take 12 ip = v4InV6Prefix) /\
  be_decode ip mod 2 ^ 32 = be_decode (drop 12 ip).
Proof.
  intros Hl. pose proof (be_decode_app (take 12 ip) (drop 12 ip)) as Hs. rewrite take_drop in Hs. rewrite Hs.
  assert (Hd : length (drop 12 ip) = 4%nat) by (rewrite length_drop; lia).
  assert (Hlen : 8 * len (drop 12 ip) = 32) by (unfold len; rewrite Hd; lia). rewrite Hlen.
  pose proof (be_decode_range (drop 12 ip)) as Hr. rewrite Hlen in Hr.
  rewrite Z.div_add_l, (Z.div_small (be_decode (drop 12 ip))), Z.add_0_r by lia.
  rewrite Z.add_comm, Z.mod_add, Z.mod_small by lia. split; [|done].
  case_bool_decide as Hp; [rewrite Hp; reflexivity|].
  apply Z.eqb_neq. intros Hv. apply Hp, be_decode_inj; [by rewrite length_take, Hl|]. by rewrite Hv.
Qed.

(** The address of four bytes. *)
Definition quad (a b c d : byte) : Z := AddrFrom4 (byte_val a) (byte_val b) (byte_val c) (byte_val d).

Lemma quad_decode a b c d : be_decode [a; b; c; d] = quad a b c d.
Proof. unfold be_decode, quad, AddrFrom4. cbn [foldl]. lia. Qed.

Lemma quad_inj a b c d a' b' c' d' :
  quad a b c d = quad a' b' c' d' -> [a; b; c; d] = [a'; b'; c'; d'].
Proof. rewrite <- !quad_decode. by apply be_decode_inj. Qed.

(** What the checks say on four bytes. *)
Definition blocked4 (ip4 : bytes) : bool :=
  (ip_byte ip4 0 =? 127) || bool_decide (ip4 = [Byte.x00; Byte.x00; Byte.x00; Byte.x00]) ||
  ((ip_byte ip4 0 =? 10) || ((ip_byte ip4 0 =? 172) && (Z.land (ip_byte ip4 1) 0xf0 =? 16)) ||
   ((ip_byte ip4 0 =? 192) && (ip_byte ip4 1 =? 168))) ||
  ((ip_byte ip4 0 =? 169) && (ip_byte ip4 1 =? 254) ||
   (ip_byte ip4 0 =? 224) && (ip_byte ip4 1 =? 0) && (ip_byte ip4 2 =? 0)) ||
  bool_decide (ip4 = [Byte.xa9; Byte.xfe; Byte.xa9; Byte.xfe]) ||
  bool_decide (ip4 = [Byte.x64; Byte.x64; Byte.x64; Byte.xc8]).

Lemma quad_bytes a b c d :
  quad a b c d / 2 ^ 24 = byte_val a /\ quad a b c d / 2 ^ 20 = byte_val a * 16 + byte_val b / 16 /\
  quad a b c d / 2 ^ 16 = byte_val a * 256 + byte_val b /\
  quad a b c d / 2 ^ 8 = byte_val a * 65536 + byte_val b * 256 + byte_val c /\
  quad a b c d / 2 ^ 0 = quad a b c d.
Proof.
  unfold quad, AddrFrom4. pose proof (byte_val_range a). pose proof (byte_val_range b).
  pose proof (byte_val_range c). pose proof (byte_val_range d).
  split_and!; try div_lia.
Qed.

Lemma quad_eqb a b c d a' b' c' d' :
  bool_decide ([a; b; c; d] = [a'; b'; c'; d']) = (quad a' b' c' d' =? quad a b c d).
Proof.
  case_bool_decide as H; symmetry; [injection H as -> -> -> ->; apply Z.eqb_refl|].
  apply Z.eqb_neq. intros He. by apply H, quad_inj.
Qed.

Lemma pair_eqb k a b x y :
  0 <= b < k -> 0 <= y < k -> (x * k + y =? a * k + b) = ((a =? x) && (b =? y)).
Proof.
  intros Hb Hy. apply eq_true_iff_eq. rewrite andb_true_iff, !Z.eqb_eq. split; [|by intros [-> ->] ].
  intros H. destruct (Z.lt_trichotomy a x) as [? | [-> | ?] ]; [nia|split; [done|lia]|nia].
Qed.

Lemma blocked4_exact a b c d : blocked4 [a; b; c; d] = reserved (A4 (quad a b c d)).
Proof.
  unfold blocked4, reserved, ip_byte. cbn [lookup list_lookup]. rewrite land_f0, !quad_eqb.
  unfold blocked_nets, Contains. cbn [existsb pAddr pBits link_multicast6].
  change (32 - 8) with 24. change (32 - 12) with 20. change (32 - 16) with 16.
  change (32 - 24) with 8. change (32 - 32) with 0. destruct (quad_bytes a b c d) as (-> & -> & -> & -> & ->).
  pose proof (byte_val_range a). pose proof (byte_val_range b).
  pose proof (byte_val_range c). pose proof (byte_val_range d).
  assert (E1 : (AddrFrom4 127 0 0 0 / 2 ^ 24 =? byte_val a) = (byte_val a =? 127)) by apply Z.eqb_sym.
  assert (E2 : (AddrFrom4 10 0 0 0 / 2 ^ 24 =? byte_val a) = (byte_val a =? 10)) by apply Z.eqb_sym.
  assert (E3 : (AddrFrom4 172 16 0 0 / 2 ^ 20 =? byte_val a * 16 + byte_val b / 16) =
    ((byte_val a =? 172) && (byte_val b / 16 =? 1))).
  { change (AddrFrom4 172 16 0 0 / 2 ^ 20) with (172 * 16 + 1). apply pair_eqb; clear E1 E2; div_lia. }
  assert (E4 : (AddrFrom4 192 168 0 0 / 2 ^ 16 =? byte_val a * 256 + byte_val b) =
    ((byte_val a =? 192) && (byte_val b =? 168))).
  { change (AddrFrom4 192 168 0 0 / 2 ^ 16) with (192 * 256 + 168). apply pair_eqb; done. }
  assert (E5 : (AddrFrom4 169 254 0 0 / 2 ^ 16 =? byte_val a * 256 + byte_val b) =
    ((byte_val a =? 169) && (byte_val b =? 254))).
  { change (AddrFrom4 169 254 0 0 / 2 ^ 16) with (169 * 256 + 254). apply pair_eqb; done. }
  assert (E6 : (AddrFrom4 224 0 0 0 / 2 ^ 8 =? byte_val a * 65536 + byte_val b * 256 + byte_val c) =
    ((byte_val a =? 224) && (byte_val b =? 0) && (byte_val c =? 0))).
  { change (AddrFrom4 224 0 0 0 / 2 ^ 8) with ((224 * 256 + 0) * 256 + 0).
    replace (byte_val a * 65536 + byte_val b * 256) with ((byte_val a * 256 + byte_val b) * 256)
      by (clear E1 E2 E3 E4 E5; lia).
    rewrite (pair_eqb 256) by done. rewrite (Z.eqb_sym (byte_val a * 256 + byte_val b)).
    by rewrite (pair_eqb 256) by done. }
  assert (E7 : (quad Byte.xa9 Byte.xfe Byte.xa9 Byte.xfe =? quad a b c d) = true ->
    ((byte_val a =? 169) && (byte_val b =? 254)) = true).
  { intros He%Z.eqb_eq%quad_inj. by injection He as <- <- <- <-. }
  change (AddrFrom4 100 100 100 200 / 2 ^ 0) with (quad Byte.x64 Byte.x64 Byte.x64 Byte.xc8).
  change (0 / 2 ^ 0) with (quad Byte.x00 Byte.x00 Byte.x00 Byte.x00).
  rewrite E1, E2, E3, E4, E5, E6. cbn [Z.leb Z.compare Pos.compare Pos.compare_cont andb].
  revert E7. generalize (quad Byte.xa9 Byte.xfe Byte.xa9 Byte.xfe =? quad a b c d) as x.
  intros [] E7; [rewrite E7 by done|]; clear; btauto.
Qed.

Lemma ip_Equal_v4 ip ip4 x4 :
  To4 ip = Some ip4 -> length x4 = 4%nat -> ip_Equal ip (v4InV6Prefix ++ x4) = bool_decide (ip4 = x4).
Proof.
  unfold To4, ip_Equal. intros Ht Hx.
  assert (Hl : length (v4InV6Prefix ++ x4) = 16%nat) by (rewrite length_app, Hx; done). rewrite Hl.
  destruct (decide (length ip = 4%nat)) as [H4|H4].
  - injection Ht as <-. rewrite H4. rewrite decide_False by done. rewrite decide_True by done.
    apply bool_decide_ext. change (take 12 (v4InV6Prefix ++ x4)) with v4InV6Prefix.
    change (drop 12 (v4InV6Prefix ++ x4)) with x4. naive_solver.
  - destruct (decide _) as [ [H16 Hp]|]; [|done]. injection Ht as <-. rewrite decide_True by done.
    apply bool_decide_ext. split; [by intros ->|]. intros <-. by rewrite <- Hp, take_drop.
Qed.

Lemma To4_length ip ip4 : To4 ip = Some ip4 -> length ip4 = 4%nat.
Proof.
  unfold To4. case_decide; [by intros [= <-]|]. case_decide as H16; [|done].
  intros [= <-]. rewrite length_drop. lia.
Qed.

Lemma To4_not_zero ip ip4 : To4 ip = Some ip4 -> ip_Equal ip IPv6unspecified = false.
Proof.
  unfold To4, ip_Equal. intros Ht. change (length IPv6unspecified) with 16%nat.
  destruct (decide (length ip = 4%nat)) as [H4|H4].
  - rewrite H4. rewrite decide_False, decide_True by done. apply bool_decide_eq_false. by intros [ [=] _].
  - destruct (decide _) as [ [H16 Hp]|]; [|done]. rewrite decide_True by done.
    apply bool_decide_eq_false. intros ->. discriminate Hp.
Qed.

Lemma isBlockedIP_v4 ip ip4 : To4 ip = Some ip4 -> isBlockedIP ip = blocked4 ip4.
Proof.
  intros Ht. unfold isBlockedIP, blocked4, ip_IsLoopback, ip_IsUnspecified, ip_IsPrivate,
    ip_IsLinkLocalUnicast, ip_IsLinkLocalMulticast, IPv4.
  rewrite (To4_not_zero ip ip4 Ht), Ht, !(ip_Equal_v4 ip ip4) by done. rewrite orb_false_r.
  repeat match goal with |- context [if ?b then true else _] => destruct b; cbn [orb]; [by rewrite ?orb_true_r|] end.
  by rewrite ?orb_false_r.
Qed.

Lemma first_bytes ip :
  length ip = 16%nat ->
  be_decode ip / 2 ^ 120 = ip_byte ip 0 /\ be_decode ip / 2 ^ 112 = ip_byte ip 0 * 256 + ip_byte ip 1 /\
  0 <= ip_byte ip 0 < 256 /\ 0 <= ip_byte ip 1 < 256.
Proof.
  destruct ip as [|a [|b ip] ]; [done|done|]. cbn [length]. intros Hl.
  assert (Hlen : len ip = 14) by (unfold len; lia).
  unfold ip_byte. cbn [lookup list_lookup]. pose proof (byte_val_range a). pose proof (byte_val_range b).
  change (a :: b :: ip) with ([a; b] ++ ip). rewrite be_decode_app, Hlen.
  pose proof (be_decode_range ip) as Hr. rewrite Hlen in Hr. change (8 * 14) with 112 in *.
  assert (Hab : be_decode [a; b] = byte_val a * 256 + byte_val b) by (unfold be_decode; cbn [foldl]; lia).
  rewrite Hab. clear Hab Hl Hlen. split_and!; try lia.
  - change (2 ^ 120) with (2 ^ 112 * 256). rewrite <- Z.div_div by lia.
    rewrite Z.div_add_l, (Z.div_small (be_decode ip)) by lia. div_lia.
  - rewrite Z.div_add_l, (Z.div_small (be_decode ip)) by lia. lia.
Qed.

Lemma ip_byte_val ip i : (i < length ip)%nat -> exists b, ip_byte ip i = byte_val b.
Proof. intros Hi. unfold ip_byte. destruct (ip !! i) as [b|] eqn:H; [eauto|]. apply lookup_ge_None in H. lia. Qed.

Lemma isBlockedIP_v6 ip :
  length ip = 16%nat -> To4 ip = None -> isBlockedIP ip = reserved (A6 (be_decode ip) "").
Proof.
  intros Hl Ht.
  assert (Hnp : take 12 ip <> v4InV6Prefix).
  { intros Hp. unfold To4 in Ht. rewrite decide_False in Ht by (rewrite Hl; done).
    rewrite decide_True in Ht by done. done. }
  assert (Heq : forall x, length x = 16%nat -> ip_Equal ip x = (be_decode x =? be_decode ip)).
  { intros x Hx. unfold ip_Equal. rewrite decide_True by congruence.
    case_bool_decide as H; symmetry; [rewrite H; apply Z.eqb_refl|].
    apply Z.eqb_neq. intros He. by apply H, be_decode_inj; [congruence|]. }
  assert (Hv4 : forall x4, length x4 = 4%nat -> ip_Equal ip (v4InV6Prefix ++ x4) = false).
  { intros x4 Hx. unfold ip_Equal. rewrite decide_True by (rewrite length_app, Hl, Hx; done).
    apply bool_decide_eq_false. intros ->. by apply Hnp. }
  destruct (first_bytes ip Hl) as (Hq0 & Hq1 & Hr0 & Hr1).
  assert (Hlen : (len ip =? 16) = true) by (apply Z.eqb_eq; unfold len; lia).
  unfold isBlockedIP, ip_IsLoopback, ip_IsUnspecified, ip_IsPrivate,
    ip_IsLinkLocalUnicast, ip_IsLinkLocalMulticast, IPv4.
  rewrite Ht, !Hv4, !Heq, Hlen by done. cbn [orb andb].
  unfold reserved, blocked_nets, Contains. cbn [existsb pAddr pBits link_multicast6 orb].
  rewrite !andb_false_r. cbn [orb].
  change (128 - 128) with 0. change (128 - 7) with (120 + 1). change (128 - 10) with (112 + 6).
  rewrite !Z.pow_add_r, <- !Z.div_div, Hq0, Hq1 by lia.
  rewrite !Z.div_1_r.
  change (be_decode IPv6loopback) with 1. change (be_decode IPv6unspecified) with 0.
  destruct (ip_byte_val ip 0) as [a Ha]; [lia|]. destruct (ip_byte_val ip 1) as [b Hb]; [lia|].
  rewrite Ha, Hb in *. rewrite land_fe, land_c0, land_0f.
  assert (E1 : ((252 * 2 ^ 120) / 2 ^ 120 / 2 ^ 1 =? byte_val a / 2 ^ 1) = (byte_val a / 2 =? 126)).
  { rewrite Z.div_mul by lia. apply Z.eqb_sym. }
  assert (E2 : ((65152 * 2 ^ 112) / 2 ^ 112 / 2 ^ 6 =? (byte_val a * 256 + byte_val b) / 2 ^ 6) =
    ((byte_val a =? 254) && (byte_val b / 64 =? 2))).
  { rewrite Z.div_mul by lia. change (65152 / 2 ^ 6) with (254 * 4 + 2).
    replace ((byte_val a * 256 + byte_val b) / 2 ^ 6) with (byte_val a * 4 + byte_val b / 64)
      by (clear -Hr1; change (2 ^ 6) with 64; div_lia).
    apply pair_eqb; [clear -Hr1; div_lia|lia]. }
  assert (E3 : (byte_val a * 256 + byte_val b) mod 16 = byte_val b mod 16) by (clear; div_lia).
  rewrite E1, E2, E3. clear. cbn [Z.leb Z.compare Pos.compare Pos.compare_cont andb].
  repeat match goal with |- context [if ?b then true else _] => destruct b; cbn [orb]; [done|] end.
  btauto.
Qed.

Lemma isBlockedIP_reserved ip a : AddrFromSlice ip = Some a -> isBlockedIP ip = reserved (Unmap a).
Proof.
  unfold AddrFromSlice. destruct (decide (length ip = 4%nat)) as [H4|H4].
  - intros [= <-]. assert (Ht : To4 ip = Some ip) by (unfold To4; by rewrite decide_True).
    rewrite (isBlockedIP_v4 ip ip Ht). destruct ip as [|a [|b [|c [|d [|? ?] ] ] ] ]; try done.
    rewrite quad_decode. apply blocked4_exact.
  - destruct (decide (length ip = 16%nat)) as [H16|]; [|done]. intros [= <-].
    destruct (To4_mapped ip H16) as [Hm Hd]. cbn [Unmap]. rewrite Hm, Hd. case_bool_decide as Hp.
    + assert (Ht : To4 ip = Some (drop 12 ip)) by (unfold To4; by rewrite decide_False, decide_True by done).
      rewrite (isBlockedIP_v4 ip _ Ht). pose proof (To4_length ip _ Ht) as Hl.
      destruct (drop 12 ip) as [|a [|b [|c [|d [|? ?] ] ] ] ]; try done.
      rewrite quad_decode. apply blocked4_exact.
    + apply isBlockedIP_v6; [done|]. unfold To4. rewrite decide_False by done.
      rewrite decide_False; [done|]. by intros [_ ?].
Qed.

(** ** Dialing *)

(** An address the dialer refuses. *)
Definition refused (cfg : Config) (a : Addr) : bool :=
  match BuildLink cfg with Some link => Contains link (Unmap a) | None => false end ||
  SSRF cfg && reserved (Unmap a).

Lemma blockedDial_refused cfg ip a : AddrFromSlice ip = Some a -> blockedDial cfg ip = refused cfg a.
Proof.
  intros Ha. unfold blockedDial, refused. rewrite Ha, <- (isBlockedIP_reserved ip a Ha).
  destruct (BuildLink cfg) as [link|]; [|done]. by destruct (Contains link (Unmap a)).
Qed.

Lemma dial_all_tried {Conn} (dial : bytes -> string -> result Conn) host port ips ip :
  ip ∈ (dial_all dial host port ips).1 -> ip ∈ ips.
Proof.
  induction ips as [|i ips IH]; cbn; [done|]. destruct (dial i port).
  - cbn [fst]. rewrite list_elem_of_singleton, elem_of_cons. auto.
  - destruct (dial_all dial host port ips) as [tried r]. cbn. rewrite !elem_of_cons. naive_solver.
Qed.

Lemma pick_lines_skips self link lines :
  let ns := pick_lines self link lines in
  ns = "8.8.8.8:53"%string \/
  exists n line f rest, ns = JoinHostPort n "53" /\ line ∈ lines /\ Fields line = f :: n :: rest /\
    f = "nameserver"%string /\ skip_nameserver self link n = false.
Proof.
  cbv zeta. induction lines as [|line lines IH]; cbn [pick_lines]; [by left|].
  assert (Hweak : pick_lines self link lines = "8.8.8.8:53"%string \/
    exists n line0 f rest, pick_lines self link lines = JoinHostPort n "53" /\ line0 ∈ line :: lines /\
      Fields line0 = f :: n :: rest /\ f = "nameserver"%string /\ skip_nameserver self link n = false).
  { destruct IH as [IH|(n & l0 & f & rest & ? & ? & ?)]; [by left|right].
    exists n, l0, f, rest. split_and!; [done|by right|naive_solver..]. }
  clear IH. destruct (Fields line) as [|f [|n rest] ] eqn:Hf; [done|done|].
  case_bool_decide as Hn; [|done]. destruct (skip_nameserver self link n) eqn:Hs; [done|].
  cbn [negb]. right. exists n, line, f, rest. split_and!; [done|by left|done..].
Qed.

(** C21.  The relay never connects where it must not: whatever a name resolves
    to, no address dialed lies in the build link, nor, with SSRF protection, in
    a reserved network (loopback, unspecified, private, link-local, cloud
    metadata), IPv4-mapped addresses included; one such address among the
    answers refuses the whole name before anything is dialed; the check is in
    place whenever there is something to refuse; and the chosen nameserver is
    never the relay itself, 127.0.0.1 or an address in the build link. *)
Theorem dial_confined {Conn} lookup (dial : bytes -> string -> result Conn) cfg addr resolvConf self link :
  let '(tried, r) := safeDialContext lookup dial cfg addr in
  (forall ip a, ip ∈ tried -> AddrFromSlice ip = Some a -> refused cfg a = false) /\
  (forall host port ips ip a, SplitHostPort addr = Ok (host, port) -> lookup host = Ok ips ->
     ip ∈ ips -> AddrFromSlice ip = Some a -> refused cfg a = true -> tried = [] /\ is_ok r = false) /\
  ((exists a, refused cfg a = true) -> custom_dialer cfg = true) /\
  (pickNameserver resolvConf self link = "8.8.8.8:53"%string \/
   exists ns, pickNameserver resolvConf self link = JoinHostPort ns "53" /\ ns <> self /\
     ns <> "127.0.0.1"%string /\
     forall a l, ParseAddr ns = Ok a -> link = Some l -> Contains l (Unmap a) = false).
Proof.
  assert (Hcustom : (exists a, refused cfg a = true) -> custom_dialer cfg = true).
  { intros [a Ha]. unfold refused in Ha. unfold custom_dialer. destruct (BuildLink cfg); [by rewrite orb_true_r|].
    by destruct (SSRF cfg). }
  assert (Hns : pickNameserver resolvConf self link = "8.8.8.8:53"%string \/
   exists ns, pickNameserver resolvConf self link = JoinHostPort ns "53" /\ ns <> self /\
     ns <> "127.0.0.1"%string /\
     forall a l, ParseAddr ns = Ok a -> link = Some l -> Contains l (Unmap a) = false).
  { destruct (pick_lines_skips self link (Split resolvConf "010")) as [H|(n & ? & ? & ? & H & _ & _ & _ & Hs)];
      [by left|right].
    unfold skip_nameserver in Hs. apply orb_false_iff in Hs as [Hs Hl]. apply orb_false_iff in Hs as [H1 H2].
    bool_to_prop. exists n. split_and!; [done..|]. intros a l Ha ->. by rewrite Ha in Hl. }
  destruct (safeDialContext lookup dial cfg addr) as [tried r] eqn:Hd. unfold safeDialContext in Hd.
  destruct (SplitHostPort addr) as [ [host port]|e]; cycle 1.
  { injection Hd as <- <-. split_and!; [by intros ? ? ?%elem_of_nil|done|done|done]. }
  destruct (lookup host) as [ips|e] eqn:Hlk; cycle 1.
  { injection Hd as <- <-. split_and!; [by intros ? ? ?%elem_of_nil| |done|done].
    intros host' port' ips ip a [= <- <-]. by rewrite Hlk. }
  destruct (List.find (blockedDial cfg) ips) as [ip|] eqn:Hf.
  - injection Hd as <- <-. split_and!; [by intros ? ? ?%elem_of_nil|done|done|done].
  - pose proof (find_none _ _ Hf) as Hnone. split_and!; [| |done|done].
    + intros ip a Hin Ha. rewrite <- (blockedDial_refused cfg ip a Ha). apply Hnone, list_elem_of_In.
      apply (dial_all_tried dial host port). by rewrite Hd.
    + intros host' port' ips' ip a [= <- <-] Hl Hin Ha Href. rewrite Hlk in Hl. injection Hl as <-.
      rewrite <- (blockedDial_refused cfg ip a Ha) in Href. apply list_elem_of_In, Hnone in Hin. congruence.
Qed.
End Proxy.
