(* ===== verification/Claim.v ===== *)
(** * The claim protocol (src/relaycfg/relaycfg.go, tunnel.go)

    [ClaimServer] is the relay's side, with requests in flight at once: the
    handlers' steps between lock operations interleave freely.  [Claim] is the
    orchestrator's side. *)
From S2P Require Import Prelude Text Netip BuildLink.

#[local] Open Scope Z_scope.

(** The environment of a claim, which the relay records. *)
Module ClaimEnvironment.
Record EnvConfig := mkEnv { eType : string; ePayload : bytes; eMeta : bytes }.
End ClaimEnvironment.

Module ClaimServer.
Import LinkClaim ClaimEnvironment.

Definition TunnelURL : string := "http://collector.tunnel".

Record Config := mkConfig {
  CollectorURL : string; CollectorToken : string; CaptureMode : string;
  UpstreamCACerts : list string; UpstreamSystemCA : option bool;
  CfgEnvironment : option EnvConfig; CfgBuildLink : option BuildLink }.

Record Identity := mkIdentity { CACert : string; LedgerPublicKey : string }.

(** The JSON codec. *)
Class ConfigJson := {
  decode_config : bytes -> result Config;       (* unknown fields refused *)
  decode_identity : bytes -> result Identity }.

Record Request := mkRequest { Method : string; Authorization : string; Body : bytes }.

(** A tunnel's transport, by number. *)
Abbreviation Tunnel := nat.

Record claimServer := mkServer {
  token : string;
  claimed : bool;
  tunnel : option Tunnel }.

Definition set_claimed (s : claimServer) (b : bool) : claimServer := mkServer (token s) b (tunnel s).

(** The refusal's status, [None] when authorized. *)
Definition authorized (s : claimServer) (req : Request) : option Z :=
  if negb (bool_decide (Method req = "POST"%string)) then Some 405
  else
    let got := TrimSpace (TrimPrefix (Authorization req) "Bearer") in
    if negb (bool_decide (token s = ""%string)) && negb (bool_decide (got = token s)) then Some 401
    else None.

Definition release (s : claimServer) : claimServer := set_claimed s false.

(** [handleTunnel], all of it under the lock; [accepted] is what
    [acceptTunnel] returns.  The status is 101 when the connection is taken
    over, 500 when it could not be. *)
Definition handleTunnel (s : claimServer) (req : Request) (accepted : option Tunnel) : claimServer * Z :=
  match authorized s req with
  | Some status => (s, status)
  | None =>
      if bool_decide (is_Some (tunnel s)) || claimed s then (s, 409)
      else match accepted with
           | Some rt => (mkServer (token s) (claimed s) (Some rt), 101)
           | None => (s, 500)
           end
  end.

(** [resolveTransport]: [None] is an invalid config. *)
Definition resolveTransport (cfg : Config) (rt : option Tunnel) : option (option Tunnel) :=
  if decide (CollectorURL cfg = ""%string) then None
  else if decide (CollectorURL cfg = TunnelURL /\ rt = None) then None
  else if decide (CollectorURL cfg <> TunnelURL) then Some None
  else Some rt.

Definition maxBody : Z := Z.shiftl 16 20.

Section Claim.
Context {CJ : ConfigJson}.

(** [handleClaim] up to the unlock: the refusal's status, or the transport it
    goes on with. *)
Definition claim_lock (s : claimServer) (req : Request) : claimServer * (Z + option Tunnel) :=
  match authorized s req with
  | Some status => (s, inl status)
  | None =>
      if claimed s then (s, inl 409)
      else (set_claimed s true, inr (tunnel s))
  end.

(** Its middle part: the config and transport [start] is called with, or 400
    (the claim is then released). *)
Definition claim_check (body : bytes) (rt : option Tunnel) : option (Config * option Tunnel) :=
  match decode_config (take (Z.to_nat maxBody) body) with
  | Err _ => None
  | Ok cfg =>
      match CfgBuildLink cfg with
      | Some link =>
          match Parse link with
          | Err _ => None
          | Ok _ => rt ← resolveTransport cfg rt; Some (cfg, rt)
          end
      | None => rt ← resolveTransport cfg rt; Some (cfg, rt)
      end
  end.

(** ** The server at work *)

(** Where a claim past the lock is. *)
Inductive phase :=
  | Checking (body : bytes) (rt : option Tunnel)
  | Starting (cfg : Config) (rt : option Tunnel).

(** [results] is what the [result] channel was sent, [starts] the calls of
    [start], [tunnels] the tunnels opened, [replies] the statuses answered. *)
Record sys := mkSys {
  srv : claimServer;
  threads : gmap nat phase;
  results : list (option error);
  starts : list (Config * option Tunnel);
  tunnels : list Tunnel;
  replies : list (nat * Z) }.

Inductive event :=
  | TunnelRequest (i : nat) (req : Request) (accepted : option Tunnel)
  | ClaimRequest (i : nat) (req : Request)
  | Check (i : nat)
  | Started (i : nat) (r : result Identity).

Definition reply (s : sys) (v : claimServer) (ts : gmap nat phase) (res : list (option error)) (i : nat) (st : Z) : sys :=
  mkSys v ts res (starts s) (tunnels s) (replies s ++ [(i, st)]).

(** One step; [None] when there is no such request in flight. *)
Definition step (s : sys) (e : event) : option sys :=
  match e with
  | TunnelRequest i req accepted =>
      let '(v, st) := handleTunnel (srv s) req accepted in
      Some (mkSys v (threads s) (results s) (starts s)
              (match accepted with
               | Some t => if st =? 101 then tunnels s ++ [t] else tunnels s
               | None => tunnels s
               end) (replies s ++ [(i, st)]))
  | ClaimRequest i req =>
      if bool_decide (is_Some (threads s !! i)) then None else
      match claim_lock (srv s) req with
      | (v, inl st) => Some (reply s v (threads s) (results s) i st)
      | (v, inr rt) =>
          Some (mkSys v (<[i := Checking (Body req) rt]> (threads s)) (results s) (starts s) (tunnels s) (replies s))
      end
  | Check i =>
      match threads s !! i with
      | Some (Checking body rt) =>
          match claim_check body rt with
          | None => Some (reply s (release (srv s)) (delete i (threads s)) (results s) i 400)
          | Some (cfg, rt) =>
              Some (mkSys (srv s) (<[i := Starting cfg rt]> (threads s)) (results s)
                      (starts s ++ [(cfg, rt)]) (tunnels s) (replies s))
          end
      | _ => None
      end
  | Started i r =>
      match threads s !! i with
      | Some (Starting cfg rt) =>
          match r with
          | Ok _ => Some (reply s (srv s) (delete i (threads s)) (results s ++ [None]) i 200)
          | Err e =>
              if errors_Is e ErrRefused
              then Some (reply s (release (srv s)) (delete i (threads s)) (results s) i 400)
              else Some (reply s (srv s) (delete i (threads s)) (results s ++ [Some e]) i 500)
          end
      | _ => None
      end
  end.

Fixpoint run (s : sys) (es : list event) : option sys :=
  match es with [] => Some s | e :: es' => s' ← step s e; run s' es' end.

Definition Serve (tok : string) : sys := mkSys (mkServer tok false None) ∅ [] [] [] [].

(** ** The orchestrator's side *)
Definition ErrRejected : error := Sentinel "relaycfg: claim rejected".

(** [parseClaimResponse] *)
Definition parseClaimResponse (status : Z) (body : bytes) : result Identity :=
  if negb (status =? 200) then Err (Wrap (Itoa status ++ string_of (take 4096 body)) ErrRejected)
  else match decode_identity body with
       | Err e => Err (Wrap "relaycfg: decoding identity" e)
       | Ok id =>
           if decide (CACert id = ""%string) then Err (Msg "relaycfg: relay returned no CA certificate")
           else Ok id
       end.

(** An attempt: no connection, or an answer. *)
Inductive attempt := NoConnection (e : error) | Answer (status : Z) (body : bytes).

(** [Claim]: [attempts] are the attempts until the context ends; how many were
    made is returned too. *)
Fixpoint Claim (last : error) (attempts : list attempt) : nat * result Identity :=
  match attempts with
  | [] => (O, Err (Wrap "relaycfg: relay never accepted the claim" last))
  | NoConnection e :: rest => let '(n, r) := Claim e rest in (S n, r)
  | Answer status body :: _ => (1%nat, parseClaimResponse status body)
  end.

(** ** What the server promises

    Its abstract state: free, working on one claim, or consumed with a result. *)
Inductive mode := Free | Working (i : nat) (p : phase) | Consumed (r : option error).

Definition implements (s : sys) (m : mode) : Prop :=
  match m with
  | Free => claimed (srv s) = false /\ threads s = ∅ /\ results s = []
  | Working i p => claimed (srv s) = true /\ threads s = {[i := p]} /\ results s = []
  | Consumed r => claimed (srv s) = true /\ threads s = ∅ /\ results s = [r]
  end.

(** A start: the link is valid, the transport is the open tunnel exactly when
    the URL names it. *)
Definition good_start (ts : list Tunnel) (x : Config * option Tunnel) : Prop :=
  CollectorURL x.1 <> ""%string /\
  (forall link, CfgBuildLink x.1 = Some link -> is_ok (Parse link) = true) /\
  (CollectorURL x.1 = TunnelURL -> exists t, x.2 = Some t /\ ts = [t]) /\
  (CollectorURL x.1 <> TunnelURL -> x.2 = None).

Definition phase_ok (s : sys) (p : phase) : Prop :=
  match p with
  | Checking _ rt => rt = tunnel (srv s)
  | Starting cfg rt => good_start (tunnels s) (cfg, rt)
  end.

Record inv (tok : string) (s : sys) : Prop := {
  iv_mode : exists m, implements s m;
  iv_phase : forall i p, threads s !! i = Some p -> phase_ok s p;
  iv_token : token (srv s) = tok;
  iv_tunnels : tunnels s = match tunnel (srv s) with Some t => [t] | None => [] end;
  iv_starts : Forall (good_start (tunnels s)) (starts s) }.

(** The abstract steps. *)
Inductive mode_step : mode -> mode -> Prop :=
  | mode_stay m : mode_step m m
  | mode_claim i body rt : mode_step Free (Working i (Checking body rt))
  | mode_invalid i body rt : mode_step (Working i (Checking body rt)) Free
  | mode_start i body rt cfg rt' :
      claim_check body rt = Some (cfg, rt') ->
      mode_step (Working i (Checking body rt)) (Working i (Starting cfg rt'))
  | mode_refused i cfg rt : mode_step (Working i (Starting cfg rt)) Free
  | mode_done i cfg rt r : mode_step (Working i (Starting cfg rt)) (Consumed r).

Lemma claim_check_good body rt ts cfg rt' :
  ts = match rt with Some t => [t] | None => [] end ->
  claim_check body rt = Some (cfg, rt') -> good_start ts (cfg, rt').
Proof.
  intros Hts. unfold claim_check. destruct (decode_config _) as [c|]; [|done]. intros H.
  assert (Hr : resolveTransport c rt = Some rt' /\ c = cfg /\
    (forall link, CfgBuildLink c = Some link -> is_ok (Parse link) = true)).
  { destruct (CfgBuildLink c) as [link|] eqn:Hl.
    - destruct (Parse link) eqn:Hp; [|done]. apply bind_Some in H as (x & Hx & [= <- <-]).
      split_and!; [done|done|]. intros link' [= <-]. by rewrite Hp.
    - apply bind_Some in H as (x & Hx & [= <- <-]). by split_and!. }
  destruct Hr as (Hr & <- & Hlink). unfold resolveTransport in Hr.
  destruct (decide (CollectorURL c = ""%string)); [done|].
  destruct (decide (CollectorURL c = TunnelURL /\ rt = None)) as [|Hn]; [done|].
  destruct (decide (CollectorURL c <> TunnelURL)) as [Hu|Hu]; injection Hr as <-.
  - split_and!; done.
  - split_and!; cbn; [done|done| |done]. intros Hu'. destruct rt as [t|]; [eauto|]. exfalso. by apply Hn.
Qed.

Lemma good_start_grow t x : good_start [] x -> good_start [t] x.
Proof. intros (H1 & H2 & H3 & H4). split_and!; [done|done| |done]. intros H. destruct (H3 H) as (t' & _ & [=]). Qed.

Lemma implements_thread s m i p : implements s m -> threads s !! i = Some p -> m = Working i p.
Proof.
  destruct m as [|j q|r]; intros (_ & -> & _) H.
  - by rewrite lookup_empty in H.
  - apply lookup_singleton_Some in H as [-> ->]. done.
  - by rewrite lookup_empty in H.
Qed.

Lemma implements_claimed s m : implements s m -> claimed (srv s) = false -> m = Free.
Proof. destruct m; intros (Hc & _) H; congruence || done. Qed.

Lemma step_mode s e s' m :
  implements s m -> step s e = Some s' -> exists m', implements s' m' /\ mode_step m m'.
Proof.
  intros Hm Hst. destruct e as [i req acc|i req|i|i r]; cbn [step] in Hst.
  - unfold handleTunnel in Hst. exists m. split; [|constructor].
    destruct (authorized (srv s) req); [injection Hst as <-; by destruct m|].
    destruct (_ || _); [injection Hst as <-; by destruct m|].
    destruct acc; injection Hst as <-; by destruct m.
  - case_bool_decide; [done|]. unfold claim_lock in Hst. destruct (authorized (srv s) req).
    { injection Hst as <-. exists m. split; [by destruct m|constructor]. }
    destruct (claimed (srv s)) eqn:Hc.
    { injection Hst as <-. exists m. split; [by destruct m|constructor]. }
    injection Hst as <-. assert (m = Free) as -> by by eapply implements_claimed.
    destruct Hm as (_ & Ht & Hr). exists (Working i (Checking (Body req) (tunnel (srv s)))).
    split; [|constructor]. split_and!; cbn; [done| |done]. rewrite Ht. apply insert_empty.
  - destruct (threads s !! i) as [ [body rt|]|] eqn:Hi; [|done|done].
    assert (m = Working i (Checking body rt)) as -> by by eapply implements_thread.
    destruct Hm as (Hc & Ht & Hr). destruct (claim_check body rt) as [ [cfg rt']|] eqn:Hcc; injection Hst as <-.
    + exists (Working i (Starting cfg rt')). split; [|by constructor]. split_and!; cbn; [done| |done].
      by rewrite Ht, insert_singleton_eq.
    + exists Free. split; [|constructor]. split_and!; cbn; [done| |done]. by rewrite Ht, delete_singleton_eq.
  - destruct (threads s !! i) as [ [|cfg rt]|] eqn:Hi; [done| |done].
    assert (m = Working i (Starting cfg rt)) as -> by by eapply implements_thread.
    destruct Hm as (Hc & Ht & Hr). destruct r as [id|e]; [|destruct (errors_Is e ErrRefused)]; injection Hst as <-.
    + exists (Consumed None). split; [|constructor]. split_and!; cbn; [done|by rewrite Ht, delete_singleton_eq|by rewrite Hr].
    + exists Free. split; [|constructor]. split_and!; cbn; [done|by rewrite Ht, delete_singleton_eq|done].
    + exists (Consumed (Some e)). split; [|constructor].
      split_and!; cbn; [done|by rewrite Ht, delete_singleton_eq|by rewrite Hr].
Qed.

Lemma step_inv tok s e s' : inv tok s -> step s e = Some s' -> inv tok s'.
Proof.
  intros [ [m Hm] Hp Htok Htun Hst] Hs.
  assert (Hm' : exists m', implements s' m') by (destruct (step_mode s e s' m Hm Hs) as (m' & ? & _); eauto).
  destruct e as [i req acc|i req|i|i r]; cbn [step] in Hs.
  - unfold handleTunnel in Hs. destruct (authorized (srv s) req) as [st|] eqn:Ha.
    { injection Hs as <-. assert (st =? 101 = false) as Hst1.
      { unfold authorized in Ha. repeat case_match; try done; by injection Ha as <-. }
      rewrite Hst1 in *. split; cbn in *; destruct acc; done. }
    destruct (bool_decide_reflect (is_Some (tunnel (srv s)))) as [Hopen|Hopen]; cbn [orb] in Hs.
    { injection Hs as <-. split; cbn in *; destruct acc; done. }
    destruct (claimed (srv s)) eqn:Hc.
    { injection Hs as <-. split; cbn in *; destruct acc; done. }
    destruct acc as [t|]; injection Hs as <-; [|by split].
    assert (m = Free) as -> by by eapply implements_claimed. destruct Hm as (_ & Hth & _).
    assert (Hnone : tunnel (srv s) = None) by (destruct (tunnel (srv s)); [exfalso; eauto|done]).
    rewrite Hnone in Htun. split; cbn in *; try done.
    + intros j p Hj. by rewrite Hth, lookup_empty in Hj.
    + by rewrite Htun.
    + rewrite Htun in *. eapply Forall_impl; [exact Hst|]. apply good_start_grow.
  - case_bool_decide; [done|]. unfold claim_lock in Hs. destruct (authorized (srv s) req).
    { injection Hs as <-. by split. }
    destruct (claimed (srv s)); injection Hs as <-; [by split|].
    split; cbn in *; try done. intros j p [ [<- <-]|[_ Hj] ]%lookup_insert_Some; [done|].
    specialize (Hp j p Hj). by destruct p.
  - destruct (threads s !! i) as [ [body rt|]|] eqn:Hi; [|done|done]. pose proof (Hp i _ Hi) as Hrt. cbn in Hrt.
    destruct (claim_check body rt) as [ [cfg rt']|] eqn:Hcc; injection Hs as <-.
    + pose proof (claim_check_good body rt (tunnels s) cfg rt' ltac:(by rewrite Hrt) Hcc) as Hg.
      split; cbn in *; try done.
      * intros j p [ [<- <-]|[_ Hj] ]%lookup_insert_Some; [done|]. specialize (Hp j p Hj). by destruct p.
      * apply Forall_app_2; [done|by constructor].
    + split; cbn in *; try done. intros j p [_ Hj]%lookup_delete_Some. specialize (Hp j p Hj). by destruct p.
  - destruct (threads s !! i) as [ [|cfg rt]|] eqn:Hi; [done| |done].
    destruct r as [id|e]; [|destruct (errors_Is e ErrRefused)]; injection Hs as <-; (split; cbn in *; try done;
      intros j p [_ Hj]%lookup_delete_Some; specialize (Hp j p Hj); by destruct p).
Qed.

Lemma Serve_inv tok : inv tok (Serve tok) /\ implements (Serve tok) Free.
Proof.
  assert (Hf : implements (Serve tok) Free) by done. split; [|done].
  split; [by exists Free|done..|constructor].
Qed.

Lemma run_inv tok es : forall s s', inv tok s -> run s es = Some s' -> inv tok s'.
Proof.
  induction es as [|e es IH]; intros s s' Hi H; cbn in H; [by injection H as <-|].
  apply bind_Some in H as (s1 & Hs & H). eapply IH; [|exact H]. by eapply step_inv.
Qed.

(** After a result nothing but refusals happens. *)
Lemma consumed_final s e s' r :
  implements s (Consumed r) -> step s e = Some s' ->
  implements s' (Consumed r) /\ starts s' = starts s /\ tunnels s' = tunnels s /\ srv s' = srv s /\
  exists i st, replies s' = replies s ++ [(i, st)] /\ st ∈ [405; 401; 409].
Proof.
  intros (Hc & Ht & Hr) Hs.
  assert (Hauth : forall req st, authorized (srv s) req = Some st -> st ∈ [405; 401; 409]).
  { intros req st. unfold authorized. destruct (negb _); [intros [= <-]; by left|].
    cbv zeta. destruct (_ && _); [|done]. intros [= <-]. right. by left. }
  destruct e as [i req acc|i req|i|i x]; cbn [step] in Hs.
  - unfold handleTunnel in Hs. rewrite Hc, orb_true_r in Hs.
    destruct (authorized (srv s) req) as [st|] eqn:Ha; injection Hs as <-.
    + apply Hauth in Ha. assert ((st =? 101) = false) as ->.
      { apply Z.eqb_neq. intros ->. by repeat (apply elem_of_cons in Ha as [?|Ha]; [done|]); apply elem_of_nil in Ha. }
      repeat split; cbn; try (by destruct acc). exists i, st. by split.
    + repeat split; cbn; try (by destruct acc). exists i, 409. split; [done|]. right. right. by left.
  - case_bool_decide; [done|]. unfold claim_lock in Hs. rewrite Hc in Hs.
    destruct (authorized (srv s) req) as [st|] eqn:Ha; injection Hs as <-.
    + repeat split; try done. exists i, st. split; [done|by eapply Hauth].
    + repeat split; try done. exists i, 409. split; [done|]. right. right. by left.
  - rewrite Ht, lookup_empty in Hs. done.
  - rewrite Ht, lookup_empty in Hs. done.
Qed.

(** C22.  One claim is consumed, whatever the interleaving of requests: the
    server is at every moment free, working on one claim, or consumed with one
    result (so the send on the [result] channel never blocks and [start] never
    runs twice at once), and moves between these only as a claim does; only an
    authorized claim that passes its checks starts, on the tunnel when and only
    when its URL names it; a refused claim frees the relay; at most one tunnel
    is opened; and once consumed, every request is refused and changes nothing. *)
Theorem claim_once tok es s :
  run (Serve tok) es = Some s ->
  (exists m, implements s m /\
     forall e s', step s e = Some s' -> exists m', implements s' m' /\ mode_step m m') /\
  (length (results s) <= 1)%nat /\ (length (tunnels s) <= 1)%nat /\
  Forall (good_start (tunnels s)) (starts s) /\
  (forall i req s', authorized (srv s) req <> None -> step s (ClaimRequest i req) = Some s' ->
     srv s' = srv s /\ threads s' = threads s /\ starts s' = starts s) /\
  (forall r e s', implements s (Consumed r) -> step s e = Some s' ->
     implements s' (Consumed r) /\ starts s' = starts s /\ tunnels s' = tunnels s /\ srv s' = srv s /\
     exists i st, replies s' = replies s ++ [(i, st)] /\ st ∈ [405; 401; 409]).
Proof.
  intros Hrun. pose proof (run_inv tok es _ _ (proj1 (Serve_inv tok)) Hrun) as [ [m Hm] Hp Htok Htun Hst].
  split_and!.
  - exists m. split; [done|]. intros e s' Hs. by eapply step_mode.
  - destruct m; destruct Hm as (_ & _ & ->); cbn; lia.
  - rewrite Htun. destruct (tunnel (srv s)); cbn; lia.
  - done.
  - intros i req s' Ha Hs. cbn [step] in Hs. case_bool_decide; [done|]. unfold claim_lock in Hs.
    destruct (authorized (srv s) req); [by injection Hs as <-|done].
  - intros r e s'. apply consumed_final.
Qed.
End Claim.

(** ** Witness *)
#[local] Instance ex_json : ConfigJson := {
  decode_config b := if decide (b = []) then Err (Msg "EOF")
                     else Ok (mkConfig TunnelURL "t" "" [] None None (Some (mkBuildLink "192.0.2.0/30" "192.0.2.1" "192.0.2.2")));
  decode_identity _ := Err (Msg "unused") }.

Definition ex_req (auth : string) (body : bytes) : Request := mkRequest "POST" auth body.

(** A claim without a tunnel is refused; with one, it starts and succeeds. *)
Definition ex_run : option sys :=
  run (Serve "s") [ClaimRequest 1 (ex_req "Bearer wrong" []); ClaimRequest 2 (ex_req "Bearer s" [Byte.x7b]);
    Check 2; TunnelRequest 3 (ex_req "Bearer s" []) (Some 7%nat); ClaimRequest 4 (ex_req "Bearer s" [Byte.x7b]);
    ClaimRequest 5 (ex_req "Bearer s" [Byte.x7b]); Check 4; Started 4 (Ok (mkIdentity "pem" "key"));
    ClaimRequest 6 (ex_req "Bearer s" [Byte.x7b])].

Lemma claim_once_witness :
  exists s, ex_run = Some s /\ (length (starts s) = 1)%nat /\ (length (results s) <= 1)%nat /\
    replies s = [(1%nat, 401); (2%nat, 400); (3%nat, 101); (5%nat, 409); (4%nat, 200); (6%nat, 409)].
Proof.
  pose proof (claim_once "s" [ClaimRequest 1 (ex_req "Bearer wrong" []); ClaimRequest 2 (ex_req "Bearer s" [Byte.x7b]);
    Check 2; TunnelRequest 3 (ex_req "Bearer s" []) (Some 7%nat); ClaimRequest 4 (ex_req "Bearer s" [Byte.x7b]);
    ClaimRequest 5 (ex_req "Bearer s" [Byte.x7b]); Check 4; Started 4 (Ok (mkIdentity "pem" "key"));
    ClaimRequest 6 (ex_req "Bearer s" [Byte.x7b])]) as H. fold ex_run in H.
  destruct ex_run as [s|] eqn:E; [|vm_compute in E; discriminate E].
  exists s. split; [reflexivity|]. destruct (H s eq_refl) as (_ & Hr & _).
  assert (Hd : (fun s => (length (starts s), replies s)) <$> ex_run =
    Some (1%nat, [(1%nat, 401); (2%nat, 400); (3%nat, 101); (5%nat, 409); (4%nat, 200); (6%nat, 409)]))
    by (vm_compute; reflexivity).
  rewrite E in Hd. injection Hd as Hd1 Hd2. split; [exact Hd1|]. split; [exact Hr|exact Hd2].
Defined.
End ClaimServer.
