(* ===== verification/Dhcp.v ===== *)
(** * The relay's link layer (src/cmd/relay/dhcp.go, ingress_dhcp.go,
    ingress_fd.go, vmlink.go)

    [Dhcp] is the stateless DHCP responder, [Frames] host mode's Ethernet loop:
    every frame comes from the untrusted guest, so slicing and indexing are
    checked, with [None] for Go's run-time panic. *)
From S2P Require Import Prelude Text Netip BuildLink.

#[local] Open Scope Z_scope.

Module Dhcp.
Import Netip.

(** ** Checked access *)

(** [l[i]] *)
Definition idx (l : bytes) (i : Z) : option byte := if 0 <=? i then l !! Z.to_nat i else None.
(** [l[i:j]] *)
Definition sub (l : bytes) (i j : Z) : option bytes :=
  if (0 <=? i) && (i <=? j) && (j <=? len l) then Some (slice l i j) else None.
(** [l[i:]] *)
Definition from (l : bytes) (i : Z) : option bytes := sub l i (len l).

(** [l[i] = b] *)
Definition set_at (l : bytes) (i : Z) (b : byte) : option bytes :=
  if (0 <=? i) && (i <? len l) then Some (<[Z.to_nat i := b]> l) else None.

(** [copy(l[i:j], src)] *)
Definition copy_to (l : bytes) (i j : Z) (src : bytes) : option bytes :=
  if (0 <=? i) && (i <=? j) && (j <=? len l) then
    let n := Z.min (j - i) (len src) in
    Some (take (Z.to_nat i) l ++ take (Z.to_nat n) src ++ drop (Z.to_nat (i + n)) l)
  else None.

Definition make (n : Z) : bytes := replicate (Z.to_nat n) Byte.x00.

(** [binary.BigEndian.PutUint16(l[i:j], v)] and [PutUint32]. *)
Definition PutUint16 (l : bytes) (i : Z) (v : Z) : option bytes := copy_to l i (i + 2) (be_encode 2 v).
Definition PutUint32 (l : bytes) (i : Z) (v : Z) : option bytes := copy_to l i (i + 4) (be_encode 4 v).

(** [binary.BigEndian.Uint16] *)
Definition Uint16 (l : bytes) (i j : Z) : option Z := be_decode <$> sub l i j.

(** ** The lease and the reply (dhcp.go) *)

Definition dhcpDiscover : Z := 1.
Definition dhcpOffer : byte := Byte.x02.
Definition dhcpRequest : Z := 3.
Definition dhcpAck : byte := Byte.x05.

Definition optSubnetMask : byte := Byte.x01.
Definition optRouter : byte := Byte.x03.
Definition optDNS : byte := Byte.x06.
Definition optLeaseTime : byte := Byte.x33.
Definition optMessageType : byte := Byte.x35.
Definition optServerID : byte := Byte.x36.
Definition optEnd : byte := Byte.xff.

Definition bootpFixedLen : Z := 236.
Definition dhcpCookie : Z := 0x63825363.
Definition dhcpInfinite : Z := 0xffffffff.

Record dhcpLease := mkLease { relay : bytes; guest : bytes; mask : bytes }.

Definition As4 (v : Z) : bytes := be_encode 4 v.

(** [newDHCPLease] for IPv4 parts, as [BuildLink.Parse] returns them. *)
Definition newDHCPLease (bits relay guest : Z) : dhcpLease :=
  mkLease (As4 relay) (As4 guest) (be_encode 4 (BuildLink.mask_bits bits)).

(** [dhcpMessageType]; [fuel] is the length of the options. *)
Fixpoint message_type (fuel : nat) (options : bytes) (found : option byte) : option (option byte) :=
  match fuel with
  | O => Some found
  | S fuel' =>
      if 0 <? len options then
        code ← idx options 0;
        if decide (code = optEnd) then Some found
        else if decide (code = Byte.x00) then options ← from options 1; message_type fuel' options found
        else if len options <? 2 then Some None
        else
          n ← byte_val <$> idx options 1;
          if len options <? 2 + n then Some None
          else
            found ← (if bool_decide (code = optMessageType) && (1 <=? n)
                     then Some <$> idx options 2 else Some found);
            options ← from options (2 + n);
            message_type fuel' options found
      else Some found
  end.
Definition dhcpMessageType (options : bytes) : option (option byte) :=
  message_type (length options) options None.

(** [put] *)
Definition put (st : bytes * Z) (code : byte) (val : bytes) : option (bytes * Z) :=
  let '(opts, i) := st in
  opts ← set_at opts i code;
  opts ← set_at opts (i + 1) (byte_of_Z (len val));
  opts ← copy_to opts (i + 2) (len opts) val;
  Some (opts, i + 2 + len val).

(** The reply's bytes: the fixed header (236 bytes), the options and padding
    to 300, for the request's [xid] and [chaddr]. *)
Definition build_reply (xid chaddr : bytes) (l : dhcpLease) (replyType : byte) : option bytes :=
  rep ← set_at (make 300) 0 Byte.x02;
  rep ← set_at rep 1 Byte.x01;
  rep ← set_at rep 2 Byte.x06;
  rep ← copy_to rep 4 8 xid;
  rep ← copy_to rep 16 20 (guest l);
  rep ← copy_to rep 20 24 (relay l);
  rep ← copy_to rep 28 34 chaddr;
  opts ← from rep bootpFixedLen;
  opts ← PutUint32 opts 0 dhcpCookie;
  st ← put (opts, 4) optMessageType [replyType];
  st ← put st optServerID (relay l);
  st ← put st optLeaseTime (be_encode 4 dhcpInfinite);
  st ← put st optSubnetMask (mask l);
  st ← put st optRouter (relay l);
  st ← put st optDNS (relay l);
  opts ← set_at st.1 st.2 optEnd;
  copy_to rep bootpFixedLen (len rep) opts.

(** [dhcpReply]: the inner option is its [ok]. *)
Definition dhcpReply (req : bytes) (l : dhcpLease) : option (option bytes) :=
  if len req <? bootpFixedLen + 4 then Some None else
  op ← idx req 0;
  if negb (byte_val op =? 1) then Some None else
  cookie ← be_decode <$> sub req bootpFixedLen (bootpFixedLen + 4);
  if negb (cookie =? dhcpCookie) then Some None else
  options ← from req (bootpFixedLen + 4);
  msgType ← dhcpMessageType options;
  match msgType with
  | None => Some None
  | Some t =>
      match (if byte_val t =? dhcpDiscover then Some dhcpOffer
             else if byte_val t =? dhcpRequest then Some dhcpAck else None) with
      | None => Some None
      | Some replyType =>
          xid ← sub req 4 8;
          chaddr ← sub req 28 34;
          Some <$> build_reply xid chaddr l replyType
      end
  end.

(** ** Options *)

(** The encoding of a list of options. *)
Definition enc_option (o : byte * bytes) : bytes := o.1 :: byte_of_Z (len o.2) :: o.2.
Definition enc_options (os : list (byte * bytes)) : bytes := mjoin (enc_option <$> os).

Definition wf_option (o : byte * bytes) : Prop := o.1 <> optEnd /\ o.1 <> Byte.x00 /\ len o.2 < 256.

(** The last non-empty message type option. *)
Definition last_type (os : list (byte * bytes)) (found : option byte) : option byte :=
  foldl (fun acc o => match o.2 with
                      | t :: _ => if decide (o.1 = optMessageType) then Some t else acc
                      | [] => acc end) found os.

Lemma idx_0 b l : idx (b :: l) 0 = Some b.
Proof. done. Qed.
Lemma idx_1 a b l : idx (a :: b :: l) 1 = Some b.
Proof. done. Qed.
Lemma idx_2 a b c l : idx (a :: b :: c :: l) 2 = Some c.
Proof. done. Qed.

Lemma from_app l k i : i = len l -> from (l ++ k) i = Some k.
Proof.
  intros ->. unfold from, sub. pose proof (len_nonneg l). pose proof (len_nonneg k). rewrite len_app.
  destruct (Z.leb_spec 0 (len l)); [|lia]. destruct (Z.leb_spec (len l) (len l + len k)); [|lia].
  rewrite Z.leb_refl. cbn [andb]. f_equal. unfold slice.
  replace (Z.to_nat (len l)) with (length l) by (unfold len; lia). rewrite drop_app_length.
  apply take_ge. unfold len. lia.
Qed.

Lemma from_some l i : 0 <= i <= len l -> from l i = Some (drop (Z.to_nat i) l).
Proof.
  intros Hi. unfold from, sub. destruct (Z.leb_spec 0 i); [|lia]. destruct (Z.leb_spec i (len l)); [|lia].
  rewrite Z.leb_refl. cbn [andb]. f_equal. unfold slice. apply take_ge. rewrite length_drop. unfold len in *. lia.
Qed.

Lemma idx_some l i : 0 <= i < len l -> exists b, idx l i = Some b.
Proof.
  intros Hi. unfold idx. destruct (Z.leb_spec 0 i); [|lia].
  destruct (l !! Z.to_nat i) eqn:E; [eauto|]. apply lookup_ge_None in E. unfold len in Hi. lia.
Qed.

Lemma sub_some l i j : 0 <= i <= j -> j <= len l -> sub l i j = Some (slice l i j).
Proof.
  intros Hi Hj. unfold sub. destruct (Z.leb_spec 0 i); [|lia]. destruct (Z.leb_spec i j); [|lia].
  destruct (Z.leb_spec j (len l)); [done|lia].
Qed.

(** The walk never reads outside the options, and always ends. *)
Lemma message_type_total fuel options found :
  (length options <= fuel)%nat -> exists t, message_type fuel options found = Some t.
Proof.
  revert options found. induction fuel as [|fuel IH]; intros options found Hf; cbn [message_type]; [eauto|].
  destruct (Z.ltb_spec 0 (len options)) as [Hn|]; [|eauto].
  destruct (idx_some options 0) as [code ->]; [lia|]. cbn [mbind option_bind].
  case_decide; [eauto|]. case_decide.
  { rewrite from_some by lia. cbn [mbind option_bind]. apply IH. rewrite length_drop. lia. }
  destruct (Z.ltb_spec (len options) 2); [eauto|].
  destruct (idx_some options 1) as [n ->]; [lia|]. cbn [fmap option_fmap option_map mbind option_bind].
  pose proof (byte_val_range n). destruct (Z.ltb_spec (len options) (2 + byte_val n)); [eauto|].
  assert (Hfound : exists f, (if bool_decide (code = optMessageType) && (1 <=? byte_val n)
    then Some <$> idx options 2 else Some found) = Some f).
  { destruct (Z.leb_spec 1 (byte_val n)); [|rewrite andb_false_r; eauto].
    destruct (idx_some options 2) as [t ->]; [lia|]. destruct (_ && _); cbn; eauto. }
  destruct Hfound as [f ->]. cbn [mbind option_bind]. rewrite from_some by lia. cbn [mbind option_bind].
  apply IH. rewrite length_drop. unfold len in *. lia.
Qed.

(** Options that were encoded are read back; padding is skipped. *)
Lemma message_type_enc os : forall fuel rest found,
  Forall wf_option os -> (length (enc_options os ++ optEnd :: rest) <= fuel)%nat ->
  message_type fuel (enc_options os ++ optEnd :: rest) found = Some (last_type os found).
Proof.
  induction os as [|[code val] os IH]; intros fuel rest found Hwf Hf.
  - destruct fuel as [|fuel]; [cbn in Hf; lia|]. cbn [message_type enc_options fmap list_fmap mjoin list_join app].
    rewrite len_cons. pose proof (len_nonneg rest).
    destruct (Z.ltb_spec 0 (1 + len rest)); [|lia]. rewrite idx_0. cbn [mbind option_bind].
    by rewrite decide_True.
  - inversion Hwf as [|? ? (Hend & Hzero & Hval) Hwf']; subst. cbn [fst snd] in *.
    unfold enc_options in *. cbn [fmap list_fmap] in *. rewrite mjoin_cons in *.
    change (enc_option (code, val)) with (code :: byte_of_Z (len val) :: val) in *. destruct fuel as [|fuel]; [cbn in Hf; lia|].
    rewrite <- app_assoc in *. cbn [app] in *.
    assert (Hrest : (length (mjoin (enc_option <$> os) ++ optEnd :: rest) <= fuel - length val)%nat)
      by (cbn [length] in Hf; rewrite length_app in Hf; lia).
    clear Hf. specialize (IH fuel rest). revert IH Hrest.
    generalize (mjoin (enc_option <$> os) ++ optEnd :: rest) as R. intros R IH Hrest.
    pose proof (len_nonneg val). pose proof (len_nonneg R). cbn [message_type].
    assert (Hlen : len (code :: byte_of_Z (len val) :: val ++ R) = 2 + len val + len R)
      by (autorewrite with golen; lia).
    rewrite Hlen, idx_0. cbn [mbind option_bind]. rewrite !decide_False by done.
    rewrite idx_1. cbn [fmap option_fmap option_map mbind option_bind].
    rewrite byte_val_of_Z, Z.mod_small by lia.
    destruct (Z.ltb_spec 0 (2 + len val + len R)); [|lia].
    destruct (Z.ltb_spec (2 + len val + len R) 2); [lia|].
    destruct (Z.ltb_spec (2 + len val + len R) (2 + len val)); [lia|].
    change (code :: byte_of_Z (len val) :: val ++ R) with ((code :: byte_of_Z (len val) :: val) ++ R).
    rewrite from_app by (autorewrite with golen; lia).
    assert (Hlast : last_type ((code, val) :: os) found =
      last_type os (match val with t :: _ => if decide (code = optMessageType) then Some t else found | [] => found end)) by done.
    rewrite Hlast. destruct val as [|t val].
    + change (1 <=? len []) with false. rewrite andb_false_r. cbn [mbind option_bind].
      apply IH; [done|]. cbn in Hrest. lia.
    + pose proof (len_nonneg val). destruct (Z.leb_spec 1 (len (t :: val))); [|rewrite len_cons in *; lia]. rewrite andb_true_r.
      case_bool_decide as Hc.
      * cbn [app]. rewrite idx_2. cbn [fmap option_fmap option_map mbind option_bind].
        rewrite decide_True by done. apply IH; [done|lia].
      * cbn [mbind option_bind]. rewrite decide_False by done. apply IH; [done|lia].
Qed.

(** ** The reply *)

Record wf_lease (l : dhcpLease) : Prop := {
  wl_relay : length (relay l) = 4%nat; wl_guest : length (guest l) = 4%nat; wl_mask : length (mask l) = 4%nat }.

Definition cookie_bytes : bytes := [Byte.x63; Byte.x82; Byte.x53; Byte.x63].

(** A BOOTREQUEST with the magic cookie and the message type [t]. *)
Definition answerable (req : bytes) (t : Z) : Prop :=
  240 <= len req /\ idx req 0 = Some Byte.x01 /\ be_decode (slice req 236 240) = dhcpCookie /\
  exists b, dhcpMessageType (drop 240 req) = Some (Some b) /\ byte_val b = t /\ (t = 1 \/ t = 3).

(** The one lease, as options. *)
Definition lease_options (l : dhcpLease) (reply : byte) : list (byte * bytes) :=
  [(optMessageType, [reply]); (optServerID, relay l); (optLeaseTime, [Byte.xff; Byte.xff; Byte.xff; Byte.xff]); (optSubnetMask, mask l);
   (optRouter, relay l); (optDNS, relay l)].

(** The reply with transaction id [xid] to the hardware address [chaddr]. *)
Definition lease_reply (xid chaddr : bytes) (l : dhcpLease) (reply : byte) : bytes :=
  [Byte.x02; Byte.x01; Byte.x06; Byte.x00] ++ xid ++ make 8 ++ guest l ++ relay l ++ make 4 ++ chaddr ++
  make 202 ++ cookie_bytes ++ enc_options (lease_options l reply) ++ [optEnd] ++ make 26.

Definition reply_type (t : Z) : byte := if t =? 1 then dhcpOffer else dhcpAck.

Lemma length_slice (l : bytes) i j : 0 <= i <= j -> j <= len l -> length (slice l i j) = Z.to_nat (j - i).
Proof. intros Hi Hj. pose proof (len_slice l i j ltac:(lia) ltac:(lia)). unfold len in *. lia. Qed.

Lemma build_reply_layout xid chaddr l t :
  wf_lease l -> length xid = 4%nat -> length chaddr = 6%nat ->
  build_reply xid chaddr l t = Some (lease_reply xid chaddr l t).
Proof.
  destruct l as [r g m]. intros [Hr Hg Hm] Hx Hc. cbn [relay guest mask] in *.
  destruct xid as [|x0 [|x1 [|x2 [|x3 [|? ?] ] ] ] ]; try done.
  destruct chaddr as [|c0 [|c1 [|c2 [|c3 [|c4 [|c5 [|? ?] ] ] ] ] ] ]; try done.
  destruct r as [|r0 [|r1 [|r2 [|r3 [|? ?] ] ] ] ]; try done.
  destruct g as [|g0 [|g1 [|g2 [|g3 [|? ?] ] ] ] ]; try done.
  destruct m as [|m0 [|m1 [|m2 [|m3 [|? ?] ] ] ] ]; try done.
Qed.

Lemma sub_ok (l : bytes) i j : 0 <= i <= j -> j <= len l ->
  exists s, sub l i j = Some s /\ s = slice l i j /\ length s = Z.to_nat (j - i).
Proof. intros Hi Hj. exists (slice l i j). rewrite sub_some, length_slice by done. done. Qed.

Lemma wf_lease_options l t : wf_lease l -> Forall wf_option (lease_options l t).
Proof.
  intros [Hr Hg Hm]. unfold lease_options, wf_option, len.
  repeat constructor; cbn [fst snd]; try done; rewrite ?Hr, ?Hm; done.
Qed.

Lemma lease_options_type l t : last_type (lease_options l t) None = Some t.
Proof.
  unfold last_type, lease_options. cbn [foldl fst snd].
  by destruct (relay l), (mask l).
Qed.

Lemma length_lease_reply xid chaddr l t :
  length xid = 4%nat -> length chaddr = 6%nat -> wf_lease l -> length (lease_reply xid chaddr l t) = 300%nat.
Proof.
  intros Hx Hc [Hr Hg Hm]. unfold lease_reply, enc_options, lease_options, enc_option.
  cbn [fmap list_fmap mjoin list_join fst snd app].
  repeat (rewrite length_app || rewrite length_cons || rewrite length_nil).
  rewrite Hx, Hc, Hr, Hg, Hm. done.
Qed.

Lemma lease_reply_options xid chaddr l t :
  length xid = 4%nat -> length chaddr = 6%nat -> wf_lease l ->
  drop 240 (lease_reply xid chaddr l t) = enc_options (lease_options l t) ++ [optEnd] ++ make 26.
Proof.
  intros Hx Hc [Hr Hg Hm]. unfold lease_reply. rewrite !app_assoc. rewrite <- !(app_assoc _ [optEnd]).
  rewrite <- (app_assoc _ (enc_options _)). apply drop_app_length'.
  rewrite !length_app, Hx, Hc, Hr, Hg. done.
Qed.

Lemma dhcpReply_spec req l :
  wf_lease l ->
  exists r, dhcpReply req l = Some r /\
  match r with
  | None => forall t, ~ answerable req t
  | Some rep => exists t, answerable req t /\
      rep = lease_reply (slice req 4 8) (slice req 28 34) l (reply_type t)
  end.
Proof.
  intros Hl. unfold dhcpReply, bootpFixedLen. change (236 + 4) with 240. cbv zeta.
  destruct (Z.ltb_spec (len req) 240) as [Hlen|Hlen].
  { exists None. split; [done|]. intros t (H & _). lia. }
  destruct (idx_some req 0) as [op Hop]; [lia|]. rewrite Hop. cbn [mbind option_bind].
  destruct (Z.eqb_spec (byte_val op) 1) as [Hop1|Hop1]; cbn [negb]; cycle 1.
  { exists None. split; [done|]. intros t (_ & H & _). rewrite Hop in H. by injection H as ->. }
  assert (op = Byte.x01) as -> by by apply byte_val_inj.
  rewrite (sub_some req 236 240) by lia. cbn [fmap option_fmap option_map mbind option_bind].
  destruct (Z.eqb_spec (be_decode (slice req 236 240)) dhcpCookie) as [Hck|Hck]; cbn [negb]; cycle 1.
  { exists None. split; [done|]. by intros t (_ & _ & H & _). }
  rewrite (from_some req 240) by lia. cbn [mbind option_bind].
  change (Z.to_nat 240) with 240%nat.
  destruct (message_type_total (length (drop 240 req)) (drop 240 req) None) as [m Hm]; [lia|].
  fold (dhcpMessageType (drop 240 req)) in Hm. rewrite Hm. cbn [mbind option_bind].
  destruct m as [t|]; cycle 1.
  { exists None. split; [done|]. intros t (_ & _ & _ & b & H & _). change (Z.to_nat 240) with 240%nat in H. congruence. }
  assert (Hans : forall n, byte_val t = n -> n = 1 \/ n = 3 -> answerable req n) by (intros n Hn H; split_and!; eauto).
  assert (Hno : byte_val t <> 1 -> byte_val t <> 3 -> forall n, ~ answerable req n).
  { intros H1 H3 n (_ & _ & _ & b & H & Hb & Hn). rewrite Hm in H. injection H as ->. lia. }
  destruct (sub_ok req 4 8) as (xid & -> & Hxid & Hxl); [lia|lia|].
  destruct (sub_ok req 28 34) as (ch & -> & Hch & Hcl); [lia|lia|].
  rewrite <- Hxid, <- Hch. clear Hxid Hch. unfold dhcpDiscover, dhcpRequest.
  assert (Hbuild : forall rt, build_reply xid ch l rt = Some (lease_reply xid ch l rt))
    by (intros rt; apply build_reply_layout; done).
  cbn [mbind option_bind].
  destruct (Z.eqb_spec (byte_val t) 1) as [H1|H1].
  - eexists. split; [exact (f_equal (fmap Some) (Hbuild dhcpOffer))|].
    exists 1. split; [apply Hans; auto|done].
  - destruct (Z.eqb_spec (byte_val t) 3) as [H3|H3].
    + eexists. split; [exact (f_equal (fmap Some) (Hbuild dhcpAck))|].
      exists 3. split; [apply Hans; auto|done].
    + exists None. split; [done|]. by apply Hno.
Qed.

(** The responder answers exactly the DISCOVERs and REQUESTs, and always
    with the one lease: for any bytes the guest sends it neither panics nor
    reads outside them; it replies exactly to a BOOTREQUEST of at least 240
    bytes with the magic cookie and message type 1 or 3; the reply is
    determined by the transaction id, the hardware address and the type, and
    its own options read back as an OFFER or ACK; and the message type it
    finds is the last non-empty option 53 of the options it is sent. *)
Theorem dhcp_reply_exact req l os rest :
  wf_lease l -> Forall wf_option os ->
  (exists r, dhcpReply req l = Some r /\
   match r with
   | None => forall t, ~ answerable req t
   | Some rep => exists t, answerable req t /\
       rep = lease_reply (slice req 4 8) (slice req 28 34) l (reply_type t) /\
       len rep = 300 /\ dhcpMessageType (drop 240 rep) = Some (Some (reply_type t))
   end) /\
  dhcpMessageType (enc_options os ++ optEnd :: rest) = Some (last_type os None).
Proof.
  intros Hl Hos. split; [|by apply message_type_enc].
  destruct (dhcpReply_spec req l Hl) as ([rep|] & Hr & Hrep); [|by eauto].
  exists (Some rep). split; [done|]. destruct Hrep as (t & Ha & ->). exists t. split_and!; [done|done| |].
  - destruct Ha as (Hlen & _). unfold len. by rewrite length_lease_reply by done || (rewrite length_slice; lia).
  - destruct Ha as (Hlen & _). rewrite lease_reply_options by done || (rewrite length_slice; lia).
    unfold dhcpMessageType. change ([optEnd] ++ make 26) with (optEnd :: make 26).
    rewrite message_type_enc; [by rewrite lease_options_type|by apply wf_lease_options|done].
Qed.

(** ** Witness: a DISCOVER gets the lease *)
Definition ex_lease : dhcpLease := newDHCPLease 30 (AddrFrom4 192 0 2 1) (AddrFrom4 192 0 2 2).

Definition ex_discover : bytes :=
  [Byte.x01; Byte.x01; Byte.x06; Byte.x00] ++ [Byte.xaa; Byte.xbb; Byte.xcc; Byte.xdd] ++ make 228 ++
  cookie_bytes ++ enc_options [(optMessageType, [Byte.x01])] ++ [optEnd].

Lemma dhcp_reply_exact_witness :
  exists rep, dhcpReply ex_discover ex_lease = Some (Some rep) /\ len rep = 300 /\
    slice rep 16 20 = As4 (AddrFrom4 192 0 2 2).
Proof.
  destruct (dhcp_reply_exact ex_discover ex_lease [] []) as [(r & Hr & Hspec) _]; [by repeat split|constructor|].
  assert (Hs : (fun r : option bytes => (fun rep => slice rep 16 20) <$> r) <$> dhcpReply ex_discover ex_lease
               = Some (Some (As4 (AddrFrom4 192 0 2 2)))) by (vm_compute; reflexivity).
  rewrite Hr in Hs. destruct r as [rep|]; [|discriminate Hs]. injection Hs as Hs.
  destruct Hspec as (t & _ & _ & Hlen & _). exists rep.
  split; [exact Hr|]. split; [exact Hlen|exact Hs].
Defined.
End Dhcp.
