(* ===== verification/Frames.v ===== *)
(** * Host mode's Ethernet loop (src/cmd/relay/ingress_fd.go, ingress_dhcp.go)

    Every frame comes from the untrusted guest, so slicing and indexing are
    checked, with [None] for Go's run-time panic.  The netstack is outside:
    what is injected into it is recorded. *)
From S2P Require Import Prelude Text Netip BuildLink Dhcp.

#[local] Open Scope Z_scope.

Module Frames.
Import Netip Dhcp.

Record FDIngressConfig := mkConfig { GatewayIP : bytes; GatewayMAC : bytes; lease : dhcpLease }.

(** [written] is what the socket was sent, [injected] what the netstack got. *)
Record FDIngress := mkIngress { guestMAC : option bytes; written : list bytes; injected : list bytes }.

Definition write_frame (s : FDIngress) (frame : bytes) : FDIngress :=
  mkIngress (guestMAC s) (written s ++ [frame]) (injected s).

(** The guest's address is learned once. *)
Definition learn (s : FDIngress) (mac : bytes) : FDIngress :=
  match guestMAC s with
  | None => mkIngress (Some mac) (written s) (injected s)
  | Some _ => s
  end.

(** ** Checksum *)

Fixpoint sum16 (sum : Z) (header : bytes) : Z :=
  match header with
  | a :: b :: header' => sum16 (wrap_u 32 (sum + be_decode [a; b])) header'
  | [a] => wrap_u 32 (sum + wrap_u 32 (Z.shiftl (byte_val a) 8))
  | [] => sum
  end.

(** The carry loop; three rounds are enough for a [uint32] (carries_done). *)
Fixpoint carries (fuel : nat) (sum : Z) : Z :=
  match fuel with
  | O => sum
  | S fuel' => if sum >? 0xffff then carries fuel' (Z.shiftr sum 16 + Z.land sum 0xffff) else sum
  end.

Definition ipChecksum (header : bytes) : Z := 0xffff - wrap_u 16 (carries 3 (sum16 0 header)).

(** ** DHCP *)

Definition isDHCP (ipPayload : bytes) : option bool :=
  if len ipPayload <? 28 then Some false else
  protocol ← idx ipPayload 9;
  if negb (byte_val protocol =? 17) then Some false else
  b0 ← idx ipPayload 0;
  let ihl := Z.land (byte_val b0) 0x0f * 4 in
  if len ipPayload <? ihl + 4 then Some false else
  dstPort ← Uint16 ipPayload (ihl + 2) (ihl + 4);
  Some (dstPort =? 67).

Definition isDHCPFrame (frame : bytes) : option bool :=
  if len frame <? 14 + 28 then Some false else
  ethType ← Uint16 frame 12 14;
  if negb (ethType =? 0x0800) then Some false else
  ipPayload ← from frame 14;
  protocol ← idx ipPayload 9;
  if negb (byte_val protocol =? 17) then Some false else
  b0 ← idx ipPayload 0;
  let ihl := Z.land (byte_val b0) 0x0f * 4 in
  if len ipPayload <? ihl + 4 then Some false else
  dstPort ← Uint16 ipPayload (ihl + 2) (ihl + 4);
  Some (dstPort =? 67).

(** [To4] of an address that has no four-byte form is nil. *)
Definition to4 (ip : bytes) : bytes := default [] (To4 ip).

Definition wrapDHCPReply (cfg : FDIngressConfig) (bootp : bytes) : option bytes :=
  let gwIP := to4 (GatewayIP cfg) in
  let udpLen := 8 + len bootp in
  udp ← PutUint16 (make 8) 0 67;
  udp ← PutUint16 udp 2 68;
  udp ← PutUint16 udp 4 (wrap_u 16 udpLen);
  let ipLen := 20 + udpLen in
  ip ← set_at (make 20) 0 Byte.x45;
  ip ← PutUint16 ip 2 (wrap_u 16 ipLen);
  ip ← set_at ip 8 Byte.x40;
  ip ← set_at ip 9 Byte.x11;
  ip ← copy_to ip 12 16 gwIP;
  ip ← copy_to ip 16 20 [Byte.xff; Byte.xff; Byte.xff; Byte.xff];
  ip ← PutUint16 ip 10 (ipChecksum ip);
  Some (ip ++ udp ++ bootp).

Definition sendEthernetFrame (cfg : FDIngressConfig) (s : FDIngress) (dstMAC ipPacket : bytes) : option FDIngress :=
  frame ← copy_to (make (14 + len ipPacket)) 0 6 dstMAC;
  frame ← copy_to frame 6 12 (GatewayMAC cfg);
  frame ← PutUint16 frame 12 0x0800;
  frame ← copy_to frame 14 (len frame) ipPacket;
  Some (write_frame s frame).

Definition handleDHCP (cfg : FDIngressConfig) (s : FDIngress) (frame : bytes) : option FDIngress :=
  if len frame <? 14 + 28 then Some s else
  ipHeader ← from frame 14;
  b0 ← idx ipHeader 0;
  let bootpStart := Z.land (byte_val b0) 0x0f * 4 + 8 in
  if len ipHeader <? bootpStart then Some s else
  bootp ← from ipHeader bootpStart;
  rep ← dhcpReply bootp (lease cfg);
  match rep with
  | None => Some s
  | Some rep =>
      mac ← sub rep 28 34;
      packet ← wrapDHCPReply cfg rep;
      sendEthernetFrame cfg s mac packet
  end.

(** ** ARP *)

Definition handleARP (cfg : FDIngressConfig) (s : FDIngress) (frame : bytes) : option FDIngress :=
  if len frame <? 42 then Some s else
  arp ← from frame 14;
  opcode ← Uint16 arp 6 8;
  if negb (opcode =? 1) then Some s else
  targetIP ← sub arp 24 28;
  if negb (ip_Equal targetIP (GatewayIP cfg)) then Some s else
  senderMAC ← sub arp 8 14;
  senderIP ← sub arp 14 18;
  let s := learn s senderMAC in
  reply ← PutUint16 (make 28) 0 1;
  reply ← PutUint16 reply 2 0x0800;
  reply ← set_at reply 4 Byte.x06;
  reply ← set_at reply 5 Byte.x04;
  reply ← PutUint16 reply 6 2;
  reply ← copy_to reply 8 14 (GatewayMAC cfg);
  reply ← copy_to reply 14 18 (to4 (GatewayIP cfg));
  reply ← copy_to reply 18 24 senderMAC;
  reply ← copy_to reply 24 28 senderIP;
  eth ← copy_to (make (14 + 28)) 0 6 senderMAC;
  eth ← copy_to eth 6 12 (GatewayMAC cfg);
  eth ← PutUint16 eth 12 0x0806;
  eth ← copy_to eth 14 (len eth) reply;
  Some (write_frame s eth).

(** ** The loops *)

(** One frame of [readLoop]. *)
Definition read_frame (cfg : FDIngressConfig) (s : FDIngress) (frame : bytes) : option FDIngress :=
  if len frame <? 14 then Some s else
  etherType ← Uint16 frame 12 14;
  srcMAC ← sub frame 6 12;
  let s := learn s srcMAC in
  if etherType =? 0x0806 then handleARP cfg s frame
  else if etherType =? 0x0800 then
    payload ← from frame 14;
    dhcp ← isDHCP payload;
    if (dhcp : bool) then handleDHCP cfg s frame
    else Some (mkIngress (guestMAC s) (written s) (injected s ++ [payload]))
  else Some s.

Fixpoint readLoop (cfg : FDIngressConfig) (s : FDIngress) (frames : list bytes) : option FDIngress :=
  match frames with
  | [] => Some s
  | f :: fs => s ← read_frame cfg s f; readLoop cfg s fs
  end.

(** One packet of [writeLoop]; a failed write drops the frame. *)
Definition write_packet (cfg : FDIngressConfig) (s : FDIngress) (payload : bytes) : option bytes :=
  let dstMAC := default (replicate 6 Byte.xff) (guestMAC s) in
  frame ← copy_to (make (14 + len payload)) 0 6 dstMAC;
  frame ← copy_to frame 6 12 (GatewayMAC cfg);
  frame ← PutUint16 frame 12 0x0800;
  copy_to frame 14 (len frame) payload.

(** ** The checksum is the Internet checksum *)

(** The sum of the 16-bit words, unbounded. *)
Fixpoint word_sum (header : bytes) : Z :=
  match header with
  | a :: b :: header' => be_decode [a; b] + word_sum header'
  | [a] => byte_val a * 256
  | [] => 0
  end.

Lemma be_decode_2 a b : be_decode [a; b] = byte_val a * 256 + byte_val b.
Proof. unfold be_decode. cbn [foldl]. lia. Qed.

Lemma two_ind (P : bytes -> Prop) :
  P [] -> (forall a, P [a]) -> (forall a b h, P h -> P (a :: b :: h)) -> forall h, P h.
Proof.
  intros H0 H1 H2. fix IH 1. intros [|a [|b h] ]; [done|apply H1|]. apply H2, IH.
Qed.

Lemma word_sum_bound h : 0 <= word_sum h <= 0xffff * ((len h + 1) / 2).
Proof.
  induction h as [|a|a b h IH] using two_ind; cbn [word_sum].
  - done.
  - pose proof (byte_val_range a). change ((len [a] + 1) / 2) with 1. lia.
  - rewrite be_decode_2. pose proof (byte_val_range a). pose proof (byte_val_range b).
    rewrite !len_cons. replace (1 + (1 + len h) + 1) with (len h + 1 + 1 * 2) by lia.
    rewrite Z.div_add by lia. lia.
Qed.

Lemma sum16_word_sum h : forall acc,
  0 <= acc -> acc + word_sum h < 2 ^ 32 -> sum16 acc h = acc + word_sum h.
Proof.
  induction h as [|a|a b h IH] using two_ind; intros acc Ha Hb; cbn [word_sum sum16] in *.
  - lia.
  - pose proof (byte_val_range a). rewrite Z.shiftl_mul_pow2 by lia. unfold wrap_u.
    change (2 ^ 8) with 256. rewrite (Z.mod_small (byte_val a * 256)) by lia. apply Z.mod_small. lia.
  - pose proof (word_sum_bound h). rewrite be_decode_2 in *. pose proof (byte_val_range a). pose proof (byte_val_range b).
    unfold wrap_u. rewrite Z.mod_small by lia. rewrite IH; lia.
Qed.

Lemma carry_step sum : 0xffff < sum -> Z.shiftr sum 16 + Z.land sum 0xffff = sum - 0xffff * (sum / 2 ^ 16).
Proof.
  intros Hs. rewrite Z.shiftr_div_pow2 by lia. change 0xffff with (Z.ones 16).
  rewrite Z.land_ones by lia. change (Z.ones 16) with 65535. change (2 ^ 16) with 65536. div_lia.
Qed.

Lemma carries_done sum :
  0 <= sum < 2 ^ 32 ->
  0 <= carries 3 sum <= 0xffff /\ carries 3 sum mod 0xffff = sum mod 0xffff /\ (carries 3 sum = 0 <-> sum = 0).
Proof.
  assert (Hgen : forall fuel sum, 0 <= sum ->
    carries fuel sum mod 0xffff = sum mod 0xffff /\ (carries fuel sum = 0 <-> sum = 0) /\ 0 <= carries fuel sum).
  { induction fuel as [|fuel IH]; intros x Hx; cbn [carries]; [done|]. rewrite Z.gtb_ltb.
    destruct (Z.ltb_spec 0xffff x) as [Hl|]; [|done]. rewrite carry_step by lia.
    change (2 ^ 16) with 65536. assert (Hq : 0 < x - 0xffff * (x / 65536)) by div_lia.
    destruct (IH (x - 0xffff * (x / 65536))) as (Hm & Hz & Hn); [lia|]. rewrite Hm.
    split_and!; [|lia|lia]. replace (x - 0xffff * (x / 65536)) with (x + (- (x / 65536)) * 0xffff) by lia.
    by rewrite Z.mod_add by lia. }
  intros Hs. destruct (Hgen 3%nat sum) as (Hm & Hz & Hn); [lia|]. split_and!; try done.
  cbn [carries]. rewrite !Z.gtb_ltb.
  destruct (Z.ltb_spec 0xffff sum) as [H1|]; [|lia]. rewrite carry_step by lia. change (2 ^ 16) with 65536.
  change (2 ^ 32) with 4294967296 in Hs.
  assert (Hb1 : 0 < sum - 0xffff * (sum / 65536) <= 0x1fffe) by div_lia.
  revert Hb1. generalize (sum - 0xffff * (sum / 65536)) as y. intros y Hy.
  destruct (Z.ltb_spec 0xffff y); [|lia]. rewrite carry_step by lia. change (2 ^ 16) with 65536.
  assert (Hb2 : 0 < y - 0xffff * (y / 65536) <= 0xffff) by div_lia.
  revert Hb2. generalize (y - 0xffff * (y / 65536)) as z. intros z Hz'.
  destruct (Z.ltb_spec 0xffff z); lia.
Qed.

Lemma word_sum_app h : forall k, Nat.Even (length h) -> word_sum (h ++ k) = word_sum h + word_sum k.
Proof.
  induction h as [|a|a b h IH] using two_ind; intros k He; cbn [app word_sum].
  - lia.
  - cbn in He. by apply Nat.even_spec in He.
  - rewrite IH; [lia|]. apply Nat.even_spec in He. by apply Nat.even_spec.
Qed.

Lemma be_encode_2 v : 0 <= v < 2 ^ 16 -> word_sum (be_encode 2 v) = v.
Proof.
  intros Hv. pose proof (be_decode_encode 2 v) as Hd. pose proof (length_be_encode 2 v) as Hl.
  destruct (be_encode 2 v) as [|a [|b [|? ?] ] ]; try done. cbn [word_sum].
  rewrite Hd. change (2 ^ (8 * Z.of_nat 2)) with (2 ^ 16). rewrite Z.mod_small by done. lia.
Qed.

(** A header with its checksum in the place of two zero bytes sums to zero: the
    receiver's check (RFC 1071). *)
Lemma checksum_valid h k :
  Nat.Even (length h) -> len h + len k <= 2 ^ 16 ->
  let ck := ipChecksum (h ++ [Byte.x00; Byte.x00] ++ k) in
  0 <= ck < 2 ^ 16 /\ ipChecksum (h ++ be_encode 2 ck ++ k) = 0.
Proof.
  intros He Hlen ck. unfold ck, ipChecksum. clear ck.
  set (s := word_sum h + word_sum k).
  assert (Hs : 0 <= s <= 0xffff * 0x8001).
  { pose proof (word_sum_bound h). pose proof (word_sum_bound k). pose proof (len_nonneg h). pose proof (len_nonneg k).
    apply Nat.even_spec in He. unfold s. change (2 ^ 16) with 65536 in Hlen.
    assert ((len h + 1) / 2 + (len k + 1) / 2 <= 32769) by div_lia. lia. }
  assert (H1 : sum16 0 (h ++ [Byte.x00; Byte.x00] ++ k) = s).
  { assert (Hw : word_sum (h ++ [Byte.x00; Byte.x00] ++ k) = s).
    { rewrite word_sum_app by done. change ([Byte.x00; Byte.x00] ++ k) with (Byte.x00 :: Byte.x00 :: k).
      cbn [word_sum]. rewrite be_decode_2. change (byte_val Byte.x00) with 0. unfold s. lia. }
    rewrite sum16_word_sum; lia. }
  rewrite H1. destruct (carries_done s) as (Hc & Hm & Hz); [lia|].
  unfold wrap_u. rewrite (Z.mod_small (carries 3 s)) by lia.
  assert (Hck : 0 <= 65535 - carries 3 s < 2 ^ 16) by lia. split; [done|].
  set (ck := 65535 - carries 3 s) in *.
  assert (H2 : sum16 0 (h ++ be_encode 2 ck ++ k) = s + ck).
  { assert (Hw : word_sum (h ++ be_encode 2 ck ++ k) = s + ck).
    { rewrite word_sum_app by done. rewrite word_sum_app by (rewrite length_be_encode; by exists 1%nat).
      rewrite be_encode_2 by done. unfold s. lia. }
    rewrite sum16_word_sum; lia. }
  rewrite H2. destruct (carries_done (s + ck)) as (Hc' & Hm' & Hz'); [lia|].
  assert (Hpos : s + ck <> 0) by (intros H; assert (s = 0) by lia; assert (carries 3 s = 0) by tauto; lia).
  assert (Hdiv : (s + ck) mod 65535 = 0).
  { unfold ck. rewrite <- (Z.mod_add _ 0) by lia.
    replace (s + (65535 - carries 3 s) + 0 * 65535) with ((s - carries 3 s) + 1 * 65535) by lia.
    rewrite Z.mod_add by lia. rewrite Zminus_mod, Hm, Z.sub_diag. done. }
  assert (Hfin : carries 3 (s + ck) = 65535).
  { rewrite Hdiv in Hm'. assert (carries 3 (s + ck) <> 0) by tauto. div_lia. }
  rewrite Hfin. done.
Qed.

(** ** The frames sent *)

Definition ip_bcast : bytes := [Byte.xff; Byte.xff; Byte.xff; Byte.xff].
Definition ip_head (total : Z) : bytes :=
  [Byte.x45; Byte.x00] ++ be_encode 2 total ++ [Byte.x00; Byte.x00; Byte.x00; Byte.x00; Byte.x40; Byte.x11].

(** The IPv4 header from [gw] to the broadcast address. *)
Definition ip_header (gw : bytes) (total : Z) (ck : bytes) : bytes := ip_head total ++ ck ++ gw ++ ip_bcast.

Definition udp_header (n : Z) : bytes := be_encode 2 67 ++ be_encode 2 68 ++ be_encode 2 n ++ [Byte.x00; Byte.x00].

Definition dhcp_packet (gw rep : bytes) : bytes :=
  ip_header gw 328 (be_encode 2 (ipChecksum (ip_header gw 328 [Byte.x00; Byte.x00]))) ++ udp_header 308 ++ rep.

Definition eth_frame (dst src : bytes) (typ : Z) (payload : bytes) : bytes :=
  dst ++ src ++ be_encode 2 typ ++ payload.

Definition arp_reply (mac gw dst ip : bytes) : bytes :=
  be_encode 2 1 ++ be_encode 2 0x0800 ++ [Byte.x06; Byte.x04] ++ be_encode 2 2 ++ mac ++ gw ++ dst ++ ip.

Record wf_config (cfg : FDIngressConfig) (gw : bytes) : Prop := {
  wc_mac : length (GatewayMAC cfg) = 6%nat;
  wc_gw : To4 (GatewayIP cfg) = Some gw;
  wc_gw4 : length gw = 4%nat;
  wc_lease : wf_lease (lease cfg) }.

Lemma wrap_layout cfg gw rep :
  wf_config cfg gw -> len rep = 300 -> wrapDHCPReply cfg rep = Some (dhcp_packet gw rep).
Proof.
  intros [_ Hgw Hgw4 _] Hr. unfold wrapDHCPReply, to4. rewrite Hgw, Hr. cbn [default].
  destruct gw as [|g0 [|g1 [|g2 [|g3 [|? ?] ] ] ] ]; try discriminate Hgw4. clear.
  unfold dhcp_packet, ip_header. generalize ipChecksum as ck. intros ck. reflexivity.
Qed.

Lemma copy_to_app a x b src i j :
  len src = len x -> i = len a -> j = len a + len x -> copy_to (a ++ x ++ b) i j src = Some (a ++ src ++ b).
Proof.
  intros Hs -> ->. pose proof (len_nonneg a). pose proof (len_nonneg x). pose proof (len_nonneg b).
  unfold copy_to. rewrite !len_app.
  destruct (Z.leb_spec 0 (len a)); [|lia]. destruct (Z.leb_spec (len a) (len a + len x)); [|lia].
  destruct (Z.leb_spec (len a + len x) (len a + (len x + len b))); [|lia]. cbn [andb].
  replace (len a + len x - len a) with (len src) by lia. rewrite Z.min_id. f_equal.
  assert (Ha : Z.to_nat (len a) = length a) by (unfold len; lia).
  assert (Hx : Z.to_nat (len src) = length src) by (unfold len; lia).
  assert (Hax : Z.to_nat (len a + len src) = length (a ++ x)).
  { rewrite length_app. unfold len in *. lia. }
  rewrite Ha, Hx, Hax, take_app_length, (take_ge src) by done.
  by rewrite (app_assoc a x b), drop_app_length.
Qed.

Lemma copy_to_head x b src j : len src = len x -> j = len x -> copy_to (x ++ b) 0 j src = Some (src ++ b).
Proof. intros Hs ->. by apply (copy_to_app [] x b src). Qed.

Lemma make_app n m : 0 <= n -> 0 <= m -> make (n + m) = make n ++ make m.
Proof. intros Hn Hm. unfold make. rewrite Z2Nat.inj_add by done. apply replicate_add. Qed.

Lemma len_make n : 0 <= n -> len (make n) = n.
Proof. intros Hn. unfold len, make. rewrite length_replicate. lia. Qed.

Lemma eth_layout dst src typ payload :
  length dst = 6%nat -> length src = 6%nat ->
  (frame ← copy_to (make (14 + len payload)) 0 6 dst;
   frame ← copy_to frame 6 12 src;
   frame ← PutUint16 frame 12 typ;
   copy_to frame 14 (len frame) payload) = Some (eth_frame dst src typ payload).
Proof.
  intros Hd Hs. assert (Hd' : len dst = 6) by (unfold len; lia). assert (Hs' : len src = 6) by (unfold len; lia).
  pose proof (len_nonneg payload).
  assert (H2 : len (be_encode 2 typ) = 2) by (rewrite len_be_encode; lia).
  replace (14 + len payload) with (6 + (6 + (2 + len payload))) by lia. rewrite !make_app by lia.
  rewrite copy_to_head by (rewrite ?len_make; lia). cbn [mbind option_bind].
  rewrite (copy_to_app dst (make 6) _ src) by (rewrite ?len_make; lia). cbn [mbind option_bind].
  unfold PutUint16. rewrite (app_assoc dst src).
  rewrite (copy_to_app (dst ++ src) (make 2) _ (be_encode 2 typ)) by (rewrite ?len_app, ?len_make; lia).
  cbn [mbind option_bind]. rewrite (app_assoc _ (be_encode 2 typ)). rewrite <- (app_nil_r (make (len payload))).
  rewrite (copy_to_app _ (make (len payload)) [] payload)
    by (rewrite ?len_app, ?len_make, ?len_nil; lia).
  unfold eth_frame. by rewrite app_nil_r, <- !app_assoc.
Qed.

Lemma sendEthernetFrame_spec cfg gw s dst packet :
  wf_config cfg gw -> length dst = 6%nat ->
  sendEthernetFrame cfg s dst packet = Some (write_frame s (eth_frame dst (GatewayMAC cfg) 0x0800 packet)).
Proof.
  intros Hwf Hd. pose proof (eth_layout dst (GatewayMAC cfg) 0x0800 packet Hd (wc_mac _ _ Hwf)) as He.
  unfold sendEthernetFrame.
  apply bind_Some in He as (f1 & -> & He). cbn [mbind option_bind].
  apply bind_Some in He as (f2 & -> & He). cbn [mbind option_bind].
  apply bind_Some in He as (f3 & -> & He). cbn [mbind option_bind].
  by rewrite He.
Qed.

(** ** What a frame does *)

(** A DHCP packet in the frame, and its BOOTP payload. *)
Definition bootp_of (frame : bytes) : option bytes :=
  let ip := drop 14 frame in
  let start := Z.land (ip_byte ip 0) 0x0f * 4 + 8 in
  if len ip <? start then None else Some (drop (Z.to_nat start) ip).

Lemma ip_byte_idx l b : idx l 0 = Some b -> ip_byte l 0 = byte_val b.
Proof. unfold idx, ip_byte. cbn. intros H. change (Z.to_nat 0) with 0%nat in H. by rewrite H. Qed.

Lemma nibble_bound b : 0 <= Z.land (byte_val b) 0x0f <= 15.
Proof.
  pose proof (Z.land_ones (byte_val b) 4 ltac:(lia)) as H. change (Z.ones 4) with 0x0f in H. rewrite H.
  change (2 ^ 4) with 16. pose proof (byte_val_range b). div_lia.
Qed.

Lemma isDHCP_total ip : exists b, isDHCP ip = Some b.
Proof.
  unfold isDHCP. destruct (Z.ltb_spec (len ip) 28); [eauto|].
  destruct (idx_some ip 9) as [p ->]; [lia|]. cbn [mbind option_bind]. destruct (negb _); [eauto|].
  destruct (idx_some ip 0) as [b ->]; [lia|]. cbn [mbind option_bind]. pose proof (nibble_bound b).
  destruct (Z.ltb_spec (len ip) (Z.land (byte_val b) 15 * 4 + 4)); [eauto|].
  unfold Uint16. rewrite sub_some by lia. cbn. eauto.
Qed.

Lemma handleDHCP_spec cfg gw s frame :
  wf_config cfg gw -> 14 + 28 <= len frame ->
  exists s', handleDHCP cfg s frame = Some s' /\
  (s' = s \/ exists bootp t, bootp_of frame = Some bootp /\ answerable bootp t /\
     s' = write_frame s (eth_frame (slice bootp 28 34) (GatewayMAC cfg) 0x0800
            (dhcp_packet gw (lease_reply (slice bootp 4 8) (slice bootp 28 34) (lease cfg) (reply_type t))))).
Proof.
  intros Hwf Hlen. unfold handleDHCP, bootp_of. destruct (Z.ltb_spec (len frame) (14 + 28)); [lia|].
  rewrite from_some by lia. cbn [mbind option_bind]. change (Z.to_nat 14) with 14%nat.
  assert (Hip : len (drop 14 frame) = len frame - 14) by (change 14%nat with (Z.to_nat 14); apply len_drop; lia).
  destruct (idx_some (drop 14 frame) 0) as [b0 Hb]; [lia|]. rewrite Hb, (ip_byte_idx _ _ Hb). cbn [mbind option_bind].
  pose proof (nibble_bound b0). set (start := Z.land (byte_val b0) 15 * 4 + 8).
  destruct (Z.ltb_spec (len (drop 14 frame)) start); [eauto|]. rewrite from_some by lia. cbn [mbind option_bind].
  set (bootp := drop (Z.to_nat start) (drop 14 frame)).
  destruct (dhcpReply_spec bootp (lease cfg) (wc_lease _ _ Hwf)) as (r & -> & Hr). cbn [mbind option_bind].
  destruct r as [rep|]; [|eauto]. destruct Hr as (t & Ha & ->).
  destruct Ha as (Hbl & Ha). assert (Hx : length (slice bootp 4 8) = 4%nat) by (rewrite length_slice; lia).
  assert (Hc : length (slice bootp 28 34) = 6%nat) by (rewrite length_slice; lia).
  set (rep := lease_reply _ _ _ _).
  assert (Hrl : len rep = 300) by (unfold len; unfold rep; by rewrite length_lease_reply by (done || apply Hwf)).
  assert (Hmac : sub rep 28 34 = Some (slice bootp 28 34)).
  { rewrite sub_some by lia. f_equal. unfold rep, lease_reply. destruct (wc_lease _ _ Hwf) as [Hr Hg Hm].
    assert (Hx' : len (slice bootp 4 8) = 4) by (unfold len; lia).
    assert (Hc' : len (slice bootp 28 34) = 6) by (unfold len; lia).
    assert (Hr' : len (relay (lease cfg)) = 4) by (unfold len; lia).
    assert (Hg' : len (guest (lease cfg)) = 4) by (unfold len; lia).
    rewrite !slice_skip by (rewrite ?len_make, ?Hx', ?Hg', ?Hr' by lia; done).
    rewrite ?len_make by lia.
    apply slice_take; rewrite ?Hx', ?Hg', ?Hr', ?Hc'; reflexivity. }
  rewrite Hmac. cbn [mbind option_bind]. rewrite (wrap_layout cfg gw rep Hwf Hrl). cbn [mbind option_bind].
  rewrite (sendEthernetFrame_spec cfg gw) by done. eexists. split; [done|]. right.
  exists bootp, t. by split_and!.
Qed.

(** An ARP request for the gateway's address. *)
Definition arp_request (cfg : FDIngressConfig) (frame : bytes) : bool :=
  (42 <=? len frame) && (be_decode (slice frame 20 22) =? 1) && ip_Equal (slice frame 38 42) (GatewayIP cfg).

Lemma arp_reply_build cfg gw mac ip :
  wf_config cfg gw -> length mac = 6%nat -> length ip = 4%nat ->
  (reply ← PutUint16 (make 28) 0 1;
   reply ← PutUint16 reply 2 0x0800;
   reply ← set_at reply 4 Byte.x06;
   reply ← set_at reply 5 Byte.x04;
   reply ← PutUint16 reply 6 2;
   reply ← copy_to reply 8 14 (GatewayMAC cfg);
   reply ← copy_to reply 14 18 gw;
   reply ← copy_to reply 18 24 mac;
   copy_to reply 24 28 ip) = Some (arp_reply (GatewayMAC cfg) gw mac ip).
Proof.
  intros [Hm _ Hg _] Hmac Hip.
  destruct (GatewayMAC cfg) as [|x0 [|x1 [|x2 [|x3 [|x4 [|x5 [|? ?] ] ] ] ] ] ]; try discriminate Hm.
  destruct mac as [|y0 [|y1 [|y2 [|y3 [|y4 [|y5 [|? ?] ] ] ] ] ] ]; try discriminate Hmac.
  destruct gw as [|g0 [|g1 [|g2 [|g3 [|? ?] ] ] ] ]; try discriminate Hg.
  destruct ip as [|i0 [|i1 [|i2 [|i3 [|? ?] ] ] ] ]; try discriminate Hip.
  clear. vm_compute. reflexivity.
Qed.

Lemma slice_of_drop (l : bytes) k i j :
  0 <= k -> 0 <= i -> slice (drop (Z.to_nat k) l) i j = slice l (k + i) (k + j).
Proof.
  intros Hk Hi. unfold slice. rewrite drop_drop. f_equal; [lia|]. f_equal. lia.
Qed.

Lemma learn_known s m mac : guestMAC s = Some m -> learn s mac = s.
Proof. intros H. unfold learn. by rewrite H. Qed.

Lemma handleARP_spec cfg gw s m frame :
  wf_config cfg gw -> guestMAC s = Some m ->
  handleARP cfg s frame = Some
    (if arp_request cfg frame
     then write_frame s (eth_frame (slice frame 22 28) (GatewayMAC cfg) 0x0806
            (arp_reply (GatewayMAC cfg) gw (slice frame 22 28) (slice frame 28 32)))
     else s).
Proof.
  intros Hwf Hs. unfold handleARP, arp_request. destruct (Z.ltb_spec (len frame) 42).
  { destruct (Z.leb_spec 42 (len frame)); [lia|done]. }
  destruct (Z.leb_spec 42 (len frame)); [|lia]. rewrite from_some by lia. cbn [mbind option_bind andb].
  assert (Hl : len (drop (Z.to_nat 14) frame) = len frame - 14) by (apply len_drop; lia).
  unfold Uint16. rewrite (sub_some _ 6 8) by lia. cbn [fmap option_fmap option_map mbind option_bind].
  rewrite slice_of_drop by lia. destruct (be_decode (slice frame (14 + 6) (14 + 8)) =? 1) eqn:Hop;
    change (14 + 6) with 20 in Hop; change (14 + 8) with 22 in Hop; rewrite Hop; cbn [negb andb]; [|done].
  rewrite (sub_some _ 24 28) by lia. cbn [mbind option_bind]. rewrite slice_of_drop by lia.
  change (14 + 24) with 38. change (14 + 28) with 42.
  destruct (ip_Equal (slice frame 38 42) (GatewayIP cfg)); cbn [negb andb]; [|done].
  rewrite (sub_some _ 8 14), (sub_some _ 14 18) by lia. cbn [mbind option_bind].
  rewrite !slice_of_drop by lia. change (14 + 8) with 22. change (14 + 14) with 28. change (14 + 18) with 32.
  rewrite (learn_known s m) by done. assert (Hto4 : to4 (GatewayIP cfg) = gw) by (unfold to4; by rewrite (wc_gw _ _ Hwf)). rewrite Hto4.
  assert (Hm6 : length (slice frame 22 28) = 6%nat) by (rewrite length_slice; lia).
  assert (Hi4 : length (slice frame 28 32) = 4%nat) by (rewrite length_slice; lia).
  pose proof (arp_reply_build cfg gw _ _ Hwf Hm6 Hi4) as Ha.
  repeat (apply bind_Some in Ha as (? & -> & Ha); cbn [mbind option_bind]). rewrite Ha. cbn [mbind option_bind].
  set (reply := arp_reply _ _ _ _).
  assert (Hr : len reply = 28).
  { unfold len, reply, arp_reply. rewrite !length_app, !length_be_encode, (wc_mac _ _ Hwf), (wc_gw4 _ _ Hwf), Hm6, Hi4. done. }
  pose proof (eth_layout (slice frame 22 28) (GatewayMAC cfg) 0x0806 reply Hm6 (wc_mac _ _ Hwf)) as He.
  rewrite Hr in He. change (14 + 28) with 42 in He. repeat (apply bind_Some in He as (? & -> & He); cbn [mbind option_bind]). by rewrite He.
Qed.

Lemma dhcp_packet_checksum gw rep :
  length gw = 4%nat -> ipChecksum (take 20 (dhcp_packet gw rep)) = 0 /\ len (dhcp_packet gw rep) = 28 + len rep.
Proof.
  intros Hg. unfold dhcp_packet, ip_header.
  destruct (checksum_valid (ip_head 328) (gw ++ ip_bcast)) as [_ Hck].
  { exists 5%nat. reflexivity. }
  { assert (Hl : len (gw ++ ip_bcast) = 8) by (rewrite len_app; unfold len; rewrite Hg; reflexivity).
    rewrite Hl. vm_compute. discriminate. }
  split.
  - rewrite (take_app_length' _ _ 20); [exact Hck|]. rewrite !length_app, length_be_encode, Hg. done.
  - unfold udp_header. rewrite !len_app, !len_be_encode. unfold len. rewrite Hg. cbn [length ip_head ip_bcast app].
    rewrite !length_app, !length_be_encode. cbn [length]. lia.
Qed.

(** What one frame does, as a specification: the frames sent back and the
    packets passed on. *)
Inductive frame_effect (cfg : FDIngressConfig) (gw frame : bytes) : list bytes -> list bytes -> Prop :=
  | eff_none : frame_effect cfg gw frame [] []
  | eff_arp :
      be_decode (slice frame 12 14) = 0x0806 -> arp_request cfg frame = true ->
      frame_effect cfg gw frame
        [eth_frame (slice frame 22 28) (GatewayMAC cfg) 0x0806
           (arp_reply (GatewayMAC cfg) gw (slice frame 22 28) (slice frame 28 32))] []
  | eff_dhcp bootp t :
      be_decode (slice frame 12 14) = 0x0800 -> isDHCP (drop 14 frame) = Some true ->
      bootp_of frame = Some bootp -> answerable bootp t ->
      frame_effect cfg gw frame
        [eth_frame (slice bootp 28 34) (GatewayMAC cfg) 0x0800
           (dhcp_packet gw (lease_reply (slice bootp 4 8) (slice bootp 28 34) (lease cfg) (reply_type t)))] []
  | eff_ip :
      be_decode (slice frame 12 14) = 0x0800 -> isDHCP (drop 14 frame) = Some false ->
      frame_effect cfg gw frame [] [drop 14 frame].

Lemma isDHCP_long ip : isDHCP ip = Some true -> 28 <= len ip.
Proof. unfold isDHCP. by destruct (Z.ltb_spec (len ip) 28). Qed.

Lemma read_frame_spec cfg gw s frame :
  wf_config cfg gw ->
  exists s' out inj, read_frame cfg s frame = Some s' /\ frame_effect cfg gw frame out inj /\
    written s' = written s ++ out /\ injected s' = injected s ++ inj /\
    guestMAC s' = match guestMAC s with
                  | Some m => Some m
                  | None => if len frame <? 14 then None else Some (slice frame 6 12)
                  end.
Proof.
  intros Hwf. unfold read_frame. destruct (Z.ltb_spec (len frame) 14).
  { exists s, [], []. rewrite !app_nil_r. split_and!; try done; [constructor|by destruct (guestMAC s)]. }
  unfold Uint16. rewrite !sub_some by lia. cbn [fmap option_fmap option_map mbind option_bind].
  set (s1 := learn s (slice frame 6 12)).
  assert (H1 : exists m, guestMAC s1 = Some m /\
    Some m = match guestMAC s with Some m => Some m | None => Some (slice frame 6 12) end /\
    written s1 = written s /\ injected s1 = injected s).
  { unfold s1, learn. destruct (guestMAC s) as [m|] eqn:Hm; [by exists m|by exists (slice frame 6 12)]. }
  destruct H1 as (m & Hm & Hmeq & Hw & Hi). clearbody s1. rewrite <- Hmeq, <- Hw, <- Hi. clear Hmeq Hw Hi.
  destruct (Z.eqb_spec (be_decode (slice frame 12 14)) 0x0806) as [Ha|Ha].
  - rewrite (handleARP_spec cfg gw s1 m frame Hwf Hm). destruct (arp_request cfg frame) eqn:Hreq.
    + eexists _, [_], []. split; [done|]. split; [by apply eff_arp|]. cbn. by rewrite app_nil_r.
    + exists s1, [], []. rewrite !app_nil_r. split_and!; done || constructor.
  - destruct (Z.eqb_spec (be_decode (slice frame 12 14)) 0x0800) as [Hip|]; cycle 1.
    { exists s1, [], []. rewrite !app_nil_r. split_and!; done || constructor. }
    rewrite from_some by lia. cbn [mbind option_bind]. change (Z.to_nat 14) with 14%nat.
    destruct (isDHCP_total (drop 14 frame)) as [[] Hd]; rewrite Hd; cbn [mbind option_bind]; cycle 1.
    { eexists _, [], [_]. split; [done|]. split; [by apply eff_ip|]. cbn. by rewrite app_nil_r. }
    assert (Hlen : 14 + 28 <= len frame).
    { apply isDHCP_long in Hd. change 14%nat with (Z.to_nat 14) in Hd. rewrite len_drop in Hd by lia. lia. }
    destruct (handleDHCP_spec cfg gw s1 frame Hwf Hlen) as (s' & -> & [->|(bootp & t & Hb & Hans & ->)]).
    + exists s1, [], []. rewrite !app_nil_r. split_and!; done || constructor.
    + eexists _, [_], []. split; [done|]. split; [by apply (eff_dhcp _ _ _ bootp t)|].
      cbn [written injected write_frame guestMAC]. split_and!; [done|by rewrite app_nil_r|done].
Qed.


(** ** Witness *)
Definition ex_config : FDIngressConfig :=
  mkConfig [Byte.xc0; Byte.x00; Byte.x02; Byte.x01] [Byte.x02; Byte.xbd; Byte.x00; Byte.x00; Byte.x00; Byte.x01]
    (newDHCPLease 30 (AddrFrom4 192 0 2 1) (AddrFrom4 192 0 2 2)).

Lemma ex_config_wf : wf_config ex_config [Byte.xc0; Byte.x00; Byte.x02; Byte.x01].
Proof. repeat split. Qed.

(** An ARP request for 192.0.2.1 and a truncated IPv4 frame. *)
Definition ex_arp : bytes :=
  replicate 6 Byte.xff ++ [Byte.x0a; Byte.x0b; Byte.x0c; Byte.x0d; Byte.x0e; Byte.x0f] ++ [Byte.x08; Byte.x06] ++
  [Byte.x00; Byte.x01; Byte.x08; Byte.x00; Byte.x06; Byte.x04; Byte.x00; Byte.x01] ++
  [Byte.x0a; Byte.x0b; Byte.x0c; Byte.x0d; Byte.x0e; Byte.x0f] ++ [Byte.x00; Byte.x00; Byte.x00; Byte.x00] ++
  make 6 ++ [Byte.xc0; Byte.x00; Byte.x02; Byte.x01].

End Frames.
