(* ===== verification/Netlink.v ===== *)
(** * The build interface over rtnetlink (src/cmd/relay/buildif_linux.go)

    Netlink messages are encoded and parsed at their byte layout, on a
    little-endian host; [syscall]'s message and attribute parsers are modelled
    with Go's run-time panic as [None].  The kernel is a parameter: what it
    answers to a dump and to a request, with rtnetlink(7)'s address semantics
    as laws. *)
From S2P Require Import Prelude Text Netip BuildLink.

#[local] Open Scope Z_scope.
#[local] Open Scope go_scope.

Module Netlink.
Import Netip.

(** ** Constants of package [unix] *)
Definition SizeofNlMsghdr : Z := 16.
Definition SizeofIfAddrmsg : Z := 8.
Definition SizeofRtMsg : Z := 12.
Definition SizeofRtAttr : Z := 4.
Definition RTM_NEWADDR : Z := 20.
Definition RTM_DELADDR : Z := 21.
Definition RTM_GETADDR : Z := 22.
Definition RTM_NEWROUTE : Z := 24.
Definition RTM_GETROUTE : Z := 26.
Definition NLMSG_ERROR : Z := 2.
Definition IFA_ADDRESS : Z := 1.
Definition IFA_LOCAL : Z := 2.
Definition RTA_DST : Z := 1.
Definition RTA_OIF : Z := 4.
Definition NLM_F_REQUEST : Z := 1.
Definition NLM_F_ACK : Z := 4.
Definition NLM_F_EXCL : Z := 0x200.
Definition NLM_F_CREATE : Z := 0x400.
Definition AF_INET : Z := 2.

(** [syscall.Errno(n)], compared by number. *)
Definition Errno (n : Z) : error := Errorf "errno" [Itoa n].
Definition EINVAL : error := Errno 22.
Definition EADDRNOTAVAIL : error := Errno 99.

(** ** Package [syscall]'s parsers *)

Record NetlinkMessage := mkMsg { mType : Z; mFlags : Z; Data : bytes }.

Definition align4 (n : Z) : Z := (n + 3) / 4 * 4.

(** [syscall.ParseNetlinkMessage]; [fuel] is the length of [b]. *)
Fixpoint netlink_messages (fuel : nat) (b : bytes) : result (list NetlinkMessage) :=
  match fuel with
  | O => Ok []
  | S fuel' =>
      if len b <? SizeofNlMsghdr then Ok [] else
      let l := le_decode (slice b 0 4) in
      if (l <? SizeofNlMsghdr) || (len b <? align4 l) then Err EINVAL else
      let? ms := netlink_messages fuel' (drop (Z.to_nat (align4 l)) b) in
      Ok (mkMsg (le_decode (slice b 4 6)) (le_decode (slice b 6 8)) (slice b SizeofNlMsghdr l) :: ms)
  end.
Definition ParseNetlinkMessage (b : bytes) : result (list NetlinkMessage) := netlink_messages (length b) b.

(** The attributes of [syscall.ParseNetlinkRouteAttr], with their types. *)
Fixpoint route_attrs (fuel : nat) (b : bytes) : option (result (list (Z * bytes))) :=
  match fuel with
  | O => Some (Ok [])
  | S fuel' =>
      if len b <? SizeofRtAttr then Some (Ok []) else
      let l := le_decode (slice b 0 2) in
      if (l <? SizeofRtAttr) || (len b <? l) then Some (Err EINVAL) else
      if len b <? align4 l then None else
      rest ← route_attrs fuel' (drop (Z.to_nat (align4 l)) b);
      Some (let? rs := rest in Ok ((le_decode (slice b 2 4), slice b SizeofRtAttr l) :: rs))
  end.
Definition ParseNetlinkRouteAttr (header : Z) (m : NetlinkMessage) : option (result (list (Z * bytes))) :=
  let b := drop (Z.to_nat header) (Data m) in route_attrs (length b) b.

(** ** Dumps *)

Record ifAddr := mkIfAddr { index : Z; prefix : Prefix }.

(** The loop over one message's attributes. *)
Definition addr_attr (acc : option Addr * option Addr) (a : Z * bytes) : option Addr * option Addr :=
  match AddrFromSlice a.2 with
  | Some (A4 v) =>
      if a.1 =? IFA_ADDRESS then (Some (A4 v), acc.2)
      else if a.1 =? IFA_LOCAL then (acc.1, Some (A4 v))
      else acc
  | _ => acc
  end.

Definition parse_addr (m : NetlinkMessage) : option (result (list ifAddr)) :=
  if negb (mType m =? RTM_NEWADDR) || (len (Data m) <? SizeofIfAddrmsg) then Some (Ok []) else
  attrs ← ParseNetlinkRouteAttr SizeofIfAddrmsg m;
  Some (let? attrs := attrs in
        let '(addr, local) := foldl addr_attr (None, None) attrs in
        match (match local with Some l => Some l | None => addr end) with
        | Some a => Ok [mkIfAddr (le_decode (slice (Data m) 4 8)) (PrefixFrom a (le_decode (slice (Data m) 1 2)))]
        | None => Ok []
        end).

(** Collects what each message gives; the first error or panic ends it. *)
Fixpoint collect {A} (f : NetlinkMessage -> option (result (list A))) (ms : list NetlinkMessage) :
    option (result (list A)) :=
  match ms with
  | [] => Some (Ok [])
  | m :: ms =>
      r ← f m;
      match r with
      | Err e => Some (Err e)
      | Ok out => rest ← collect f ms; Some (let? rest := rest in Ok (out ++ rest))
      end
  end.

Definition parse_dump {A} (f : NetlinkMessage -> option (result (list A))) (rib : bytes) :
    option (result (list A)) :=
  match ParseNetlinkMessage rib with Err e => Some (Err e) | Ok ms => collect f ms end.

Definition parseAddrs (rib : bytes) : option (result (list ifAddr)) := parse_dump parse_addr rib.

(** [parseRoute]: the destination and the output interface. *)
Definition route_attr (acc : Addr * Z) (a : Z * bytes) : Addr * Z :=
  if a.1 =? RTA_DST then (match AddrFromSlice a.2 with Some ip => ip | None => acc.1 end, acc.2)
  else if a.1 =? RTA_OIF then (acc.1, if len a.2 =? 4 then le_decode a.2 else acc.2)
  else acc.

Definition parseRoute (m : NetlinkMessage) : option (result (Prefix * Z)) :=
  attrs ← ParseNetlinkRouteAttr SizeofRtMsg m;
  Some (let? attrs := attrs in
        let '(dst, oif) := foldl route_attr (A4 0, -1) attrs in
        Ok (PrefixFrom dst (le_decode (slice (Data m) 1 2)), oif)).

Definition route_msg (idx : Z) (m : NetlinkMessage) : option (result (list Prefix)) :=
  if negb (mType m =? RTM_NEWROUTE) || (len (Data m) <? SizeofRtMsg) then Some (Ok []) else
  r ← parseRoute m;
  Some (let? (dst, oif) := r in
        Ok (if negb (oif =? idx) && Is4 (pAddr dst) then [dst] else [])).

Definition parseRoutes (rib : bytes) (idx : Z) : option (result (list Prefix)) :=
  parse_dump (route_msg idx) rib.

(** ** Requests *)

Definition rt_attr (t : Z) (v : bytes) : bytes :=
  le_encode 2 (SizeofRtAttr + len v) ++ le_encode 2 t ++ v.

(** [addr.Addr().As4()]; [None] is its panic on an IPv6 address. *)
Definition As4 (a : Addr) : option bytes :=
  match Unmap a with A4 v => Some (be_encode 4 v) | A6 _ _ => None end.

Definition addr_body (idx : Z) (bits : Z) (ip : bytes) : bytes :=
  byte_of_Z AF_INET :: byte_of_Z bits :: Byte.x00 :: Byte.x00 :: le_encode 4 idx ++
  rt_attr IFA_LOCAL ip ++ rt_attr IFA_ADDRESS ip.

Definition encodeAddrRequest (typ flags idx : Z) (addr : Prefix) : option bytes :=
  ip ← As4 (pAddr addr);
  let body := addr_body idx (pBits addr) ip in
  Some (le_encode 4 (SizeofNlMsghdr + len body) ++ le_encode 2 typ ++
        le_encode 2 (Z.lor (Z.lor NLM_F_REQUEST NLM_F_ACK) flags) ++ le_encode 4 1 ++ le_encode 4 0 ++ body).

(** [int32(x)] *)
Definition to_int32 (z : Z) : Z := (z + 2 ^ 31) mod 2 ^ 32 - 2 ^ 31.

Fixpoint ack_of (ms : list NetlinkMessage) : option error :=
  match ms with
  | [] => Some (Msg "no netlink acknowledgement")
  | m :: ms =>
      if (mType m =? NLMSG_ERROR) && (4 <=? len (Data m)) then
        let code := to_int32 (le_decode (slice (Data m) 0 4)) in
        if code =? 0 then None else Some (Errno (to_int32 (- code)))
      else ack_of ms
  end.
Definition parseAck (buf : bytes) : option error :=
  match ParseNetlinkMessage buf with Err e => Some e | Ok ms => ack_of ms end.

(** [flushAddrs] over a state [del] changes; [None] is a panic of [del]. *)
Fixpoint flushAddrs {K} (del : K -> Prefix -> option (K * option error)) (k : K) (addrs : list Prefix) :
    option (K * option error) :=
  match addrs with
  | [] => Some (k, None)
  | a :: addrs =>
      '(k, err) ← del k a;
      match err with
      | Some e =>
          if errors_Is e EADDRNOTAVAIL then flushAddrs del k addrs
          else Some (k, Some (Wrap ("removing " ++ Prefix_String a) e))
      | None => flushAddrs del k addrs
      end
  end.

(** ** The kernel's side *)

(** [NetlinkRIB k proto] is a dump ([syscall.NetlinkRIB(proto, AF_INET)]) and
    [exchange] one request over a fresh socket: the reply read, or the error of
    the socket call that failed. *)
Class Kernel (K : Type) := {
  NetlinkRIB : K -> Z -> result bytes;
  exchange : K -> bytes -> K * result bytes }.

(** The addresses on interface [i], and the other interfaces' entries. *)
Definition on_iface (i : Z) (t : list ifAddr) : list Prefix := prefix <$> filter (fun x => index x = i) t.
Definition elsewhere (i : Z) (t : list ifAddr) : list ifAddr := filter (fun x => index x <> i) t.

Section Iface.
Context {K : Type} {KO : Kernel K}.

Definition dumpAddrs (k : K) : option (result (list ifAddr)) :=
  match NetlinkRIB k RTM_GETADDR with
  | Err e => Some (Err (Wrap "RTM_GETADDR" e))
  | Ok rib => parseAddrs rib
  end.

Definition Addrs (idx : Z) (k : K) : option (result (list Prefix)) :=
  all ← dumpAddrs k;
  Some (let? all := all in Ok (on_iface idx all)).

Definition Others (idx : Z) (k : K) : option (result (list Prefix * list Prefix)) :=
  all ← dumpAddrs k;
  match all with
  | Err e => Some (Err e)
  | Ok all =>
      match NetlinkRIB k RTM_GETROUTE with
      | Err e => Some (Err (Wrap "RTM_GETROUTE" e))
      | Ok rib =>
          routes ← parseRoutes rib idx;
          Some (let? routes := routes in Ok (prefix <$> elsewhere idx all, routes))
      end
  end.

Definition addrRequest (idx typ flags : Z) (k : K) (addr : Prefix) : option (K * option error) :=
  msg ← encodeAddrRequest typ flags idx addr;
  let '(k, reply) := exchange k msg in
  Some (k, match reply with Err e => Some e | Ok buf => parseAck buf end).

Definition Flush (idx : Z) (k : K) : option (K * option error) :=
  addrs ← Addrs idx k;
  match addrs with
  | Err e => Some (k, Some e)
  | Ok addrs => flushAddrs (addrRequest idx RTM_DELADDR 0) k addrs
  end.

Definition Add (idx : Z) (k : K) (addr : Prefix) : option (K * option error) :=
  addrRequest idx RTM_NEWADDR (Z.lor NLM_F_CREATE NLM_F_EXCL) k addr.
End Iface.

(** An address the kernel lists: IPv4, with a length. *)
Definition addr4 (a : ifAddr) : Prop :=
  exists v bits, prefix a = mkPrefix (A4 v) bits /\ 0 <= v < 2 ^ 32 /\ 0 <= bits <= 32 /\ 0 <= index a < 2 ^ 32.

(** rtnetlink(7): a dump lists the address table; an acknowledged RTM_DELADDR
    removed the address, with its secondaries on the same interface and nothing
    else; EADDRNOTAVAIL says it was not there; an acknowledged RTM_NEWADDR added
    it.  The errors of failing socket calls are errnos other than EADDRNOTAVAIL. *)
Class KernelLaws (K : Type) {KO : Kernel K} := {
  table : K -> list ifAddr;
  table_addr4 k : Forall addr4 (table k);
  dump_table k rib : NetlinkRIB k RTM_GETADDR = Ok rib -> parseAddrs rib = Some (Ok (table k));
  del_ack k k' i a msg buf : addr4 (mkIfAddr i a) ->
    encodeAddrRequest RTM_DELADDR 0 i a = Some msg -> exchange k msg = (k', Ok buf) ->
    parseAck buf = None ->
    mkIfAddr i a ∉ table k' /\ table k' ⊆ table k /\
    elsewhere i (table k') = elsewhere i (table k);
  del_gone k k' i a msg buf : addr4 (mkIfAddr i a) ->
    encodeAddrRequest RTM_DELADDR 0 i a = Some msg -> exchange k msg = (k', Ok buf) ->
    parseAck buf = Some EADDRNOTAVAIL -> table k' = table k /\ mkIfAddr i a ∉ table k;
  add_ack k k' i a msg buf : addr4 (mkIfAddr i a) ->
    encodeAddrRequest RTM_NEWADDR (Z.lor NLM_F_CREATE NLM_F_EXCL) i a = Some msg ->
    exchange k msg = (k', Ok buf) -> parseAck buf = None ->
    table k' ≡ₚ mkIfAddr i a :: table k;
  exchange_failed k k' msg e :
    exchange k msg = (k', Err e) -> errors_Is e EADDRNOTAVAIL = false /\ errors_Is e LinkClaim.ErrRefused = false;
  rib_failed k t e : NetlinkRIB k t = Err e -> errors_Is e LinkClaim.ErrRefused = false }.

(** ** A request's layout *)

Lemma align4_id n : n mod 4 = 0 -> align4 n = n.
Proof. unfold align4. intros. div_lia. Qed.

Lemma slice_tail {A} (l : list A) i : 0 <= i -> slice l i (len l) = drop (Z.to_nat i) l.
Proof. intros ?. unfold slice, len. apply take_ge. rewrite length_drop. lia. Qed.

Lemma netlink_messages_fuel n : forall m b, (length b <= n)%nat -> (length b <= m)%nat ->
  netlink_messages n b = netlink_messages m b.
Proof.
  induction n as [|n IH]; intros [|m] b Hn Hm; cbn [netlink_messages].
  - done.
  - destruct b; [done|cbn in Hn; lia].
  - destruct b; [done|cbn in Hm; lia].
  - destruct (Z.ltb_spec (len b) SizeofNlMsghdr) as [|Hl]; [done|].
    set (l := le_decode (slice b 0 4)).
    destruct (Z.ltb_spec l SizeofNlMsghdr); cbn [orb]; [done|].
    destruct (Z.ltb_spec (len b) (align4 l)); [done|].
    assert (Ha : SizeofNlMsghdr <= align4 l) by (unfold align4, SizeofNlMsghdr in *; div_lia).
    unfold SizeofNlMsghdr, len in *. erewrite (IH m); [done|rewrite length_drop; lia..].
Qed.

(** A message followed by others. *)
Lemma ParseNetlinkMessage_cons typ flags seq pid body rest :
  0 <= typ < 2 ^ 16 -> 0 <= flags < 2 ^ 16 -> len body mod 4 = 0 -> len body + SizeofNlMsghdr < 2 ^ 32 ->
  ParseNetlinkMessage (le_encode 4 (SizeofNlMsghdr + len body) ++ le_encode 2 typ ++ le_encode 2 flags ++
      le_encode 4 seq ++ le_encode 4 pid ++ body ++ rest) =
  let? ms := ParseNetlinkMessage rest in Ok (mkMsg typ flags body :: ms).
Proof.
  intros Ht Hf Hb Hl. unfold SizeofNlMsghdr in *. pose proof (len_nonneg body).
  unfold ParseNetlinkMessage.
  set (b := le_encode 4 (16 + len body) ++ le_encode 2 typ ++ le_encode 2 flags ++
    le_encode 4 seq ++ le_encode 4 pid ++ body ++ rest).
  assert (Hlen : len b = 16 + len body + len rest).
  { subst b. autorewrite with golen. lia. }
  assert (Hsz : le_decode (slice b 0 4) = 16 + len body).
  { subst b. rewrite slice_take by (autorewrite with golen; lia). rewrite le_decode_small; lia. }
  destruct (length b) as [|n] eqn:En; [unfold len in *; lia|]. cbn [netlink_messages].
  unfold SizeofNlMsghdr. pose proof (len_nonneg rest).
  destruct (Z.ltb_spec (len b) 16); [lia|]. rewrite Hsz.
  rewrite align4_id by div_lia.
  destruct (Z.ltb_spec (16 + len body) 16); [lia|]. destruct (Z.ltb_spec (len b) (16 + len body)); [lia|].
  cbn [orb]. assert (Hd : drop (Z.to_nat (16 + len body)) b = rest).
  { subst b. rewrite !app_assoc. apply drop_app_length'.
    rewrite !length_app. pose proof (len_le_encode 4). pose proof (len_le_encode 2). unfold len in *.
    repeat match goal with H : forall z, _ |- context [length (le_encode ?n ?z)] =>
      rewrite (Nat2Z.inj _ _ (H z)) end. lia. }
  rewrite Hd, (netlink_messages_fuel n (length rest)); [|unfold len in *; lia|lia].
  assert (Hs : slice b 16 (16 + len body) = body).
  { subst b. slice_app. reflexivity. }
  rewrite Hs. assert (H4 : le_decode (slice b 4 6) = typ).
  { subst b. slice_app. apply le_decode_small. lia. }
  assert (H6 : le_decode (slice b 6 8) = flags).
  { subst b. slice_app. apply le_decode_small. lia. }
  by rewrite H4, H6.
Qed.

Lemma route_attrs_fuel n : forall m b, (length b <= n)%nat -> (length b <= m)%nat ->
  route_attrs n b = route_attrs m b.
Proof.
  induction n as [|n IH]; intros [|m] b Hn Hm; cbn [route_attrs].
  - done.
  - destruct b; [done|cbn in Hn; lia].
  - destruct b; [done|cbn in Hm; lia].
  - destruct (Z.ltb_spec (len b) SizeofRtAttr) as [|Hl]; [done|].
    set (l := le_decode (slice b 0 2)).
    destruct (Z.ltb_spec l SizeofRtAttr); cbn [orb]; [done|].
    destruct (Z.ltb_spec (len b) l); [done|]. destruct (Z.ltb_spec (len b) (align4 l)); [done|].
    assert (Ha : SizeofRtAttr <= align4 l) by (unfold align4, SizeofRtAttr in *; div_lia).
    unfold SizeofRtAttr, len in *. erewrite (IH m); [done|rewrite length_drop; lia..].
Qed.

Lemma length_le_encode n z : length (le_encode n z) = n.
Proof. pose proof (len_le_encode n z). unfold len in *. lia. Qed.

Lemma route_attrs_cons n t v rest :
  0 <= t < 2 ^ 16 -> len v mod 4 = 0 -> len v + SizeofRtAttr < 2 ^ 16 ->
  (length (rt_attr t v ++ rest) <= n)%nat ->
  route_attrs n (rt_attr t v ++ rest) =
  (rs ← route_attrs n rest; Some (let? rs := rs in Ok ((t, v) :: rs))).
Proof.
  intros Ht Hv Hl Hn. unfold SizeofRtAttr in *. pose proof (len_nonneg v). pose proof (len_nonneg rest).
  set (b := rt_attr t v ++ rest).
  assert (Hlen : len b = 4 + len v + len rest).
  { subst b. unfold rt_attr. autorewrite with golen. lia. }
  assert (Hsz : le_decode (slice b 0 2) = 4 + len v).
  { subst b. unfold rt_attr. rewrite <- app_assoc, slice_take by (autorewrite with golen; lia).
    unfold SizeofRtAttr. rewrite le_decode_small; lia. }
  rewrite (route_attrs_fuel n (length b)) by (subst b; lia).
  destruct (length b) as [|m] eqn:Em; [unfold len in *; lia|]. cbn [route_attrs].
  unfold SizeofRtAttr.
  destruct (Z.ltb_spec (len b) 4); [lia|]. rewrite Hsz.
  rewrite align4_id by div_lia.
  destruct (Z.ltb_spec (4 + len v) 4); [lia|]. destruct (Z.ltb_spec (len b) (4 + len v)); [lia|].
  cbn [orb]. assert (Hd : drop (Z.to_nat (4 + len v)) b = rest).
  { subst b. apply drop_app_length'. unfold rt_attr. rewrite !length_app, !length_le_encode. unfold len. lia. }
  rewrite Hd, (route_attrs_fuel m n); [|unfold len in *; lia|subst b; rewrite length_app in Hn; lia].
  assert (Hs : slice b 4 (4 + len v) = v).
  { subst b. unfold rt_attr. rewrite <- !app_assoc. slice_app. reflexivity. }
  assert (Ht2 : le_decode (slice b 2 4) = t).
  { subst b. unfold rt_attr. rewrite <- !app_assoc. slice_app. apply le_decode_small. lia. }
  by rewrite Hs, Ht2.
Qed.

(** ** A request, read back by the dump parser *)

Lemma encodeAddrRequest_shape typ flags i v bits :
  encodeAddrRequest typ flags i (mkPrefix (A4 v) bits) =
  Some (le_encode 4 (SizeofNlMsghdr + len (addr_body i bits (be_encode 4 v))) ++ le_encode 2 typ ++
    le_encode 2 (Z.lor 5 flags) ++ le_encode 4 1 ++ le_encode 4 0 ++ addr_body i bits (be_encode 4 v)).
Proof. done. Qed.

Lemma len_addr_body i bits v : len (addr_body i bits (be_encode 4 v)) = 24.
Proof. unfold addr_body, rt_attr. autorewrite with golen. lia. Qed.

Lemma PrefixFrom4 v bits : 0 <= bits <= 32 -> PrefixFrom (A4 v) bits = mkPrefix (A4 v) bits.
Proof.
  intros. unfold PrefixFrom. cbn [withoutZone BitLen].
  destruct (Z.leb_spec 0 bits); [|lia]. destruct (Z.leb_spec bits 32); [done|lia].
Qed.

Lemma AddrFromSlice_As4 v : 0 <= v < 2 ^ 32 -> AddrFromSlice (be_encode 4 v) = Some (A4 v).
Proof.
  intros Hv. unfold AddrFromSlice. rewrite decide_True by apply length_be_encode.
  rewrite be_decode_encode, Z.mod_small by lia. done.
Qed.

Lemma parse_addr_body flags i v bits :
  0 <= v < 2 ^ 32 -> 0 <= bits <= 32 -> 0 <= i < 2 ^ 32 ->
  parse_addr (mkMsg RTM_NEWADDR flags (addr_body i bits (be_encode 4 v))) =
  Some (Ok [mkIfAddr i (mkPrefix (A4 v) bits)]).
Proof.
  intros Hv Hb Hi. unfold parse_addr. cbn [mType Data]. rewrite len_addr_body.
  change (negb (RTM_NEWADDR =? RTM_NEWADDR) || (24 <? SizeofIfAddrmsg)) with false. cbn iota.
  unfold ParseNetlinkRouteAttr. cbn [Data].
  assert (Hd : drop (Z.to_nat SizeofIfAddrmsg) (addr_body i bits (be_encode 4 v)) =
    rt_attr IFA_LOCAL (be_encode 4 v) ++ rt_attr IFA_ADDRESS (be_encode 4 v) ++ []).
  { rewrite app_nil_r. unfold addr_body. change (Z.to_nat SizeofIfAddrmsg) with (4 + 4)%nat.
    cbn [Nat.add drop]. apply drop_app_length'. by rewrite length_le_encode. }
  rewrite Hd. set (n := length _).
  rewrite route_attrs_cons, route_attrs_cons; try done;
    try (rewrite len_be_encode; unfold SizeofRtAttr; lia);
    try (subst n; rewrite ?length_app; lia).
  assert (Hnil : route_attrs n [] = Some (Ok [])) by (by destruct n).
  rewrite Hnil. cbn [mbind option_bind result_bind foldl].
  unfold addr_attr. cbn [fst snd]. rewrite !AddrFromSlice_As4 by done.
  change (IFA_LOCAL =? IFA_ADDRESS) with false. change (IFA_LOCAL =? IFA_LOCAL) with true.
  change (IFA_ADDRESS =? IFA_ADDRESS) with true. cbn iota beta. cbn [fst snd].
  assert (H4 : le_decode (slice (addr_body i bits (be_encode 4 v)) 4 8) = i).
  { unfold addr_body. repeat rewrite slice_cons_skip by lia.
    rewrite slice_take by (rewrite ?len_le_encode; lia). apply le_decode_small. lia. }
  assert (H1 : le_decode (slice (addr_body i bits (be_encode 4 v)) 1 2) = bits).
  { unfold addr_body. rewrite slice_cons_skip by lia. unfold slice. 
    change (Z.to_nat (2 - 1 - (1 - 1))) with 1%nat. change (Z.to_nat (1 - 1)) with 0%nat. cbn [drop take].
    unfold le_decode, be_decode. cbn [rev app foldl]. rewrite byte_val_of_Z, Z.mod_small; lia. }
  by rewrite H4, H1, PrefixFrom4.
Qed.

Lemma ParseNetlinkMessage_nil : ParseNetlinkMessage [] = Ok [].
Proof. done. Qed.

(** One request in front of more messages. *)
Lemma parse_request typ flags i v bits msg rest :
  encodeAddrRequest typ flags i (mkPrefix (A4 v) bits) = Some msg ->
  0 <= typ < 2 ^ 16 -> 0 <= Z.lor 5 flags < 2 ^ 16 ->
  ParseNetlinkMessage (msg ++ rest) =
  let? ms := ParseNetlinkMessage rest in
  Ok (mkMsg typ (Z.lor 5 flags) (addr_body i bits (be_encode 4 v)) :: ms).
Proof.
  rewrite encodeAddrRequest_shape. intros Hm Ht Hf. apply (inj Some) in Hm. subst msg.
  rewrite <- !app_assoc. apply ParseNetlinkMessage_cons; [done|done|by rewrite len_addr_body..].
Qed.

(** The kernel's dump of a table, as the request encoder writes each entry. *)
Definition encode_dump (t : list ifAddr) : option bytes :=
  foldr (fun a acc => b ← encodeAddrRequest RTM_NEWADDR 0 (index a) (prefix a); r ← acc; Some (b ++ r)) (Some []) t.

Lemma parse_dump_exact t : Forall addr4 t ->
  exists b, encode_dump t = Some b /\ parseAddrs b = Some (Ok t).
Proof.
  unfold parseAddrs, parse_dump. induction 1 as [|a t Ha Ht IH]; [by exists []|].
  destruct IH as (b & Hb & Hp). destruct a as [i p], Ha as (v & bits & Hpx & Hv & Hbits & Hi).
  cbn [prefix index] in Hpx, Hi. subst p.
  destruct (encodeAddrRequest RTM_NEWADDR 0 i (mkPrefix (A4 v) bits)) as [m|] eqn:Em; [|by rewrite encodeAddrRequest_shape in Em].
  exists (m ++ b). split.
  { cbn [encode_dump foldr index prefix]. rewrite Em. cbn [mbind option_bind].
    unfold encode_dump in Hb. by rewrite Hb. }
  rewrite (parse_request _ _ _ _ _ _ b Em) by done.
  destruct (ParseNetlinkMessage b) as [ms|e]; [|done]. cbn [result_bind collect].
  rewrite parse_addr_body by done. cbn [mbind option_bind]. by rewrite Hp.
Qed.

(** ** Flushing *)
Section Flush.
Context {K : Type} {KO : Kernel K} {KL : KernelLaws K}.

Lemma elem_on_iface i p t : p ∈ on_iface i t <-> mkIfAddr i p ∈ t.
Proof.
  unfold on_iface. rewrite list_elem_of_fmap. setoid_rewrite list_elem_of_filter. split.
  - intros ([j q] & -> & Hj & H). cbn [index prefix] in *. by subst.
  - intros H. by exists (mkIfAddr i p).
Qed.

Lemma Errno_inj a b : Errno a = Errno b -> a = b.
Proof. unfold Errno. intros [= H]. by apply Itoa_inj in H. Qed.

Lemma ack_of_errno ms e : ack_of ms = Some e -> errors_Is e EADDRNOTAVAIL = true -> e = EADDRNOTAVAIL.
Proof.
  induction ms as [|m ms IH]; cbn [ack_of]; [by intros [= <-]|].
  destruct ((mType m =? NLMSG_ERROR) && (4 <=? len (Data m))); [|done].
  destruct (_ =? 0); [done|]. intros [= <-]. cbn [errors_Is Errno]. rewrite orb_false_r.
  apply bool_decide_eq_true.
Qed.

Lemma parseAck_errno b e : parseAck b = Some e -> errors_Is e EADDRNOTAVAIL = true -> e = EADDRNOTAVAIL.
Proof.
  unfold parseAck. destruct (ParseNetlinkMessage b) as [ms|e'] eqn:E; [apply ack_of_errno|].
  intros [= <-]. revert E. unfold ParseNetlinkMessage. generalize (length b) as n. intros n.
  revert b. induction n as [|n IH]; intros b; cbn [netlink_messages]; [done|].
  destruct (_ <? _); [done|]. destruct (_ || _); [by intros [= <-]|].
  destruct (netlink_messages n _) eqn:E'; [done|]. cbn [result_bind]. intros [= <-]. eauto.
Qed.

Lemma flushAddrs_spec i ps : forall k k',
  Forall (fun p => addr4 (mkIfAddr i p)) ps ->
  flushAddrs (addrRequest i RTM_DELADDR 0) k ps = Some (k', None) ->
  (forall p, p ∈ on_iface i (table k) -> p ∈ ps) ->
  on_iface i (table k') = [] /\ elsewhere i (table k') = elsewhere i (table k).
Proof.
  induction ps as [|p ps IH]; intros k k' Hok Hf Hin; cbn [flushAddrs] in Hf.
  { injection Hf as <-. split; [|done].
    destruct (on_iface i (table k)) as [|q l] eqn:E; [done|].
    assert (Hq : q ∈ []) by (apply Hin; left). by apply elem_of_nil in Hq. }
  apply Forall_cons in Hok as [Hp4 Hok].
  destruct (addrRequest i RTM_DELADDR 0 k p) as [ [k1 err]|] eqn:Er; [|done]. cbn [mbind option_bind] in Hf.
  assert (Hstep : flushAddrs (addrRequest i RTM_DELADDR 0) k1 ps = Some (k', None) /\
    table k1 ⊆ table k /\ mkIfAddr i p ∉ table k1 /\ elsewhere i (table k1) = elsewhere i (table k)).
  { unfold addrRequest in Er. destruct (encodeAddrRequest RTM_DELADDR 0 i p) as [msg|] eqn:Em; [|done].
    cbn [mbind option_bind] in Er. destruct (exchange k msg) as [k2 [buf|e] ] eqn:Ex; injection Er as -> <-.
    - destruct (parseAck buf) as [e|] eqn:Ea.
      + destruct (errors_Is e EADDRNOTAVAIL) eqn:Ee; [|done].
        pose proof (parseAck_errno _ _ Ea Ee) as ->.
        destruct (del_gone _ _ _ _ _ _ Hp4 Em Ex Ea) as [-> ?]. done.
      + destruct (del_ack _ _ _ _ _ _ Hp4 Em Ex Ea) as (? & ? & ?). done.
    - by rewrite (proj1 (exchange_failed _ _ _ _ Ex)) in Hf. }
  destruct Hstep as (Hf1 & Hsub & Hp & He). destruct (IH _ _ Hok Hf1) as [-> ->]; [|done].
  intros q Hq. apply elem_on_iface in Hq. assert (q <> p) by (intros ->; done).
  assert (Hq' : q ∈ p :: ps) by (apply Hin, elem_on_iface, Hsub, Hq). set_solver.
Qed.

(** [Flush] leaves no address on the interface and the others alone. *)
Lemma Flush_spec i k k' :
  Flush i k = Some (k', None) ->
  on_iface i (table k') = [] /\ elsewhere i (table k') = elsewhere i (table k).
Proof.
  unfold Flush, Addrs, dumpAddrs. destruct (NetlinkRIB k RTM_GETADDR) as [rib|e] eqn:Er.
  - rewrite (dump_table _ _ Er). cbn [mbind option_bind result_bind].
    intros H. refine (flushAddrs_spec _ _ _ _ _ H (fun p Hp => Hp)).
    apply Forall_forall. intros p Hp. apply elem_on_iface in Hp.
    exact (proj1 (Forall_forall _ _) (table_addr4 k) _ Hp).
  - cbn [mbind option_bind result_bind]. done.
Qed.

Lemma Add_spec i k k' p : addr4 (mkIfAddr i p) ->
  Add i k p = Some (k', None) ->
  on_iface i (table k') ≡ₚ p :: on_iface i (table k) /\ elsewhere i (table k') ≡ₚ elsewhere i (table k).
Proof.
  intros Hp4. unfold Add, addrRequest. destruct (encodeAddrRequest _ _ i p) as [msg|] eqn:Em; [|done].
  cbn [mbind option_bind]. destruct (exchange k msg) as [k2 [buf|e] ] eqn:Ex; [|done]. intros [= -> Ha].
  pose proof (add_ack _ _ _ _ _ _ Hp4 Em Ex Ha) as Ht. split.
  - unfold on_iface. rewrite Ht, filter_cons_True by done. done.
  - unfold elsewhere. rewrite Ht, filter_cons_False by (cbn [index]; naive_solver). done.
Qed.

Lemma Addrs_spec i k ps : Addrs i k = Some (Ok ps) -> ps = on_iface i (table k).
Proof.
  unfold Addrs, dumpAddrs. destruct (NetlinkRIB k RTM_GETADDR) as [rib|e] eqn:Er; [|done].
  rewrite (dump_table _ _ Er). cbn [mbind option_bind result_bind]. by intros [= <-].
Qed.

Lemma Others_spec i k ps rs : Others i k = Some (Ok (ps, rs)) -> ps = prefix <$> elsewhere i (table k).
Proof.
  unfold Others, dumpAddrs. destruct (NetlinkRIB k RTM_GETADDR) as [rib|e] eqn:Er; [|done].
  rewrite (dump_table _ _ Er). cbn [mbind option_bind].
  destruct (NetlinkRIB k RTM_GETROUTE) as [rr|e]; [|done].
  destruct (parseRoutes rr i) as [ [r|e]|]; [|done|done]. cbn. by intros [= <- _].
Qed.

(** ** No parser or request error is a refusal of the claim *)

Definition plain (e : error) : Prop := errors_Is e LinkClaim.ErrRefused = false.

Lemma plain_EINVAL : plain EINVAL.
Proof. done. Qed.

Lemma plain_Wrap ctx e : plain e -> plain (Wrap ctx e).
Proof. unfold plain. intros H. cbn [errors_Is]. rewrite H. by rewrite bool_decide_eq_false_2. Qed.

Lemma netlink_messages_err n : forall b e, netlink_messages n b = Err e -> e = EINVAL.
Proof.
  induction n as [|n IH]; intros b e; cbn [netlink_messages]; [done|].
  destruct (_ <? _); [done|]. destruct (_ || _); [by intros [= <-]|].
  destruct (netlink_messages n _) eqn:E'; [done|]. cbn [result_bind]. intros [= <-]. eauto.
Qed.

Lemma route_attrs_err n : forall b e, route_attrs n b = Some (Err e) -> e = EINVAL.
Proof.
  induction n as [|n IH]; intros b e; cbn [route_attrs]; [done|].
  destruct (_ <? _); [done|]. destruct (_ || _); [by intros [= <-]|]. destruct (_ <? _); [done|].
  destruct (route_attrs n _) as [ [r|e']|] eqn:E'; [done| |done]. cbn. intros [= <-]. eauto.
Qed.

Lemma collect_err {A} (f : NetlinkMessage -> option (result (list A))) ms e :
  (forall m e, f m = Some (Err e) -> e = EINVAL) -> collect f ms = Some (Err e) -> e = EINVAL.
Proof.
  intros Hf. revert e. induction ms as [|m ms IH]; intros e; cbn [collect]; [done|].
  destruct (f m) as [ [out|e']|] eqn:Em; [| |done]; cbn [mbind option_bind].
  - destruct (collect f ms) as [ [r|e']|]; [done| |done]. cbn. intros [= <-]. by apply IH.
  - intros [= <-]. eauto.
Qed.

Lemma parse_dump_err {A} (f : NetlinkMessage -> option (result (list A))) b e :
  (forall m e, f m = Some (Err e) -> e = EINVAL) -> parse_dump f b = Some (Err e) -> e = EINVAL.
Proof.
  intros Hf. unfold parse_dump. destruct (ParseNetlinkMessage b) as [ms|e'] eqn:E.
  - by apply collect_err.
  - intros [= <-]. by eapply netlink_messages_err.
Qed.

Lemma parse_addr_err m e : parse_addr m = Some (Err e) -> e = EINVAL.
Proof.
  unfold parse_addr. destruct (_ || _); [done|]. unfold ParseNetlinkRouteAttr.
  destruct (route_attrs _ _) as [ [r|e']|] eqn:E'; [| |done]; cbn [mbind option_bind result_bind].
  - destruct (foldl addr_attr _ r) as [addr local]. destruct local; [done|]. by destruct addr.
  - intros [= <-]. by eapply route_attrs_err.
Qed.

Lemma route_msg_err i m e : route_msg i m = Some (Err e) -> e = EINVAL.
Proof.
  unfold route_msg, parseRoute. destruct (_ || _); [done|]. unfold ParseNetlinkRouteAttr.
  destruct (route_attrs _ _) as [ [r|e']|] eqn:E'; [| |done]; cbn [mbind option_bind result_bind].
  - destruct (foldl route_attr _ r). done.
  - intros [= <-]. by eapply route_attrs_err.
Qed.

Lemma dumpAddrs_plain k e : dumpAddrs k = Some (Err e) -> plain e.
Proof using KL.
  unfold dumpAddrs. destruct (NetlinkRIB k RTM_GETADDR) as [rib|e'] eqn:E.
  - intros H. apply parse_dump_err in H as ->; [done|apply parse_addr_err].
  - intros [= <-]. apply plain_Wrap. by eapply rib_failed.
Qed.

Lemma Addrs_plain i k e : Addrs i k = Some (Err e) -> plain e.
Proof using KL.
  unfold Addrs. destruct (dumpAddrs k) as [ [r|e']|] eqn:E; [done| |done]. cbn. intros [= <-].
  by eapply dumpAddrs_plain.
Qed.

Lemma Others_plain i k e : Others i k = Some (Err e) -> plain e.
Proof using KL.
  unfold Others. destruct (dumpAddrs k) as [ [r|e']|] eqn:E; [| |done]; cbn [mbind option_bind].
  - destruct (NetlinkRIB k RTM_GETROUTE) as [rib|e'] eqn:Er.
    + destruct (parseRoutes rib i) as [ [rs|e']|] eqn:Ep; [done| |done]. cbn. intros [= <-].
      apply parse_dump_err in Ep as ->; [done|apply route_msg_err].
    + intros [= <-]. apply plain_Wrap. by eapply rib_failed.
  - intros [= <-]. by eapply dumpAddrs_plain.
Qed.

Lemma ack_of_plain ms e : ack_of ms = Some e -> plain e.
Proof.
  induction ms as [|m ms IH]; cbn [ack_of]; [by intros [= <-]|].
  destruct ((mType m =? NLMSG_ERROR) && (4 <=? len (Data m))); [|done].
  destruct (_ =? 0); [done|]. by intros [= <-].
Qed.

Lemma addrRequest_plain i t f k k' p e : addrRequest i t f k p = Some (k', Some e) -> plain e.
Proof using KL.
  unfold addrRequest. destruct (encodeAddrRequest t f i p) as [msg|]; [|done]. cbn [mbind option_bind].
  destruct (exchange k msg) as [k2 [buf|e'] ] eqn:Ex; intros H; injection H as <- Hp.
  - unfold parseAck in Hp. destruct (ParseNetlinkMessage buf) as [ms|e'] eqn:E; [by apply ack_of_plain in Hp|].
    injection Hp as ->. unfold ParseNetlinkMessage in E. by rewrite (netlink_messages_err _ _ _ E).
  - subst e'. apply (exchange_failed _ _ _ _ Ex).
Qed.

Lemma Flush_plain i k k' e : Flush i k = Some (k', Some e) -> plain e.
Proof using KL.
  unfold Flush. destruct (Addrs i k) as [ [ps|e']|] eqn:Ea; [| |done]; cbn [mbind option_bind].
  - clear Ea. revert k. induction ps as [|p ps IH]; intros k; cbn [flushAddrs]; [done|].
    destruct (addrRequest i RTM_DELADDR 0 k p) as [ [k1 err]|] eqn:Er; [|done]. cbn [mbind option_bind].
    destruct err as [e'|]; [|apply IH]. destruct (errors_Is e' EADDRNOTAVAIL); [apply IH|].
    intros [= <- <-]. apply plain_Wrap. by eapply addrRequest_plain.
  - intros [= <- <-]. by eapply Addrs_plain.
Qed.
End Flush.
End Netlink.
