(* ===== verification/Modes.v ===== *)
(** * The relay's modes (src/cmd/relay/vmlink.go, mode_host.go, main.go,
    segment.go, dhcp_vm.go, chanlistener.go)

    Each mode's start step runs inside the claim and configures the build
    segment: [vm_start] over the interface [BuildIface], which the netlink
    interface of [Netlink] implements, [host_start] over the netstack
    [HostNet], [containerStart].  [claim_start] is what the claim server calls. *)
From S2P Require Import Prelude Text Netip BuildLink Proxy Claim Dhcp Netlink.

#[local] Open Scope Z_scope.
#[local] Open Scope go_scope.

Module Modes.
Import Netip LinkClaim ClaimEnvironment.
Import ClaimServer(Config, CollectorURL, CollectorToken, CaptureMode, UpstreamCACerts, UpstreamSystemCA,
  CfgEnvironment, CfgBuildLink, Identity).

(** ** The relay's configuration ([relay.Config]) *)

(** A channel listener, by the address it reports. *)
Record Listener := mkListener { lnIP : bytes; lnPort : Z }.

Record RelayConfig := mkRC {
  rCollectorURL : string;
  rCollectorToken : string;
  rTransport : option nat;
  rCaptureMode : string;
  rSelfIP : option bytes;
  rEnvironment : option EnvConfig;
  rSSRF : bool;
  rBuildLink : option Prefix;
  rUpstreamCACerts : list bytes;
  rUpstreamSystemCA : option bool;
  rDNS : option nat;  (* the ingress whose udp/53 it is *)
  rHTTP : option Listener;
  rHTTPS : option Listener;
  rControl : option Listener }.

(** The zero value. *)
Definition emptyConfig : RelayConfig :=
  mkRC "" "" None "" None None false None [] None None None None None.

(** ** Segments *)
Record segment := mkSegment { sPrefix : Prefix; sRelay : Addr; sGuest : Addr }.

Definition claimSegment (b : BuildLink) : result segment :=
  let? (p, r, g) := LinkClaim.Parse b in Ok (mkSegment p r g).

(** [net.ParseCIDR]: the address, and the length in its family. *)
Definition ParseCIDR (s : string) : result (Addr * Z) :=
  let bad := Errorf "invalid CIDR address: %s" [s] in
  match BuildLink.Cut s "/" with
  | None => Err bad
  | Some (addr, mask) =>
      match ParseAddr addr, parse_dec mask with
      | Ok a, Some n =>
          if bool_decide (a = withoutZone a) && (n <=? BitLen a) then Ok (a, n) else Err bad
      | _, _ => Err bad
      end
  end.

(** [addToIP] on an address as a number: [int] arithmetic, then four bytes. *)
Definition addToIP (v n : Z) : Z := wrap_u 32 (v + n).

(** [parseSubnet]: the gateway, the guest and the mask's length. *)
Definition parseSubnet (cidr : string) : result (Z * Z * Z) :=
  let? (ip, n) := ParseCIDR cidr in
  match ip with
  | A6 _ _ => Err (Msg "only IPv4 supported")
  | A4 v => let base := mask_val 32 n v in Ok (addToIP base 1, addToIP base 2, n)
  end.

Definition subnetLink (cidr : string) : result segment :=
  let? (gw, guest, ones) := parseSubnet cidr in
  Ok (mkSegment (Masked (PrefixFrom (A4 gw) ones)) (A4 gw) (A4 guest)).

(** [addr.AsSlice()] of an IPv4 address. *)
Definition AsSlice (a : Addr) : bytes :=
  match a with A4 v => be_encode 4 v | A6 v _ => be_encode 16 v end.

Definition segment_lease (s : segment) : Dhcp.dhcpLease :=
  Dhcp.newDHCPLease (pBits (sPrefix s)) (addr_val (sRelay s)) (addr_val (sGuest s)).

(** ** vm mode *)

(** [vmLink]: the build interface, and the responder's socket.  A panic is
    [None]; a stop function is the change it makes. *)
Class BuildIface (W : Type) := {
  if_Name : string;
  if_Addrs : W -> option (result (list Prefix));
  if_Flush : W -> option (W * option error);
  if_Add : W -> Prefix -> option (W * option error);
  if_Others : W -> option (result (list Prefix * list Prefix));
  serveDHCP : W -> string -> Dhcp.dhcpLease -> W * result (W -> W) }.

(** A start step's outcome: the base and the cleanup. *)
Abbreviation started W := (RelayConfig * option (W -> W))%type.

(** [linkCollision]: the loop over addresses, then over routes. *)
Definition address_collision (link : Prefix) (addrs : list Prefix) : option Prefix :=
  List.find (fun a => Contains link (pAddr a)) addrs.
Definition route_collision (link : Prefix) (routes : list Prefix) : option Prefix :=
  List.find (fun r => (pBits link <=? pBits r) && Contains link (pAddr r)) routes.

Definition linkCollision (link : Prefix) (addrs routes : list Prefix) : option error :=
  match address_collision link addrs with
  | Some a => Some (Errorf "build_link %s holds %s, an address on another interface" [Prefix_String link; Prefix_String a])
  | None =>
      match route_collision link routes with
      | Some r => Some (Errorf "build_link %s overlaps the route %s on another interface" [Prefix_String link; Prefix_String r])
      | None => None
      end
  end.

Section Vm.
Context {W : Type} {BI : BuildIface W}.

Definition startUnlinked (w : W) : option (W * result (started W)) :=
  addrs ← if_Addrs w;
  Some (w, match addrs with
           | Err e => Err (Wrap ("reading " ++ if_Name) e)
           | Ok [] => Err (Wrap ("build_link is required: the build interface " ++ if_Name ++ " has no address") ErrRefused)
           | Ok (a :: _) =>
               Ok (mkRC "" "" None "" (Some (AsSlice (pAddr a))) None false (Some (Masked a)) [] None None None None None,
                   None)
           end).

(** [vmLink.start] *)
Definition vm_start (w : W) (c : Config) : option (W * result (started W)) :=
  match CfgBuildLink c with
  | None => startUnlinked w
  | Some b =>
      match claimSegment b with
      | Err e => Some (w, Err (Wrap2 "build_link" ErrRefused e))
      | Ok seg =>
          others ← if_Others w;
          match others with
          | Err e => Some (w, Err (Wrap "listing interfaces" e))
          | Ok (addrs, routes) =>
              match linkCollision (sPrefix seg) addrs routes with
              | Some e => Some (w, Err (Wrap2 "" ErrRefused e))
              | None =>
                  '(w, ferr) ← if_Flush w;
                  match ferr with
                  | Some e => Some (w, Err (Wrap ("flushing " ++ if_Name) e))
                  | None =>
                      let self := PrefixFrom (sRelay seg) (pBits (sPrefix seg)) in
                      '(w, aerr) ← if_Add w self;
                      match aerr with
                      | Some e => Some (w, Err (Wrap ("adding " ++ Prefix_String self ++ " to " ++ if_Name) e))
                      | None =>
                          let '(w, stop) := serveDHCP w if_Name (segment_lease seg) in
                          match stop with
                          | Err e => Some (w, Err (Wrap ("DHCP on " ++ if_Name) e))
                          | Ok stop =>
                              Some (w, Ok (mkRC "" "" None "" (Some (AsSlice (sRelay seg))) None false
                                             (Some (sPrefix seg)) [] None None None None None, Some stop))
                          end
                      end
                  end
              end
          end
      end
  end.
End Vm.

(** vm mode over the netlink interface [name] with index [idx]; [open] is
    [openVMDHCPConn].  A responder runs until its stop function closes it. *)
Record vmWorld (K : Type) := mkVm { kernel : K; responders : list (string * Dhcp.dhcpLease) }.
Arguments mkVm {K}.
Arguments kernel {K}.
Arguments responders {K}.

Definition set_kernel {K} (w : vmWorld K) (k : K) : vmWorld K := mkVm k (responders w).

#[export] Instance lease_eq_dec : EqDecision Dhcp.dhcpLease.
Proof. solve_decision. Defined.

(** Removes the first occurrence. *)
Fixpoint remove1 {A} `{EqDecision A} (x : A) (l : list A) : list A :=
  match l with [] => [] | y :: l => if decide (y = x) then l else y :: remove1 x l end.

Definition startVMDHCP {K} (open : string -> option error) (w : vmWorld K) (ifName : string) (l : Dhcp.dhcpLease) :
    vmWorld K * result (vmWorld K -> vmWorld K) :=
  match open ifName with
  | Some e => (w, Err e)
  | None => (mkVm (kernel w) ((ifName, l) :: responders w),
             Ok (fun w => mkVm (kernel w) (remove1 (ifName, l) (responders w))))
  end.

Definition on_kernel {K} (w : vmWorld K) (r : option (K * option error)) : option (vmWorld K * option error) :=
  '(k, e) ← r; Some (set_kernel w k, e).

Definition netlinkIface {K} `{Netlink.Kernel K} (name : string) (idx : Z) (open : string -> option error) :
    BuildIface (vmWorld K) := {|
  if_Name := name;
  if_Addrs w := Netlink.Addrs idx (kernel w);
  if_Flush w := on_kernel w (Netlink.Flush idx (kernel w));
  if_Add w p := on_kernel w (Netlink.Add idx (kernel w) p);
  if_Others w := Netlink.Others idx (kernel w);
  serveDHCP := startVMDHCP open |}.

(** [pickBuildIf] *)
Definition pickBuildIf (names : list string) (want : string) : result string :=
  match List.find (fun n => (negb (bool_decide (want = ""%string)) && bool_decide (n = want)) ||
                            (bool_decide (want = ""%string) && negb (bool_decide (n = "lo"%string)))) names with
  | Some n => Ok n
  | None => Err (if bool_decide (want = ""%string) then Msg "no interface other than lo"
                 else Errorf "no interface %q" [want])
  end.

(** [serveVMDHCP] over the datagrams read until the connection fails: the
    replies broadcast, [None] for a panic.  A failed write is only logged. *)
Fixpoint serveVMDHCP (l : Dhcp.dhcpLease) (datagrams : list bytes) : option (list bytes) :=
  match datagrams with
  | [] => Some []
  | d :: ds =>
      rep ← Dhcp.dhcpReply (take 1500 d) l;
      rest ← serveVMDHCP l ds;
      Some (match rep with Some r => r :: rest | None => rest end)
  end.

(** ** host mode *)

Record IngressConfig := mkIngressConfig { iFD : Z; iGatewayIP : bytes; iGuestIP : bytes; iSubnetMask : bytes }.

(** The netstack behind [hostIngress], an ingress by number. *)
Class HostNet (W : Type) := {
  newIngress : W -> IngressConfig -> W * result nat;
  ListenUDP : W -> nat -> Z -> W * result unit;
  CloseIngress : W -> nat -> W }.

Section Host.
Context {W : Type} {HN : HostNet W}.

(** [hostLink.start] *)
Definition host_start (fd : Z) (fallback : segment) (w : W) (c : Config) : W * result (started W) :=
  match (match CfgBuildLink c with Some b => claimSegment b | None => Ok fallback end) with
  | Err e => (w, Err (Wrap2 "build_link" ErrRefused e))
  | Ok seg =>
      let gwIP := AsSlice (sRelay seg) in
      let '(w, ing) := newIngress w (mkIngressConfig fd gwIP (AsSlice (sGuest seg))
                          (be_encode 4 (BuildLink.mask_bits (pBits (sPrefix seg))))) in
      match ing with
      | Err e => (w, Err (Wrap "creating fd ingress" e))
      | Ok ing =>
          let '(w, udp) := ListenUDP w ing 53 in
          match udp with
          | Err e => (CloseIngress w ing, Err (Wrap "listening udp/53" e))
          | Ok _ =>
              (w, Ok (mkRC "" "" None "" (Some gwIP) None true (Some (sPrefix seg)) [] None (Some ing)
                        (Some (mkListener gwIP 80)) (Some (mkListener gwIP 443)) (Some (mkListener gwIP 8300)),
                      Some (fun w => CloseIngress w ing)))
          end
      end
  end.
End Host.

(** The connection handler's listener for a destination port. *)
Definition ConnHandler (httpLn httpsLn ctrlLn : Listener) (dstPort : Z) : Listener :=
  if dstPort =? 443 then httpsLn else if dstPort =? 8300 then ctrlLn else httpLn.

(** [chanListener]: the connections waiting, and those closed for want of
    room.  Delivery to a closed channel panics ([None]). *)
Record chanListener := mkChan { queued : list nat; dropped : list nat; chan_closed : bool }.
Definition newChanListener : chanListener := mkChan [] [] false.
Definition deliver (cl : chanListener) (conn : nat) : option chanListener :=
  if chan_closed cl then None
  else if len (queued cl) <? 16 then Some (mkChan (queued cl ++ [conn]) (dropped cl) false)
  else Some (mkChan (queued cl) (dropped cl ++ [conn]) false).

(** [Accept]: [None] while it would wait, [inl] for [net.ErrClosed]. *)
Definition Accept (cl : chanListener) : option (unit + nat * chanListener) :=
  match queued cl with
  | conn :: q => Some (inr (conn, mkChan q (dropped cl) (chan_closed cl)))
  | [] => if chan_closed cl then Some (inl tt) else None
  end.

(** ** container mode *)
Definition containerStart (c : Config) : result RelayConfig :=
  match CfgBuildLink c with
  | Some _ => Err (Wrap "build_link is not supported in container mode (the container runtime assigns the relay's address)" ErrRefused)
  | None => Ok emptyConfig
  end.

Definition container_start {W} (w : W) (c : Config) : option (W * result (started W)) :=
  Some (w, match containerStart c with Err e => Err e | Ok base => Ok (base, None) end).

(** ** The claim ([serveClaim]'s callback) *)

Definition applyClaim (base : RelayConfig) (c : Config) : RelayConfig :=
  mkRC (CollectorURL c) (CollectorToken c) (rTransport base) (CaptureMode c) (rSelfIP base) (CfgEnvironment c)
    (rSSRF base) (rBuildLink base) (rUpstreamCACerts base ++ (bytes_of <$> UpstreamCACerts c))
    (UpstreamSystemCA c) (rDNS base) (rHTTP base) (rHTTPS base) (rControl base).

Definition set_transport (cfg : RelayConfig) (rt : option nat) : RelayConfig :=
  mkRC (rCollectorURL cfg) (rCollectorToken cfg) rt (rCaptureMode cfg) (rSelfIP cfg) (rEnvironment cfg)
    (rSSRF cfg) (rBuildLink cfg) (rUpstreamCACerts cfg) (rUpstreamSystemCA cfg) (rDNS cfg)
    (rHTTP cfg) (rHTTPS cfg) (rControl cfg).

(** [relay.Start] *)
Class RelayStart (W : Type) := Start : W -> RelayConfig -> W * result Identity.

Definition claim_start {W} {RS : RelayStart W} (step : W -> Config -> option (W * result (started W)))
    (w : W) (c : Config) (rt : option nat) : option (W * result (Identity * option (W -> W))) :=
  '(w, base) ← step w c;
  match base with
  | Err e => Some (w, Err e)
  | Ok (base, done) =>
      let '(w, r) := Start w (set_transport (applyClaim base c) rt) in
      match r with
      | Err e => Some (match done with Some done => done w | None => w end, Err e)
      | Ok id => Some (w, Ok (id, done))
      end
  end.
End Modes.
