(* ===== verification/ModesSpec.v ===== *)
(** * What a claim does to the build segment

    [IfaceLaws] is what vm mode relies on of its build interface; the netlink
    interface has it whenever the kernel keeps rtnetlink's promises
    ([netlink_iface_laws]). *)
From S2P Require Import Prelude Text Netip BuildLink Proxy Claim Dhcp Netlink Modes.

#[local] Open Scope Z_scope.
#[local] Open Scope go_scope.

Module ModesSpec.
Import Netip LinkClaim Modes Netlink.
Import ClaimServer(Config, CollectorURL, CollectorToken, CaptureMode, UpstreamCACerts, UpstreamSystemCA,
  CfgEnvironment, CfgBuildLink, Identity).

Abbreviation responder := (string * Dhcp.dhcpLease)%type.

(** The interface's addresses, those of the other interfaces, and the DHCP
    responders running. *)
Class IfaceLaws (W : Type) {BI : BuildIface W} := {
  own : W -> list Prefix;
  others : W -> list Prefix;
  running : W -> list responder;
  addrs_own w ps : if_Addrs w = Some (Ok ps) -> ps = own w;
  others_seen w ps rs : if_Others w = Some (Ok (ps, rs)) -> ps = others w;
  flush_done w w' : if_Flush w = Some (w', None) -> own w' = [] /\ others w' = others w;
  flush_running w w' e : if_Flush w = Some (w', e) -> running w' = running w;
  add_done w w' v bits (p := mkPrefix (A4 v) bits) : 0 <= v < 2 ^ 32 -> 0 <= bits <= 32 ->
    if_Add w p = Some (w', None) -> own w' ≡ₚ p :: own w /\ others w' ≡ₚ others w;
  add_running w w' p e : if_Add w p = Some (w', e) -> running w' = running w;
  serve_addrs w w' n l r : serveDHCP w n l = (w', r) -> own w' = own w /\ others w' = others w;
  serve_failed w w' n l e : serveDHCP w n l = (w', Err e) -> running w' = running w;
  serve_done w w' n l stop : serveDHCP w n l = (w', Ok stop) ->
    running w' = (n, l) :: running w /\
    forall w2, running w2 = running w' -> running (stop w2) = running w;
  plain_errors w e :
    (if_Addrs w = Some (Err e) \/ if_Others w = Some (Err e) \/ (exists w', if_Flush w = Some (w', Some e)) \/
     (exists w' p, if_Add w p = Some (w', Some e)) \/ (exists w' n l, serveDHCP w n l = (w', Err e))) ->
    errors_Is e ErrRefused = false }.

Lemma address_collision_None link addrs :
  address_collision link addrs = None <-> forall a, a ∈ addrs -> Contains link (pAddr a) = false.
Proof.
  unfold address_collision. split.
  - intros H a Ha. apply (List.find_none _ _ H). by apply list_elem_of_In.
  - intros H. destruct (List.find _ addrs) as [a|] eqn:E; [|done].
    apply List.find_some in E as [Ha Hc]. by rewrite H in Hc by by apply list_elem_of_In.
Qed.

Lemma route_collision_None link routes :
  route_collision link routes = None <->
  forall r, r ∈ routes -> pBits link <= pBits r -> Contains link (pAddr r) = false.
Proof.
  unfold route_collision. split.
  - intros H r Hr Hb. apply list_elem_of_In in Hr. pose proof (List.find_none _ _ H _ Hr) as Hf. cbn beta in Hf.
    apply Z.leb_le in Hb. by rewrite Hb in Hf.
  - intros H. destruct (List.find _ routes) as [r|] eqn:E; [|done].
    apply List.find_some in E as [Hr Hc]. apply andb_true_iff in Hc as [Hb Hc].
    rewrite H in Hc; [done|by apply list_elem_of_In|by apply Z.leb_le].
Qed.

Lemma linkCollision_None link addrs routes :
  linkCollision link addrs routes = None <->
  (forall a, a ∈ addrs -> Contains link (pAddr a) = false) /\
  (forall r, r ∈ routes -> pBits link <= pBits r -> Contains link (pAddr r) = false).
Proof.
  unfold linkCollision. rewrite <- address_collision_None, <- route_collision_None.
  destruct (address_collision _ _), (route_collision _ _); naive_solver.
Qed.

(** The dialer blocks every IPv4 address inside the link the relay starts on. *)
Lemma link_blocked cfg link v :
  Proxy.BuildLink cfg = Some link -> 0 <= v < 2 ^ 32 -> Contains link (A4 v) = true ->
  Proxy.blockedDial cfg (be_encode 4 v) = true.
Proof.
  intros Hl Hv Hc. unfold Proxy.blockedDial. rewrite Hl, AddrFromSlice_As4 by done.
  cbn [Unmap]. by rewrite Hc.
Qed.

(** The dialer's view of a started relay's configuration. *)
Definition proxy_config (cfg : RelayConfig) : Proxy.Config := Proxy.mkConfig (rSSRF cfg) (rBuildLink cfg).

Lemma host_contained v bits a : 0 <= v < 2 ^ 32 -> 0 <= bits <= 32 -> v mod 2 ^ (32 - bits) = 0 ->
  host_ok v bits a -> Contains (mkPrefix (A4 v) bits) (A4 a) = true.
Proof. intros Hv Hb Hm [Ha _]. apply contains_exact; [lia|done|lia]. Qed.

Lemma claimSegment_Ok b seg :
  claimSegment b = Ok seg <-> exists v bits r g,
    seg = mkSegment (mkPrefix (A4 v) bits) (A4 r) (A4 g) /\
    LinkClaim.Parse b = Ok (mkPrefix (A4 v) bits, A4 r, A4 g).
Proof.
  unfold claimSegment. rewrite result_bind_Ok. split.
  - intros ([[p r] g] & Hp & [= <-]). pose proof Hp as Hx.
    apply claim_Parse_spec in Hx as (v & bits & r' & g' & [= -> -> ->] & _). by exists v, bits, r', g'.
  - intros (v & bits & r & g & -> & H). eexists. split; [exact H|done].
Qed.

(** What a valid claim gives: everything vm mode needs of it. *)
Lemma parsed_link b v bits r g :
  LinkClaim.Parse b = Ok (mkPrefix (A4 v) bits, A4 r, A4 g) ->
  0 <= v < 2 ^ 32 /\ 0 <= r < 2 ^ 32 /\ 0 <= g < 2 ^ 32 /\ 8 <= bits <= 30 /\ r <> g /\
  Contains (mkPrefix (A4 v) bits) (A4 r) = true /\ Contains (mkPrefix (A4 v) bits) (A4 g) = true.
Proof.
  intros H. apply claim_Parse_spec in H as (v' & bits' & r' & g' & [= <- <- <- <-] & Hp & Hr & Hg & Hl).
  destruct (ParsePrefix_v4 _ _ _ Hp) as [Hv _]. destruct Hl as [Hb Hm _ Hrok Hgok Hne].
  split_and!; try done; try lia; try (eapply ParseAddr_v4; eassumption);
    (apply host_contained; [done|lia|done|done]).
Qed.

(** ** vm mode *)
Section Vm.
Context {W : Type} {BI : BuildIface W} {IL : IfaceLaws W}.

(** The claims vm mode refuses: a link that does not parse or that another
    interface already uses, and no link on an interface without an address. *)
Definition refusable (w : W) (c : Config) : Prop :=
  match CfgBuildLink c with
  | None => if_Addrs w = Some (Ok [])
  | Some b =>
      match claimSegment b with
      | Err _ => True
      | Ok seg => exists addrs routes, if_Others w = Some (Ok (addrs, routes)) /\
                    is_Some (linkCollision (sPrefix seg) addrs routes)
      end
  end.

(** The state a started link leaves. *)
Record linked (w w' : W) (b : BuildLink) (cfg : RelayConfig) (v bits r g : Z) : Prop := {
  li_parse : LinkClaim.Parse b = Ok (mkPrefix (A4 v) bits, A4 r, A4 g);
  li_own : own w' = [mkPrefix (A4 r) bits];
  li_others : others w' ≡ₚ others w;
  li_apart : forall a, a ∈ others w' -> Contains (mkPrefix (A4 v) bits) (pAddr a) = false;
  li_lease : running w' = (if_Name, Dhcp.newDHCPLease bits r g) :: running w;
  li_self : rSelfIP cfg = Some (be_encode 4 r);
  li_link : rBuildLink cfg = Some (mkPrefix (A4 v) bits);
  li_blocked_self : Proxy.blockedDial (proxy_config cfg) (be_encode 4 r) = true;
  li_blocked_guest : Proxy.blockedDial (proxy_config cfg) (be_encode 4 g) = true }.

Definition unlinked (w w' : W) (cfg : RelayConfig) (stop : option (W -> W)) : Prop :=
  w' = w /\ stop = None /\ exists a, head (own w) = Some a /\
    rSelfIP cfg = Some (AsSlice (pAddr a)) /\ rBuildLink cfg = Some (Masked a).

Lemma Wrap_not_refused ctx e : errors_Is e ErrRefused = false -> errors_Is (Wrap ctx e) ErrRefused = false.
Proof. intros H. cbn [errors_Is]. rewrite H. by rewrite bool_decide_eq_false_2. Qed.

Lemma startUnlinked_spec w w' res :
  startUnlinked w = Some (w', res) ->
  match res with
  | Err e => w' = w /\ (errors_Is e ErrRefused = true <-> if_Addrs w = Some (Ok []))
  | Ok (cfg, stop) => unlinked w w' cfg stop
  end.
Proof.
  unfold startUnlinked. destruct (if_Addrs w) as [ [ps|e]|] eqn:Ea; [| |done]; cbn [mbind option_bind].
  - destruct ps as [|a ps]; intros [= <- <-].
    + split; [done|]. split; [done|]. intros _. apply errors_Is_Wrap, errors_Is_refl.
    + split; [done|]. split; [done|]. exists a. by rewrite <- (addrs_own _ _ Ea).
  - intros [= <- <-]. split; [done|]. rewrite Wrap_not_refused; [done|]. eapply plain_errors. eauto.
Qed.

(** Everything after the collision check. *)
Lemma configured_spec w w' b cfg stop v bits r g addrs routes :
  LinkClaim.Parse b = Ok (mkPrefix (A4 v) bits, A4 r, A4 g) ->
  if_Others w = Some (Ok (addrs, routes)) ->
  linkCollision (mkPrefix (A4 v) bits) addrs routes = None ->
  forall w1 w2, if_Flush w = Some (w1, None) ->
  if_Add w1 (PrefixFrom (A4 r) bits) = Some (w2, None) ->
  serveDHCP w2 if_Name (Dhcp.newDHCPLease bits r g) = (w', Ok stop) ->
  rSelfIP cfg = Some (be_encode 4 r) -> rBuildLink cfg = Some (mkPrefix (A4 v) bits) ->
  linked w w' b cfg v bits r g /\ forall w3, running w3 = running w' -> running (stop w3) = running w.
Proof.
  intros Hp Ho Hc w1 w2 Hf Ha Hs Hself Hlink.
  destruct (parsed_link _ _ _ _ _ Hp) as (Hv & Hr & Hg & Hb & Hne & Hcr & Hcg).
  rewrite PrefixFrom4 in Ha by lia.
  destruct (flush_done _ _ Hf) as [Hf1 Hf2]. destruct (add_done w1 w2 r bits Hr ltac:(lia) Ha) as [Ha1 Ha2].
  destruct (serve_addrs _ _ _ _ _ Hs) as [Hs1 Hs2]. destruct (serve_done _ _ _ _ _ Hs) as [Hs3 Hs4].
  pose proof (flush_running _ _ _ Hf). pose proof (add_running _ _ _ _ Ha).
  rewrite Hf1 in Ha1.
  pose proof (others_seen _ _ _ Ho). subst addrs. apply linkCollision_None in Hc as [Hc _].
  assert (Hoth : others w' ≡ₚ others w) by (rewrite Hs2, Ha2, Hf2; done).
  assert (Hblk : forall a, 0 <= a < 2 ^ 32 -> Contains (mkPrefix (A4 v) bits) (A4 a) = true ->
    Proxy.blockedDial (proxy_config cfg) (be_encode 4 a) = true).
  { intros a Har Hca. by apply (link_blocked _ (mkPrefix (A4 v) bits)). }
  split; [split; try done|].
  - rewrite Hs1. by apply Permutation_singleton_r.
  - intros a Hin. apply Hc. by rewrite <- Hoth.
  - rewrite Hs3. congruence.
  - by apply Hblk.
  - by apply Hblk.
  - intros w3 Hw3. rewrite Hs4 by done. congruence.
Qed.

Lemma vm_start_spec w c w' res :
  vm_start w c = Some (w', res) ->
  match res with
  | Err e => (errors_Is e ErrRefused = true <-> refusable w c) /\ (refusable w c -> w' = w) /\
             running w' = running w
  | Ok (cfg, stop) =>
      match CfgBuildLink c with
      | None => unlinked w w' cfg stop
      | Some b => exists v bits r g f, linked w w' b cfg v bits r g /\ stop = Some f /\
                    forall w3, running w3 = running w' -> running (f w3) = running w
      end
  end.
Proof.
  unfold vm_start, refusable. destruct (CfgBuildLink c) as [b|]; cycle 1.
  { intros H. apply startUnlinked_spec in H. destruct res as [ [cfg stop]|e]; [done|].
    destruct H as [-> H]. done. }
  destruct (claimSegment b) as [seg|e] eqn:Es; cycle 1.
  { intros [= <- <-]. split; [|done]. split; [done|]. intros _. apply errors_Is_first, errors_Is_refl. }
  apply claimSegment_Ok in Es as (v & bits & r & g & -> & Hp). cbn [sPrefix sRelay sGuest pBits addr_val].
  destruct (if_Others w) as [ [ [addrs routes]|e]|] eqn:Eo; [| |done]; cbn [mbind option_bind]; cycle 1.
  { intros [= <- <-]. rewrite Wrap_not_refused by (eapply plain_errors; eauto).
    split; [|done]. split; [done|]. by intros (? & ? & [=] & _). }
  destruct (linkCollision _ addrs routes) as [e|] eqn:Ec.
  { intros [= <- <-]. split; [|done]. split; [by eauto|]. intros _. apply errors_Is_first, errors_Is_refl. }
  assert (Hno : (exists addrs0 routes0, Some (Ok (addrs, routes)) = Some (Ok (addrs0, routes0)) /\
    is_Some (linkCollision (mkPrefix (A4 v) bits) addrs0 routes0)) <-> False).
  { split; [|done]. intros (? & ? & [= <- <-] & [? H]). congruence. }
  assert (Hfail : forall ctx e w1, errors_Is e ErrRefused = false -> running w1 = running w ->
    Some (w1, @Err (started W) (Wrap ctx e)) = Some (w', res) ->
    match res with
    | Err e => (errors_Is e ErrRefused = true <-> False) /\ (False -> w' = w) /\ running w' = running w
    | Ok _ => False end).
  { intros ctx e w1 He Hrun [= <- <-]. rewrite Wrap_not_refused by done. done. }
  intros H. enough (He : match res with
    | Err e => (errors_Is e ErrRefused = true <-> False) /\ (False -> w' = w) /\ running w' = running w
    | Ok (cfg, stop) => exists v bits r g f, linked w w' b cfg v bits r g /\ stop = Some f /\
                    forall w3, running w3 = running w' -> running (f w3) = running w
    end).
  { destruct res as [ [cfg stop]|e]; [done|]. destruct He as (He & Hw & Hrun). rewrite Hno. done. }
  clear Hno. revert H.
  destruct (if_Flush w) as [ [w1 ferr]|] eqn:Ef; [|done]. cbn [mbind option_bind].
  pose proof (flush_running _ _ _ Ef) as Hr1. destruct ferr as [e|].
  { intros H. apply Hfail in H; [by destruct res|eapply plain_errors; eauto 6|done]. }
  destruct (if_Add w1 _) as [ [w2 aerr]|] eqn:Ea; [|done]. cbn [mbind option_bind].
  pose proof (add_running _ _ _ _ Ea) as Hr2. destruct aerr as [e|].
  { intros H. apply Hfail in H; [by destruct res|eapply plain_errors; eauto 8|congruence]. }
  unfold segment_lease. cbn [sPrefix sRelay sGuest pBits addr_val].
  destruct (serveDHCP w2 if_Name _) as [w3 [stop|e] ] eqn:Ed; cycle 1.
  { intros H. apply Hfail in H; [by destruct res|eapply plain_errors; do 4 right; eauto|].
    pose proof (serve_failed _ _ _ _ _ Ed). congruence. }
  intros [= <- <-]. exists v, bits, r, g, stop.
  destruct (configured_spec w w3 b (mkRC "" "" None "" (Some (AsSlice (A4 r))) None false
    (Some (mkPrefix (A4 v) bits)) [] None None None None None) stop v bits r g addrs routes Hp Eo Ec w1 w2 Ef Ea Ed) as [Hl Hs]; done.
Qed.
End Vm.

(** The netlink interface keeps the laws when the kernel keeps its own. *)
Definition netlink_iface_laws {K} `{KL : KernelLaws K} name idx (open : string -> option error)
    (Hidx : 0 <= idx < 2 ^ 32) (Hopen : forall n e, open n = Some e -> plain e) :
  IfaceLaws (vmWorld K) (BI := netlinkIface name idx open).
Proof.
  unshelve refine {|
    own w := on_iface idx (table (kernel w));
    others w := prefix <$> elsewhere idx (table (kernel w));
    running w := responders w |}; cbn [if_Name if_Addrs if_Flush if_Add if_Others serveDHCP netlinkIface].
  - intros w ps. apply Addrs_spec.
  - intros w ps rs. apply Others_spec.
  - intros w w' H. unfold on_kernel in H.
    destruct (Flush idx (kernel w)) as [ [k e]|] eqn:E; [|done]. injection H as <- ->.
    unfold set_kernel. cbn [kernel]. apply Flush_spec in E as [-> ->]. done.
  - intros w w' e H. unfold on_kernel in H. destruct (Flush _ _) as [ [k e']|]; [|done]. by injection H as <- ->.
  - intros w w' v bits Hv Hb H. unfold on_kernel in H.
    destruct (Add idx (kernel w) _) as [ [k e]|] eqn:E; [|done].
    injection H as <- ->. unfold set_kernel. cbn [kernel]. apply Add_spec in E as [-> ->]; [done|].
    exists v, bits. done.
  - intros w w' p e H. unfold on_kernel in H. destruct (Add _ _ _) as [ [k e']|]; [|done]. by injection H as <- ->.
  - intros w w' n l r. unfold startVMDHCP. destruct (open n); by intros [= <- <-].
  - intros w w' n l e. unfold startVMDHCP. destruct (open n); [by intros [= <- <-]|done].
  - intros w w' n l stop. unfold startVMDHCP. destruct (open n); [done|]. intros [= <- <-]. split; [done|].
    intros w2 ->. cbn. by rewrite decide_True.
  - intros w e [H|[H|[ [w' H]|[ (w' & p & H)|(w' & n & l & H)] ] ] ].
    + by eapply Addrs_plain.
    + by eapply Others_plain.
    + unfold on_kernel in H. destruct (Flush idx (kernel w)) as [ [k e']|] eqn:E; [|done]. injection H as <- ->.
      by eapply Flush_plain.
    + unfold on_kernel in H. destruct (Add idx (kernel w) p) as [ [k e']|] eqn:E; [|done]. injection H as <- ->.
      unfold Add in E. by eapply addrRequest_plain.
    + unfold startVMDHCP in H. destruct (open n) eqn:E; [|done]. injection H as <- <-. by eapply Hopen.
Defined.

(** ** The claim *)

(** [held] is what a start step acquires: a step that fails gives it back, and
    so does a started step's cleanup. *)
Record clean_step {W R} (held : W -> list R) (step : W -> Config -> option (W * result (started W))) : Prop := {
  cs_err w c w' e : step w c = Some (w', Err e) -> held w' = held w;
  cs_none w c w' base : step w c = Some (w', Ok (base, None)) -> held w' = held w;
  cs_stop w c w' base f : step w c = Some (w', Ok (base, Some f)) ->
    forall w2, held w2 = held w' -> held (f w2) = held w }.

Lemma claim_start_clean_step {W R} (held : W -> list R) step {RS : RelayStart W} w c rt w' e :
  clean_step held step -> (forall w cfg, held (Start w cfg).1 = held w) ->
  claim_start step w c rt = Some (w', Err e) -> held w' = held w.
Proof.
  intros Hc Hs. unfold claim_start. destruct (step w c) as [ [w1 [ [base dn]|e1] ]|] eqn:E; [| |done];
    cbn [mbind option_bind].
  - specialize (Hs w1 (set_transport (applyClaim base c) rt)).
    destruct (Start w1 _) as [w2 [id|e2] ]; [done|]. cbn [fst] in Hs. destruct dn as [f|]; intros [= <- <-].
    + by eapply (cs_stop _ _ Hc).
    + rewrite Hs. by eapply (cs_none _ _ Hc).
  - intros [= <- <-]. by eapply (cs_err _ _ Hc).
Qed.

Lemma vm_start_clean {W} `{IL : IfaceLaws W} : clean_step running vm_start.
Proof.
  split.
  - intros w c w' e H. apply vm_start_spec in H. by destruct H as (_ & _ & H).
  - intros w c w' base H. apply vm_start_spec in H. destruct (CfgBuildLink c).
    + by destruct H as (? & ? & ? & ? & ? & _ & [=] & _).
    + by destruct H as (-> & _).
  - intros w c w' base f H. apply vm_start_spec in H. destruct (CfgBuildLink c).
    + destruct H as (? & ? & ? & ? & f' & _ & [= <-] & H). done.
    + by destruct H as (_ & [=] & _).
Qed.

Lemma container_start_clean {W R} (held : W -> list R) : clean_step held container_start.
Proof. split; unfold container_start, containerStart; intros; destruct (CfgBuildLink c); simplify_eq/=; done. Qed.

(** What host mode relies on of its netstack: the ingresses open. *)
Class HostLaws (W : Type) {HN : HostNet W} := {
  ingresses : W -> list nat;
  new_failed w w' cfg e : newIngress w cfg = (w', Err e) -> ingresses w' = ingresses w;
  new_done w w' cfg i : newIngress w cfg = (w', Ok i) -> ingresses w' = i :: ingresses w;
  listen_same w w' i p r : ListenUDP w i p = (w', r) -> ingresses w' = ingresses w;
  close_done w i rest : ingresses w = i :: rest -> ingresses (CloseIngress w i) = rest }.

Lemma host_start_clean {W} `{HL : HostLaws W} fd fallback :
  clean_step ingresses (fun w c => Some (host_start fd fallback w c)).
Proof.
  assert (Hg : forall w c, let '(w', r) := host_start fd fallback w c in
    match r with
    | Err _ => ingresses w' = ingresses w
    | Ok (_, stop) => exists i, ingresses w' = i :: ingresses w /\ stop = Some (fun w => CloseIngress w i)
    end).
  { intros w c. unfold host_start. destruct (match CfgBuildLink c with Some b => _ | None => _ end) as [seg|e]; [|done].
    destruct (newIngress w _) as [w1 [i|e] ] eqn:En; [|by eapply new_failed].
    pose proof (new_done _ _ _ _ En) as Hn. destruct (ListenUDP w1 i 53) as [w2 [u|e] ] eqn:El;
      pose proof (listen_same _ _ _ _ _ El) as Hl.
    - exists i. split; [congruence|done].
    - apply close_done. congruence. }
  split; intros w c w' *; intros [= H]; specialize (Hg w c); rewrite H in Hg.
  - done.
  - by destruct Hg as (i & _ & [=]).
  - destruct Hg as (i & Hi & [= ->]). intros w2 Hw2. apply close_done. congruence.
Qed.


(** ** --subnet *)

(** A network of length at most 30 gives its first two hosts. *)
Lemma subnetLink_hosts cidr v bits :
  ParseCIDR cidr = Ok (A4 v, bits) -> 0 <= v < 2 ^ 32 -> 1 <= bits <= 30 ->
  let net := mask_val 32 bits v in
  subnetLink cidr = Ok (mkSegment (mkPrefix (A4 net) bits) (A4 (net + 1)) (A4 (net + 2))).
Proof.
  intros Hp Hv Hb net. unfold subnetLink, parseSubnet. rewrite Hp. cbn [result_bind].
  fold net. unfold addToIP, wrap_u. set (m := 2 ^ (32 - bits)).
  assert (Hm : 4 <= m) by (change 4 with (2 ^ 2); apply Z.pow_le_mono_r; lia).
  assert (Hq : 2 ^ 32 = 2 ^ bits * m) by (unfold m; rewrite <- Z.pow_add_r by lia; f_equal; lia).
  assert (Hnet : net = v / m * m) by done.
  assert (Hdm : v = m * (v / m) + v mod m) by (apply Z.div_mod; lia).
  pose proof (Z.mod_pos_bound v m ltac:(lia)).
  assert (Hlt : v / m < 2 ^ bits) by (apply Z.div_lt_upper_bound; lia).
  assert (Hd0 : 0 <= v / m) by (apply Z.div_pos; lia).
  assert (0 <= net /\ net + m <= 2 ^ 32) by (rewrite Hnet, Hq; nia).
  rewrite !Z.mod_small by lia. rewrite PrefixFrom4 by lia. do 2 f_equal.
  unfold Masked. cbn [pAddr pBits mask_addr]. do 2 f_equal. unfold mask_val. fold m.
  rewrite Hnet, Z.div_add_l, (Z.div_small 1) by lia. lia.
Qed.

(** ** Host mode *)

(** A started host relay blocks its own address and the guest's. *)
Lemma host_start_blocks {W} {HN : HostNet W} fd fallback (w w' : W) c cfg stop b v bits r g :
  CfgBuildLink c = Some b -> LinkClaim.Parse b = Ok (mkPrefix (A4 v) bits, A4 r, A4 g) ->
  host_start fd fallback w c = (w', Ok (cfg, stop)) ->
  rSSRF cfg = true /\ rSelfIP cfg = Some (be_encode 4 r) /\
  Proxy.blockedDial (proxy_config cfg) (be_encode 4 r) = true /\
  Proxy.blockedDial (proxy_config cfg) (be_encode 4 g) = true.
Proof.
  intros Hb Hp. unfold host_start. rewrite Hb.
  assert (Hs : claimSegment b = Ok (mkSegment (mkPrefix (A4 v) bits) (A4 r) (A4 g)))
    by (apply claimSegment_Ok; eauto 6).
  rewrite Hs. destruct (newIngress w _) as [w1 [i|e] ]; [|done].
  destruct (ListenUDP w1 i 53) as [w2 [u|e] ]; [|done]. intros [= <- <- <-].
  destruct (parsed_link _ _ _ _ _ Hp) as (Hv & Hr & Hg & Hbits & Hne & Hcr & Hcg).
  split_and!; [done|done| |]; by apply (link_blocked _ (mkPrefix (A4 v) bits)).
Qed.

(** ** The vm responder *)
Lemma serveVMDHCP_total l ds : Dhcp.wf_lease l -> exists reps, serveVMDHCP l ds = Some reps /\
  Forall (fun rep => exists d t, d ∈ ds /\ Dhcp.answerable (take 1500 d) t /\
    rep = Dhcp.lease_reply (slice (take 1500 d) 4 8) (slice (take 1500 d) 28 34) l (Dhcp.reply_type t)) reps.
Proof.
  intros Hl. induction ds as [|d ds (reps & Hr & Hf)]; [by exists []|].
  cbn [serveVMDHCP]. destruct (Dhcp.dhcpReply_spec (take 1500 d) l Hl) as (r & -> & Hd).
  rewrite Hr. cbn [mbind option_bind]. eexists. split; [done|].
  assert (Hf' : Forall (fun rep => exists d' t, d' ∈ d :: ds /\ Dhcp.answerable (take 1500 d') t /\
    rep = Dhcp.lease_reply (slice (take 1500 d') 4 8) (slice (take 1500 d') 28 34) l (Dhcp.reply_type t)) reps).
  { eapply Forall_impl; [exact Hf|]. intros rep (d' & t & Hin & H). exists d', t. split; [by right|done]. }
  destruct r as [rep|]; [|done]. constructor; [|done].
  destruct Hd as (t & Ha & ->). exists d, t. split; [by left|done].
Qed.

(** ** The properties *)

(** vm mode's start step does exactly what a claim may do.  A claim is
    refused exactly when its link does not parse, another interface already
    uses it, or it names none and the build interface has no address; a
    refused claim changes nothing, and a failed one leaves no responder.  With
    a link, when the step returns, before the claim is answered, the build
    interface holds the relay's address alone, no other interface has an
    address inside the link, the guest's lease is served there, and the
    upstream dialer blocks the relay's and the guest's address.  Without one,
    nothing changes and the interface's first address is kept. *)
Theorem vm_claim_exact {W} {BI : BuildIface W} {IL : IfaceLaws W} (w w' : W) (c : Config) res :
  vm_start w c = Some (w', res) ->
  match res with
  | Err e => (errors_Is e ErrRefused = true <-> refusable w c) /\ (refusable w c -> w' = w) /\
             running w' = running w
  | Ok (cfg, stop) =>
      match CfgBuildLink c with
      | None => unlinked w w' cfg stop
      | Some b => exists v bits r g f, linked w w' b cfg v bits r g /\ stop = Some f /\
                    forall w3, running w3 = running w' -> running (f w3) = running w
      end
  end.
Proof. apply vm_start_spec. Qed.

End ModesSpec.

(** ** A kernel that keeps its promises *)
Module ModesExamples.
Import Netip LinkClaim Modes Netlink ModesSpec.
Import ClaimServer(Config, mkConfig, Identity, mkIdentity).

Definition wf4 (a : ifAddr) : bool :=
  match pAddr (prefix a) with
  | A4 v => (0 <=? v) && (v <? 2 ^ 32) && (0 <=? pBits (prefix a)) && (pBits (prefix a) <=? 32) &&
            (0 <=? index a) && (index a <? 2 ^ 32)
  | A6 _ _ => false
  end.

Lemma wf4_addr4 a : wf4 a = true <-> addr4 a.
Proof.
  destruct a as [i [ [v|v z] bits] ]; unfold wf4, addr4; cbn [prefix pAddr pBits index]; cycle 1.
  { split; [done|]. by intros (? & ? & [=] & _). }
  rewrite !andb_true_iff, !Z.leb_le, !Z.ltb_lt. split.
  - intros. exists v, bits. naive_solver.
  - intros (v' & bits' & [= -> ->] & ?). lia.
Qed.

Definition toy_table (k : list ifAddr) : list ifAddr := filter (fun a => wf4 a = true) k.

(** An NLMSG_ERROR holding the code and a request header. *)
Definition toy_ack (code : Z) : bytes :=
  le_encode 4 36 ++ le_encode 2 NLMSG_ERROR ++ le_encode 2 0 ++ le_encode 4 1 ++ le_encode 4 0 ++
  le_encode 4 (wrap_u 32 code) ++ replicate 16 Byte.x00.

Lemma toy_ack_ok : parseAck (toy_ack 0) = None.
Proof. vm_compute. reflexivity. Qed.
Lemma toy_ack_gone : parseAck (toy_ack (-99)) = Some EADDRNOTAVAIL.
Proof. vm_compute. reflexivity. Qed.

#[export] Instance ifAddr_eq_dec : EqDecision ifAddr.
Proof. solve_decision. Defined.

#[export] Instance toy_kernel : Kernel (list ifAddr) := {
  NetlinkRIB k t :=
    if t =? RTM_GETADDR then (match encode_dump (toy_table k) with Some b => Ok b | None => Err EINVAL end)
    else Ok [];
  exchange k msg :=
    match ParseNetlinkMessage msg with
    | Ok [m] =>
        match parse_addr (mkMsg RTM_NEWADDR (mFlags m) (Data m)) with
        | Some (Ok [a]) =>
            if mType m =? RTM_NEWADDR then (a :: k, Ok (toy_ack 0))
            else if decide (a ∈ toy_table k) then (filter (fun x => x <> a) k, Ok (toy_ack 0))
            else (k, Ok (toy_ack (-99)))
        | _ => (k, Ok (toy_ack (-22)))
        end
    | _ => (k, Ok (toy_ack (-22)))
    end }.

Lemma toy_exchange k typ flags i a msg :
  addr4 (mkIfAddr i a) -> 0 <= typ < 2 ^ 16 -> 0 <= Z.lor 5 flags < 2 ^ 16 ->
  encodeAddrRequest typ flags i a = Some msg ->
  exchange k msg =
    if typ =? RTM_NEWADDR then (mkIfAddr i a :: k, Ok (toy_ack 0))
    else if decide (mkIfAddr i a ∈ toy_table k) then (filter (fun x => x <> mkIfAddr i a) k, Ok (toy_ack 0))
    else (k, Ok (toy_ack (-99))).
Proof.
  intros (v & bits & Ha & Hv & Hb & Hi) Ht Hf Hm. cbn [prefix index] in *. subst a.
  cbn [exchange toy_kernel]. rewrite <- (app_nil_r msg), (parse_request _ _ _ _ _ _ [] Hm) by done.
  rewrite ParseNetlinkMessage_nil. cbn [result_bind mFlags Data mType]. by rewrite parse_addr_body.
Qed.

Lemma filter_comm_table (P : ifAddr -> Prop) `{!forall x, Decision (P x)} (k : list ifAddr) :
  toy_table (filter P k) = filter P (toy_table k).
Proof.
  unfold toy_table. induction k as [|x k IH]; [done|]. rewrite !filter_cons.
  repeat (case_decide; rewrite ?filter_cons; try done); by rewrite IH.
Qed.

#[export] Instance toy_laws : KernelLaws (list ifAddr).
Proof.
  refine {| table := toy_table |}.
  - intros k. unfold toy_table. apply Forall_forall. intros a Ha.
    apply list_elem_of_filter in Ha as [Ha _]. by apply wf4_addr4.
  - intros k rib. cbn [NetlinkRIB toy_kernel]. change (RTM_GETADDR =? RTM_GETADDR) with true. cbn iota.
    destruct (parse_dump_exact (toy_table k)) as (b & Hb & Hp).
    { apply Forall_forall. intros a Ha. apply list_elem_of_filter in Ha as [Ha _]. by apply wf4_addr4. }
    rewrite Hb. by intros [= <-].
  - intros k k' i a msg buf Ha Hm Hx _. rewrite (toy_exchange k RTM_DELADDR 0 i a msg Ha ltac:(done) ltac:(done) Hm) in Hx.
    change (RTM_DELADDR =? RTM_NEWADDR) with false in Hx. cbn iota in Hx.
    case_decide as Hin; injection Hx as <- <-.
    + rewrite filter_comm_table. split_and!.
      * rewrite list_elem_of_filter. naive_solver.
      * intros x Hx. by apply list_elem_of_filter in Hx as [_ Hx].
      * unfold elsewhere. rewrite list_filter_filter. apply list_filter_iff. intros x. split; [naive_solver|].
        intros Hx. split; [done|]. by intros ->.
    + done.
  - intros k k' i a msg buf Ha Hm Hx Hack. rewrite (toy_exchange k RTM_DELADDR 0 i a msg Ha ltac:(done) ltac:(done) Hm) in Hx.
    change (RTM_DELADDR =? RTM_NEWADDR) with false in Hx. cbn iota in Hx.
    case_decide as Hin; injection Hx as <- <-; [by rewrite toy_ack_ok in Hack|done].
  - intros k k' i a msg buf Ha Hm Hx _.
    rewrite (toy_exchange k RTM_NEWADDR (Z.lor NLM_F_CREATE NLM_F_EXCL) i a msg Ha ltac:(done) ltac:(done) Hm) in Hx.
    change (RTM_NEWADDR =? RTM_NEWADDR) with true in Hx. cbn iota in Hx. injection Hx as <- <-.
    unfold toy_table. rewrite filter_cons_True; [done|by apply wf4_addr4].
  - intros k k' msg e. cbn [exchange toy_kernel].
    destruct (ParseNetlinkMessage msg) as [ [|m [|? ?] ]|]; try done.
    destruct (parse_addr _) as [ [ [|a [|? ?] ]|]|]; try done. destruct (_ =? _); [done|]. by case_decide.
  - intros k t e. cbn [NetlinkRIB toy_kernel]. destruct (t =? RTM_GETADDR); [|done].
    destruct (encode_dump _); [done|]. by intros [= <-].
Defined.

(** An interface 2 with an old address, an interface 3 with an upstream one. *)
Definition ex_world : vmWorld (list ifAddr) :=
  mkVm [mkIfAddr 2 (mkPrefix (A4 (AddrFrom4 10 0 0 1)) 24); mkIfAddr 3 (mkPrefix (A4 (AddrFrom4 198 51 100 7)) 24)] [].

#[export] Instance ex_iface : BuildIface (vmWorld (list ifAddr)) := netlinkIface "eth1" 2 (fun _ => None).
#[export] Instance ex_iface_laws : IfaceLaws (vmWorld (list ifAddr)) :=
  netlink_iface_laws "eth1" 2 (fun _ => None) ltac:(lia) ltac:(done).

Definition ex_claim (link : option BuildLink) : Config := mkConfig "http://c" "t" "" [] None None link.
Definition ex_link : BuildLink := mkBuildLink "192.0.2.0/30" "192.0.2.1" "192.0.2.2".

Lemma vm_claim_exact_witness :
  exists w' cfg stop, vm_start ex_world (ex_claim (Some ex_link)) = Some (w', Ok (cfg, stop)) /\
    own w' = [mkPrefix (A4 (AddrFrom4 192 0 2 1)) 30] /\
    Proxy.blockedDial (proxy_config cfg) (be_encode 4 (AddrFrom4 192 0 2 2)) = true.
Proof.
  destruct (vm_start ex_world (ex_claim (Some ex_link))) as [ [w' [ [cfg stop]|e] ]|] eqn:E.
  - exists w', cfg, stop. split; [reflexivity|].
    destruct (vm_claim_exact _ _ _ _ E) as (v & bits & r & g & f & Hl & _).
    destruct Hl as [Hp Ho _ _ _ _ _ _ Hg].
    assert (Hx : LinkClaim.Parse ex_link = Ok (mkPrefix (A4 (AddrFrom4 192 0 2 0)) 30,
      A4 (AddrFrom4 192 0 2 1), A4 (AddrFrom4 192 0 2 2))) by (vm_compute; reflexivity).
    assert (Hr : LinkClaim.Parse ex_link = Ok (mkPrefix (A4 v) bits, A4 r, A4 g)) by exact Hp.
    rewrite Hx in Hr. injection Hr as Hv Hb Hr Hg'. subst bits r g. split; [exact Ho|exact Hg].
  - vm_compute in E. discriminate E.
  - vm_compute in E. discriminate E.
Defined.

(** Host mode on a netstack whose udp/53 cannot be opened. *)
#[export] Instance ex_net : HostNet (list nat) := {
  newIngress w _ := (7%nat :: w, Ok 7%nat);
  ListenUDP w _ _ := (w, Err (Msg "address in use"));
  CloseIngress w i := match w with j :: w' => if decide (j = i) then w' else w | [] => [] end }.

#[export] Instance ex_net_laws : HostLaws (list nat).
Proof.
  refine {| ingresses w := w |}.
  - by intros w w' cfg e [= <-].
  - by intros w w' cfg i [= <- <-].
  - by intros w w' i p r [= <- <-].
  - intros w i rest ->. cbn [CloseIngress ex_net]. by rewrite decide_True.
Defined.

#[local] Instance ex_start_vm : RelayStart (vmWorld (list ifAddr)) := fun w _ => (w, Err (Msg "generating CA")).
#[local] Instance ex_start_host : RelayStart (list nat) := fun w _ => (w, Ok (mkIdentity "pem" "key")).

End ModesExamples.
