(* ===== verification/Ledger.v ===== *)
(** * The binary ledger reader (src/ledger/ledger.go)

    [Reader] translates [ReadHeader], [ReadRecord] and [Verify]; [Format] is
    the abstract description of the wire format they implement, a serializer
    for headers and records.  The theorems relate the two. *)
From S2P Require Import Prelude Crypto.

#[local] Open Scope Z_scope.

Module Reader.

(** ** Constants *)
Definition RecordOpen : byte := Byte.x01.
Definition RecordCheckpoint : byte := Byte.x02.
Definition RecordClose : byte := Byte.x03.
Definition RecordArtifact : byte := Byte.x04.
Definition SchemaNoMetadata : byte := Byte.xff.

(** [PrefixBytes] is the raw binary prefix, kept for the signature check. *)
Record Header := mkHeader {
  Version : byte;
  SigScheme : string;
  SigSize : Z;
  HashBlockSize : Z;
  PubKeyLen : Z;
  PubKey : bytes;
  HSignature : bytes;
  Meta : HeaderMeta;
  PrefixBytes : bytes }.

(** A parsed record.  [None] is Go's nil slice: no open signature for open
    records, no hash block for an empty payload, no metadata for schema
    index 0xFF. *)
Record Rec := mkRec {
  Type_ : byte;
  PrevSig : bytes;
  OpenSig : option bytes;
  PayloadSize : Z;
  HashBlock : option bytes;
  Signature : bytes;
  SchemaIndex : byte;
  Metadata : option bytes }.

#[export] Instance Rec_eq_dec : EqDecision Rec.
Proof. solve_decision. Defined.

Definition Direction (r : Rec) : string :=
  if 0 <? PayloadSize r then "in" else if PayloadSize r <? 0 then "out" else "".

(** [-r.PayloadSize] is int64 negation: it wraps at the minimum. *)
Definition AbsPayloadSize (r : Rec) : Z :=
  if PayloadSize r <? 0 then to_int64 (- PayloadSize r) else PayloadSize r.

Definition hex_digit (n : Z) : string :=
  String.substring (Z.to_nat n) 1 "0123456789abcdef".
(** [%02x] *)
Definition hex2 (b : byte) : string :=
  (hex_digit (byte_val b / 16) ++ hex_digit (byte_val b mod 16))%string.

Definition TypeName (r : Rec) : string :=
  if decide (Type_ r = RecordOpen) then "open"
  else if decide (Type_ r = RecordCheckpoint) then "checkpoint"
  else if decide (Type_ r = RecordClose) then "close"
  else if decide (Type_ r = RecordArtifact) then "artifact"
  else ("unknown(0x" ++ hex2 (Type_ r) ++ ")")%string.

Record VerifyResult := mkVerifyResult {
  VHeader : Header;
  Records : list Rec;
  Valid : bool;
  SigErrors : Z;
  Unclosed : Z;
  TotalRecords : Z }.

(** ** ReadHeader *)
Section ReadHeader.
Context {CO : CborOps}.

Definition ReadHeader (data : bytes) : result (Header * Z) :=
  if len data <? 5 then Err (Msg "data too short for magic+version") else
  if negb (bool_decide (string_of (slice data 0 4) = "BLDL"%string))
  then Err (Msg "invalid magic bytes") else
  let version := nth 4 data Byte.x00 in
  let off := 5 in
  (* Signature scheme (null-terminated) *)
  match index_byte (drop (Z.to_nat off) data) Byte.x00 with
  | None => Err (Msg "no null terminator for signature scheme")
  | Some nullIdx =>
    let scheme := string_of (slice data off (off + nullIdx)) in
    let off := off + (nullIdx + 1) in
    (* Sizes *)
    if off + 6 >? len data then Err (Msg "data too short for size fields") else
    let sigSize := be_decode (slice data off (off + 2)) in
    let off := off + 2 in
    let hashBlockSize := be_decode (slice data off (off + 2)) in
    let off := off + 2 in
    let pubKeyLen := be_decode (slice data off (off + 2)) in
    let off := off + 2 in
    (* Public key *)
    if off + pubKeyLen >? len data then Err (Msg "data too short for public key") else
    let pubKey := slice data off (off + pubKeyLen) in
    let off := off + pubKeyLen in
    let prefix := slice data 0 off in
    (* Header signature *)
    if off + sigSize >? len data then Err (Msg "data too short for header signature") else
    let sig := slice data off (off + sigSize) in
    let off := off + sigSize in
    (* CBOR metadata *)
    if off + 4 >? len data then Err (Msg "data too short for metadata length") else
    let metaLen := be_decode (slice data off (off + 4)) in
    let off := off + 4 in
    if off + metaLen >? len data then Err (Msg "data too short for metadata") else
    match cbor_unmarshal_header (slice data off (off + metaLen)) with
    | Err e => Err (Wrap "decode header metadata" e)
    | Ok meta =>
      let off := off + metaLen in
      Ok (mkHeader version scheme sigSize hashBlockSize pubKeyLen pubKey sig meta prefix,
          off)
    end
  end.
End ReadHeader.

(** ** ReadRecord *)
Definition ReadRecord (data : bytes) (sigSize hashBlockSize : Z) : result (Rec * Z) :=
  match data with
  | [] => Err EOF
  | typ :: _ =>
    let off := 1 in
    (* Previous signature *)
    if off + sigSize >? len data then Err (Msg "data too short for prev_sig") else
    let prevSig := slice data off (off + sigSize) in
    let off := off + sigSize in
    (* Open signature (not present for open records) *)
    let? (openSig, off) :=
      (if decide (typ = RecordOpen) then Ok (None, off)
       else if off + sigSize >? len data then Err (Msg "data too short for open_sig")
       else Ok (Some (slice data off (off + sigSize)), off + sigSize))%go in
    (* Payload size *)
    if off + 8 >? len data then Err (Msg "data too short for payload_size") else
    let payloadSize := to_int64 (be_decode (slice data off (off + 8))) in
    let off := off + 8 in
    (* Hash block (only when payload != 0) *)
    let? (hashBlock, off) :=
      (if payloadSize =? 0 then Ok (None, off)
       else if off + hashBlockSize >? len data then Err (Msg "data too short for hash_block")
       else Ok (Some (slice data off (off + hashBlockSize)), off + hashBlockSize))%go in
    (* Record signature *)
    if off + sigSize >? len data then Err (Msg "data too short for record signature") else
    let signature := slice data off (off + sigSize) in
    let off := off + sigSize in
    (* Schema index *)
    if off >=? len data then Err (Msg "data too short for schema index") else
    let schemaIndex := nth (Z.to_nat off) data Byte.x00 in
    let off := off + 1 in
    (* Metadata (if present) *)
    let? (metadata, off) :=
      (if decide (schemaIndex = SchemaNoMetadata) then Ok (None, off)
       else if off + 4 >? len data then Err (Msg "data too short for metadata length")
       else
         let metaLen := be_decode (slice data off (off + 4)) in
         let off := off + 4 in
         if off + metaLen >? len data then Err (Msg "data too short for metadata")
         else Ok (Some (slice data off (off + metaLen)), off + metaLen))%go in
    Ok (mkRec typ prevSig openSig payloadSize hashBlock signature schemaIndex metadata, off)
  end%go.

(** ** Verify *)
Definition buildRecordSigInput (r : Rec) : bytes :=
  [Type_ r] ++ PrevSig r ++
  (if decide (Type_ r = RecordOpen) then [] else default [] (OpenSig r)) ++
  be_encode 8 (wrap_u 64 (PayloadSize r)) ++
  (if PayloadSize r =? 0 then [] else default [] (HashBlock r)).

Section Verify.
Context {HO : HashOps} {EO : Ed25519Ops} {CO : CborOps}.

Definition verifyEd25519Sig (pubKey input sig : bytes) : bool :=
  if negb (len pubKey =? PublicKeySize) then false
  else ed_verify pubKey (sha512 input) sig.

(** The loop's variables: [result]'s counters and records, [prevSig] and the
    set of signatures of open channels. *)
Record VState := mkVState {
  sigErrors : Z;
  prevSig : bytes;
  openChannels : gset bytes;
  records : list Rec;
  totalRecords : Z }.

(** One iteration after [ReadRecord] returned [rec]. *)
Definition verify_step (pubKey : bytes) (st : VState) (rec : Rec) : VState :=
  let e1 := if decide (PrevSig rec = prevSig st) then 0 else 1 in
  let e2 := if verifyEd25519Sig pubKey (buildRecordSigInput rec) (Signature rec)
            then 0 else 1 in
  let sigKey := Signature rec in
  let oc :=
    if decide (Type_ rec = RecordOpen) then {[ sigKey ]} ∪ openChannels st
    else if decide (Type_ rec = RecordClose \/ Type_ rec = RecordArtifact) then
      match OpenSig rec with
      | Some o => openChannels st ∖ {[ o ]}
      | None => openChannels st
      end
    else openChannels st in
  mkVState (sigErrors st + e1 + e2) (Signature rec) oc (records st ++ [rec])
    (totalRecords st + 1).

(** [for off < len(data) { ... }] on the bytes left.  Every record takes at
    least one byte, so [S (length data)] iterations are enough
    ([verify_loop_enough]); [None] is running out of them. *)
Fixpoint verify_loop (fuel : nat) (h : Header) (data : bytes) (st : VState) :
    option (result VState) :=
  match fuel with
  | O => None
  | S fuel' =>
    match data with
    | [] => Some (Ok st)
    | _ :: _ =>
      match ReadRecord data (SigSize h) (HashBlockSize h) with
      | Err e =>
          if errors_Is e EOF then Some (Ok st)
          else Some (Err (Wrap ("read record " ++ Itoa (totalRecords st))%string e))
      | Ok (rec, n) =>
          verify_loop fuel' h (drop (Z.to_nat n) data) (verify_step (PubKey h) st rec)
      end
    end
  end.

Definition initial_state (header : Header) : VState :=
  mkVState
    (if verifyEd25519Sig (PubKey header) (PrefixBytes header) (HSignature header)
     then 0 else 1)
    (HSignature header) ∅ [] 0.

Definition finish (header : Header) (st : VState) : VerifyResult :=
  mkVerifyResult header (records st) (sigErrors st =? 0) (sigErrors st)
    (Z.of_nat (size (openChannels st))) (totalRecords st).

Definition Verify (data : bytes) : option (result VerifyResult) :=
  match ReadHeader data with
  | Err e => Some (Err (Wrap "read header" e))
  | Ok (header, off) =>
      match verify_loop (S (length data)) header (drop (Z.to_nat off) data)
              (initial_state header) with
      | None => None
      | Some (Err e) => Some (Err e)
      | Some (Ok st) => Some (Ok (finish header st))
      end
  end.
End Verify.

Definition IsValidLedger (data : bytes) : bool :=
  (len data >=? 5) && bool_decide (string_of (slice data 0 4) = "BLDL"%string) &&
  bool_decide (nth 4 data Byte.x00 = Byte.x01).
#[global] Arguments ReadRecord : simpl never.
#[global] Arguments verifyEd25519Sig : simpl never.
#[global] Arguments buildRecordSigInput : simpl never.
#[global] Arguments ReadHeader : simpl never.
End Reader.

(** ** The wire format *)
Module Format.
Import Reader.

(** What a record must satisfy to be written with signatures of [ss] bytes
    and hash blocks of [hs]. *)
Record wf_record (ss hs : Z) (r : Rec) : Prop := {
  wf_prev : len (PrevSig r) = ss;
  wf_open : match OpenSig r with
            | None => Type_ r = RecordOpen
            | Some o => Type_ r <> RecordOpen /\ len o = ss
            end;
  wf_size : int64_ok (PayloadSize r);
  wf_hash : match HashBlock r with
            | None => PayloadSize r = 0
            | Some b => PayloadSize r <> 0 /\ len b = hs
            end;
  wf_sig : len (Signature r) = ss;
  wf_meta : match Metadata r with
            | None => SchemaIndex r = SchemaNoMetadata
            | Some m => SchemaIndex r <> SchemaNoMetadata /\ len m < 2 ^ 32
            end }.

Definition encode_meta (r : Rec) : bytes :=
  match Metadata r with None => [] | Some m => be_encode 4 (len m) ++ m end.

Definition encode_record (r : Rec) : bytes :=
  buildRecordSigInput r ++ Signature r ++ [SchemaIndex r] ++ encode_meta r.

Lemma be_decode_encode_small n z :
  0 <= z < 2 ^ (8 * Z.of_nat n) -> be_decode (be_encode n z) = z.
Proof. intros. by rewrite be_decode_encode, Z.mod_small. Qed.

Lemma payload_roundtrip z :
  int64_ok z -> to_int64 (be_decode (be_encode 8 (wrap_u 64 z))) = z.
Proof.
  intros. unfold wrap_u. rewrite be_decode_encode. change (8 * Z.of_nat 8) with 64.
  by rewrite Z.mod_mod, to_int64_mod, to_int64_id.
Qed.


Lemma sig_input_eq ty pv op sz hb sg ix md :
  let r := mkRec ty pv op sz hb sg ix md in
  match op with None => ty = RecordOpen | Some _ => ty <> RecordOpen end ->
  match hb with None => sz = 0 | Some _ => sz <> 0 end ->
  buildRecordSigInput r =
    ty :: pv ++ default [] op ++ be_encode 8 (wrap_u 64 sz) ++ default [] hb.
Proof.
  unfold buildRecordSigInput; simpl. intros Ho Hh.
  destruct op; [rewrite decide_False by done | rewrite decide_True by done];
    (destruct hb; [destruct (Z.eqb_spec sz 0); [done|] | subst; simpl]); done.
Qed.

(** Where the fields of an encoded record lie in data that starts with it. *)
Record layout (data : bytes) (ss hs lo lh lm : Z) (r : Rec) : Prop := {
  lay_len : 10 + ss + lo + lh + ss + lm + len (default [] (Metadata r)) <= len data;
  lay_hd : exists d, data = Type_ r :: d;
  lay_prev i j : i = 1 -> j = 1 + ss -> slice data i j = PrevSig r;
  lay_open i j : i = 1 + ss -> j = i + lo -> slice data i j = default [] (OpenSig r);
  lay_size i j : i = 1 + ss + lo -> j = i + 8 ->
    slice data i j = be_encode 8 (wrap_u 64 (PayloadSize r));
  lay_hash i j : i = 9 + ss + lo -> j = i + lh -> slice data i j = default [] (HashBlock r);
  lay_sig i j : i = 9 + ss + lo + lh -> j = i + ss -> slice data i j = Signature r;
  lay_index i : i = 9 + ss + lo + lh + ss -> nth (Z.to_nat i) data Byte.x00 = SchemaIndex r;
  lay_mlen i j : i = 10 + ss + lo + lh + ss -> j = i + lm ->
    slice data i j = match Metadata r with Some m => be_encode 4 (len m) | None => [] end;
  lay_meta i j : i = 10 + ss + lo + lh + ss + lm -> j = i + len (default [] (Metadata r)) ->
    slice data i j = default [] (Metadata r) }.

Definition meta_len_size (r : Rec) : Z := match Metadata r with Some _ => 4 | None => 0 end.

Lemma wf_record_inputs ss hs r :
  wf_record ss hs r ->
  buildRecordSigInput r =
    Type_ r :: PrevSig r ++ default [] (OpenSig r) ++
    be_encode 8 (wrap_u 64 (PayloadSize r)) ++ default [] (HashBlock r).
Proof.
  intros [_ Ho _ Hh _ _]. destruct r as [ty pv op sz hb sg ix md].
  apply sig_input_eq; [destruct op | destruct hb]; naive_solver.
Qed.

Lemma encode_layout ss hs r rest :
  wf_record ss hs r ->
  layout (encode_record r ++ rest) ss hs (len (default [] (OpenSig r)))
    (len (default [] (HashBlock r))) (meta_len_size r) r.
Proof.
  intros Hwf. pose proof (wf_record_inputs _ _ _ Hwf) as Hin.
  destruct Hwf as [Hp _ _ _ Hg _].
  unfold encode_record. rewrite Hin. unfold encode_meta.
  set (ml := match Metadata r with Some m => be_encode 4 (len m) | None => [] end).
  replace (match Metadata r with Some m => _ | None => [] end) with
    (ml ++ default [] (Metadata r)) by (unfold ml; by destruct (Metadata r)).
  assert (Hml : meta_len_size r = len ml).
  { unfold meta_len_size, ml. by destruct (Metadata r); rewrite ?len_be_encode. }
  rewrite Hml. split; fold ml; intros; subst; rewrite <- ?app_assoc; cbn [app];
    rewrite <- ?app_assoc; try by parse_app.
  - len_lia.
  - eauto.
Qed.

(** Runs the parser on data with a known layout. *)
Ltac read_layout L :=
  let side := (cbn [Metadata default from_option id]; lia) in
  repeat first
    [ check_false
    | progress cbn [result_bind Type_ PrevSig OpenSig PayloadSize HashBlock Signature
                    SchemaIndex Metadata default from_option id]
    | rewrite payload_roundtrip by done
    | rewrite be_decode_encode_small by len_lia
    | rewrite decide_True by done
    | rewrite decide_False by done
    | match goal with
      | |- context [slice ?d ?i ?j] =>
        first [ rewrite (lay_prev _ _ _ _ _ _ _ L i j) by side
              | rewrite (lay_open _ _ _ _ _ _ _ L i j) by side
              | rewrite (lay_size _ _ _ _ _ _ _ L i j) by side
              | rewrite (lay_hash _ _ _ _ _ _ _ L i j) by side
              | rewrite (lay_sig _ _ _ _ _ _ _ L i j) by side
              | rewrite (lay_mlen _ _ _ _ _ _ _ L i j) by side
              | rewrite (lay_meta _ _ _ _ _ _ _ L i j) by side ]
      end
    | rewrite (lay_index _ _ _ _ _ _ _ L) by lia ].

Lemma len_encode_record ss hs r :
  wf_record ss hs r ->
  len (encode_record r) =
    10 + ss + ss + len (default [] (OpenSig r)) + len (default [] (HashBlock r)) +
    meta_len_size r + len (default [] (Metadata r)).
Proof.
  intros Hwf. unfold encode_record, encode_meta, meta_len_size.
  rewrite (wf_record_inputs _ _ _ Hwf). destruct Hwf.
  destruct (Metadata r); cbn [default from_option id]; len_lia.
Qed.

Lemma ReadRecord_encode ss hs r rest :
  wf_record ss hs r ->
  ReadRecord (encode_record r ++ rest) ss hs = Ok (r, len (encode_record r)).
Proof.
  intros Hwf. pose proof (encode_layout ss hs r rest Hwf) as L.
  rewrite (len_encode_record ss hs) by done. revert L.
  generalize (encode_record r ++ rest) as data. intros data L.
  pose proof (lay_len _ _ _ _ _ _ _ L) as Hlen.
  destruct (lay_hd _ _ _ _ _ _ _ L) as [d Hd].
  destruct Hwf as [Hp Ho Hs Hh Hg Hm]. destruct r as [ty pv op sz hb sg ix md].
  unfold meta_len_size in *.
  cbn [Type_ PrevSig OpenSig PayloadSize HashBlock Signature SchemaIndex Metadata] in *.
  assert (Hz : (sz =? 0) = match hb with Some _ => false | None => true end).
  { destruct (Z.eqb_spec sz 0), hb; naive_solver. }
  unfold ReadRecord. rewrite Hd at 1. rewrite Hd at 1. cbn iota. rewrite <- Hd.
  pose proof (len_nonneg pv). pose proof (len_nonneg (default [] hb)).
  pose proof (len_nonneg (default [] md)).
  destruct op as [op|], hb as [hb|], md as [md|]; cbn [default from_option id] in *;
    change (len (@nil byte)) with 0 in *; destruct_and?; read_layout L.
  all: try (rewrite Hz; read_layout L).
  all: do 2 f_equal; lia.
Qed.
Ltac stage H :=
  match type of H with
  | (if ?c then Err _ else _) = Ok _ => destruct c eqn:?; [discriminate H|]
  end; bool_to_prop.

(** An optional field read from [i], present exactly when [c] is false. *)
Lemma optional_field data (c : Prop) `{Decision c} msg i sz (o : option bytes) j :
  0 <= i -> 0 <= sz -> i <= len data ->
  (if decide c then Ok (None, i)
   else if i + sz >? len data then Err (Msg msg)
   else Ok (Some (slice data i (i + sz)), i + sz)) = Ok (o, j) ->
  i <= j <= len data /\ default [] o = slice data i j /\
  match o with None => c | Some b => ~ c /\ len b = sz end.
Proof.
  intros Hi Hsz Hl Ho. destruct (decide c) as [Hc|Hc].
  - injection Ho as <- <-. rewrite slice_nil. split_and!; [lia..|done|done].
  - stage Ho. injection Ho as <- <-. split_and!; [lia..|done|done|].
    rewrite len_slice by lia. lia.
Qed.

Lemma metadata_field data ix i md j :
  0 <= i -> i <= len data ->
  (if decide (ix = SchemaNoMetadata) then Ok (None, i)
   else if i + 4 >? len data then Err (Msg "data too short for metadata length")
   else let metaLen := be_decode (slice data i (i + 4)) in
        let off := i + 4 in
        if off + metaLen >? len data then Err (Msg "data too short for metadata")
        else Ok (Some (slice data off (off + metaLen)), off + metaLen)) = Ok (md, j) ->
  i <= j <= len data /\
  match md with None => [] | Some m => be_encode 4 (len m) ++ m end = slice data i j /\
  match md with
  | None => ix = SchemaNoMetadata
  | Some m => ix <> SchemaNoMetadata /\ len m < 2 ^ 32
  end.
Proof.
  intros Hi Hl Ho. destruct (decide _) as [Hc|Hc].
  - injection Ho as <- <-. rewrite slice_nil. split_and!; [lia..|done|done].
  - stage Ho. cbv zeta in Ho. set (ml := be_decode _) in *. stage Ho. injection Ho as <- <-.
    pose proof (be_decode_range (slice data i (i + 4))) as Hr.
    rewrite len_slice in Hr by lia. fold ml in Hr.
    replace (8 * (i + 4 - i)) with 32 in Hr by lia.
    assert (Hm : len (slice data (i + 4) (i + 4 + ml)) = ml) by (rewrite len_slice; lia).
    rewrite Hm. split_and!; [lia..| |done|lia].
    rewrite (slice_split data i (i + 4) (i + 4 + ml)) by lia. f_equal.
    unfold ml. apply be_encode_decode_len. rewrite len_slice; lia.
Qed.

(** What a successful [ReadRecord] has read, field by field; [o1], [o2], [o3]
    are the offsets after the optional parts. *)
Lemma ReadRecord_fields data ss hs r n :
  0 <= ss -> 0 <= hs -> ReadRecord data ss hs = Ok (r, n) ->
  exists o1 o2,
    1 + ss <= o1 /\ o1 + 8 <= o2 /\ o2 + ss + 1 <= n <= len data /\
    [Type_ r] = slice data 0 1 /\
    PrevSig r = slice data 1 (1 + ss) /\
    default [] (OpenSig r) = slice data (1 + ss) o1 /\
    be_encode 8 (wrap_u 64 (PayloadSize r)) = slice data o1 (o1 + 8) /\
    default [] (HashBlock r) = slice data (o1 + 8) o2 /\
    Signature r = slice data o2 (o2 + ss) /\
    [SchemaIndex r] = slice data (o2 + ss) (o2 + ss + 1) /\
    encode_meta r = slice data (o2 + ss + 1) n /\
    wf_record ss hs r.
Proof.
  intros Hss Hhs H. unfold ReadRecord in H.
  destruct data as [|ty d]; [done|]. set (data := ty :: d) in *.
  assert (Hd : slice data 0 1 = [ty]) by done. clearbody data.
  stage H. apply result_bind_Ok in H as ([op o1] & Hop & H). stage H.
  apply result_bind_Ok in H as ([hb o2] & Hhb & H). stage H. stage H.
  apply result_bind_Ok in H as ([md o3] & Hmd & H). injection H as <- <-.
  apply optional_field in Hop as (? & Hop & Hwo); [|lia..].
  set (sz := to_int64 _) in *.
  assert (Hz : forall A (x y : A), (if sz =? 0 then x else y) = if decide (sz = 0) then x else y).
  { intros. by destruct (Z.eqb_spec sz 0), (decide (sz = 0)). }
  rewrite Hz in Hhb. apply optional_field in Hhb as (? & Hhb & Hwh); [|lia..].
  apply metadata_field in Hmd as (? & Hmd & Hwm); [|lia..].
  exists o1, o2. cbn. split_and!; try done; try lia.
  - apply be_encode_int64_decode. rewrite len_slice; lia.
  - symmetry. apply slice_one; lia.
  - split; cbn; rewrite ?len_slice by lia; try done; try lia. apply to_int64_range.
Qed.
Lemma ReadRecord_parsed data ss hs r n :
  0 <= ss -> 0 <= hs -> ReadRecord data ss hs = Ok (r, n) ->
  wf_record ss hs r /\ n = len (encode_record r) /\ data = encode_record r ++ drop (Z.to_nat n) data.
Proof.
  intros Hss Hhs H.
  apply ReadRecord_fields in H as
    (o1 & o2 & ? & ? & ? & Ht & Hp & Ho & Hs & Hh & Hg & Hi & Hm & Hwf); [|done..].
  assert (He : encode_record r = slice data 0 n).
  { unfold encode_record. rewrite (wf_record_inputs _ _ _ Hwf), Hm, Hi, Hg, Hh, Hs, Ho, Hp.
    match goal with |- (?a :: ?x) ++ ?y = _ => change ([a] ++ (x ++ y) = slice data 0 n) end.
    rewrite Ht.
    rewrite (slice_split data 0 1 n), (slice_split data 1 (1 + ss) n),
      (slice_split data (1 + ss) o1 n), (slice_split data o1 (o1 + 8) n),
      (slice_split data (o1 + 8) o2 n), (slice_split data o2 (o2 + ss) n),
      (slice_split data (o2 + ss) (o2 + ss + 1) n) by lia.
    by rewrite <- !app_assoc. }
  split_and!; [done| |].
  - rewrite He, len_slice; lia.
  - rewrite He, slice_0. by rewrite take_drop.
Qed.

(** C1.  [ReadRecord] reads exactly the encodings of well-formed records: it
    returns [(r, n)] if and only if the data starts with the [n]-byte
    encoding of the well-formed record [r] (round trip in both
    directions, for any signature and hash block size). *)
Theorem ReadRecord_exact data ss hs r n :
  0 <= ss -> 0 <= hs ->
  ReadRecord data ss hs = Ok (r, n) <->
  wf_record ss hs r /\ n = len (encode_record r) /\ encode_record r `prefix_of` data.
Proof.
  intros Hss Hhs. split.
  - intros Hr. apply ReadRecord_parsed in Hr as (? & ? & Hd); [|done..].
    split_and!; [done..|]. by eexists.
  - intros (Hwf & -> & k & ->). by apply ReadRecord_encode.
Qed.

(** ** Headers *)

Definition encode_prefix (h : Header) : bytes :=
  bytes_of "BLDL" ++ [Version h] ++ bytes_of (SigScheme h) ++ [Byte.x00] ++
  be_encode 2 (SigSize h) ++ be_encode 2 (HashBlockSize h) ++ be_encode 2 (PubKeyLen h) ++
  PubKey h.

Definition encode_header (h : Header) (meta : bytes) : bytes :=
  encode_prefix h ++ HSignature h ++ be_encode 4 (len meta) ++ meta.

Record wf_header {CO : CborOps} (h : Header) (meta : bytes) : Prop := {
  wfh_scheme : Byte.x00 ∉ bytes_of (SigScheme h);
  wfh_sigsize : 0 <= SigSize h < 2 ^ 16;
  wfh_hashsize : 0 <= HashBlockSize h < 2 ^ 16;
  wfh_keylen : 0 <= PubKeyLen h < 2 ^ 16;
  wfh_key : len (PubKey h) = PubKeyLen h;
  wfh_sig : len (HSignature h) = SigSize h;
  wfh_prefix : PrefixBytes h = encode_prefix h;
  wfh_metalen : len meta < 2 ^ 32;
  wfh_meta : cbor_unmarshal_header meta = Ok (Meta h) }.

Section Headers.
Context {CO : CborOps}.

(** Where the header's fields lie, with [n] the length of the scheme name. *)
Record hlayout (data : bytes) (n : Z) (h : Header) (meta : bytes) : Prop := {
  hl_len : 16 + n + PubKeyLen h + SigSize h + len meta <= len data;
  hl_magic : slice data 0 4 = bytes_of "BLDL";
  hl_version : nth 4 data Byte.x00 = Version h;
  hl_null : index_byte (drop (Z.to_nat 5) data) Byte.x00 = Some n;
  hl_scheme i j : i = 5 -> j = 5 + n -> slice data i j = bytes_of (SigScheme h);
  hl_ss i j : i = 6 + n -> j = i + 2 -> slice data i j = be_encode 2 (SigSize h);
  hl_hs i j : i = 8 + n -> j = i + 2 -> slice data i j = be_encode 2 (HashBlockSize h);
  hl_kl i j : i = 10 + n -> j = i + 2 -> slice data i j = be_encode 2 (PubKeyLen h);
  hl_key i j : i = 12 + n -> j = i + PubKeyLen h -> slice data i j = PubKey h;
  hl_prefix i j : i = 0 -> j = 12 + n + PubKeyLen h -> slice data i j = encode_prefix h;
  hl_sig i j : i = 12 + n + PubKeyLen h -> j = i + SigSize h -> slice data i j = HSignature h;
  hl_ml i j : i = 12 + n + PubKeyLen h + SigSize h -> j = i + 4 ->
    slice data i j = be_encode 4 (len meta);
  hl_meta i j : i = 16 + n + PubKeyLen h + SigSize h -> j = i + len meta ->
    slice data i j = meta }.

Lemma len_encode_prefix h meta :
  wf_header h meta ->
  len (encode_prefix h) = 12 + len (bytes_of (SigScheme h)) + PubKeyLen h.
Proof.
  intros []. unfold encode_prefix. change (bytes_of "BLDL") with [Byte.x42; Byte.x4c; Byte.x44; Byte.x4c].
  len_lia.
Qed.

Lemma encode_hlayout h meta rest :
  wf_header h meta ->
  hlayout (encode_header h meta ++ rest) (len (bytes_of (SigScheme h))) h meta.
Proof.
  intros Hwf. pose proof (len_encode_prefix h meta Hwf) as Hpl.
  assert (Hpre : slice (encode_header h meta ++ rest) 0
                   (12 + len (bytes_of (SigScheme h)) + PubKeyLen h) = encode_prefix h).
  { unfold encode_header. rewrite <- app_assoc. apply slice_take; [done|lia]. }
  destruct Hwf as [Hs Hss Hhs Hkl Hk Hg _ Hml Hm].
  split; intros; subst; try exact Hpre; clear Hpre Hpl;
    unfold encode_header, encode_prefix;
    change (bytes_of "BLDL") with [Byte.x42; Byte.x4c; Byte.x44; Byte.x4c];
    rewrite <- ?app_assoc; cbn [app]; rewrite <- ?app_assoc; try by parse_app.
  - len_lia.
  - change (drop (Z.to_nat 5) _) with
      (bytes_of (SigScheme h) ++ Byte.x00 :: be_encode 2 (SigSize h) ++
       be_encode 2 (HashBlockSize h) ++ be_encode 2 (PubKeyLen h) ++ PubKey h ++
       HSignature h ++ be_encode 4 (len meta) ++ meta ++ rest).
    apply index_byte_Some. eexists _, _. split_and!; done.
Qed.

Ltac read_hlayout L :=
  repeat first
    [ check_false
    | rewrite be_decode_encode_small by len_lia
    | match goal with
      | |- context [slice ?d ?i ?j] =>
        first [ rewrite (hl_scheme _ _ _ _ L i j) by lia
              | rewrite (hl_ss _ _ _ _ L i j) by lia
              | rewrite (hl_hs _ _ _ _ L i j) by lia
              | rewrite (hl_kl _ _ _ _ L i j) by lia
              | rewrite (hl_key _ _ _ _ L i j) by lia
              | rewrite (hl_prefix _ _ _ _ L i j) by lia
              | rewrite (hl_sig _ _ _ _ L i j) by lia
              | rewrite (hl_ml _ _ _ _ L i j) by lia
              | rewrite (hl_meta _ _ _ _ L i j) by lia ]
      end ].

Lemma ReadHeader_encode h meta rest :
  wf_header h meta ->
  ReadHeader (encode_header h meta ++ rest) = Ok (h, len (encode_header h meta)).
Proof.
  intros Hwf. pose proof (encode_hlayout h meta rest Hwf) as L.
  assert (Hl : len (encode_header h meta) =
               16 + len (bytes_of (SigScheme h)) + PubKeyLen h + SigSize h + len meta).
  { unfold encode_header. autorewrite with golen. rewrite (len_encode_prefix h meta) by done.
    destruct Hwf. lia. }
  rewrite Hl. clear Hl. revert L. generalize (encode_header h meta ++ rest) as data.
  generalize (len_nonneg (bytes_of (SigScheme h))).
  generalize (len (bytes_of (SigScheme h))) as n. intros n Hn data L.
  destruct Hwf as [Hs Hss Hhs Hkl Hk Hg Hp Hml Hm].
  pose proof (hl_len _ _ _ _ L) as Hlen. pose proof (len_nonneg meta).
  unfold ReadHeader. check_false. rewrite (hl_magic _ _ _ _ L), string_of_bytes_of.
  rewrite bool_decide_eq_true_2 by done. cbn [negb]. rewrite (hl_null _ _ _ _ L).
  read_hlayout L. rewrite Hm, (hl_version _ _ _ _ L), string_of_bytes_of, <- Hp.
  destruct h; cbn. do 2 f_equal. lia.
Qed.

(** What a successful [ReadHeader] has read; [n] is the scheme's length. *)
Lemma ReadHeader_fields data h off :
  ReadHeader data = Ok (h, off) ->
  exists n meta,
    0 <= n /\ off = 16 + n + PubKeyLen h + SigSize h + len meta /\ off <= len data /\
    bytes_of "BLDL" = slice data 0 4 /\
    [Version h] = slice data 4 5 /\
    bytes_of (SigScheme h) = slice data 5 (5 + n) /\
    [Byte.x00] = slice data (5 + n) (6 + n) /\
    be_encode 2 (SigSize h) = slice data (6 + n) (8 + n) /\
    be_encode 2 (HashBlockSize h) = slice data (8 + n) (10 + n) /\
    be_encode 2 (PubKeyLen h) = slice data (10 + n) (12 + n) /\
    PubKey h = slice data (12 + n) (12 + n + PubKeyLen h) /\
    PrefixBytes h = slice data 0 (12 + n + PubKeyLen h) /\
    HSignature h = slice data (12 + n + PubKeyLen h) (12 + n + PubKeyLen h + SigSize h) /\
    be_encode 4 (len meta) =
      slice data (12 + n + PubKeyLen h + SigSize h) (16 + n + PubKeyLen h + SigSize h) /\
    meta = slice data (16 + n + PubKeyLen h + SigSize h) off /\
    0 <= SigSize h < 2 ^ 16 /\ 0 <= HashBlockSize h < 2 ^ 16 /\ 0 <= PubKeyLen h < 2 ^ 16 /\
    len meta < 2 ^ 32 /\ Byte.x00 ∉ bytes_of (SigScheme h) /\
    cbor_unmarshal_header meta = Ok (Meta h).
Proof.
  unfold ReadHeader. intros Hr. stage Hr. stage Hr.
  destruct (index_byte _ _) as [n|] eqn:Hnul; [|done].
  apply index_byte_Some in Hnul as (l1 & l2 & Hd & Hn & Hz).
  stage Hr. rename Heqb1 into Hsz. cbv zeta in Hr.
  remember (be_decode (slice data (5 + (n + 1)) (5 + (n + 1) + 2))) as ss eqn:Ess.
  remember (be_decode (slice data (5 + (n + 1) + 2) (5 + (n + 1) + 2 + 2))) as hs eqn:Ehs.
  remember (be_decode (slice data (5 + (n + 1) + 2 + 2) (5 + (n + 1) + 2 + 2 + 2)))
    as kl eqn:Ekl.
  assert (0 <= n) by (subst n; apply len_nonneg).
  apply (be_field _ _ _ 2) in Ess as [Rss Ess]; [|lia..].
  apply (be_field _ _ _ 2) in Ehs as [Rhs Ehs]; [|lia..].
  apply (be_field _ _ _ 2) in Ekl as [Rkl Ekl]; [|lia..].
  stage Hr. stage Hr. stage Hr.
  match type of Hr with context [be_decode ?x] => remember (be_decode x) as ml eqn:Eml end.
  apply (be_field _ _ _ 4) in Eml as [Rml Eml]; [|lia..].
  stage Hr. destruct (cbor_unmarshal_header _) as [me|] eqn:Hme; [|done].
  injection Hr as <- <-. cbn [Version SigScheme SigSize HashBlockSize PubKeyLen PubKey
    HSignature Meta PrefixBytes].
  apply (f_equal (fun l => take 5 data ++ l)) in Hd. 
  change (Z.to_nat 5) with 5%nat in Hd. rewrite take_drop in Hd.
  assert (H5 : len (take 5 data) = 5) by (unfold len in *; rewrite length_take; lia).
  assert (Hl1 : slice data 5 (5 + n) = l1).
  { rewrite Hd. subst n. by parse_app. }
  assert (Hnul : slice data (5 + n) (6 + n) = [Byte.x00]).
  { rewrite Hd. change (Byte.x00 :: l2) with ([Byte.x00] ++ l2). subst n. by parse_app. }
  eexists n, _. split_and!; try exact Hme; rewrite ?Hl1, ?bytes_of_string_of;
    rewrite ?len_slice by lia; try done; try lia; try by apply slice_eq; lia.
  - by rewrite <- Heqb0, bytes_of_string_of.
  - symmetry. apply (slice_one _ 4); lia.
  - rewrite Ess. apply slice_eq; lia.
  - rewrite Ehs. apply slice_eq; lia.
  - rewrite Ekl. apply slice_eq; lia.
  - replace (_ - _) with ml by lia. rewrite Eml. apply slice_eq; lia.
Qed.

Lemma ReadHeader_parsed data h off :
  ReadHeader data = Ok (h, off) ->
  exists meta, wf_header h meta /\ off = len (encode_header h meta) /\
               data = encode_header h meta ++ drop (Z.to_nat off) data.
Proof.
  intros Hr. apply ReadHeader_fields in Hr as
    (n & meta & ? & Hoff & ? & Hm & Hv & Hsch & Hz & Hss & Hhs & Hkl & Hk & Hpb & Hsg &
     Hml & Hme & ? & ? & ? & ? & ? & ?).
  pose proof (len_nonneg meta).
  assert (Hpre : encode_prefix h = slice data 0 (12 + n + PubKeyLen h)).
  { unfold encode_prefix. rewrite Hm, Hv, Hsch, Hz, Hss, Hhs, Hkl, Hk.
    set (e := 12 + n + PubKeyLen h).
    rewrite (slice_split data 0 4 e), (slice_split data 4 5 e), (slice_split data 5 (5 + n) e),
      (slice_split data (5 + n) (6 + n) e), (slice_split data (6 + n) (8 + n) e),
      (slice_split data (8 + n) (10 + n) e), (slice_split data (10 + n) (12 + n) e) by lia.
    done. }
  assert (He : encode_header h meta = slice data 0 off).
  { unfold encode_header. rewrite Hpre, Hsg, Hml, Hme at 1.
    rewrite (slice_split data 0 (12 + n + PubKeyLen h) off),
      (slice_split data (12 + n + PubKeyLen h) (12 + n + PubKeyLen h + SigSize h) off),
      (slice_split data (12 + n + PubKeyLen h + SigSize h)
         (16 + n + PubKeyLen h + SigSize h) off) by lia.
    done. }
  exists meta. split_and!.
  - split; try done; try lia; try congruence.
    + rewrite Hk, len_slice; lia.
    + rewrite Hsg, len_slice; lia.
  - rewrite He, len_slice; lia.
  - rewrite He, slice_0. by rewrite take_drop.
Qed.
(** [ReadHeader] reads exactly the encodings of well-formed headers
    whose CBOR metadata decodes. *)
Theorem ReadHeader_exact data h n :
  ReadHeader data = Ok (h, n) <->
  exists meta, wf_header h meta /\ n = len (encode_header h meta) /\
               encode_header h meta `prefix_of` data.
Proof.
  split.
  - intros Hr. apply ReadHeader_parsed in Hr as (meta & ? & ? & Hd).
    exists meta. split_and!; [done..|]. by eexists.
  - intros (meta & Hwf & -> & k & ->). by apply ReadHeader_encode.
Qed.

End Headers.
End Format.
