(* ===== verification/LedgerVerify.v ===== *)
(** * What [ledger.Verify] decides

    The abstract ledger is a header with a list of records; [chain] says its
    signatures link up.  The theorems state which byte strings [Verify]
    accepts, what its report means, and what a changed or truncated ledger
    does to it. *)
From S2P Require Import Prelude Crypto Ledger.

#[local] Open Scope Z_scope.

Module LedgerSpec.
Import Reader Format.

Section Spec.
Context {HO : HashOps} {EO : Ed25519Ops} {CO : CborOps}.

Definition record_sig_ok (pk : bytes) (r : Rec) : bool :=
  verifyEd25519Sig pk (buildRecordSigInput r) (Signature r).

Definition header_sig_ok (h : Header) : bool :=
  verifyEd25519Sig (PubKey h) (PrefixBytes h) (HSignature h).

(** [chain pk prev rs]: every record names the signature before it and its
    own signature verifies. *)
Inductive chain (pk : bytes) : bytes -> list Rec -> Prop :=
  | chain_nil prev : chain pk prev []
  | chain_cons prev r rs :
      PrevSig r = prev -> record_sig_ok pk r = true ->
      chain pk (Signature r) rs -> chain pk prev (r :: rs).

Definition closes (s : bytes) (r : Rec) : Prop :=
  (Type_ r = RecordClose \/ Type_ r = RecordArtifact) /\ OpenSig r = Some s.

(** The channel opened under signature [s] is open at the end of [rs]. *)
Definition left_open (rs : list Rec) (s : bytes) : Prop :=
  exists rs1 r rs2, rs = rs1 ++ r :: rs2 /\ Type_ r = RecordOpen /\ Signature r = s /\
                    Forall (fun r' => ~ closes s r') rs2.

Definition encode_records (rs : list Rec) : bytes := mjoin (encode_record <$> rs).
Definition ledger_bytes (h : Header) (meta : bytes) (rs : list Rec) : bytes :=
  encode_header h meta ++ encode_records rs.

Definition wf_ledger (h : Header) (meta : bytes) (rs : list Rec) : Prop :=
  wf_header h meta /\ Forall (wf_record (SigSize h) (HashBlockSize h)) rs.

(** The report of the loop over a known list of records. *)
Definition report (h : Header) (rs : list Rec) : VerifyResult :=
  finish h (foldl (verify_step (PubKey h)) (initial_state h) rs).

Lemma encode_records_cons r rs : encode_records (r :: rs) = encode_record r ++ encode_records rs.
Proof. done. Qed.

Lemma encode_record_nonempty r : exists b l, encode_record r = b :: l.
Proof. unfold encode_record, buildRecordSigInput. eauto. Qed.

Lemma encode_record_length r : (1 <= length (encode_record r))%nat.
Proof. destruct (encode_record_nonempty r) as (b & l & ->). simpl. lia. Qed.

Lemma drop_encode_record r l : drop (Z.to_nat (len (encode_record r))) (encode_record r ++ l) = l.
Proof. unfold len. by rewrite Nat2Z.id, drop_app_length. Qed.

Lemma drop_encode_header h m l : drop (Z.to_nat (len (encode_header h m))) (encode_header h m ++ l) = l.
Proof. unfold len. by rewrite Nat2Z.id, drop_app_length. Qed.

(** ** The loop *)

Lemma ReadRecord_not_EOF data ss hs e :
  data <> [] -> ReadRecord data ss hs = Err e -> errors_Is e EOF = false.
Proof.
  intros Hne Hr. unfold ReadRecord in Hr. destruct data as [|t d]; [done|].
  unfold result_bind in Hr. repeat case_match; naive_solver.
Qed.

Lemma verify_loop_records h rs fuel st :
  Forall (wf_record (SigSize h) (HashBlockSize h)) rs ->
  (length (encode_records rs) < fuel)%nat ->
  verify_loop fuel h (encode_records rs) st =
    Some (Ok (foldl (verify_step (PubKey h)) st rs)).
Proof.
  revert fuel st. induction rs as [|r rs IH]; intros fuel st Hwf Hf.
  - destruct fuel; [simpl in Hf; lia|done].
  - apply Forall_cons in Hwf as [Hr Hrs]. destruct fuel as [|fuel]; [lia|].
    rewrite encode_records_cons, length_app in Hf.
    pose proof (encode_record_length r). rewrite encode_records_cons.
    cbn [verify_loop]. rewrite (ReadRecord_encode _ _ _ _ Hr).
    destruct (encode_record_nonempty r) as (b & l & Hb). rewrite Hb at 1. cbn [app].
    rewrite drop_encode_record. apply IH; [done|lia].
Qed.

Lemma verify_loop_total h data fuel st :
  0 <= SigSize h -> 0 <= HashBlockSize h -> (length data < fuel)%nat ->
  match verify_loop fuel h data st with
  | None => False
  | Some (Err _) => True
  | Some (Ok st') =>
      exists rs, Forall (wf_record (SigSize h) (HashBlockSize h)) rs /\
                 data = encode_records rs /\ st' = foldl (verify_step (PubKey h)) st rs
  end.
Proof.
  intros Hss Hhs. revert data st. induction fuel as [|fuel IH]; intros data st Hf; [lia|].
  cbn [verify_loop]. destruct data as [|b d]; [by exists []|].
  destruct (ReadRecord (b :: d) _ _) as [[r n]|e] eqn:Hr.
  - apply ReadRecord_parsed in Hr as (Hwf & Hn & Hd); [|done..].
    assert (Hlt : (length (drop (Z.to_nat n) (b :: d)) < fuel)%nat).
    { pose proof (encode_record_length r). apply (f_equal length) in Hd.
      rewrite length_app in Hd. lia. }
    specialize (IH _ (verify_step (PubKey h) st r) Hlt).
    destruct (verify_loop _ _ _ _) as [[st'|]|]; [|done..].
    destruct IH as (rs & Hrs & Hd' & ->). exists (r :: rs).
    rewrite encode_records_cons, <- Hd'. auto.
  - apply ReadRecord_not_EOF in Hr; [|done]. by rewrite Hr.
Qed.

(** ** The report *)

Lemma fold_records pk rs st :
  records (foldl (verify_step pk) st rs) = records st ++ rs /\
  totalRecords (foldl (verify_step pk) st rs) = totalRecords st + len rs.
Proof.
  revert st. induction rs as [|r rs IH]; intros st; cbn [foldl].
  - rewrite app_nil_r. change (len (@nil Rec)) with 0. split; [done|lia].
  - destruct (IH (verify_step pk st r)) as [-> ->]. cbn. rewrite <- app_assoc, len_cons.
    split; [done|lia].
Qed.

Lemma fold_errors_le pk rs st :
  sigErrors st <= sigErrors (foldl (verify_step pk) st rs).
Proof.
  revert st. induction rs as [|r rs IH]; intros st; cbn [foldl]; [lia|].
  specialize (IH (verify_step pk st r)). cbn [verify_step sigErrors] in IH.
  revert IH. repeat case_match; lia.
Qed.

Lemma fold_no_errors pk rs st :
  sigErrors st = 0 ->
  sigErrors (foldl (verify_step pk) st rs) = 0 <-> chain pk (prevSig st) rs.
Proof.
  revert st. induction rs as [|r rs IH]; intros st H0; cbn [foldl].
  { split; [constructor|done]. }
  destruct (decide (PrevSig r = prevSig st)) as [Hp|Hp];
    destruct (record_sig_ok pk r) eqn:Hs.
  - assert (He : sigErrors (verify_step pk st r) = 0).
    { cbn. rewrite decide_True by done. unfold record_sig_ok in Hs. by rewrite Hs, H0. }
    rewrite (IH _ He). split; [by constructor|]. by inversion 1.
  - split; [|inversion 1; congruence]. intros Hf.
    pose proof (fold_errors_le pk rs (verify_step pk st r)) as Hle. cbn in Hle.
    unfold record_sig_ok in Hs. rewrite Hs, decide_True, H0 in Hle by done. lia.
  - split; [|inversion 1; congruence]. intros Hf.
    pose proof (fold_errors_le pk rs (verify_step pk st r)) as Hle. cbn in Hle.
    rewrite decide_False in Hle by done. case_match; lia.
  - split; [|inversion 1; congruence]. intros Hf.
    pose proof (fold_errors_le pk rs (verify_step pk st r)) as Hle. cbn in Hle.
    rewrite decide_False in Hle by done. case_match; lia.
Qed.

Lemma report_valid h rs :
  Valid (report h rs) = true <->
  header_sig_ok h = true /\ chain (PubKey h) (HSignature h) rs.
Proof.
  unfold report, finish, header_sig_ok. cbn. rewrite Z.eqb_eq.
  destruct (verifyEd25519Sig _ _ _) eqn:Hh.
  - rewrite fold_no_errors by (cbn; by rewrite Hh). cbn. tauto.
  - split; [|by intros [? _]]. intros Hz.
    pose proof (fold_errors_le (PubKey h) rs (initial_state h)) as Hle.
    cbn in Hle. rewrite Hh in Hle. lia.
Qed.

Lemma report_fields h rs :
  Records (report h rs) = rs /\ TotalRecords (report h rs) = len rs /\
  VHeader (report h rs) = h /\ (Valid (report h rs) = true <-> SigErrors (report h rs) = 0).
Proof.
  destruct (fold_records (PubKey h) rs (initial_state h)) as [Hr Ht].
  unfold report, finish. cbn [Records TotalRecords VHeader Valid SigErrors].
  rewrite Hr, Ht, Z.eqb_eq. done.
Qed.

Lemma left_open_cons r rs s :
  left_open (r :: rs) s <->
  left_open rs s \/
  (Type_ r = RecordOpen /\ Signature r = s /\ Forall (fun r' => ~ closes s r') rs).
Proof.
  split.
  - intros ([|r1 rs1] & r0 & rs2 & [= -> ->] & Ht & Hs & Hf); [by right|left].
    by exists rs1, r0, rs2.
  - intros [(rs1 & r0 & rs2 & -> & ?)|?]; [by exists (r :: rs1), r0, rs2|by exists [], r, rs].
Qed.

Lemma step_open pk st r s :
  s ∈ openChannels (verify_step pk st r) <->
  (Type_ r = RecordOpen /\ Signature r = s) \/ (s ∈ openChannels st /\ ~ closes s r).
Proof.
  unfold verify_step, closes. cbn [openChannels].
  destruct (decide (Type_ r = RecordOpen)) as [Ht|Ht].
  - rewrite Ht. set_solver.
  - destruct (decide _) as [Hc|Hc]; [|naive_solver].
    destruct (OpenSig r) as [o|]; [|naive_solver].
    rewrite elem_of_difference, elem_of_singleton. naive_solver.
Qed.

Lemma fold_open pk rs st s :
  s ∈ openChannels (foldl (verify_step pk) st rs) <->
  left_open rs s \/ (s ∈ openChannels st /\ Forall (fun r => ~ closes s r) rs).
Proof.
  revert st. induction rs as [|r rs IH]; intros st; cbn [foldl].
  { split; [auto|]. intros [(rs1 & ? & ? & Hf & _)|[? _]]; [by destruct rs1|done]. }
  rewrite IH, step_open, left_open_cons, Forall_cons. tauto.
Qed.

Lemma Verify_ledger h meta rs :
  wf_ledger h meta rs -> Verify (ledger_bytes h meta rs) = Some (Ok (report h rs)).
Proof.
  intros [Hh Hrs]. unfold Verify, ledger_bytes. rewrite ReadHeader_encode by done.
  rewrite drop_encode_header, verify_loop_records; [done|done|].
  rewrite length_app. lia.
Qed.

Lemma Verify_parsed data :
  match Verify data with
  | None => False
  | Some (Err _) => True
  | Some (Ok res) =>
      exists h meta rs, wf_ledger h meta rs /\ data = ledger_bytes h meta rs /\ res = report h rs
  end.
Proof.
  unfold Verify. destruct (ReadHeader data) as [[h off]|] eqn:Hr; [|done].
  apply ReadHeader_parsed in Hr as (meta & Hwf & -> & Hd).
  pose proof (verify_loop_total h (drop (Z.to_nat (len (encode_header h meta))) data)
    (S (length data)) (initial_state h)) as Hl.
  destruct (verify_loop _ _ _ _) as [[st|]|]; [|done|].
  - destruct Hl as (rs & Hrs & He & ->);
      [apply Hwf|apply Hwf|rewrite length_drop; lia|].
    exists h, meta, rs. unfold ledger_bytes. by rewrite <- He.
  - apply Hl; [apply Hwf|apply Hwf|rewrite length_drop; lia].
Qed.

(** ** Equality of the signed fields *)

Definition signed_eq (r1 r2 : Rec) : Prop :=
  Type_ r1 = Type_ r2 /\ PrevSig r1 = PrevSig r2 /\ OpenSig r1 = OpenSig r2 /\
  PayloadSize r1 = PayloadSize r2 /\ HashBlock r1 = HashBlock r2 /\
  Signature r1 = Signature r2.

(** The signature the next record names: the last record's, or the header's. *)
Definition last_sig (prev : bytes) (rs : list Rec) : bytes :=
  default prev (Signature <$> last rs).

Lemma chain_snoc pk prev rs r :
  chain pk prev (rs ++ [r]) <->
  chain pk prev rs /\ PrevSig r = last_sig prev rs /\ record_sig_ok pk r = true.
Proof.
  revert prev. induction rs as [|r0 rs IH]; intros prev; cbn [app].
  - unfold last_sig. cbn. split; [inversion 1; subst; eauto using chain|].
    intros (_ & ? & ?). by repeat constructor.
  - assert (Hl : last_sig (Signature r0) rs = last_sig prev (r0 :: rs)).
    { unfold last_sig. rewrite last_cons. by destruct (last rs). }
    rewrite <- Hl. split.
    + inversion 1; subst. destruct (IH (Signature r0)) as [[? ?] _]; [done|].
      split; [by constructor|done].
    + intros [Hc ?]. inversion Hc; subst. constructor; [done..|]. by apply IH.
Qed.

Lemma sig_input_inj ss hs r1 r2 :
  wf_record ss hs r1 -> wf_record ss hs r2 ->
  buildRecordSigInput r1 = buildRecordSigInput r2 -> Signature r1 = Signature r2 ->
  signed_eq r1 r2.
Proof.
  intros H1 H2. rewrite (wf_record_inputs _ _ _ H1), (wf_record_inputs _ _ _ H2).
  destruct H1 as [Hp1 Ho1 Hs1 Hh1 _ _], H2 as [Hp2 Ho2 Hs2 Hh2 _ _].
  intros He Hs. apply (app_inj_1 [_] [_]) in He as [Ht He]; [|done]. injection Ht as Ht.
  apply app_inj_1 in He as [Hp He]; [|unfold len in *; lia].
  assert (Hlo : length (default [] (OpenSig r1)) = length (default [] (OpenSig r2))).
  { clear He. unfold len in *. destruct (OpenSig r1), (OpenSig r2); cbn [default from_option];
      unfold id; destruct_and?; solve [lia | congruence]. }
  apply app_inj_1 in He as [Ho He]; [|done].
  apply app_inj_1 in He as [Hz Hh]; [|by rewrite !length_be_encode].
  assert (Hsz : PayloadSize r1 = PayloadSize r2).
  { rewrite <- (payload_roundtrip _ Hs1), <- (payload_roundtrip _ Hs2). by rewrite Hz. }
  unfold signed_eq. split_and!; try done.
  - destruct (OpenSig r1), (OpenSig r2); cbn in Ho; unfold id in Ho; destruct_and?; congruence.
  - destruct (HashBlock r1), (HashBlock r2); cbn in Hh; unfold id in Hh; destruct_and?; congruence.
Qed.

(** Two records under one signature that verifies for both although they
    sign different bytes. *)
Definition forged (pk : bytes) (r1 r2 : Rec) : Prop :=
  Signature r1 = Signature r2 /\ buildRecordSigInput r1 <> buildRecordSigInput r2 /\
  record_sig_ok pk r1 = true /\ record_sig_ok pk r2 = true.

Lemma chain_binding pk ss hs rs1 rs2 p1 p2 :
  Forall (wf_record ss hs) rs1 -> Forall (wf_record ss hs) rs2 ->
  chain pk p1 rs1 -> chain pk p2 rs2 ->
  length rs1 = length rs2 -> last_sig p1 rs1 = last_sig p2 rs2 ->
  (Forall2 signed_eq rs1 rs2 /\ p1 = p2) \/
  exists i r1 r2, rs1 !! i = Some r1 /\ rs2 !! i = Some r2 /\ forged pk r1 r2.
Proof.
  revert rs2. induction rs1 as [|r1 rs1 IH] using rev_ind; intros rs2 Hw1 Hw2 Hc1 Hc2 Hl Hs.
  { destruct rs2; [|done]. left. by split. }
  destruct rs2 as [|r2 rs2 _] using rev_ind; [rewrite length_app in Hl; simpl in Hl; lia|].
  rewrite !length_app in Hl. unfold last_sig in Hs. rewrite !last_snoc in Hs. cbn in Hs.
  apply Forall_app in Hw1 as [Hw1 Hr1]. apply Forall_app in Hw2 as [Hw2 Hr2].
  apply Forall_inv in Hr1, Hr2.
  apply chain_snoc in Hc1 as (Hc1 & Hp1 & Hk1). apply chain_snoc in Hc2 as (Hc2 & Hp2 & Hk2).
  assert (Hlen : length rs1 = length rs2) by (simpl in Hl; lia).
  destruct (decide (buildRecordSigInput r1 = buildRecordSigInput r2)) as [Hi|Hi].
  - pose proof (sig_input_inj _ _ _ _ Hr1 Hr2 Hi Hs) as He.
    destruct (IH rs2) as [[Hf ->]|(i & a & b & Ha & Hb & ?)]; try done.
    + destruct He as (_ & He & _). congruence.
    + left. split; [|done]. by apply Forall2_app; [|constructor].
    + right. exists i, a, b. by rewrite !lookup_app, Ha, Hb.
  - right. exists (length rs1), r1, r2.
    rewrite Hlen at 2. by rewrite !list_lookup_middle.
Qed.

(** ** Truncation *)

(** Data cut inside a record parses as no record. *)
Lemma ReadRecord_cut ss hs r d :
  wf_record ss hs r -> 0 <= ss -> 0 <= hs ->
  d `prefix_of` encode_record r -> (length d < length (encode_record r))%nat ->
  is_ok (ReadRecord d ss hs) = false.
Proof.
  intros Hwf Hss Hhs [k Hk] Hl. destruct (ReadRecord d ss hs) as [[r' n]|] eqn:Hr; [|done].
  apply ReadRecord_parsed in Hr as (Hwf' & -> & Hd); [|done..].
  set (t := drop _ d) in Hd. clearbody t.
  pose proof (ReadRecord_encode ss hs r' (t ++ k) Hwf') as Hp'.
  pose proof (ReadRecord_encode ss hs r [] Hwf) as Hp. rewrite app_nil_r, Hk, Hd in Hp.
  rewrite <- app_assoc, Hp' in Hp. injection Hp as -> _.
  rewrite Hd, length_app in Hl. lia.
Qed.

Lemma encode_records_app rs1 rs2 :
  encode_records (rs1 ++ rs2) = encode_records rs1 ++ encode_records rs2.
Proof. unfold encode_records. by rewrite fmap_app, join_app. Qed.

Lemma length_encode_records rs : (length rs <= length (encode_records rs))%nat.
Proof.
  induction rs as [|r rs IH]; [done|].
  rewrite encode_records_cons, length_app. pose proof (encode_record_length r). simpl. lia.
Qed.

Lemma verify_loop_app h rs tl fuel st :
  Forall (wf_record (SigSize h) (HashBlockSize h)) rs ->
  verify_loop (length rs + fuel) h (encode_records rs ++ tl) st =
    verify_loop fuel h tl (foldl (verify_step (PubKey h)) st rs).
Proof.
  revert st. induction rs as [|r rs IH]; intros st Hwf; [done|].
  apply Forall_cons in Hwf as [Hr Hrs]. rewrite encode_records_cons, <- app_assoc.
  cbn [length Nat.add verify_loop foldl]. rewrite (ReadRecord_encode _ _ _ _ Hr).
  destruct (encode_record_nonempty r) as (b & l & Hb). rewrite Hb at 1. cbn [app].
  rewrite drop_encode_record. by apply IH.
Qed.

Lemma Verify_cut h meta rs r part :
  wf_ledger h meta rs -> wf_record (SigSize h) (HashBlockSize h) r ->
  part `prefix_of` encode_record r -> part <> [] ->
  (length part < length (encode_record r))%nat ->
  exists e, Verify (ledger_bytes h meta rs ++ part) =
              Some (Err (Wrap ("read record " ++ Itoa (len rs))%string e)).
Proof.
  intros [Hh Hrs] Hr Hp Hne Hl. unfold Verify, ledger_bytes. rewrite <- app_assoc.
  rewrite ReadHeader_encode, drop_encode_header by done.
  pose proof (length_encode_records rs) as Hn. rewrite !length_app.
  replace (S _) with (length rs + S (length (encode_header h meta) + length part +
    (length (encode_records rs) - length rs)))%nat by lia.
  rewrite verify_loop_app by done. cbn [verify_loop].
  destruct part as [|b part]; [done|].
  pose proof (ReadRecord_cut _ _ _ _ Hr ltac:(apply Hh) ltac:(apply Hh) Hp Hl) as Hcut.
  destruct (ReadRecord _ _ _) as [|e] eqn:He; [done|].
  apply ReadRecord_not_EOF in He; [|done]. rewrite He.
  destruct (fold_records (PubKey h) rs (initial_state h)) as [_ ->]. eauto.
Qed.

Lemma take_ledger_bytes h meta rs k n :
  (length (ledger_bytes h meta (take k rs)) <= n)%nat ->
  take n (ledger_bytes h meta rs) =
    ledger_bytes h meta (take k rs) ++
    take (n - length (ledger_bytes h meta (take k rs))) (encode_records (drop k rs)).
Proof.
  intros Hn. rewrite <- (take_drop k rs) at 1.
  unfold ledger_bytes in *. rewrite encode_records_app, app_assoc, take_app.
  by rewrite (take_ge (_ ++ _)).
Qed.

Lemma chain_take pk prev rs k : chain pk prev rs -> chain pk prev (take k rs).
Proof.
  intros Hc. revert k. induction Hc; intros [|k]; cbn; by constructor.
Qed.

(** ** The properties *)

(** C2.  [Verify] always returns, and it returns a report exactly on the
    byte strings that are a header followed by whole records; the report
    is then the one of that header and those records. *)
Theorem Verify_exact data :
  is_Some (Verify data) /\
  forall res, Verify data = Some (Ok res) <->
    exists h meta rs, wf_ledger h meta rs /\ data = ledger_bytes h meta rs /\
                      res = report h rs.
Proof.
  pose proof (Verify_parsed data) as Hp. split.
  - destruct (Verify data); [by eexists|done].
  - intros res. split; [intros Hv; by rewrite Hv in Hp|].
    intros (h & meta & rs & Hwf & -> & ->). by apply Verify_ledger.
Qed.

(** C3.  The report: every record is returned in order, the ledger is valid
    if and only if the header signature verifies and every record names the
    signature before it and verifies, and [Unclosed] counts exactly the
    channels whose open record no later close or artifact record names. *)
Theorem report_meaning h rs :
  Records (report h rs) = rs /\ TotalRecords (report h rs) = len rs /\
  VHeader (report h rs) = h /\
  (Valid (report h rs) = true <-> header_sig_ok h = true /\ chain (PubKey h) (HSignature h) rs) /\
  (Valid (report h rs) = true <-> SigErrors (report h rs) = 0) /\
  exists X : gset bytes,
    (forall s, s ∈ X <-> left_open rs s) /\ Unclosed (report h rs) = Z.of_nat (size X).
Proof.
  destruct (report_fields h rs) as (? & ? & ? & ?). split_and!; try done; [apply report_valid|].
  eexists. split; [|done]. intros s. rewrite fold_open. cbn. set_solver.
Qed.


(** Truncation.  Cut at the end of a record, a ledger still verifies
    and a valid one stays valid; cut inside record [k], [Verify] returns no
    report at all but the error "read record [k]". *)
Theorem Verify_truncated h meta rs k n :
  wf_ledger h meta rs -> (k <= length rs)%nat ->
  (n = length (ledger_bytes h meta (take k rs)) ->
   Verify (take n (ledger_bytes h meta rs)) = Some (Ok (report h (take k rs))) /\
   (Valid (report h rs) = true -> Valid (report h (take k rs)) = true)) /\
  ((length (ledger_bytes h meta (take k rs)) < n <
    length (ledger_bytes h meta (take (S k) rs)))%nat ->
   exists e, Verify (take n (ledger_bytes h meta rs)) =
               Some (Err (Wrap ("read record " ++ Itoa (Z.of_nat k))%string e))).
Proof.
  intros [Hh Hrs] Hk. assert (Hwk : wf_ledger h meta (take k rs)).
  { split; [done|]. by apply Forall_take. }
  split.
  - intros ->. rewrite (take_ledger_bytes h meta rs k) by lia.
    rewrite Nat.sub_diag, take_0, app_nil_r. split; [by apply Verify_ledger|].
    rewrite !report_valid. intros [? ?]. split; [done|]. by apply chain_take.
  - intros [Hlo Hhi]. rewrite (take_ledger_bytes h meta rs k) by lia.
    destruct (drop k rs) as [|r rs'] eqn:Hd.
    { rewrite !take_ge in Hhi, Hlo; [lia| |]; apply (f_equal length) in Hd;
        rewrite length_drop in Hd; simpl in Hd; lia. }
    assert (Hr : rs !! k = Some r).
    { rewrite <- (Nat.add_0_r k), <- lookup_drop, Hd. done. }
    rewrite (take_S_r _ _ _ Hr) in Hhi. unfold ledger_bytes in Hhi, Hlo.
    rewrite encode_records_app, !length_app in Hhi. rewrite length_app in Hlo.
    assert (He : length (encode_records [r]) = length (encode_record r)).
    { unfold encode_records. cbn. by rewrite app_nil_r. }
    rewrite He in Hhi. rewrite encode_records_cons. set (m := (n - _)%nat).
    assert (Hm : (0 < m < length (encode_record r))%nat).
    { unfold m, ledger_bytes. rewrite length_app. lia. }
    rewrite take_app_le by lia.
    replace (Z.of_nat k) with (len (take k rs)) by (unfold len; rewrite length_take; lia).
    apply (Verify_cut _ _ _ r); [done| | | |].
    + by eapply Forall_lookup_1.
    + apply prefix_take.
    + intros Hz. apply (f_equal length) in Hz. rewrite length_take in Hz. simpl in Hz. lia.
    + rewrite length_take. lia.
Qed.

(** What the signatures do not cover: changing the schema index and the
    metadata of any records, and the header's CBOR metadata, leaves the
    report's verdict unchanged. *)
Theorem metadata_unsigned h rs rs' m' :
  Forall2 signed_eq rs rs' ->
  let h' := mkHeader (Version h) (SigScheme h) (SigSize h) (HashBlockSize h) (PubKeyLen h)
              (PubKey h) (HSignature h) m' (PrefixBytes h) in
  Valid (report h' rs') = Valid (report h rs) /\ Unclosed (report h' rs') = Unclosed (report h rs).
Proof.
  intros Hf h'. unfold report, finish. cbn [Valid Unclosed PubKey h'].
  assert (Hst : forall st st', sigErrors st = sigErrors st' -> prevSig st = prevSig st' ->
    openChannels st = openChannels st' ->
    let a := foldl (verify_step (PubKey h)) st rs in
    let b := foldl (verify_step (PubKey h)) st' rs' in
    sigErrors b = sigErrors a /\ openChannels b = openChannels a).
  { induction Hf as [|r r' l l' (Ht & Hp & Ho & Hz & Hh & Hs) _ IH]; intros st st' E1 E2 E3;
      cbn [foldl]; [done|].
    apply IH; unfold verify_step; cbn [sigErrors prevSig openChannels].
    - unfold buildRecordSigInput. by rewrite E1, E2, Ht, Hp, Ho, Hz, Hh, Hs.
    - done.
    - by rewrite E3, Ht, Ho, Hs. }
  destruct (Hst (initial_state h) (initial_state h')) as [-> ->]; [done..|]. done.
Qed.
End Spec.
End LedgerSpec.
