(* ===== verification/Writer.v ===== *)
(** * The binary ledger writer (src/relay/ledger.go)

    [Writer] translates the header writer, the body of the serialization loop
    and the hashers.  [Channel] is the concurrent machine around it: callers
    enqueue on a channel of capacity 256, one goroutine consumes it, and
    [Finish] closes it, waits and zeroes the key. *)
From S2P Require Import Prelude Crypto Ledger LedgerVerify.

#[local] Open Scope Z_scope.

Module Writer.
Export Reader.

(** ** Hash functions

    A [hash.Hash] holds the bytes written to it; [Sum(block)] appends their
    digest to [block]. *)
Record Hash := mkHash { hsum : bytes -> bytes; hdata : bytes }.

Definition hash_write (h : Hash) (p : bytes) : Hash := mkHash (hsum h) (hdata h ++ p).
Definition hash_sum (h : Hash) (block : bytes) : bytes := block ++ hsum h (hdata h).

(** [None] is the panic on an unsupported name. *)
Definition hashOutputSize (name : string) : option Z :=
  if decide (name = "blake2b_256"%string) then Some 32
  else if decide (name = "sha256"%string) then Some 32
  else if decide (name = "sha1"%string) then Some 20
  else if decide (name = "md5"%string) then Some 16
  else None.

Section Hashing.
Context {HO : HashOps}.

Definition newHash (name : string) : option Hash :=
  if decide (name = "blake2b_256"%string) then Some (mkHash blake2b_256 [])
  else if decide (name = "sha256"%string) then Some (mkHash sha256 [])
  else if decide (name = "sha1"%string) then Some (mkHash sha1 [])
  else if decide (name = "md5"%string) then Some (mkHash md5 [])
  else None.

(** [ComputeHashBlock]'s loop over [l.hashes]. *)
Fixpoint ComputeHashBlock (hashes : list string) (data block : bytes) : option bytes :=
  match hashes with
  | [] => Some block
  | name :: names =>
      h ← newHash name;
      let h := hash_write h data in
      ComputeHashBlock names data (hash_sum h block)
  end.

Record StreamingHasher := mkStreamingHasher { sh_hashes : list Hash; sh_size : Z }.

Definition NewStreamingHasher (names : list string) : option StreamingHasher :=
  hs ← mapM newHash names; Some (mkStreamingHasher hs 0).

(** The count is an int64. *)
Definition sh_Write (s : StreamingHasher) (p : bytes) : StreamingHasher :=
  mkStreamingHasher ((fun h => hash_write h p) <$> sh_hashes s) (to_int64 (sh_size s + len p)).

Definition sh_Finish (s : StreamingHasher) : bytes * Z :=
  (foldl (fun block h => hash_sum h block) [] (sh_hashes s), sh_size s).

(** [hasherSet]: one goroutine per name copies a pipe into its hash and
    sends the hex digest when the pipe is closed; a synchronous pipe makes
    every write reach the hash before [write] returns. *)
Record hasherSet := mkHasherSet { hs_names : list string; hs_hashes : list Hash }.

Definition newHasherSet (names : list string) : option hasherSet :=
  hs ← mapM newHash names; Some (mkHasherSet names hs).

Definition hs_write (s : hasherSet) (p : bytes) : hasherSet :=
  mkHasherSet (hs_names s) ((fun h => hash_write h p) <$> hs_hashes s).

(** [hex.EncodeToString] *)
Definition hex_encode (b : bytes) : string := String.concat "" (hex2 <$> b).

Definition hs_sums (s : hasherSet) : gmap string string :=
  foldl (fun m '(name, h) => <[name := hex_encode (hash_sum h [])]> m) ∅
    (zip (hs_names s) (hs_hashes s)).
End Hashing.

Definition defaultHashes : list string := ["blake2b_256"; "sha256"; "sha1"; "md5"]%string.

Definition defaultSchemas : list string :=
  ["https://github.com/buildwarden/buildwarden/schemas/v1/http-open.json";
   "https://github.com/buildwarden/buildwarden/schemas/v1/http-headers.json";
   "https://github.com/buildwarden/buildwarden/schemas/v1/http-body.json";
   "https://github.com/buildwarden/buildwarden/schemas/v1/artifact.json";
   "https://github.com/buildwarden/buildwarden/schemas/v1/redacted.json";
   "https://github.com/buildwarden/buildwarden/schemas/v1/environment.json"]%string.

(** ** The ledger

    [nil] byte slices are empty lists here: the writer only appends them. *)
Record entryInput := mkEntry {
  eType : byte;
  eOpenSig : bytes;
  ePayloadSize : Z;
  eHashBlock : bytes;
  eSchemaIndex : byte;
  eMetadata : bytes }.

Record LedgerConfig (W : Type) := mkLedgerConfig {
  cWriter : W;
  cEnvironment : option (list (string * any));
  cHashes : option (list string);
  cSchemas : option (list string) }.
Arguments mkLedgerConfig {W}. Arguments cWriter {W}. Arguments cEnvironment {W}.
Arguments cHashes {W}. Arguments cSchemas {W}.

Record Ledger (W : Type) := mkLedger {
  key : bytes;
  pubKey : bytes;
  writer : W;
  seq : Z;
  hashes : list string;
  sigSize : Z;
  hashBlockSize : Z;
  prevSigRaw : bytes }.
Arguments mkLedger {W}. Arguments key {W}. Arguments pubKey {W}. Arguments writer {W}.
Arguments seq {W}. Arguments hashes {W}. Arguments sigSize {W}. Arguments hashBlockSize {W}.
Arguments prevSigRaw {W}.

Section Write.
Context {HO : HashOps} {EO : Ed25519Ops} {CO : CborOps}.
(** The [io.Writer]: its state and what [Write] does with it. *)
Context {W : Type} (Write : W -> bytes -> W * option error).

Definition sign (l : Ledger W) (input : bytes) : bytes := ed_sign (key l) (sha512 input).

Definition header_prefix (l : Ledger W) : bytes :=
  bytes_of "BLDL" ++ [Byte.x01] ++ bytes_of "ed25519-sha512" ++ [Byte.x00] ++
  be_encode 2 (wrap_u 16 (sigSize l)) ++ be_encode 2 (wrap_u 16 (hashBlockSize l)) ++
  be_encode 2 (wrap_u 16 (len (pubKey l))) ++ pubKey l.

Definition writeHeader (l : Ledger W) (meta : HeaderMeta) : result (Ledger W) := (
  let prefix := header_prefix l in
  let sig := sign l prefix in
  let? metaBytes := wrap_err "encode header metadata" (cbor_marshal_header meta) in
  let buf := prefix ++ sig ++ be_encode 4 (wrap_u 32 (len metaBytes)) ++ metaBytes in
  match Write (writer l) buf with
  | (_, Some e) => Err (Wrap "write header" e)
  | (w, None) => Ok (mkLedger (key l) (pubKey l) w (seq l) (hashes l) (sigSize l)
                       (hashBlockSize l) sig)
  end)%go.

(** [rand] is what [ed25519.GenerateKey(rand.Reader)] gets.  The type
    assertion on the public key cannot fail. *)
Definition NewLedger (rand : result bytes) (cfg : LedgerConfig W) :
    option (result (Ledger W)) :=
  let chashes := default defaultHashes (cHashes cfg) in
  let cschemas := default defaultSchemas (cSchemas cfg) in
  match rand with
  | Err e => Some (Err (Wrap "generate key" e))
  | Ok seed =>
      sizes ← mapM hashOutputSize chashes;
      let l := mkLedger (ed_keypair seed).2 (ed_keypair seed).1 (cWriter cfg) 0 chashes
                 SignatureSize (foldl Z.add 0 sizes) [] in
      Some (writeHeader l {| Hashes := chashes; Schemas := cschemas;
                             Environment := cEnvironment cfg |})
  end.

(** What the loop signs: [l.sigBuf]. *)
Definition entry_sig_input (prev : bytes) (e : entryInput) : bytes :=
  [eType e] ++ prev ++
  (if decide (eType e = RecordOpen) then [] else eOpenSig e) ++
  be_encode 8 (wrap_u 64 (ePayloadSize e)) ++
  (if ePayloadSize e =? 0 then [] else eHashBlock e).

(** The record it writes. *)
Definition entry_bytes (prev sig : bytes) (e : entryInput) : bytes :=
  [eType e] ++ prev ++
  (if decide (eType e = RecordOpen) then [] else eOpenSig e) ++
  be_encode 8 (wrap_u 64 (ePayloadSize e)) ++
  (if ePayloadSize e =? 0 then [] else eHashBlock e) ++
  sig ++ [eSchemaIndex e] ++
  (if decide (eSchemaIndex e = SchemaNoMetadata) then []
   else be_encode 4 (wrap_u 32 (len (eMetadata e))) ++ eMetadata e).

(** One iteration of [loop]; a write error is only logged.  Returns the
    record's signature, which goes to the request's result channel. *)
Definition loop_body (l : Ledger W) (e : entryInput) : Ledger W * bytes :=
  let sig := sign l (entry_sig_input (prevSigRaw l) e) in
  let rec := entry_bytes (prevSigRaw l) sig e in
  let w := (Write (writer l) rec).1 in
  (mkLedger (key l) (pubKey l) w (to_int64 (seq l + 1)) (hashes l) (sigSize l)
     (hashBlockSize l) sig, sig).

Definition write_all (l : Ledger W) (es : list entryInput) : Ledger W :=
  foldl (fun l e => (loop_body l e).1) l es.

(** [for i := range l.key { l.key[i] = 0 }] *)
Definition zero_key (l : Ledger W) : Ledger W :=
  mkLedger (replicate (length (key l)) Byte.x00) (pubKey l) (writer l) (seq l) (hashes l)
    (sigSize l) (hashBlockSize l) (prevSigRaw l).

Definition PublicKey (l : Ledger W) : bytes := pubKey l.
End Write.

(** An [io.Writer] that keeps what it is given, like [bytes.Buffer]. *)
Definition buffer_write (w b : bytes) : bytes * option error := (w ++ b, None).
End Writer.

(** ** What the writer writes *)
Module WriterSpec.
Import Writer Format LedgerSpec.

(** The entries the program's callers make: an open record has no payload;
    the others name an open record's signature and carry a hash block when
    they have a payload. *)
Record wf_entry (hs : Z) (e : entryInput) : Prop := {
  we_open : eType e = RecordOpen \/ len (eOpenSig e) = SignatureSize;
  we_size : int64_ok (ePayloadSize e);
  we_hash : ePayloadSize e = 0 \/ len (eHashBlock e) = hs;
  we_meta : eSchemaIndex e = SchemaNoMetadata \/ len (eMetadata e) < 2 ^ 32 }.

(** The record an entry becomes, after the signature [prev]. *)
Definition entry_record (prev sig : bytes) (e : entryInput) : Rec :=
  mkRec (eType e) prev
    (if decide (eType e = RecordOpen) then None else Some (eOpenSig e))
    (ePayloadSize e)
    (if ePayloadSize e =? 0 then None else Some (eHashBlock e))
    sig (eSchemaIndex e)
    (if decide (eSchemaIndex e = SchemaNoMetadata) then None else Some (eMetadata e)).

Section Entries.
Context {HO : HashOps} {EO : Ed25519Ops} {EL : Ed25519Laws} {CO : CborOps}.

Lemma entry_record_input prev sig e :
  buildRecordSigInput (entry_record prev sig e) = entry_sig_input prev e.
Proof.
  unfold buildRecordSigInput, entry_sig_input, entry_record. cbn.
  by repeat case_match.
Qed.

Lemma entry_record_bytes hs prev sig e :
  wf_entry hs e -> encode_record (entry_record prev sig e) = entry_bytes prev sig e.
Proof.
  intros []. unfold encode_record. rewrite entry_record_input.
  unfold entry_sig_input, entry_bytes, encode_meta. cbn [entry_record Signature SchemaIndex Metadata].
  rewrite <- !app_assoc. do 6 f_equal. cbn [app]. f_equal.
  destruct (decide _); [done|]. unfold wrap_u. rewrite Z.mod_small; [done|].
  pose proof (len_nonneg (eMetadata e)). naive_solver lia.
Qed.

Lemma entry_record_wf hs prev sig e :
  wf_entry hs e -> len prev = SignatureSize -> len sig = SignatureSize ->
  wf_record SignatureSize hs (entry_record prev sig e).
Proof.
  intros [] Hp Hs. split; cbn; try done.
  - destruct (decide _); naive_solver.
  - destruct (Z.eqb_spec (ePayloadSize e) 0); naive_solver.
  - destruct (decide _); naive_solver.
Qed.

(** The records of a run of the loop, each after the signature of the one
    before. *)
Fixpoint entry_records (k : bytes) (prev : bytes) (es : list entryInput) : list Rec :=
  match es with
  | [] => []
  | e :: es' =>
      let sig := ed_sign k (sha512 (entry_sig_input prev e)) in
      entry_record prev sig e :: entry_records k sig es'
  end.

Lemma length_entry_records k prev es : length (entry_records k prev es) = length es.
Proof. revert prev. induction es; intros; cbn; [done|]. by rewrite IHes. Qed.

Lemma entry_records_entries k prev es :
  Forall2 (fun e r => exists prev sig, r = entry_record prev sig e) es (entry_records k prev es).
Proof. revert prev. induction es; intros; constructor; eauto. Qed.

Lemma entry_records_wf hs k prev es :
  Forall (wf_entry hs) es -> len prev = SignatureSize ->
  Forall (wf_record SignatureSize hs) (entry_records k prev es).
Proof using EL.
  intros Hwf. revert prev. induction Hwf as [|e es He Hes IH]; intros prev Hp; [constructor|].
  cbn. constructor; [apply entry_record_wf|apply IH]; try apply ed_sign_len; done.
Qed.

Lemma entry_records_chain seed prev es :
  chain (ed_keypair seed).1 prev (entry_records (ed_keypair seed).2 prev es).
Proof using EL.
  revert prev. induction es as [|e es IH]; intros prev; cbn; constructor; [done| |apply IH].
  unfold record_sig_ok, verifyEd25519Sig. rewrite entry_record_input, ed_public_len. cbn.
  apply ed_verify_sign.
Qed.

Lemma write_all_app (l : Ledger bytes) es es' :
  write_all buffer_write l (es ++ es') = write_all buffer_write (write_all buffer_write l es) es'.
Proof. apply foldl_app. Qed.

Lemma write_all_records l es hs :
  Forall (wf_entry hs) es ->
  let l' := write_all buffer_write l es in
  writer l' = writer l ++ encode_records (entry_records (key l) (prevSigRaw l) es) /\
  key l' = key l /\ pubKey l' = pubKey l /\ hashBlockSize l' = hashBlockSize l /\
  prevSigRaw l' = last_sig (prevSigRaw l) (entry_records (key l) (prevSigRaw l) es).
Proof.
  intros Hwf. revert l. induction Hwf as [|e es He Hes IH]; intros l; cbn [write_all foldl].
  { cbn. by rewrite app_nil_r. }
  destruct (IH (loop_body buffer_write l e).1) as (Hw & Hk & Hp & Hh & Hs).
  unfold write_all in *.
  cbn [loop_body fst key pubKey writer hashBlockSize prevSigRaw entry_records] in *.
  rewrite Hw, Hk, Hp, Hh, Hs.
  rewrite encode_records_cons, (entry_record_bytes hs) by done. split_and!; try done.
  { unfold buffer_write. cbn [fst]. by rewrite <- app_assoc. }
  unfold last_sig. rewrite last_cons. by destruct (last _).
Qed.

(** What a fresh ledger is. *)
Record fresh (seed : bytes) (meta : HeaderMeta) (mb : bytes) (l : Ledger bytes) : Prop := {
  fr_key : key l = (ed_keypair seed).2;
  fr_pub : pubKey l = (ed_keypair seed).1;
  fr_size : hashBlockSize l = foldl Z.add 0 (omap hashOutputSize (Hashes meta));
  fr_hashes : hashes l = Hashes meta;
  fr_sig : prevSigRaw l = sign l (header_prefix l);
  fr_writer : writer l = header_prefix l ++ prevSigRaw l ++ be_encode 4 (wrap_u 32 (len mb)) ++ mb }.

Lemma mapM_omap {A B} (f : A -> option B) l k : mapM f l = Some k -> omap f l = k.
Proof.
  intros Hk. apply mapM_Some_1 in Hk. induction Hk as [|a b l k Ha _ IH]; [done|].
  cbn. by rewrite Ha, IH.
Qed.

Definition header_meta {W} (cfg : LedgerConfig W) : HeaderMeta :=
  {| Hashes := default defaultHashes (cHashes cfg);
     Schemas := default defaultSchemas (cSchemas cfg); Environment := cEnvironment cfg |}.

Lemma NewLedger_fresh seed cfg l :
  NewLedger buffer_write (Ok seed) cfg = Some (Ok l) -> cWriter cfg = [] ->
  exists mb, cbor_marshal_header (header_meta cfg) = Ok mb /\
             fresh seed (header_meta cfg) mb l /\ sigSize l = SignatureSize /\ seq l = 0.
Proof.
  intros Hn Hw. unfold NewLedger in Hn.
  apply bind_Some in Hn as (sizes & Hs & [= Hn]). apply mapM_omap in Hs.
  unfold writeHeader in Hn. fold (header_meta cfg) in Hn.
  destruct (cbor_marshal_header _) as [mb|]; [|done]. cbn in Hn. injection Hn as <-.
  exists mb. split; [done|]. split; [|done]. split; cbn; try done.
  - by rewrite Hs.
  - rewrite Hw. by cbn [app].
Qed.

Lemma encode_prefix_header l meta sig :
  len (pubKey l) = PublicKeySize -> sigSize l = SignatureSize ->
  0 <= hashBlockSize l < 2 ^ 16 ->
  let h := mkHeader Byte.x01 "ed25519-sha512" SignatureSize (hashBlockSize l) PublicKeySize
             (pubKey l) sig meta (header_prefix (W:=bytes) l) in
  encode_prefix h = header_prefix l.
Proof using EL.
  intros Hl Hs Hh h. unfold encode_prefix, header_prefix. cbn. rewrite Hl, Hs.
  unfold wrap_u. by rewrite (Z.mod_small (hashBlockSize l)).
Qed.

(** The header a reader sees in a ledger made from [l]. *)
Definition read_header (meta : HeaderMeta) (l : Ledger bytes) : Header :=
  mkHeader Byte.x01 "ed25519-sha512" SignatureSize (hashBlockSize l) PublicKeySize
    (pubKey l) (prevSigRaw l) meta (header_prefix l).

Lemma fresh_header seed meta mb l :
  fresh seed meta mb l -> sigSize l = SignatureSize -> 0 <= hashBlockSize l < 2 ^ 16 ->
  cbor_unmarshal_header mb = Ok meta -> len mb < 2 ^ 32 ->
  wf_header (read_header meta l) mb /\ writer l = encode_header (read_header meta l) mb /\
  header_sig_ok (read_header meta l) = true.
Proof using EL.
  intros [Hk Hp Hz _ Hs Hw] Hss Hh Hm Hlen.
  assert (Hl : len (pubKey l) = PublicKeySize) by (rewrite Hp; apply ed_public_len).
  assert (Hsl : len (prevSigRaw l) = SignatureSize) by (rewrite Hs; apply ed_sign_len).
  assert (Hpre : encode_prefix (read_header meta l) = header_prefix l) by
    by apply encode_prefix_header.
  split_and!.
  - split; cbn; try done.
    vm_compute. intros Hin. repeat (apply elem_of_cons in Hin as [Hin|Hin]; [discriminate|]).
    by apply elem_of_nil in Hin.
  - rewrite Hw. unfold encode_header. rewrite Hpre. unfold wrap_u.
    rewrite Z.mod_small; [done|]. pose proof (len_nonneg mb). lia.
  - unfold header_sig_ok, verifyEd25519Sig. cbn. rewrite Hl. cbn. rewrite Hs. unfold sign.
    rewrite Hk, Hp. apply ed_verify_sign.
Qed.

(** A ledger with entries written to it is its header followed by their
    records, and reports valid. *)
Lemma written_report seed cfg l mb es :
  NewLedger buffer_write (Ok seed) cfg = Some (Ok l) -> cWriter cfg = [] ->
  cbor_marshal_header (header_meta cfg) = Ok mb ->
  cbor_unmarshal_header mb = Ok (header_meta cfg) -> len mb < 2 ^ 32 ->
  0 <= hashBlockSize l < 2 ^ 16 -> Forall (wf_entry (hashBlockSize l)) es ->
  let h := read_header (header_meta cfg) l in
  let rs := entry_records (key l) (prevSigRaw l) es in
  Verify (writer (write_all buffer_write l es)) = Some (Ok (report h rs)) /\
  Valid (report h rs) = true /\
  Forall2 (fun e r => exists prev sig, r = entry_record prev sig e) es rs.
Proof using EL.
  intros Hn Hw Hmb Hum Hml Hh Hes h rs.
  destruct (NewLedger_fresh _ _ _ Hn Hw) as (mb' & Hmb' & Hfr & Hss & _).
  assert (mb' = mb) as -> by congruence.
  destruct (fresh_header _ _ _ _ Hfr Hss Hh Hum Hml) as (Hwf & Hwr & Hsig).
  destruct (write_all_records l es _ Hes) as (Hb & _).
  assert (Hl : len (prevSigRaw l) = SignatureSize).
  { rewrite (fr_sig _ _ _ _ Hfr). apply ed_sign_len. }
  split_and!; [| |apply entry_records_entries].
  - rewrite Hb, Hwr. apply (Verify_ledger _ mb). split; [done|]. by apply entry_records_wf.
  - apply report_valid. split; [done|]. cbn. rewrite (fr_pub _ _ _ _ Hfr).
    unfold rs. rewrite (fr_key _ _ _ _ Hfr). apply entry_records_chain.
Qed.

(** C5.  A finished ledger verifies: whatever entries are written to a new
    ledger, [Verify] reads the buffer back as a valid ledger without
    signature errors, whose records are the entries in order, each with
    its own type, sizes, hash block, schema and metadata, and which names
    the ledger's public key. *)
Theorem written_ledger_verifies seed cfg l mb es :
  NewLedger buffer_write (Ok seed) cfg = Some (Ok l) -> cWriter cfg = [] ->
  cbor_marshal_header (header_meta cfg) = Ok mb ->
  cbor_unmarshal_header mb = Ok (header_meta cfg) -> len mb < 2 ^ 32 ->
  0 <= hashBlockSize l < 2 ^ 16 -> Forall (wf_entry (hashBlockSize l)) es ->
  exists res, Verify (writer (write_all buffer_write l es)) = Some (Ok res) /\
    Valid res = true /\ SigErrors res = 0 /\ TotalRecords res = len es /\
    PubKey (VHeader res) = PublicKey l /\ Meta (VHeader res) = header_meta cfg /\
    Forall2 (fun e r => exists prev sig, r = entry_record prev sig e) es (Records res).
Proof using EL.
  intros Hn Hw Hmb Hum Hml Hh Hes.
  destruct (written_report seed cfg l mb es Hn Hw Hmb Hum Hml Hh Hes) as (Hv & Hok & Hrs).
  destruct (report_fields (read_header (header_meta cfg) l) (entry_records (key l) (prevSigRaw l) es))
    as (Hrec & Htot & Hvh & Hve).
  eexists. split; [exact Hv|]. rewrite Hrec, Htot, Hvh. split_and!; try done.
  - by apply Hve.
  - unfold len. by rewrite length_entry_records.
Qed.
End Entries.

Section Hashes.
Context {HO : HashOps} {HL : HashLaws}.

Lemma newHash_size name :
  match newHash name with
  | None => hashOutputSize name = None
  | Some h => hdata h = [] /\ exists n, hashOutputSize name = Some n /\
              forall b, len (hsum h b) = n
  end.
Proof using HL.
  unfold newHash, hashOutputSize. repeat case_decide; simpl; try done;
    (split; [done|]; eexists; split; [done|]; intros; by autorewrite with golen).
Qed.

(** The writes of a hasher accumulate. *)
Lemma sh_writes hs n chunks :
  foldl sh_Write (mkStreamingHasher hs (to_int64 n)) chunks =
  mkStreamingHasher ((fun h => hash_write h (mjoin chunks)) <$> hs)
    (to_int64 (n + len (mjoin chunks))).
Proof.
  revert hs n. induction chunks as [|c cs IH]; intros hs n; cbn [foldl].
  - cbn [mjoin list_join]. rewrite len_nil, Z.add_0_r. f_equal.
    rewrite <- (list_fmap_id hs) at 1. apply list_fmap_ext. intros i [f d] _.
    unfold hash_write. cbn. by rewrite app_nil_r.
  - unfold sh_Write at 2. cbn [sh_hashes sh_size]. rewrite to_int64_add, IH, <- list_fmap_compose.
    cbn [mjoin list_join]. rewrite len_app, Z.add_assoc. f_equal.
    apply list_fmap_ext. intros i [f d] _. unfold hash_write. cbn. by rewrite <- app_assoc.
Qed.

Lemma ComputeHashBlock_hashes names data block :
  ComputeHashBlock names data block =
    (fun hs => foldl (fun b h => hash_sum h b) block ((fun h => hash_write h data) <$> hs))
      <$> mapM newHash names.
Proof.
  revert block. induction names as [|n ns IH]; intros block; [done|].
  cbn. destruct (newHash n) as [h|]; [|done]. cbn. rewrite IH. by destruct (mapM _ ns).
Qed.

Lemma sum_hashes_len names hs data block :
  mapM newHash names = Some hs ->
  len (foldl (fun b h => hash_sum h b) block ((fun h => hash_write h data) <$> hs)) =
    foldl Z.add (len block) (omap hashOutputSize names).
Proof using HL.
  intros Hm. apply mapM_Some_1 in Hm. revert block.
  induction Hm as [|n h ns hs Hn _ IH]; intros block; [done|]. cbn [fmap list_fmap foldl].
  pose proof (newHash_size n) as Hs. rewrite Hn in Hs. destruct Hs as (_ & k & Hk & Hlen).
  cbn. rewrite Hk. cbn. rewrite IH. f_equal. unfold hash_sum. rewrite len_app. cbn. by rewrite Hlen.
Qed.

(** A hasher for [names] after any writes. *)
Lemma streamed names s chunks :
  NewStreamingHasher names = Some s ->
  exists block, sh_Finish (foldl sh_Write s chunks) = (block, to_int64 (len (mjoin chunks))) /\
    ComputeHashBlock names (mjoin chunks) [] = Some block /\
    len block = foldl Z.add 0 (omap hashOutputSize names).
Proof using HL.
  unfold NewStreamingHasher. rewrite ComputeHashBlock_hashes.
  destruct (mapM newHash names) as [hs|] eqn:Hm; [|done]. intros [= <-].
  change (mkStreamingHasher hs 0) with (mkStreamingHasher hs (to_int64 0)).
  rewrite sh_writes. eexists. split; [done|]. split; [done|]. cbn [sh_hashes].
  by rewrite (sum_hashes_len names).
Qed.

(** Streaming a payload in any chunks gives the hash block of the
    whole payload ([ComputeHashBlock]), of exactly the size the header
    announces, and the number of bytes written; it panics exactly when
    [ComputeHashBlock] does, on an unsupported hash name. *)
Theorem streaming_hash_block names chunks :
  match NewStreamingHasher names with
  | None => ComputeHashBlock names (mjoin chunks) [] = None /\
            exists n, n ∈ names /\ hashOutputSize n = None
  | Some s =>
      let '(block, size) := sh_Finish (foldl sh_Write s chunks) in
      ComputeHashBlock names (mjoin chunks) [] = Some block /\
      len block = foldl Z.add 0 (omap hashOutputSize names) /\
      size = to_int64 (len (mjoin chunks))
  end.
Proof using HL.
  destruct (NewStreamingHasher names) as [s|] eqn:Hn.
  - destruct (streamed names s chunks Hn) as (block & -> & ? & ?). done.
  - unfold NewStreamingHasher in Hn. rewrite ComputeHashBlock_hashes.
    destruct (mapM newHash names) eqn:Hm; [done|]. split; [done|].
    apply mapM_None, Exists_exists in Hm as (n & Hin & Hs).
    exists n. split; [done|]. pose proof (newHash_size n) as Hz. by rewrite Hs in Hz.
Qed.
End Hashes.
End WriterSpec.

(** ** The ledger's goroutines

    Callers send requests on the channel [entries]; [loop] receives them one at
    a time; [Finish] closes the channel, waits for [done] and zeroes the key. *)
Module Channel.
Import Writer Format LedgerSpec WriterSpec.

(** The capacity of [l.entries]. *)
Definition capacity : nat := 256.

(** [result] names the reply channel [Open] makes; the other calls pass
    none. *)
Record entryRequest := mkRequest { entry : entryInput; result : option nat }.

Definition OpenReq (ch : nat) (schemaIndex : byte) (metadata : bytes) : entryRequest :=
  mkRequest (mkEntry RecordOpen [] 0 [] schemaIndex metadata) (Some ch).
Definition Checkpoint openSig payloadSize hashBlock schemaIndex metadata : entryRequest :=
  mkRequest (mkEntry RecordCheckpoint openSig payloadSize hashBlock schemaIndex metadata) None.
Definition Close openSig payloadSize hashBlock schemaIndex metadata : entryRequest :=
  mkRequest (mkEntry RecordClose openSig payloadSize hashBlock schemaIndex metadata) None.
Definition Artifact openSig payloadSize hashBlock schemaIndex metadata : entryRequest :=
  mkRequest (mkEntry RecordArtifact openSig payloadSize hashBlock schemaIndex metadata) None.

(** What runs: the ledger, its two channels, and the replies sent. *)
Record sys := mkSys {
  led : Ledger bytes;
  entries : list entryRequest;
  closed : bool;
  done : bool;
  zeroed : bool;
  replies : list (nat * bytes) }.

Inductive event :=
  | Enqueue (r : entryRequest)   (* a caller's [l.entries <- r] *)
  | Consume                      (* the loop receives and writes one entry *)
  | LoopExit                     (* [range] ends, [close(l.done)] *)
  | CloseEntries                 (* [Finish]: [close(l.entries)] *)
  | AwaitDone.                   (* [Finish]: [<-l.done], then zero the key *)

Inductive outcome :=
  | Runs (s : sys)
  | Blocks
  | Panics (why : string).

#[local] Arguments loop_body : simpl never.

Section Machine.
Context {HO : HashOps} {EO : Ed25519Ops}.

Definition step (s : sys) (ev : event) : outcome :=
  match ev with
  | Enqueue r =>
      if closed s then Panics "send on closed channel"
      else if decide (capacity <= length (entries s))%nat then Blocks
      else Runs (mkSys (led s) (entries s ++ [r]) (closed s) (done s) (zeroed s) (replies s))
  | Consume =>
      match entries s with
      | [] => Blocks
      | r :: rest =>
          if done s then Blocks else
          let '(l, sig) := loop_body buffer_write (led s) (entry r) in
          Runs (mkSys l rest (closed s) (done s) (zeroed s)
                  (match result r with Some ch => replies s ++ [(ch, sig)] | None => replies s end))
      end
  | LoopExit =>
      match entries s with
      | _ :: _ => Blocks
      | [] => if closed s && negb (done s)
              then Runs (mkSys (led s) [] true true (zeroed s) (replies s))
              else Blocks
      end
  | CloseEntries =>
      if closed s then Panics "close of closed channel"
      else Runs (mkSys (led s) (entries s) true (done s) (zeroed s) (replies s))
  | AwaitDone =>
      if done s then Runs (mkSys (zero_key (led s)) (entries s) (closed s) true true (replies s))
      else Blocks
  end.

Fixpoint run (s : sys) (evs : list event) : outcome :=
  match evs with
  | [] => Runs s
  | ev :: evs' => match step s ev with Runs s' => run s' evs' | o => o end
  end.

(** What callers have enqueued, in the order the channel took it. *)
Definition enqueued (evs : list event) : list entryRequest :=
  omap (fun ev => match ev with Enqueue r => Some r | _ => None end) evs.

Definition start (l : Ledger bytes) : sys := mkSys l [] false false false [].

(** The replies of a run of the loop over [rs] from ledger [l]. *)
Fixpoint reply_list (l : Ledger bytes) (rs : list entryRequest) : list (nat * bytes) :=
  match rs with
  | [] => []
  | r :: rs' =>
      let '(l', sig) := loop_body buffer_write l (entry r) in
      match result r with Some ch => (ch, sig) :: reply_list l' rs' | None => reply_list l' rs' end
  end.

(** The machine's state refines the sequential writer that has taken
    [taken] out of [sent]. *)
Record refines (l0 : Ledger bytes) (sent : list entryRequest) (s : sys) : Prop := {
  rf_led : exists taken, sent = taken ++ entries s /\
           (if zeroed s then led s = zero_key (write_all buffer_write l0 (entry <$> taken))
            else led s = write_all buffer_write l0 (entry <$> taken)) /\
           replies s = reply_list l0 taken;
  rf_cap : (length (entries s) <= capacity)%nat;
  rf_done : done s = true -> closed s = true /\ entries s = [];
  rf_zeroed : zeroed s = true -> done s = true }.

Lemma write_all_snoc l es e :
  write_all buffer_write l (es ++ [e]) = (loop_body buffer_write (write_all buffer_write l es) e).1.
Proof. unfold write_all. by rewrite foldl_app. Qed.

Lemma reply_list_snoc l rs r :
  reply_list l (rs ++ [r]) = reply_list l rs ++
    match result r with
    | Some ch => [(ch, (loop_body buffer_write (write_all buffer_write l (entry <$> rs)) (entry r)).2)]
    | None => []
    end.
Proof.
  revert l. induction rs as [|r0 rs IH]; intros l; [by cbn; destruct (result r)|].
  cbn [reply_list app]. destruct (loop_body buffer_write l (entry r0)) as [l' sg] eqn:E.
  cbn [fmap list_fmap write_all foldl]. rewrite E. cbn [fst].
  rewrite IH. by destruct (result r0).
Qed.

Lemma step_refines l0 sent s ev s' :
  refines l0 sent s -> step s ev = Runs s' -> refines l0 (sent ++ enqueued [ev]) s'.
Proof.
  intros [(taken & Hsent & Hl & Hr) Hc Hd Hz] Hs. destruct ev as [r| | | |]; cbn in Hs |- *.
  - destruct (closed s) eqn:Ecl; [discriminate|]. case_decide; [discriminate|]. injection Hs as <-.
    split; cbn; try done.
    + exists taken. rewrite Hsent, <- app_assoc. done.
    + rewrite length_app. cbn. lia.
    + intros Hdn. by destruct (Hd Hdn).
  - destruct (entries s) as [|r rest] eqn:Een; [discriminate|].
    destruct (done s) eqn:Edn; [discriminate|].
    destruct (zeroed s) eqn:Ez; [by discriminate Hz|].
    destruct (loop_body _ _ _) as [l sg] eqn:Elb. injection Hs as <-.
    rewrite app_nil_r. split; cbn in *; try done; [|lia].
    exists (taken ++ [r]). rewrite Hsent, fmap_app. change (entry <$> [r]) with [entry r].
    rewrite write_all_snoc, reply_list_snoc, <- Hl, Elb, <- Hr. cbn.
    rewrite <- app_assoc. split_and!; try done.
    destruct (result r); [done|by rewrite app_nil_r].
  - destruct (entries s) as [|] eqn:Een; [|discriminate].
    destruct (closed s && _) eqn:E; [|discriminate]. injection Hs as <-.
    rewrite app_nil_r. split; cbn; try done. by exists taken.
  - destruct (closed s) eqn:Ecl; [discriminate|]. injection Hs as <-. rewrite app_nil_r.
    split; cbn; try done; [by exists taken|]. intros Hdn. by destruct (Hd Hdn).
  - destruct (done s) eqn:Edn; [|discriminate]. injection Hs as <-. rewrite app_nil_r.
    split; cbn; try done. exists taken. split_and!; try done.
    destruct (zeroed s) eqn:Ez; rewrite Hl; [|done].
    unfold zero_key. cbn. by rewrite length_replicate.
Qed.

Lemma run_refines l0 sent s evs s' :
  refines l0 sent s -> run s evs = Runs s' -> refines l0 (sent ++ enqueued evs) s'.
Proof.
  revert sent s. induction evs as [|ev evs IH]; intros sent s Hr Hs; cbn in Hs.
  - injection Hs as <-. cbn. by rewrite app_nil_r.
  - destruct (step s ev) as [s1| |] eqn:E; try discriminate.
    replace (enqueued (ev :: evs)) with (enqueued [ev] ++ enqueued evs) by (by destruct ev).
    rewrite app_assoc. eapply IH; [|done]. by eapply step_refines.
Qed.

Lemma start_refines l0 : refines l0 [] (start l0).
Proof. split; cbn; try done; [by exists []|unfold capacity; lia]. Qed.

Lemma start_reaches l0 evs s :
  run (start l0) evs = Runs s -> refines l0 (enqueued evs) s.
Proof. intros Hr. apply (run_refines l0 [] (start l0)); [apply start_refines|done]. Qed.

Lemma run_app s evs evs' :
  run s (evs ++ evs') = match run s evs with Runs s' => run s' evs' | o => o end.
Proof. revert s. induction evs; intros s; cbn; [done|]. by destruct (step s _). Qed.

(** ** Draining *)

Lemma drain_runs s :
  closed s = true -> done s = false ->
  exists s', run s (replicate (length (entries s)) Consume ++ [LoopExit]) = Runs s' /\
             done s' = true.
Proof.
  destruct s as [l en cl dn z rep]. cbn. intros -> ->. revert l rep.
  induction en as [|r en IH]; intros l rep; cbn [length replicate app run].
  - cbn. eauto.
  - cbn [step entries done]. destruct (loop_body _ _ _) as [l' sg]. apply IH.
Qed.

(** C6.  Every interleaving of callers, loop and [Finish] refines the
    sequential writer: the bytes written are those of the entries received
    so far, which are the enqueued ones in order up to the queue; each
    [Open] is answered with its own record's signature; the key is zeroed
    only after the loop has ended with an empty queue.  A caller blocks
    only while the loop can run, and after [Finish] has closed the channel
    a further call panics while the loop writes out all that was enqueued
    and terminates. *)
Theorem ledger_schedules l evs s :
  run (start l) evs = Runs s ->
  (exists taken, enqueued evs = taken ++ entries s /\
     writer (led s) = writer (write_all buffer_write l (entry <$> taken)) /\
     (zeroed s = false -> led s = write_all buffer_write l (entry <$> taken)) /\
     replies s = reply_list l taken) /\
  (zeroed s = true -> done s = true) /\ (done s = true -> entries s = []) /\
  (forall r, step s (Enqueue r) = Blocks -> exists s', step s Consume = Runs s') /\
  (closed s = true -> done s = false ->
     (forall r, step s (Enqueue r) = Panics "send on closed channel") /\
     exists s', run s (replicate (length (entries s)) Consume ++ [LoopExit; AwaitDone]) = Runs s' /\
                writer (led s') = writer (write_all buffer_write l (entry <$> enqueued evs)) /\
                key (led s') = replicate (length (key (led s'))) Byte.x00).
Proof.
  intros Hr. pose proof (start_reaches _ _ _ Hr) as [(taken & Hs & Hl & Hrep) Hcap Hdn Hz].
  split_and!.
  - exists taken. split_and!; try done.
    + destruct (zeroed s); by rewrite Hl.
    + intros Hzf. by rewrite Hzf in Hl.
  - done.
  - intros Hd. by apply Hdn.
  - intros r Hb. cbn in Hb |- *. destruct (closed s) eqn:Ecl; [discriminate|].
    destruct (entries s) as [|r0 en] eqn:Een.
    { case_decide as Hcp; [unfold capacity in Hcp; cbn in Hcp; lia|done]. }
    destruct (done s) eqn:Ed; [by destruct Hdn|].
    destruct (loop_body _ _ _) as [l' sg]. eauto.
  - intros Hc Hd. split; [intros r; cbn; by rewrite Hc|].
    destruct (drain_runs s Hc Hd) as (s1 & Hs1 & Hd1).
    pose proof Hs1 as Hr1. apply (run_refines l _ _ _ _ (start_reaches _ _ _ Hr)) in Hr1.
    assert (Hq : enqueued (replicate (length (entries s)) Consume ++ [LoopExit]) = []).
    { unfold enqueued. rewrite omap_app. cbn. rewrite app_nil_r. clear. by induction (length (entries s)). }
    rewrite Hq, app_nil_r in Hr1. destruct Hr1 as [(tk & Hs2 & Hl2 & _) _ Hdn2 _].
    destruct (Hdn2 Hd1) as [_ He]. rewrite He, app_nil_r in Hs2. subst tk.
    eexists. split_and!.
    + change [LoopExit; AwaitDone] with ([LoopExit] ++ [AwaitDone]). rewrite app_assoc, run_app, Hs1.
      cbn. rewrite Hd1. done.
    + cbn. destruct (zeroed s1); by rewrite Hl2.
    + cbn. by rewrite length_replicate.
Qed.
End Machine.
End Channel.
