(* ===== verification/LedgerExamples.v ===== *)
(** * Concrete ledgers

    The hypotheses of the ledger theorems hold on ledgers the writer makes with
    the executable primitives of [Crypto.Toy]. *)
From S2P Require Import Prelude Crypto Ledger LedgerVerify Writer.

#[local] Open Scope Z_scope.

Module LedgerExamples.
Import Toy Reader Format LedgerSpec Writer WriterSpec Channel.

Definition ex_cfg : LedgerConfig bytes :=
  mkLedgerConfig [] (Some [("type"%string, AText "container")]) (Some ["md5"%string])
    (Some ["http-open"%string]).

Definition ex_meta : bytes := Eval vm_compute in
  match cbor_marshal_header (header_meta ex_cfg) with Ok b => b | Err _ => [] end.

Definition ex_ledger : Ledger bytes := Eval vm_compute in
  match NewLedger buffer_write (Ok [Byte.x07]) ex_cfg with
  | Some (Ok l) => l
  | _ => mkLedger [] [] [] 0 [] 0 0 []
  end.

(** A channel with one checkpoint of three bytes, and its close. *)
Definition ex_open : entryInput := mkEntry RecordOpen [] 0 [] Byte.x00 [Byte.x61].
Definition ex_sig : bytes := Eval vm_compute in (loop_body buffer_write ex_ledger ex_open).2.
Definition ex_entries : list entryInput := Eval vm_compute in
  [ex_open;
   mkEntry RecordCheckpoint ex_sig (-3)
     (default [] (ComputeHashBlock ["md5"%string] [Byte.x01; Byte.x02; Byte.x03] []))
     SchemaNoMetadata [];
   mkEntry RecordClose ex_sig 0 [] Byte.x00 [Byte.x62]].

Definition ex_bytes : bytes := Eval vm_compute in writer (write_all buffer_write ex_ledger ex_entries).

Definition ex_report : option VerifyResult :=
  match Verify ex_bytes with Some (Ok r) => Some r | _ => None end.
Definition ex_header : Header := Eval vm_compute in
  read_header (header_meta ex_cfg) ex_ledger.
Definition ex_records : list Rec := Eval vm_compute in
  entry_records (key ex_ledger) (prevSigRaw ex_ledger) ex_entries.

Example ex_verifies :
  (fun r => (Valid r, SigErrors r, TotalRecords r, Unclosed r)) <$> ex_report = Some (true, 0, 3, 0).
Proof. vm_compute. reflexivity. Qed.

(** Decision procedures for the hypotheses. *)
Definition wf_record_b (ss hs : Z) (r : Rec) : bool :=
  (len (PrevSig r) =? ss) &&
  match OpenSig r with
  | None => bool_decide (Type_ r = RecordOpen)
  | Some o => negb (bool_decide (Type_ r = RecordOpen)) && (len o =? ss)
  end &&
  (- 2 ^ 63 <=? PayloadSize r) && (PayloadSize r <? 2 ^ 63) &&
  match HashBlock r with
  | None => PayloadSize r =? 0
  | Some b => negb (PayloadSize r =? 0) && (len b =? hs)
  end &&
  (len (Signature r) =? ss) &&
  match Metadata r with
  | None => bool_decide (SchemaIndex r = SchemaNoMetadata)
  | Some m => negb (bool_decide (SchemaIndex r = SchemaNoMetadata)) && (len m <? 2 ^ 32)
  end.

Lemma wf_record_b_ok ss hs r : wf_record_b ss hs r = true -> wf_record ss hs r.
Proof.
  unfold wf_record_b. rewrite !andb_true_iff.
  intros ((((((H1 & H2) & H3) & H4) & H5) & H6) & H7). bool_to_prop.
  split; try done.
  - destruct (OpenSig r); [apply andb_true_iff in H2 as [? ?]|]; bool_to_prop; done.
  - destruct (HashBlock r); [apply andb_true_iff in H5 as [? ?]|]; bool_to_prop; done.
  - destruct (Metadata r); [apply andb_true_iff in H7 as [? ?]|]; bool_to_prop; done.
Qed.

Lemma wf_records_b_ok ss hs rs :
  forallb (wf_record_b ss hs) rs = true -> Forall (wf_record ss hs) rs.
Proof.
  intros Hf. apply List.Forall_forall. intros r Hr. apply wf_record_b_ok.
  by eapply forallb_forall in Hf.
Qed.

Lemma ex_hash_size : hashBlockSize ex_ledger = 16.
Proof. vm_compute. reflexivity. Qed.

Lemma ex_new : NewLedger buffer_write (Ok [Byte.x07]) ex_cfg = Some (Ok ex_ledger).
Proof. vm_compute. reflexivity. Qed.

Lemma ex_marshal : cbor_marshal_header (header_meta ex_cfg) = Ok ex_meta.
Proof. vm_compute. reflexivity. Qed.

Lemma ex_unmarshal : cbor_unmarshal_header ex_meta = Ok (header_meta ex_cfg).
Proof. vm_compute. reflexivity. Qed.

Lemma ex_entries_wf : Forall (wf_entry (hashBlockSize ex_ledger)) ex_entries.
Proof.
  rewrite ex_hash_size. unfold ex_entries, ex_open.
  repeat constructor; cbn; try (vm_compute; congruence);
    try (left; reflexivity); right; vm_compute; reflexivity.
Qed.

Lemma ex_wf_header : wf_header ex_header ex_meta.
Proof.
  destruct (NewLedger_fresh _ _ _ ex_new eq_refl) as (mb & Hm & Hfr & Hs & _).
  rewrite ex_marshal in Hm. injection Hm as <-.
  assert (ex_header = read_header (header_meta ex_cfg) ex_ledger) as -> by (vm_compute; reflexivity).
  eapply fresh_header; [exact Hfr|exact Hs|rewrite ex_hash_size; lia|exact ex_unmarshal|].
  vm_compute. reflexivity.
Qed.

Lemma ex_wf_records :
  Forall (wf_record (SigSize ex_header) (HashBlockSize ex_header)) ex_records.
Proof. apply wf_records_b_ok. vm_compute. reflexivity. Qed.

Lemma ex_wf : wf_ledger ex_header ex_meta ex_records.
Proof. split; [apply ex_wf_header|apply ex_wf_records]. Qed.

Definition ex_record : Rec := Eval vm_compute in
  default (mkRec RecordOpen [] None 0 None [] SchemaNoMetadata None) (head ex_records).

Lemma ReadRecord_exact_witness :
  ReadRecord (encode_record ex_record ++ [Byte.x00]) 64 16 =
    Ok (ex_record, len (encode_record ex_record)).
Proof.
  apply (ReadRecord_exact _ 64 16); [lia|lia|].
  split; [apply wf_record_b_ok; vm_compute; reflexivity|].
  split; [reflexivity|]. exists [Byte.x00]. reflexivity.
Defined.

Lemma ex_valid : Valid (report ex_header ex_records) = true.
Proof. vm_compute. reflexivity. Qed.


Lemma Verify_truncated_witness :
  Verify (take (length (ledger_bytes ex_header ex_meta (take 2 ex_records)))
            (ledger_bytes ex_header ex_meta ex_records)) =
    Some (Ok (report ex_header (take 2 ex_records))) /\
  exists e, Verify (take (S (length (ledger_bytes ex_header ex_meta (take 2 ex_records))))
            (ledger_bytes ex_header ex_meta ex_records)) =
    Some (Err (Wrap ("read record " ++ Itoa 2)%string e)).
Proof.
  split.
  - apply (Verify_truncated ex_header ex_meta ex_records 2);
      [exact ex_wf|vm_compute; lia|reflexivity].
  - apply (Verify_truncated ex_header ex_meta ex_records 2); [exact ex_wf|vm_compute; lia|].
    split; [apply Nat.lt_succ_diag_r|]. apply Nat.ltb_lt. vm_compute. reflexivity.
Defined.

(** The metadata of every record replaced. *)
Definition relabel (r : Rec) : Rec :=
  mkRec (Type_ r) (PrevSig r) (OpenSig r) (PayloadSize r) (HashBlock r) (Signature r)
    Byte.x09 (Some [Byte.xff]).

Lemma metadata_unsigned_witness :
  let h' := mkHeader (Version ex_header) (SigScheme ex_header) (SigSize ex_header)
              (HashBlockSize ex_header) (PubKeyLen ex_header) (PubKey ex_header)
              (HSignature ex_header) {| Hashes := []; Schemas := []; Environment := None |}
              (PrefixBytes ex_header) in
  relabel <$> ex_records <> ex_records /\
  Valid (report h' (relabel <$> ex_records)) = true.
Proof.
  split; [intros He; apply (f_equal (fmap SchemaIndex)) in He; vm_compute in He; discriminate He|].
  rewrite <- ex_valid. apply (metadata_unsigned ex_header ex_records (relabel <$> ex_records)).
  vm_compute. repeat constructor.
Defined.

Lemma written_ledger_verifies_witness :
  exists res, Verify ex_bytes = Some (Ok res) /\ Valid res = true /\ TotalRecords res = 3.
Proof.
  assert (ex_bytes = writer (write_all buffer_write ex_ledger ex_entries)) as ->
    by (vm_compute; reflexivity).
  destruct (written_ledger_verifies [Byte.x07] ex_cfg ex_ledger ex_meta ex_entries)
    as (res & Hv & Hok & _ & Ht & _).
  - exact ex_new.
  - reflexivity.
  - exact ex_marshal.
  - exact ex_unmarshal.
  - vm_compute. reflexivity.
  - rewrite ex_hash_size. lia.
  - exact ex_entries_wf.
  - exists res. split; [exact Hv|]. split; [exact Hok|]. exact Ht.
Defined.

Lemma streaming_hash_block_witness :
  exists s, NewStreamingHasher ["sha256"; "md5"]%string = Some s /\
    len (sh_Finish (foldl sh_Write s [[Byte.x01]; []; [Byte.x02; Byte.x03]])).1 = 48.
Proof.
  pose proof (streaming_hash_block (HO:=Toy.hashes) (HL:=Toy.hash_laws)
    ["sha256"; "md5"]%string [[Byte.x01]; []; [Byte.x02; Byte.x03]]) as H.
  destruct (NewStreamingHasher ["sha256"; "md5"]%string) as [s|] eqn:E; [|discriminate E].
  exists s. split; [reflexivity|]. destruct (sh_Finish _) as [block size].
  destruct H as (_ & Hl & _). exact Hl.
Defined.

(** Two callers; the loop takes the first entry before the second arrives. *)
Definition ex_events : list event :=
  [Enqueue (OpenReq 1 Byte.x00 []); Consume; Enqueue (Close ex_sig 0 [] SchemaNoMetadata []);
   CloseEntries].

Definition ex_sys : sys := Eval vm_compute in
  match run (start ex_ledger) ex_events with Runs s => s | _ => start ex_ledger end.

Lemma ledger_schedules_witness :
  length (entries ex_sys) = 1%nat /\ (forall r, step ex_sys (Enqueue r) = Panics "send on closed channel").
Proof.
  split; [vm_compute; reflexivity|].
  apply (ledger_schedules ex_ledger ex_events ex_sys); vm_compute; reflexivity.
Defined.
End LedgerExamples.
