(* ===== verification/Environment.v ===== *)
(** * Environment descriptors (src/ledger/environment.go)

    The [vm-disk-chain/v1] descriptor and its validation, the descriptor type a
    payload names, and the reader's hash blocks. *)
From S2P Require Import Prelude Crypto Ledger Writer.

#[local] Open Scope Z_scope.

Module Environment.
Import Reader.

Definition EnvTypeOCIImage : string := "oci-image/v1".
Definition EnvTypeVMDiskChain : string := "vm-disk-chain/v1".
Definition EnvTypeLegacyContainer : string := "container".

Definition LayerRoles : list string := ["disk"; "kernel"; "initrd"; "nvram"; "platform"]%string.

Definition SourceURL : string := "url".
Definition SourceLocal : string := "local".
Definition SourcePrepared : string := "prepared".

Record PreparationInput := mkPreparationInput {
  pName : string; pSHA256 : string; pSize : Z; pURL : string }.

Record LayerSource := mkLayerSource {
  Kind : string; URL : string; Pinned : bool; PreparedBy : string;
  Inputs : list PreparationInput }.

Record DiskLayer := mkDiskLayer {
  Role : string; LName : string; LFormat : string; LPath : string;
  LSHA256 : string; LSize : Z; Source : LayerSource }.

Record SeedFile := mkSeedFile { SName : string; SSHA256 : string; SSize : Z }.

Record VMDiskChain := mkVMDiskChain {
  DType : string; Driver : string; GuestOS : string; Arch : string; Generation : Z;
  Layers : list DiskLayer; Seed : list SeedFile }.

(** [^[0-9a-f]{64}$] *)
Definition is_hex_digit (b : byte) : bool :=
  ((48 <=? byte_val b) && (byte_val b <=? 57)) || ((97 <=? byte_val b) && (byte_val b <=? 102)).

Definition sha256Hex (s : string) : bool :=
  (len (bytes_of s) =? 64) && forallb is_hex_digit (bytes_of s).

(** [DiskLayer.validate]; [None] is a nil error. *)
Definition validate (l : DiskLayer) : option error :=
  if negb (bool_decide (Role l ∈ LayerRoles)) then Some (Errorf "unknown role %q" [Role l])
  else if bool_decide (LName l = "") then Some (Msg "empty name")
  else if negb (sha256Hex (LSHA256 l)) then Some (Msg "sha256 must be 64 lowercase hex digits")
  else if LSize l <? 0 then Some (Msg "negative size")
  else if decide (Kind (Source l) = SourceURL) then
    if decide (URL (Source l) = "") then Some (Msg "url source with no url") else None
  else if decide (Kind (Source l) = SourceLocal) then None
  else if decide (Kind (Source l) = SourcePrepared) then
    if decide (PreparedBy (Source l) = "") then Some (Msg "prepared source with no prepared_by")
    else None
  else Some (Errorf "unknown source kind %q" [Kind (Source l)]).

Fixpoint validate_layers (i : Z) (ls : list DiskLayer) : option error :=
  match ls with
  | [] => None
  | l :: ls' =>
      match validate l with
      | Some e => Some (Wrap ("descriptor layer " ++ Itoa i ++ " (" ++ LName l ++ ")") e)
      | None => validate_layers (i + 1) ls'
      end
  end.

Definition seed_bad (s : SeedFile) : bool :=
  bool_decide (SName s = "") || negb (sha256Hex (SSHA256 s)) || (SSize s <? 0).

Fixpoint validate_seed (ss : list SeedFile) : option error :=
  match ss with
  | [] => None
  | s :: ss' =>
      if seed_bad s then Some (Errorf "descriptor seed %q: needs name, sha256 and size" [SName s])
      else validate_seed ss'
  end.

Definition Validate (d : VMDiskChain) : option error :=
  if negb (bool_decide (DType d = EnvTypeVMDiskChain))
  then Some (Errorf "descriptor type %q, want %q" [DType d; EnvTypeVMDiskChain])
  else if bool_decide (Driver d = "") then Some (Msg "descriptor: empty driver")
  else if bool_decide (GuestOS d = "") then Some (Msg "descriptor: empty guest_os")
  else if bool_decide (Arch d = "") then Some (Msg "descriptor: empty arch")
  else if len (Layers d) =? 0 then Some (Msg "descriptor: no layers")
  else match validate_layers 0 (Layers d) with
       | Some e => Some e
       | None => validate_seed (Seed d)
       end.

(** ** JSON

    [encoding/json] applied to the payloads: a decoded object keeps its members
    as values, the descriptor decoder rejects unknown fields. *)
Inductive json :=
  | JNull | JBool (b : bool) | JNum (n : Z) | JString (s : string)
  | JArray (l : list json) | JObject (m : list (string * json)).

Class JsonOps := {
  json_object : bytes -> result (gmap string json);
  json_decode_chain : bytes -> result VMDiskChain;
  json_marshal_chain : VMDiskChain -> result bytes }.

Section Types.
Context {JO : JsonOps}.

Definition DecodeVMDiskChain (payload : bytes) : result VMDiskChain :=
  match json_decode_chain payload with
  | Err e => Err (Wrap ("decoding " ++ EnvTypeVMDiskChain) e)
  | Ok d => match Validate d with Some e => Err e | None => Ok d end
  end.

Definition Marshal (d : VMDiskChain) : result bytes :=
  match Validate d with Some e => Err e | None => json_marshal_chain d end.

(** [strings.Contains] *)
Definition Contains (s sub : string) : bool :=
  if decide (sub = "") then true
  else match String.index 0 sub s with Some _ => true | None => false end.

Definition isImageManifest (probe : gmap string json) : bool :=
  match probe !! "schemaVersion"%string with
  | None => false
  | Some _ =>
      bool_decide (is_Some (probe !! "layers"%string)) ||
      bool_decide (is_Some (probe !! "manifests"%string)) ||
      match probe !! "mediaType"%string with
      | Some (JString mt) => Contains mt "manifest" || Contains mt "image.index"
      | _ => false
      end
  end.

Definition dquote : string := String "034"%char EmptyString.
Definition not_a_string : error :=
  Msg ("environment payload " ++ dquote ++ "type" ++ dquote ++ " is not a string").

(** [json.Unmarshal(raw, &t)] into a string leaves it empty for [null]. *)
Definition EnvironmentType (payload : bytes) : result string :=
  match json_object payload with
  | Err e => Err (Wrap "environment payload is not a JSON object" e)
  | Ok probe =>
      match probe !! "type"%string with
      | Some (JString t) =>
          if decide (t = ""%string) then Err not_a_string else Ok t
      | Some _ => Err not_a_string
      | None =>
          if isImageManifest probe then Ok EnvTypeOCIImage
          else Err (Msg "environment payload names no type")
      end
  end.
End Types.

Definition NormalizeEnvType (label : string) : string :=
  if decide (label = EnvTypeLegacyContainer) then EnvTypeOCIImage else label.

(** ** Hash blocks and the environment record *)
Section Hashes.
Context {HO : HashOps}.

Definition NewHash (name : string) : result Writer.Hash :=
  if decide (name = "blake2b_256"%string) then Ok (Writer.mkHash blake2b_256 [])
  else if decide (name = "sha256"%string) then Ok (Writer.mkHash sha256 [])
  else if decide (name = "sha1"%string) then Ok (Writer.mkHash sha1 [])
  else if decide (name = "md5"%string) then Ok (Writer.mkHash md5 [])
  else Err (Errorf "unsupported hash algorithm %q" [name]).

Fixpoint compute_hash_block (names : list string) (data block : bytes) : result bytes :=
  match names with
  | [] => Ok block
  | name :: names' =>
      match NewHash name with
      | Err e => Err e
      | Ok h => compute_hash_block names' data (Writer.hash_sum (Writer.hash_write h data) block)
      end
  end.

Definition ComputeHashBlock (names : list string) (data : bytes) : result bytes :=
  compute_hash_block names data [].
End Hashes.

(** [None] is the [false] result. *)
Fixpoint EnvironmentRecord (h : Header) (records : list Rec) : option Rec :=
  match records with
  | [] => None
  | r :: rs =>
      if negb (bool_decide (Type_ r = RecordClose)) ||
         (byte_val (SchemaIndex r) >=? len (Schemas (Meta h)))
      then EnvironmentRecord h rs
      else if Contains (nth (Z.to_nat (byte_val (SchemaIndex r))) (Schemas (Meta h)) ""%string) "environment"
      then Some r
      else EnvironmentRecord h rs
  end.

(** ** Properties *)

(** A layer the schema accepts. *)
Record layer_ok (l : DiskLayer) : Prop := {
  lo_role : Role l ∈ LayerRoles;
  lo_name : LName l <> ""%string;
  lo_hash : sha256Hex (LSHA256 l) = true;
  lo_size : 0 <= LSize l;
  lo_source : (Kind (Source l) = SourceURL /\ URL (Source l) <> ""%string) \/
              Kind (Source l) = SourceLocal \/
              (Kind (Source l) = SourcePrepared /\ PreparedBy (Source l) <> ""%string) }.

Record chain_ok (d : VMDiskChain) : Prop := {
  co_type : DType d = EnvTypeVMDiskChain;
  co_driver : Driver d <> ""%string;
  co_os : GuestOS d <> ""%string;
  co_arch : Arch d <> ""%string;
  co_layers : Layers d <> [] /\ Forall layer_ok (Layers d);
  co_seed : Forall (fun s => SName s <> ""%string /\ sha256Hex (SSHA256 s) = true /\ 0 <= SSize s)
              (Seed d) }.

Lemma validate_ok l : validate l = None <-> layer_ok l.
Proof.
  unfold validate, SourceURL, SourceLocal, SourcePrepared. split.
  - intros Hv. repeat case_match; try discriminate; bool_to_prop;
      (split; [done|done|done|lia|]); unfold SourceURL, SourceLocal, SourcePrepared;
      first [left; by split | right; left; done | right; right; by split].
  - intros [Hr Hn Hh Hs Hk]. rewrite (bool_decide_eq_true_2 _ Hr), (bool_decide_eq_false_2 _ Hn), Hh.
    cbn [negb]. destruct (Z.ltb_spec (LSize l) 0); [lia|].
    unfold SourceURL, SourceLocal, SourcePrepared in Hk.
    destruct Hk as [[Hk ?]|[Hk|[Hk ?]]]; rewrite Hk; by repeat case_decide.
Qed.

Lemma validate_layers_ok i ls : validate_layers i ls = None <-> Forall layer_ok ls.
Proof.
  revert i. induction ls as [|l ls IH]; intros i; cbn; [by split|].
  rewrite Forall_cons, <- validate_ok. destruct (validate l); [naive_solver|].
  rewrite IH. naive_solver.
Qed.

Lemma validate_layers_error i ls e :
  validate_layers i ls = Some e <->
  exists l1 l l2 e', ls = l1 ++ l :: l2 /\ Forall layer_ok l1 /\ validate l = Some e' /\
    e = Wrap ("descriptor layer " ++ Itoa (i + len l1) ++ " (" ++ LName l ++ ")")%string e'.
Proof.
  revert i. induction ls as [|l ls IH]; intros i; cbn.
  - split; [done|]. intros ([] & ? & ? & ? & ? & _); discriminate.
  - destruct (validate l) as [e1|] eqn:Hv.
    + split.
      * intros [= <-]. exists [], l, ls, e1. rewrite len_nil, Z.add_0_r. by repeat split.
      * intros ([|l0 l1] & l' & l2 & e' & [= <- ->] & Hl & Hv' & ->).
        { rewrite len_nil, Z.add_0_r. congruence. }
        apply Forall_cons in Hl as [Hl%validate_ok _]. congruence.
    + rewrite IH. split.
      * intros (l1 & l' & l2 & e' & -> & Hl & Hv' & ->). exists (l :: l1), l', l2, e'.
        rewrite len_cons, Z.add_assoc. split_and!; try done. constructor; [by apply validate_ok|done].
      * intros ([|l0 l1] & l' & l2 & e' & [= <- ->] & Hl & Hv' & ->); [congruence|].
        apply Forall_cons in Hl as [_ Hl]. exists l1, l', l2, e'.
        rewrite len_cons, Z.add_assoc. done.
Qed.

Lemma validate_seed_ok ss :
  validate_seed ss = None <->
  Forall (fun s => SName s <> ""%string /\ sha256Hex (SSHA256 s) = true /\ 0 <= SSize s) ss.
Proof.
  induction ss as [|s ss IH]; cbn; [by split|]. rewrite Forall_cons, <- IH. unfold seed_bad.
  destruct (bool_decide_reflect (SName s = ""%string)); cbn; [naive_solver|].
  destruct (sha256Hex (SSHA256 s)); cbn; [|naive_solver].
  destruct (Z.ltb_spec (SSize s) 0); naive_solver lia.
Qed.

(** The checks before the layers. *)
Definition fields_ok (d : VMDiskChain) : Prop :=
  DType d = EnvTypeVMDiskChain /\ Driver d <> ""%string /\ GuestOS d <> ""%string /\
  Arch d <> ""%string /\ Layers d <> [].

Lemma Validate_fields d :
  (fields_ok d /\ Validate d = match validate_layers 0 (Layers d) with
                               | Some e => Some e
                               | None => validate_seed (Seed d)
                               end) \/
  (~ fields_ok d /\ exists e, Validate d = Some e /\ forall c e', e <> Wrap c e').
Proof.
  unfold Validate, fields_ok.
  destruct (bool_decide_reflect (DType d = EnvTypeVMDiskChain)); cbn [negb];
    [|right; split; [tauto|eauto]].
  destruct (bool_decide_reflect (Driver d = ""%string)); [right; split; [tauto|eauto]|].
  destruct (bool_decide_reflect (GuestOS d = ""%string)); [right; split; [tauto|eauto]|].
  destruct (bool_decide_reflect (Arch d = ""%string)); [right; split; [tauto|eauto]|].
  destruct (Layers d); [right; split; [tauto|eauto]|]. left. split; [done|].
  rewrite len_cons. destruct (Z.eqb_spec (1 + len l) 0); [|done]. pose proof (len_nonneg l). lia.
Qed.

Lemma Validate_None d : Validate d = None <-> chain_ok d.
Proof.
  destruct (Validate_fields d) as [[Hf ->]|[Hf (e & -> & _)]].
  - pose proof (validate_layers_ok 0 (Layers d)). pose proof (validate_seed_ok (Seed d)).
    destruct Hf as (? & ? & ? & ? & ?). destruct (validate_layers 0 (Layers d)).
    + split; [done|]. intros []. naive_solver.
    + split; [intros; split; naive_solver|]. intros []. naive_solver.
  - split; [done|]. intros []. destruct Hf. unfold fields_ok. naive_solver.
Qed.

Lemma Validate_layer d ctx e :
  Validate d = Some (Wrap ctx e) <->
  fields_ok d /\ exists l1 l l2, Layers d = l1 ++ l :: l2 /\ Forall layer_ok l1 /\
    validate l = Some e /\
    ctx = ("descriptor layer " ++ Itoa (len l1) ++ " (" ++ LName l ++ ")")%string.
Proof.
  destruct (Validate_fields d) as [[Hf ->]|[Hf (e0 & -> & Hne)]]; [|naive_solver].
  pose proof (validate_layers_error 0 (Layers d)) as Hle.
  destruct (validate_layers 0 (Layers d)) as [e0|].
  - rewrite Hle. split.
    + intros (l1 & l & l2 & e' & ? & ? & ? & [= -> ->]). split; [done|]. by exists l1, l, l2.
    + intros (_ & l1 & l & l2 & ? & ? & ? & ->). by exists l1, l, l2, e.
  - split.
    + intros Hs. exfalso. induction (Seed d) as [|s ss IH]; cbn in Hs; [done|].
      destruct (seed_bad s); [discriminate|auto].
    + intros (_ & l1 & l & l2 & ? & ? & ? & ->).
      destruct (Hle (Wrap ("descriptor layer " ++ Itoa (len l1) ++ " (" ++ LName l ++ ")")%string e))
        as [_ Hn]. discriminate Hn. by exists l1, l, l2, e.
Qed.


Lemma NewHash_newHash {HO : HashOps} name :
  Writer.newHash name = match NewHash name with Ok h => Some h | Err _ => None end.
Proof. unfold Writer.newHash, NewHash. by repeat case_decide. Qed.

Lemma EnvironmentRecord_spec h rs :
  match EnvironmentRecord h rs with
  | Some r => exists rs1 rs2, rs = rs1 ++ r :: rs2 /\ EnvironmentRecord h rs1 = None
  | None => True
  end.
Proof.
  induction rs as [|r rs IH]; cbn; [done|].
  destruct (negb _ || _) eqn:E1.
  - destruct (EnvironmentRecord h rs) as [r'|]; [|done]. destruct IH as (rs1 & rs2 & -> & H).
    exists (r :: rs1), rs2. cbn. by rewrite E1.
  - destruct (Contains _ _) eqn:E2.
    + by exists [], rs.
    + destruct (EnvironmentRecord h rs) as [r'|]; [|done]. destruct IH as (rs1 & rs2 & -> & H).
      exists (r :: rs1), rs2. cbn. by rewrite E1, E2.
Qed.

(** The reader's [ComputeHashBlock] agrees with the writer's: the same
    block, and an error naming the first unsupported hash exactly where the
    writer panics. *)
Theorem hash_blocks_agree {HO : HashOps} names data :
  match ComputeHashBlock names data with
  | Ok b => Writer.ComputeHashBlock names data [] = Some b
  | Err e => Writer.ComputeHashBlock names data [] = None /\
      exists n1 n n2, names = n1 ++ n :: n2 /\ Forall (fun m => is_Some (Writer.hashOutputSize m)) n1 /\
        Writer.hashOutputSize n = None /\ e = Errorf "unsupported hash algorithm %q" [n]
  end.
Proof.
  unfold ComputeHashBlock. generalize (@nil byte) as block.
  assert (Hsz : forall n, match NewHash n with
    | Ok _ => is_Some (Writer.hashOutputSize n)
    | Err e => Writer.hashOutputSize n = None /\ e = Errorf "unsupported hash algorithm %q" [n] end).
  { intros n. unfold NewHash, Writer.hashOutputSize. by repeat case_decide. }
  induction names as [|n names IH]; intros block; cbn; [done|].
  rewrite NewHash_newHash. specialize (Hsz n). destruct (NewHash n) as [h|e]; cbn.
  - specialize (IH (Writer.hash_sum (Writer.hash_write h data) block)).
    destruct (compute_hash_block _ _ _); [done|].
    destruct IH as (? & n1 & m & n2 & -> & Hn1 & ? & ->). split; [done|].
    exists (n :: n1), m, n2. split_and!; try done. by constructor.
  - split; [done|]. exists [], n, names. naive_solver.
Qed.
End Environment.
