(* ===== verification/LayerCache.v ===== *)
(** * The layer cache and disk-chain descriptors (src/driver/layercache.go,
    envdesc.go)

    The cache file maps layer paths to the hash of a file of a given size and
    modification time.  The host's files are a map; the cache file's JSON codec
    and the working directory are parameters, and so is what goes wrong in one
    atomic save. *)
From stdpp Require Import sorting.
From S2P Require Import Prelude Text Crypto Ledger Writer Environment Claim.

#[local] Open Scope Z_scope.
#[local] Open Scope go_scope.

Module LayerCache.
Import Environment ClaimEnvironment.

(** ** Files *)
Record vfile := mkFile { fContent : bytes; fMtime : Z; fReadErr : option error }.
Definition fSize (f : vfile) : Z := len (fContent f).

Definition ENOENT : error := Sentinel "file does not exist".

Record layerCacheEntry := mkEntry {
  eSHA256 : string; eSize : Z; eModTimeNanos : Z; eParentSHA256 : string; eSource : LayerSource }.

Abbreviation layerCacheFile := (gmap string layerCacheEntry).

(** The cache file's JSON codec; a decoded null map is the empty one. *)
Class CacheJson := {
  marshal_layers : layerCacheFile -> result bytes;
  unmarshal_layers : bytes -> result layerCacheFile }.

(** [filepath.Abs] in the process's working directory, and the absolute path a
    path names in it. *)
Class HostPaths := {
  Abs : string -> result string;
  resolve : string -> string;
  Abs_resolve p k : Abs p = Ok k -> resolve p = k;
  Abs_idem p k : Abs p = Ok k -> resolve k = k }.

Inductive cacheFile := Missing | Unreadable (e : error) | Holds (b : bytes).

(** The host: its files by absolute path, and the cache file. *)
Record host := mkHost { files : gmap string vfile; cache : cacheFile }.

Definition stat (h : host) (path : string) : result vfile :=
  match files h !! path with Some f => Ok f | None => Err ENOENT end.

Section Cache.
Context {HO : HashOps} {CJ : CacheJson} {HP : HostPaths}.

Definition content_sha (b : bytes) : string := Writer.hex_encode (sha256 b).

(** [HashFileSHA256] of the file a path names. *)
Definition HashFileSHA256 (h : host) (path : string) : result string :=
  let? f := stat h (resolve path) in
  match fReadErr f with Some e => Err e | None => Ok (content_sha (fContent f)) end.

Definition layerKey (path : string) : result string := Abs path.

Definition load (h : host) : result layerCacheFile :=
  match cache h with
  | Missing => Ok ∅
  | Unreadable e => Err e
  | Holds b => match unmarshal_layers b with Ok m => Ok m | Err _ => Ok ∅ end
  end.

(** [fault] is the first of the save's system calls to fail; the rename that
    publishes the new file is the last. *)
Definition save (fault : option error) (h : host) (f : layerCacheFile) : host * option error :=
  match marshal_layers f with
  | Err e => (h, Some e)
  | Ok b => match fault with
            | Some e => (h, Some e)
            | None => (mkHost (files h) (Holds (b ++ [Byte.x0a])), None)
            end
  end.

Definition LocalSource : LayerSource := mkLayerSource SourceLocal "" false "" [].

(** [LayerCache.Record] *)
Definition Record_ (fault : option error) (h : host) (path sha256Hex parentSHA256 : string) (src : LayerSource) :
    host * option error :=
  match layerKey path with
  | Err e => (h, Some e)
  | Ok key =>
      match stat h key with
      | Err e => (h, Some (Wrap "layer cache" e))
      | Ok fi =>
          match load h with
          | Err e => (h, Some (Wrap "layer cache" e))
          | Ok f =>
              let f := <[key := mkEntry sha256Hex (fSize fi) (fMtime fi) parentSHA256 src]> f in
              let '(h, err) := save fault h f in
              (h, Wrap "layer cache" <$> err)
          end
      end
  end.

Record LayerInfo := mkInfo { lPath : string; lSHA256 : string; lSize : Z; lSource : LayerSource }.

(** The entry is reused while the file's size and mtime and its parent's hash
    are what they were. *)
Definition entry_fresh (e : layerCacheEntry) (fi : vfile) (parentSHA256 : string) : bool :=
  (eSize e =? fSize fi) && (eModTimeNanos e =? fMtime fi) && bool_decide (eParentSHA256 e = parentSHA256).

Definition info_of (key : string) (e : layerCacheEntry) : LayerInfo := mkInfo key (eSHA256 e) (eSize e) (eSource e).

(** Hashing a layer anew; a save that fails is only reported. *)
Definition rehash (fault : option error) (h : host) (path key parentSHA256 : string) (fi : vfile)
    (f : layerCacheFile) : host * result LayerInfo :=
  match HashFileSHA256 h key with
  | Err e => (h, Err (Wrap ("hashing layer " ++ path) e))
  | Ok sum =>
      let e := mkEntry sum (fSize fi) (fMtime fi) parentSHA256 LocalSource in
      ((save fault h (<[key := e]> f)).1, Ok (info_of key e))
  end.

(** [LayerCache.Lookup] *)
Definition Lookup (fault : option error) (h : host) (path parentSHA256 : string) : host * result LayerInfo :=
  match layerKey path with
  | Err e => (h, Err e)
  | Ok key =>
      match stat h key with
      | Err e => (h, Err (Wrap ("layer " ++ path) e))
      | Ok fi =>
          match load h with
          | Err e => (h, Err (Wrap "layer cache" e))
          | Ok f =>
              match f !! key with
              | Some e => if entry_fresh e fi parentSHA256 then (h, Ok (info_of key e))
                          else rehash fault h path key parentSHA256 fi f
              | None => rehash fault h path key parentSHA256 fi f
              end
          end
      end
  end.

(** ** Verify *)
Inductive layerStatus := StatusOk | StatusChanged | StatusMissing.
Record LayerVerifyResult := mkResult { rPath : string; rStatus : layerStatus; rWas : string; rNow : string }.

(** One key of [Verify]'s loop; the error ends it. *)
Definition verify_one (h : host) (f : layerCacheFile) (k : string) (e : layerCacheEntry) :
    result (layerCacheFile * LayerVerifyResult) :=
  match stat h k with
  | Err _ => Ok (delete k f, mkResult k StatusMissing (eSHA256 e) "")
  | Ok fi =>
      match HashFileSHA256 h k with
      | Err err => Err (Wrap ("hashing " ++ k) err)
      | Ok sum =>
          if bool_decide (sum = eSHA256 e)
          then Ok (<[k := mkEntry (eSHA256 e) (fSize fi) (fMtime fi) (eParentSHA256 e) (eSource e)]> f,
                   mkResult k StatusOk (eSHA256 e) sum)
          else Ok (<[k := mkEntry sum (fSize fi) (fMtime fi) (eParentSHA256 e) LocalSource]> f,
                   mkResult k StatusChanged (eSHA256 e) sum)
      end
  end.

Fixpoint verify_keys (h : host) (f : layerCacheFile) (keys : list string) (results : list LayerVerifyResult) :
    layerCacheFile * list LayerVerifyResult * option error :=
  match keys with
  | [] => (f, results, None)
  | k :: keys =>
      match f !! k with
      | None => verify_keys h f keys results  (* not reached: the keys are f's *)
      | Some e =>
          match verify_one h f k e with
          | Err err => (f, results, Some err)
          | Ok (f, r) => verify_keys h f keys (results ++ [r])
          end
      end
  end.

(** [sort.Strings] *)
#[export] Instance string_leb_dec : RelDecision (fun a b : string => String.leb a b = true) :=
  fun a b => decide (String.leb a b = true).
Definition sort_strings (l : list string) : list string := merge_sort (fun a b => String.leb a b = true) l.

(** [LayerCache.Verify] *)
Definition Verify (fault : option error) (h : host) : host * list LayerVerifyResult * option error :=
  match load h with
  | Err e => (h, [], Some (Wrap "layer cache" e))
  | Ok f =>
      let '(f, results, err) := verify_keys h f (sort_strings (map_to_list f).*1) [] in
      match err with
      | Some e => (h, results, Some e)
      | None => let '(h, err) := save fault h f in (h, results, Wrap "layer cache" <$> err)
      end
  end.

(** [LayerCache.Source] *)
Definition SourceOf (h : host) (path : string) : option LayerSource :=
  match layerKey path, load h with
  | Ok key, Ok f => eSource <$> f !! key
  | _, _ => None
  end.

(** [LayerCache.Forget] *)
Definition Forget (fault : option error) (h : host) (path : string) : host * option error :=
  match layerKey path with
  | Err e => (h, Some e)
  | Ok key =>
      match load h with
      | Err e => (h, Some e)
      | Ok f => match f !! key with None => (h, None) | Some _ => save fault h (delete key f) end
      end
  end.

(** ** Disk chains (envdesc.go) *)

Record DiskChain := mkChain { desc : VMDiskChain; lastDiskSHA : string }.

Definition NewDiskChain (driverName guestOS arch : string) (generation : Z) : DiskChain :=
  mkChain (mkVMDiskChain EnvTypeVMDiskChain driverName guestOS arch generation [] []) "".

(** [filepath.Base] *)
Definition Base (path : string) : string :=
  if bool_decide (path = ""%string) then "."
  else let p := TrimRightByte path "/" in
       match last (Split p "/") with
       | Some b => if bool_decide (b = ""%string) then "/" else b
       | None => "/"
       end.

Definition LayerRoleDisk : string := "disk".

Definition set_layers (d : VMDiskChain) (ls : list DiskLayer) : VMDiskChain :=
  mkVMDiskChain (DType d) (Driver d) (GuestOS d) (Arch d) (Generation d) ls (Seed d).
Definition set_seed (d : VMDiskChain) (ss : list SeedFile) : VMDiskChain :=
  mkVMDiskChain (DType d) (Driver d) (GuestOS d) (Arch d) (Generation d) (Layers d) ss.

Definition AddLayer (fault : option error) (h : host) (b : DiskChain) (role path format : string) :
    host * result DiskChain :=
  let parent := if bool_decide (role = LayerRoleDisk) then lastDiskSHA b else ""%string in
  match Lookup fault h path parent with
  | (h, Err e) => (h, Err e)
  | (h, Ok info) =>
      (h, Ok (mkChain
        (set_layers (desc b) (Layers (desc b) ++
           [mkDiskLayer role (Base (lPath info)) format (lPath info) (lSHA256 info) (lSize info) (lSource info)]))
        (if bool_decide (role = LayerRoleDisk) then lSHA256 info else lastDiskSHA b)))
  end.

Definition AddSeedFile (h : host) (b : DiskChain) (name path : string) : result DiskChain :=
  let? sum := wrap_err ("hashing seed " ++ name) (HashFileSHA256 h path) in
  let? fi := stat h (resolve path) in
  Ok (mkChain (set_seed (desc b) (Seed (desc b) ++ [mkSeedFile name sum (fSize fi)])) (lastDiskSHA b)).

(** What [filepath.WalkDir] visits: an error, something that is not a regular
    file, or a regular file with its slash-separated name. *)
Inductive walked := WalkError (e : error) | NotRegular | Regular (rel path : string).

Fixpoint AddSeedDir (h : host) (b : DiskChain) (walk : list walked) : result DiskChain :=
  match walk with
  | [] => Ok b
  | WalkError e :: _ => Err e
  | NotRegular :: walk => AddSeedDir h b walk
  | Regular rel path :: walk => let? b := AddSeedFile h b rel path in AddSeedDir h b walk
  end.

(** [sort.Slice] by name, which may order equal names either way. *)
Class SeedSort := {
  sort_seed : list SeedFile -> list SeedFile;
  sort_seed_perm l : sort_seed l ≡ₚ l;
  sort_seed_sorted l : StronglySorted (fun a b => String.leb (SName a) (SName b) = true) (sort_seed l) }.

Context {JO : JsonOps} {CO : CborOps} {SS : SeedSort}.

Definition Descriptor (b : DiskChain) : VMDiskChain := set_seed (desc b) (sort_seed (Seed (desc b))).

(** [DiskChain.Environment] *)
Definition ChainEnvironment (b : DiskChain) : result EnvConfig :=
  let d := Descriptor b in
  let? payload := Marshal d in
  let? meta := wrap_err "encoding environment metadata"
                 (cbor_marshal_map [("type"%string, AText (DType d)); ("driver"%string, AText (Driver d))]) in
  Ok (mkEnv (DType d) payload meta).
End Cache.
End LayerCache.

Module LayerCacheSpec.
Import Environment ClaimEnvironment LayerCache.

(** The codec reads back what it wrote, the added newline included. *)
Class CacheJsonLaws {CJ : CacheJson} :=
  unmarshal_marshal m b : marshal_layers m = Ok b -> unmarshal_layers (b ++ [Byte.x0a]) = Ok m.

Section Spec.
Context {HO : HashOps} {CJ : CacheJson} {CL : CacheJsonLaws} {HP : HostPaths}.

Lemma save_ok fault h f h' : save fault h f = (h', None) -> load h' = Ok f /\ files h' = files h.
Proof using CL.
  unfold save. destruct (marshal_layers f) as [b|e] eqn:Em; [|done]. destruct fault; [done|].
  intros [= <-]. split; [|done]. unfold load. cbn [cache]. by rewrite (unmarshal_marshal _ _ Em).
Qed.

Lemma save_err fault h f h' e : save fault h f = (h', Some e) -> h' = h.
Proof. unfold save. destruct (marshal_layers f); [|by intros [= <- _]]. destruct fault; by intros [= <- _]. Qed.

(** A save publishes the new map or changes nothing. *)
Lemma save_spec fault h f :
  files (save fault h f).1 = files h /\
  (load (save fault h f).1 = Ok f \/ (save fault h f).1 = h).
Proof using CL.
  destruct (save fault h f) as [h' [e|] ] eqn:E; cbn [fst].
  - apply save_err in E as ->. auto.
  - apply save_ok in E as [H1 H2]. auto.
Qed.

(** An entry does not lie about the file it would be used for. *)
Definition entry_true (h : host) (k : string) (e : layerCacheEntry) : Prop :=
  forall fi, files h !! k = Some fi -> eSize e = fSize fi -> eModTimeNanos e = fMtime fi ->
    eSHA256 e = content_sha (fContent fi).

(** Provenance: local, or what was recorded for this hash. *)
Abbreviation log := (list (string * string * LayerSource)).
Definition sourced (lg : log) (k : string) (e : layerCacheEntry) : Prop :=
  eSource e = LocalSource \/ (k, eSHA256 e, eSource e) ∈ lg.

Definition cache_true (h : host) (lg : log) : Prop :=
  forall f, load h = Ok f -> map_Forall (fun k e => entry_true h k e /\ sourced lg k e) f.

(** What happens to a host: the cache's operations, with the files as they
    are; files changing, so that a file does not come back at a size and mtime
    the cache knows it by with other content; the cache file being lost,
    corrupted or unreadable. *)
Inductive reach : host -> log -> Prop :=
  | reach_empty fs : reach (mkHost fs Missing) []
  | reach_record h lg fault path key sha parent src :
      reach h lg -> layerKey path = Ok key -> HashFileSHA256 h key = Ok sha ->
      reach (Record_ fault h path sha parent src).1 ((key, sha, src) :: lg)
  | reach_lookup h lg fault path parent : reach h lg -> reach (Lookup fault h path parent).1 lg
  | reach_verify h lg fault : reach h lg -> reach (Verify fault h).1.1 lg
  | reach_forget h lg fault path : reach h lg -> reach (Forget fault h path).1 lg
  | reach_edit h lg fs :
      reach h lg ->
      (forall k fi, fs !! k = Some fi -> files h !! k = Some fi \/
         forall f e, load h = Ok f -> f !! k = Some e -> ~ (eSize e = fSize fi /\ eModTimeNanos e = fMtime fi)) ->
      reach (mkHost fs (cache h)) lg
  | reach_lost h lg c :
      reach h lg -> (c = Missing \/ (exists e, c = Unreadable e) \/ exists b e, c = Holds b /\ unmarshal_layers b = Err e) ->
      reach (mkHost (files h) c) lg.

Lemma HashFile_key h path key sha : layerKey path = Ok key -> HashFileSHA256 h key = Ok sha ->
  exists fi, files h !! key = Some fi /\ sha = content_sha (fContent fi).
Proof.
  intros Hk. unfold HashFileSHA256, stat. rewrite (Abs_idem _ _ Hk). destruct (files h !! key) as [fi|]; [|done].
  cbn [result_bind]. destruct (fReadErr fi); [done|]. intros [= <-]. eauto.
Qed.

(** An entry made of a file as it is. *)
Lemma entry_true_new h k fi parent src : files h !! k = Some fi ->
  entry_true h k (mkEntry (content_sha (fContent fi)) (fSize fi) (fMtime fi) parent src).
Proof. intros Hf fi' Hf' _ _. rewrite Hf in Hf'. by injection Hf' as <-. Qed.

Lemma cache_true_save fault h lg f :
  cache_true h lg -> map_Forall (fun k e => entry_true h k e /\ sourced lg k e) f ->
  cache_true (save fault h f).1 lg.
Proof using CL.
  intros Hc Hf. destruct (save_spec fault h f) as [Hfs [Hl|Hh] ]; [|by rewrite Hh].
  intros f' Hl'. rewrite Hl in Hl'. injection Hl' as <-. intros k e Hk.
  destruct (Hf k e Hk) as [Ht Hs]. split; [|done]. intros fi. rewrite Hfs. apply Ht.
Qed.

Lemma cache_true_grow h lg x : cache_true h lg -> cache_true h (x :: lg).
Proof.
  intros Hc f Hl k e Hk. destruct (Hc f Hl k e Hk) as [Ht Hs]. split; [done|].
  destruct Hs; [by left|right; by right].
Qed.

Lemma rehash_true fault h lg path key parent fi f :
  cache_true h lg -> load h = Ok f -> layerKey path = Ok key -> files h !! key = Some fi ->
  cache_true (rehash fault h path key parent fi f).1 lg.
Proof using CL.
  intros Hc Hl Hk Hfi. unfold rehash. destruct (HashFileSHA256 h key) as [sum|e] eqn:Es; [|done].
  cbn [fst]. destruct (HashFile_key _ _ _ _ Hk Es) as (fi' & Hf' & ->). rewrite Hfi in Hf'. injection Hf' as <-.
  apply cache_true_save; [done|]. apply map_Forall_insert_2.
  - split; [by apply entry_true_new|by left].
  - by apply Hc.
Qed.

(** ** Verify *)

(** What [Verify] makes of an entry. *)
Definition verified (h : host) (k : string) (e : layerCacheEntry) : option layerCacheEntry :=
  (fun fi => mkEntry (content_sha (fContent fi)) (fSize fi) (fMtime fi) (eParentSHA256 e)
     (if bool_decide (content_sha (fContent fi) = eSHA256 e) then eSource e else LocalSource)) <$> files h !! k.

(** The result it reports. *)
Definition verdict (h : host) (k : string) (e : layerCacheEntry) : LayerVerifyResult :=
  match files h !! k with
  | None => mkResult k StatusMissing (eSHA256 e) ""
  | Some fi =>
      mkResult k (if bool_decide (content_sha (fContent fi) = eSHA256 e) then StatusOk else StatusChanged)
        (eSHA256 e) (content_sha (fContent fi))
  end.

(** The keys of a cache are paths the process resolved, so they are their own
    absolute path. *)
Definition keys_resolved (f : layerCacheFile) : Prop := forall k, is_Some (f !! k) -> resolve k = k.

Lemma verify_one_spec h f k e f' r :
  resolve k = k -> verify_one h f k e = Ok (f', r) ->
  r = verdict h k e /\ f' = match verified h k e with Some e' => <[k := e']> f | None => delete k f end.
Proof.
  intros Hk. unfold verify_one, verdict, verified, HashFileSHA256, stat. rewrite Hk.
  destruct (files h !! k) as [fi|]; cbn [result_bind fmap option_fmap option_map]; [|by intros [= <- <-]].
  destruct (fReadErr fi); [done|].
  destruct (bool_decide_reflect (content_sha (fContent fi) = eSHA256 e)) as [He|He]; intros [= <- <-]; [by rewrite <- He|done].
Qed.

Lemma verify_keys_spec h keys : forall f rs f' rs',
  NoDup keys -> (forall k, k ∈ keys -> resolve k = k /\ is_Some (f !! k)) ->
  verify_keys h f keys rs = (f', rs', None) ->
  (forall k, k ∉ keys -> f' !! k = f !! k) /\
  (forall k e, k ∈ keys -> f !! k = Some e -> f' !! k = verified h k e) /\
  rs' = rs ++ omap (fun k => verdict h k <$> f !! k) keys.
Proof using CJ CL HO HP.
  induction keys as [|k keys IH]; intros f rs f' rs' Hnd Hin; cbn [verify_keys].
  { intros [= <- <-]. split; [done|]. split; [set_solver|]. cbn. by rewrite app_nil_r. }
  apply NoDup_cons in Hnd as [Hk Hnd]. destruct (Hin k ltac:(left)) as [Hres [e He] ]. rewrite He.
  destruct (verify_one h f k e) as [ [f1 r]|err] eqn:Ev; [|done].
  apply verify_one_spec in Ev as [-> Hf1]; [|done].
  assert (Hsame : forall k', k' <> k -> f1 !! k' = f !! k').
  { intros k' Hne. rewrite Hf1. destruct (verified h k e); by rewrite ?lookup_insert_ne, ?lookup_delete_ne. }
  assert (Hat : f1 !! k = verified h k e).
  { rewrite Hf1. destruct (verified h k e); [by rewrite lookup_insert_eq|by rewrite lookup_delete_eq]. }
  intros Hv. apply IH in Hv as (Ho & Hi & Hrs); [|done|].
  - split_and!.
    + intros k' Hk'. rewrite Ho by set_solver. apply Hsame. set_solver.
    + intros k' e' Hk' He'. destruct (decide (k' = k)) as [->|Hne].
      * rewrite Ho by done. rewrite Hat. rewrite He in He'. by injection He' as ->.
      * apply Hi; [set_solver|]. by rewrite Hsame.
    + rewrite Hrs. cbn [omap list_omap]. rewrite He. cbn [fmap option_fmap option_map].
      rewrite <- app_assoc. cbn [app]. do 2 f_equal. clear -Hsame Hk.
      induction keys as [|k' keys IH]; [done|]. cbn [omap list_omap].
      rewrite Hsame by set_solver. by rewrite IH by set_solver.
  - intros k' Hk'. rewrite Hsame by set_solver. apply Hin. by right.
Qed.

Lemma Verify_keys (f : layerCacheFile) : NoDup (sort_strings (map_to_list f).*1) /\
  forall k, k ∈ sort_strings (map_to_list f).*1 <-> is_Some (f !! k).
Proof.
  pose proof (merge_sort_Permutation (fun a b : string => String.leb a b = true) (map_to_list f).*1) as Hp.
  unfold sort_strings. split.
  - rewrite Hp. apply NoDup_fst_map_to_list.
  - intros k. rewrite Hp, list_elem_of_fmap. split.
    + intros ([k' e] & -> & H). apply elem_of_map_to_list in H. by eexists.
    + intros [e He]. exists (k, e). split; [done|]. by apply elem_of_map_to_list.
Qed.

(** Every outcome of [Verify]: the cache published is the verified one, the
    results are the verdicts in the order of the paths. *)
Lemma Verify_spec fault h h' rs err f :
  load h = Ok f -> keys_resolved f -> Verify fault h = (h', rs, err) ->
  files h' = files h /\
  (h' = h \/ exists f', load h' = Ok f' /\ forall k, f' !! k = f !! k ≫= verified h k) /\
  (err = None -> (exists f', load h' = Ok f' /\ forall k, f' !! k = f !! k ≫= verified h k) /\
     rs = omap (fun k => verdict h k <$> f !! k) (sort_strings (map_to_list f).*1)).
Proof using CL.
  intros Hl Hres. unfold Verify. rewrite Hl. destruct (Verify_keys f) as [Hnd Hkeys].
  destruct (verify_keys h f _ []) as [ [f' rs'] [e|] ] eqn:Ev.
  { intros [= <- <- <-]. split; [done|]. split; [by left|done]. }
  apply verify_keys_spec in Ev as (Ho & Hi & ->); [|done|by intros k Hk; apply Hkeys in Hk; auto].
  assert (Hf' : forall k, f' !! k = f !! k ≫= verified h k).
  { intros k. destruct (f !! k) as [e|] eqn:He; cbn [mbind option_bind].
    - apply Hi; [|done]. apply Hkeys. eauto.
    - rewrite Ho; [done|]. rewrite Hkeys, He. by intros [? ?]. }
  destruct (save fault h f') as [h1 [e|] ] eqn:Es; intros [= <- <- <-].
  - apply save_err in Es as ->. split; [done|]. split; [by left|done].
  - apply save_ok in Es as [H1 H2]. cbn [app]. split; [done|]. split; [eauto|]. eauto.
Qed.

(** ** Every reachable cache is true *)

(** The invariant: entries are true, sourced, and under resolved keys. *)
Definition inv (h : host) (lg : log) : Prop :=
  cache_true h lg /\ forall f, load h = Ok f -> keys_resolved f.

Lemma inv_save fault h lg f :
  inv h lg -> map_Forall (fun k e => entry_true h k e /\ sourced lg k e) f -> keys_resolved f ->
  inv (save fault h f).1 lg.
Proof using CL.
  intros [Hc Hk] Hf Hr. split; [by apply cache_true_save|].
  intros f' Hl. destruct (save_spec fault h f) as [_ [Hl'|Hh] ].
  - rewrite Hl' in Hl. by injection Hl as <-.
  - rewrite Hh in Hl. by apply Hk.
Qed.

Lemma keys_resolved_insert f path key e :
  layerKey path = Ok key -> keys_resolved f -> keys_resolved (<[key := e]> f).
Proof.
  intros Hk Hr k. destruct (decide (k = key)) as [->|Hne].
  - intros _. by apply (Abs_idem path).
  - rewrite lookup_insert_ne by done. apply Hr.
Qed.

Lemma inv_grow h lg x : inv h lg -> inv h (x :: lg).
Proof. intros [Hc Hk]. split; [by apply cache_true_grow|done]. Qed.

Lemma Record_inv fault h lg path key sha parent src :
  inv h lg -> layerKey path = Ok key -> HashFileSHA256 h key = Ok sha ->
  inv (Record_ fault h path sha parent src).1 ((key, sha, src) :: lg).
Proof using CL.
  intros Hi Hk Hs. destruct (HashFile_key _ _ _ _ Hk Hs) as (fi & Hfi & ->).
  unfold Record_, stat. rewrite Hk, Hfi. destruct (load h) as [f|e] eqn:Hl; [|by apply inv_grow].
  destruct (save fault h _) as [h' err] eqn:E. cbn [fst].
  change h' with (h', err).1. rewrite <- E. apply inv_save; [by apply inv_grow| |].
  - apply map_Forall_insert_2.
    + split; [by apply entry_true_new|]. right. by left.
    + intros k e He. apply (proj1 (inv_grow _ _ (key, content_sha (fContent fi), src) Hi) f Hl k e He).
  - apply (keys_resolved_insert _ path); [done|]. by apply Hi.
Qed.

Lemma rehash_inv fault h lg path key parent fi f :
  inv h lg -> load h = Ok f -> layerKey path = Ok key -> files h !! key = Some fi ->
  inv (rehash fault h path key parent fi f).1 lg.
Proof using CL.
  intros [Hc Hr] Hl Hk Hfi. split; [by apply rehash_true|].
  unfold rehash. destruct (HashFileSHA256 h key); [|by apply Hr]. cbn [fst]. intros f' Hl'.
  destruct (save_spec fault h (<[key := mkEntry a (fSize fi) (fMtime fi) parent LocalSource]> f)) as [_ [H|H] ].
  - rewrite H in Hl'. injection Hl' as <-. apply (keys_resolved_insert _ path); [done|]. by apply Hr.
  - rewrite H in Hl'. by apply Hr.
Qed.

Lemma Lookup_inv fault h lg path parent : inv h lg -> inv (Lookup fault h path parent).1 lg.
Proof using CL.
  intros Hi. unfold Lookup. destruct (layerKey path) as [key|e] eqn:Hk; [|done].
  unfold stat. destruct (files h !! key) as [fi|] eqn:Hfi; [|done].
  destruct (load h) as [f|e] eqn:Hl; [|done].
  destruct (f !! key) as [e|]; [destruct (entry_fresh e fi parent); [done|]|]; by apply rehash_inv.
Qed.

Lemma verified_true h lg k e e' :
  sourced lg k e -> verified h k e = Some e' -> entry_true h k e' /\ sourced lg k e'.
Proof.
  unfold verified. destruct (files h !! k) as [fi|] eqn:Hfi; [|done]. intros Hs [= <-].
  split; [by apply entry_true_new|]. unfold sourced in *. cbn [eSource eSHA256].
  destruct (bool_decide_reflect (content_sha (fContent fi) = eSHA256 e)) as [->|]; [done|by left].
Qed.

Lemma Verify_inv fault h lg : inv h lg -> inv (Verify fault h).1.1 lg.
Proof using CL.
  intros Hi. destruct (Verify fault h) as [ [h' rs] err] eqn:Ev. cbn [fst].
  destruct (load h) as [f|e] eqn:Hl; [|unfold Verify in Ev; rewrite Hl in Ev; by injection Ev as <- _ _].
  destruct (Verify_spec fault h h' rs err f Hl ltac:(by apply Hi) Ev) as (Hfs & [->|(f' & Hl' & Hf')] & _); [done|].
  assert (Hsrc : forall k e', f' !! k = Some e' -> exists e, f !! k = Some e /\ verified h k e = Some e').
  { intros k e'. rewrite Hf'. destruct (f !! k) as [e|]; [|done]. cbn [mbind option_bind]. eauto. }
  split.
  - intros f1 Hl1 k e' Hk. rewrite Hl' in Hl1. injection Hl1 as <-. destruct (Hsrc k e' Hk) as (e & He & Hv).
    destruct (proj1 Hi f Hl k e He) as [_ Hs]. apply (verified_true _ lg) in Hv as [Ht ?]; [|done].
    split; [|done]. intros fi. rewrite Hfs. apply Ht.
  - intros f1 Hl1 k [e' Hk]. rewrite Hl' in Hl1. injection Hl1 as <-. destruct (Hsrc k e' Hk) as (e & He & _).
    apply (proj2 Hi f Hl). eauto.
Qed.

Lemma Forget_inv fault h lg path : inv h lg -> inv (Forget fault h path).1 lg.
Proof using CL.
  intros Hi. unfold Forget. destruct (layerKey path) as [key|e]; [|done].
  destruct (load h) as [f|e] eqn:Hl; [|done]. destruct (f !! key) as [e|]; [|done].
  destruct Hi as [Hc Hr]. apply inv_save; [done| |].
  - intros k e'. rewrite lookup_delete_Some. intros [_ He']. exact (Hc f Hl k e' He').
  - intros k. rewrite lookup_delete_is_Some. intros [_ Hk]. by apply (Hr f Hl).
Qed.

Lemma reach_inv h lg : reach h lg -> inv h lg.
Proof using CL.
  induction 1.
  - split; intros f [= <-]; [by intros k e H|]. intros k [? H]. by rewrite lookup_empty in H.
  - by apply Record_inv.
  - by apply Lookup_inv.
  - by apply Verify_inv.
  - by apply Forget_inv.
  - destruct IHreach as [Hc Hr]. split; [|done]. intros f Hl k e Hk.
    destruct (Hc f Hl k e Hk) as [Ht Hs]. split; [|done].
    intros fi Hfi Hsz Hmt. destruct (H0 k fi Hfi) as [Hf|Hf]; [by apply Ht|].
    destruct (Hf f e Hl Hk). done.
  - destruct IHreach as [Hc Hr].
    assert (Hload : forall f, load (mkHost (files h) c) = Ok f -> f = ∅).
    { intros f. unfold load. cbn [cache]. destruct H0 as [->|[ [e ->]|(b & e & -> & Hb)] ]; [by intros [= <-]|done|].
      rewrite Hb. by intros [= <-]. }
    split; intros f Hl; rewrite (Hload f Hl); [by intros k e He|]. intros k [? He]. by rewrite lookup_empty in He.
Qed.

(** A lookup of a reachable host: the file's hash and size as they are. *)
Lemma Lookup_spec fault h lg path parent :
  reach h lg ->
  files (Lookup fault h path parent).1 = files h /\
  match (Lookup fault h path parent).2 with
  | Ok info => exists key fi, layerKey path = Ok key /\ files h !! key = Some fi /\
      lPath info = key /\ lSHA256 info = content_sha (fContent fi) /\ lSize info = fSize fi /\
      (lSource info = LocalSource \/ (key, lSHA256 info, lSource info) ∈ lg)
  | Err _ => match layerKey path with
             | Ok key => files h !! key = None \/ (exists e, load h = Err e) \/
                         exists fi e, files h !! key = Some fi /\ fReadErr fi = Some e
             | Err _ => True
             end
  end.
Proof using CL.
  intros Hreach. destruct (reach_inv _ _ Hreach) as [Hc _].
  unfold Lookup. destruct (layerKey path) as [key|e] eqn:Hk; [|done].
  unfold stat. destruct (files h !! key) as [fi|] eqn:Hfi; [|split; [done|by left]].
  destruct (load h) as [f|e] eqn:Hl; [|split; [done|right; left; eauto]].
  assert (Hre : files (rehash fault h path key parent fi f).1 = files h /\
    match (rehash fault h path key parent fi f).2 with
    | Ok info => lPath info = key /\ lSHA256 info = content_sha (fContent fi) /\ lSize info = fSize fi /\
        lSource info = LocalSource
    | Err _ => exists e, fReadErr fi = Some e
    end).
  { unfold rehash, HashFileSHA256, stat. rewrite (Abs_idem _ _ Hk), Hfi. cbn [result_bind].
    destruct (fReadErr fi) as [e|]; [split; [done|cbn [snd]; eauto]|]. cbn [fst snd]. split; [by apply save_spec|done]. }
  assert (Hrehash : forall r, r = rehash fault h path key parent fi f -> files r.1 = files h /\
    match r.2 with
    | Ok info => exists key0 fi0, Ok key = Ok key0 /\ files h !! key0 = Some fi0 /\ lPath info = key0 /\
        lSHA256 info = content_sha (fContent fi0) /\ lSize info = fSize fi0 /\
        (lSource info = LocalSource \/ (key0, lSHA256 info, lSource info) ∈ lg)
    | Err _ => Some fi = None \/ (exists e, Ok f = Err e) \/
               exists fi0 e, Some fi = Some fi0 /\ fReadErr fi0 = Some e
    end).
  { intros r ->. destruct Hre as [Hfs Hr]. split; [done|]. destruct (rehash _ _ _ _ _ _ _).2 as [info|e].
    - exists key, fi. naive_solver.
    - right; right. destruct Hr as [e' He]. eauto. }
  destruct (f !! key) as [e|] eqn:He; [|by apply Hrehash].
  destruct (entry_fresh e fi parent) eqn:Ef; [|by apply Hrehash].
  unfold entry_fresh in Ef. apply andb_true_iff in Ef as [Ef _]. apply andb_true_iff in Ef as [Hsz Hmt].
  apply Z.eqb_eq in Hsz, Hmt. destruct (Hc f Hl key e He) as [Ht Hs].
  split; [done|]. exists key, fi. cbn [snd info_of lPath lSHA256 lSize lSource]. split_and!; try done.
  by apply Ht.
Qed.

(** ** Descriptors *)
Context {JO : JsonOps} {CO : CborOps} {SS : SeedSort}.

(** What a driver does to describe its build VM. *)
Inductive addition :=
  | Layer (fault : option error) (role path format : string)
  | SeedOne (name path : string)
  | SeedDir (walk : list walked).

Fixpoint add_all (h : host) (b : DiskChain) (adds : list addition) : host * result DiskChain :=
  match adds with
  | [] => (h, Ok b)
  | a :: adds =>
      let '(h, r) := match a with
                     | Layer fault role path format => AddLayer fault h b role path format
                     | SeedOne name path => (h, AddSeedFile h b name path)
                     | SeedDir walk => (h, AddSeedDir h b walk)
                     end in
      match r with Ok b => add_all h b adds | Err e => (h, Err e) end
  end.

(** The layer or seed file names a file of the host by its hash and size. *)
Definition layer_true (h : host) (lg : log) (l : DiskLayer) : Prop :=
  exists fi, files h !! LPath l = Some fi /\ LSHA256 l = content_sha (fContent fi) /\ LSize l = fSize fi /\
    LName l = Base (LPath l) /\ (Source l = LocalSource \/ (LPath l, LSHA256 l, Source l) ∈ lg).
Definition seed_true (h : host) (s : SeedFile) : Prop :=
  exists path fi, files h !! resolve path = Some fi /\ SSHA256 s = content_sha (fContent fi) /\ SSize s = fSize fi.

Definition chain_true (h : host) (lg : log) (b : DiskChain) : Prop :=
  Forall (layer_true h lg) (Layers (desc b)) /\ Forall (seed_true h) (Seed (desc b)).

Lemma AddSeedFile_true h lg b name path b' :
  chain_true h lg b -> AddSeedFile h b name path = Ok b' ->
  chain_true h lg b' /\ DType (desc b') = DType (desc b).
Proof.
  intros [Hl Hs]. unfold AddSeedFile, HashFileSHA256, stat.
  destruct (files h !! resolve path) as [fi|] eqn:Hfi; [|done]. cbn [result_bind wrap_err].
  destruct (fReadErr fi); [done|]. cbn [result_bind wrap_err]. intros [= <-]. split; [|done].
  split; [done|]. cbn. apply Forall_app. split; [done|]. constructor; [|done]. by exists path, fi.
Qed.

Lemma AddSeedDir_true h lg walk : forall b b',
  chain_true h lg b -> AddSeedDir h b walk = Ok b' ->
  chain_true h lg b' /\ DType (desc b') = DType (desc b).
Proof.
  induction walk as [|w walk IH]; intros b b' Hc; cbn [AddSeedDir]; [by intros [= <-]|].
  destruct w as [e| |rel path]; [done|by apply IH|].
  destruct (AddSeedFile h b rel path) as [b1|e] eqn:E; [|done]. cbn [result_bind]. intros Hd.
  destruct (AddSeedFile_true _ _ _ _ _ _ Hc E) as [Hc1 <-]. by apply IH.
Qed.

Lemma AddLayer_true fault h lg b role path format h' b' :
  reach h lg -> chain_true h lg b -> AddLayer fault h b role path format = (h', Ok b') ->
  reach h' lg /\ files h' = files h /\ chain_true h lg b' /\ DType (desc b') = DType (desc b).
Proof using CL.
  intros Hr [Hl Hs]. unfold AddLayer. set (parent := if bool_decide _ then _ else _).
  pose proof (Lookup_spec fault h lg path parent Hr) as Hsp.
  pose proof (reach_lookup h lg fault path parent Hr) as Hr'.
  destruct (Lookup fault h path parent) as [h1 [info|e] ]; [|done]. cbn [fst snd] in *.
  destruct Hsp as (Hfs & key & fi & Hk & Hfi & Hp & Hsh & Hsz & Hsrc). intros [= <- <-].
  split; [done|]. split; [done|]. split; [|done]. split; [|done]. cbn.
  apply Forall_app. split; [done|]. constructor; [|done]. exists fi. cbn. rewrite Hp.
  split_and!; done.
Qed.

Lemma layer_true_files h h' lg l : files h' = files h -> layer_true h lg l -> layer_true h' lg l.
Proof. unfold layer_true. by intros ->. Qed.

Lemma chain_true_files h h' lg b : files h' = files h -> chain_true h lg b -> chain_true h' lg b.
Proof. unfold chain_true, layer_true, seed_true. by intros ->. Qed.

Lemma add_all_true adds : forall h lg b h' b',
  reach h lg -> chain_true h lg b -> add_all h b adds = (h', Ok b') ->
  files h' = files h /\ chain_true h lg b' /\ DType (desc b') = DType (desc b).
Proof using CL.
  induction adds as [|a adds IH]; intros h lg b h' b' Hr Hc; cbn [add_all]; [by intros [= <- <-]|].
  destruct a as [fault role path format|name path|walk].
  - destruct (AddLayer fault h b role path format) as [h1 [b1|e] ] eqn:E; [|done].
    destruct (AddLayer_true _ _ _ _ _ _ _ _ _ Hr Hc E) as (Hr1 & Hfs & Hc1 & <-).
    intros H. destruct (IH _ lg _ _ _ Hr1 (chain_true_files _ _ _ _ Hfs Hc1) H) as (Hfs' & Hc2 & <-).
    rewrite Hfs', Hfs. split; [done|]. split; [|done]. by apply (chain_true_files h1).
  - destruct (AddSeedFile h b name path) as [b1|e] eqn:E; [|done].
    destruct (AddSeedFile_true _ _ _ _ _ _ Hc E) as [Hc1 <-]. by apply IH.
  - destruct (AddSeedDir h b walk) as [b1|e] eqn:E; [|done].
    destruct (AddSeedDir_true _ _ _ _ _ Hc E) as [Hc1 <-]. by apply IH.
Qed.

End Spec.
End LayerCacheSpec.

(** ** An image fetched once and described *)
Module LayerCacheExamples.
Import Toy Environment ClaimEnvironment LayerCache LayerCacheSpec.

#[export] Instance preparation_eq_dec : EqDecision PreparationInput.
Proof. solve_decision. Defined.
#[export] Instance source_eq_dec : EqDecision LayerSource.
Proof. solve_decision. Defined.
#[export] Instance entry_eq_dec : EqDecision layerCacheEntry.
Proof. solve_decision. Defined.

Definition ex_source : LayerSource := mkLayerSource SourceURL "https://images/base.img" true "" [].
Definition ex_disk : vfile := mkFile [Byte.x01; Byte.x02] 7 None.
Definition ex_cache : layerCacheFile :=
  {[ "/img/base.img"%string := mkEntry (content_sha [Byte.x01; Byte.x02]) 2 7 "" ex_source ]}.

(** A codec that knows this one cache. *)
#[local] Instance ex_json : CacheJson := {
  marshal_layers m := if decide (m = ex_cache) then Ok [Byte.x7b] else Err (Msg "unsupported value");
  unmarshal_layers b := if decide (b = [Byte.x7b; Byte.x0a]) then Ok ex_cache else Err (Msg "unexpected end") }.

#[local] Instance ex_json_laws : CacheJsonLaws.
Proof.
  intros m b. cbn [marshal_layers unmarshal_layers ex_json]. case_decide as Hm; [|done].
  intros [= <-]. by subst m.
Qed.

#[local] Instance ex_paths : HostPaths.
Proof. refine {| Abs p := Ok p; resolve p := p |}; [by intros p k [= ->]|done]. Defined.

Definition name_le (a b : SeedFile) : Prop := String.leb (SName a) (SName b) = true.
#[local] Instance name_le_dec : RelDecision name_le := fun a b => decide (String.leb (SName a) (SName b) = true).
#[local] Instance name_le_total : Total name_le.
Proof. intros a b. apply (str_le_total (SName a) (SName b)). Qed.
#[local] Instance name_le_trans : Transitive name_le.
Proof. intros a b c. apply (str_le_trans (SName a) (SName b) (SName c)). Qed.

#[local] Instance ex_sort : SeedSort.
Proof.
  refine {| sort_seed := merge_sort name_le |}.
  - intros l. apply merge_sort_Permutation.
  - intros l. by apply (StronglySorted_merge_sort name_le).
Defined.

#[local] Instance ex_chain_json : JsonOps := {
  json_object _ := Err (Msg "unused");
  json_decode_chain _ := Err (Msg "unused");
  json_marshal_chain d := Ok (bytes_of (Driver d)) }.

(** The fetch recorded the image; the cache file was written. *)
Definition ex_host : host :=
  (Record_ None (mkHost {[ "/img/base.img"%string := ex_disk; "/work/build.sh"%string := mkFile [Byte.x23] 9 None ]} Missing)
     "/img/base.img" (content_sha [Byte.x01; Byte.x02]) "" ex_source).1.

Definition ex_adds : list addition :=
  [Layer None "disk" "/img/base.img" "raw"; SeedOne "build-script" "/work/build.sh"].

End LayerCacheExamples.
