(* ===== verification/Paths.v ===== *)
(** * Path rules (src/collector/paths.go, src/collector/store.go, escapePath)

    The names a build may use for artifacts, context files and captures, as the
    relay and the collector both check them, and the URL escaping between. *)
From S2P Require Import Prelude Text.

#[local] Open Scope string_scope.

Module Paths.

Definition MaxPathLen : Z := 255.
Definition slash : ascii := "/".

(** The source ranges over runes: a byte above 127 is never a safe rune. *)
Definition isSafeChar (c : ascii) : bool :=
  is_alnum c || bool_decide (c = "-"%char) || bool_decide (c = "_"%char) || bool_decide (c = "."%char).

Definition is_punct (c : ascii) : bool :=
  bool_decide (c = "."%char) || bool_decide (c = "-"%char) || bool_decide (c = "_"%char).

(** [seg[len(seg)-1]] of a non-empty segment. *)
Definition ends_badly (seg : string) : bool :=
  match last_char seg with Some c => is_punct c | None => false end.

Definition safeTail (seg : string) : bool :=
  if ends_badly seg then false else str_forallb isSafeChar seg.

Definition first_char (s : string) : option ascii :=
  match s with "" => None | String c _ => Some c end.

Definition bad_ends (p : string) : bool :=
  bool_decide (first_char p = Some slash) || bool_decide (last_char p = Some slash).

Definition dot_seg (seg : string) : bool :=
  bool_decide (seg = "") || bool_decide (seg = ".") || bool_decide (seg = "..").

Definition artifact_seg_ok (seg : string) : bool :=
  negb (dot_seg seg) &&
  negb (match first_char seg with Some c => is_punct c | None => false end || negb (safeTail seg)).

Definition IsSafeArtifactPath (p : string) : bool :=
  if bool_decide (p = "") || (slen p >? MaxPathLen)%Z || bad_ends p then false
  else forallb artifact_seg_ok (Split p slash).

Definition IsSafeContextPath (p : string) : bool :=
  if bool_decide (p = "") || (slen p >? MaxPathLen)%Z || bad_ends p then false
  else forallb (fun seg => negb (dot_seg seg || negb (safeTail seg))) (Split p slash).

Definition sanitizeCaptureName (name : string) : string :=
  if bool_decide (name = "") || (slen name >? MaxPathLen)%Z then ""
  else
    let out := str_map (fun c => if isSafeChar c then c else "_"%char) name in
    if bool_decide (TrimByte out "." = "") then "" else out.

(** ** filepath (Unix)

    [path.Clean] of a relative path keeps a stack of segments: "." and empty
    segments are dropped, ".." pops what it can. *)
Definition clean_seg (stack : list string) (seg : string) : list string :=
  if decide (seg = "" \/ seg = ".") then stack
  else if decide (seg = "..") then
    match stack with
    | top :: rest => if decide (top = "..") then ".." :: stack else rest
    | [] => [".."]
    end
  else seg :: stack.

Definition clean_segs (p : string) : list string :=
  rev (foldl clean_seg [] (Split p slash)).

Definition Clean (p : string) : string :=
  match clean_segs p with [] => "." | segs => Join segs "/" end.

(** [filepath.IsLocal]: only a path with dot segments is cleaned first. *)
Definition IsLocal (p : string) : bool :=
  if bool_decide (p = "") || bool_decide (first_char p = Some slash) then false
  else
    let hasDots := existsb (fun s => bool_decide (s = ".") || bool_decide (s = "..")) (Split p slash) in
    let p := if hasDots then Clean p else p in
    negb (bool_decide (p = "..") || HasPrefix p "../").

Definition localPath (slashPath : string) : result string :=
  if IsLocal slashPath then Ok slashPath
  else Err (Errorf "collector: path %q is not local" [slashPath]).

(** ** net/url *)

(** [url.PathEscape]'s unescaped bytes. *)
Definition path_unreserved (c : ascii) : bool :=
  is_alnum c ||
  bool_decide (c ∈ ["-"; "_"; "."; "~"; "$"; "&"; "+"; "="; ":"; "@"]%char).

Definition escape_char (c : ascii) : string :=
  if path_unreserved c then String c ""
  else String "%" (String (upper_hex (code c / 16)) (String (upper_hex (code c mod 16)) "")).

Fixpoint PathEscape (s : string) : string :=
  match s with "" => "" | String c s' => escape_char c ++ PathEscape s' end.

(** What the server's URL parser does with it. *)
Fixpoint PathUnescape (s : string) : option string :=
  match s with
  | "" => Some ""
  | String c s' =>
      if decide (c = "%"%char) then
        match s' with
        | String a (String b s'') =>
            x ← hex_val a; y ← hex_val b; rest ← PathUnescape s'';
            Some (String (ascii_of_Z (x * 16 + y)) rest)
        | _ => None
        end
      else (fun r => String c r) <$> PathUnescape s'
  end.

Definition escapePath (p : string) : string := Join (PathEscape <$> Split p slash) "/".

(** ** Capture names (src/relay/capture.go, src/relay/relay.go) *)

(** [%03d] of a positive number. *)
Definition pad3 (n : Z) : string :=
  let s := Itoa n in
  if (slen s <? 3)%Z then String.substring 0 (Z.to_nat (3 - slen s)) "000" ++ s else s.

Definition captureBaseName (seq : Z) (method host path : string) : string :=
  let slug := ReplaceByte host ":" "-" in
  let p := TrimPrefix path "/" in
  let p := ReplaceByte p "/" "-" in
  let p := if (slen p >? 80)%Z then String.substring 0 80 p else p in
  let slug := if decide (p = "") then slug else slug ++ "-" ++ p in
  pad3 seq ++ "-" ++ method ++ "-" ++ slug.

Definition captureName (baseName suffix : string) : string :=
  if decide (suffix = "") then baseName else baseName ++ "." ++ suffix.

(** ** Lemmas *)

Lemma safeTail_chars seg : safeTail seg = true -> str_forallb isSafeChar seg = true.
Proof. unfold safeTail. by case_match. Qed.

Lemma artifact_seg_context seg :
  artifact_seg_ok seg = true -> negb (dot_seg seg || negb (safeTail seg)) = true.
Proof.
  unfold artifact_seg_ok. rewrite !andb_true_iff, !negb_true_iff, !orb_false_iff. naive_solver.
Qed.

(** What [IsSafeContextPath] gives: at most 255 safe bytes, no empty or dot
    segment. *)
Lemma context_path_segs p :
  IsSafeContextPath p = true ->
  p <> "" /\ (slen p <= MaxPathLen)%Z /\
  Forall (fun s => s <> "" /\ s <> "." /\ s <> ".." /\ str_forallb isSafeChar s = true) (Split p slash).
Proof.
  unfold IsSafeContextPath. destruct (_ || _) eqn:E; [done|]. rewrite !orb_false_iff in E.
  destruct E as [[E1 E2] _]. bool_to_prop. intros Hf. split_and!; [done|done|].
  apply List.Forall_forall. intros s Hs. eapply forallb_forall in Hf; [|done].
  rewrite negb_true_iff, orb_false_iff, negb_false_iff in Hf. destruct Hf as [Hd Ht].
  unfold dot_seg in Hd. rewrite !orb_false_iff, !bool_decide_eq_false in Hd.
  apply safeTail_chars in Ht. tauto.
Qed.

Lemma artifact_context p : IsSafeArtifactPath p = true -> IsSafeContextPath p = true.
Proof.
  unfold IsSafeArtifactPath, IsSafeContextPath. destruct (_ || _); [done|].
  rewrite !forallb_forall. intros Hf s Hs. by apply artifact_seg_context, Hf.
Qed.

Lemma no_dots_local p :
  p <> "" -> first_char p <> Some slash ->
  Forall (fun s => s <> "." /\ s <> "..") (Split p slash) -> IsLocal p = true.
Proof.
  intros Hp Hc Hs. unfold IsLocal.
  rewrite bool_decide_eq_false_2, bool_decide_eq_false_2 by done. cbn [orb].
  replace (existsb _ _) with false; cycle 1.
  { symmetry. apply not_true_iff_false. intros (s & Hin & Hd)%existsb_exists.
    eapply List.Forall_forall in Hs; [|done].
    rewrite orb_true_iff, !bool_decide_eq_true in Hd. tauto. }
  apply negb_true_iff, orb_false_iff. split; [apply bool_decide_eq_false; intros ->|].
  - vm_compute in Hs. inversion Hs; naive_solver.
  - apply bool_decide_eq_false. intros [r Hr%CutPrefix_Some]. subst p.
    change ("../" ++ r) with (".." ++ String slash r) in Hs. rewrite Split_app in Hs by done.
    inversion Hs; naive_solver.
Qed.

Lemma seg_first p s rest : Split p slash = s :: rest -> s <> "" -> first_char p <> Some slash.
Proof.
  destruct p as [|c p]; [done|]. cbn. case_decide as Hc; [naive_solver|]. naive_solver.
Qed.

Lemma context_local p : IsSafeContextPath p = true -> localPath p = Ok p.
Proof.
  intros Hs. apply context_path_segs in Hs as (Hp & _ & Hf). unfold localPath.
  rewrite no_dots_local; [done|done| |].
  - destruct (Split p slash) as [|s rest] eqn:E; [by apply Split_nonnil in E|].
    apply (seg_first _ _ _ E). apply Forall_cons in Hf as [Hs _]. tauto.
  - eapply Forall_impl; [exact Hf|]. cbn. tauto.
Qed.

Lemma artifacts_local p : IsSafeArtifactPath p = true -> localPath ("artifacts/" ++ p) = Ok ("artifacts/" ++ p).
Proof.
  intros Hs%artifact_context. apply context_path_segs in Hs as (Hp & _ & Hf). unfold localPath.
  rewrite no_dots_local; [done|done|done|].
  change ("artifacts/" ++ p) with ("artifacts" ++ String slash p). rewrite Split_app by done.
  constructor; [done|]. eapply Forall_impl; [exact Hf|]. cbn. tauto.
Qed.

(** ** Escaping *)

Lemma PathEscape_no_slash s : no_char slash (PathEscape s).
Proof.
  induction s as [|c s IH]; [done|]. cbn. unfold no_char in *. rewrite str_forallb_app, IH, andb_true_r.
  destruct c as [[] [] [] [] [] [] [] []]; vm_compute; reflexivity.
Qed.

Lemma PathUnescape_escape_char c s :
  PathUnescape (escape_char c ++ s) = (fun r => String c r) <$> PathUnescape s.
Proof.
  unfold escape_char. destruct (path_unreserved c) eqn:Hu.
  - cbn. rewrite decide_False; [done|]. intros ->. discriminate Hu.
  - cbn. pose proof (code_range c) as Hr.
    pose proof (Z.div_mod (code c) 16 ltac:(done)) as Hdm.
    pose proof (Z.mod_pos_bound (code c) 16 ltac:(lia)) as Hm.
    assert (Hd : (0 <= code c / 16 < 16)%Z) by lia.
    rewrite !hex_val_upper by done. cbn [mbind option_bind].
    replace (code c / 16 * 16 + code c mod 16)%Z with (code c) by lia. rewrite ascii_of_Z_code.
    by destruct (PathUnescape s).
Qed.

Lemma escape_unescape s t u :
  PathUnescape t = Some u -> PathUnescape (PathEscape s ++ t) = Some (s ++ u).
Proof.
  revert t u. induction s as [|c s IH]; intros t u Ht; [done|].
  cbn [PathEscape]. rewrite str_app_assoc, PathUnescape_escape_char, (IH t u) by done. done.
Qed.

Lemma unescape_join l :
  l <> [] -> PathUnescape (Join (PathEscape <$> l) "/") = Some (Join l "/").
Proof.
  induction l as [|x l IH]; [done|]. intros _. destruct l as [|y l].
  - pose proof (escape_unescape x "" "" eq_refl) as Hx. rewrite !str_app_nil_r in Hx. exact Hx.
  - cbn [fmap list_fmap] in *. rewrite !Join_cons. apply escape_unescape.
    cbn [append PathUnescape]. rewrite decide_False by done. rewrite IH by done. done.
Qed.

Lemma PathEscape_safe s : str_forallb isSafeChar s = true -> PathEscape s = s.
Proof.
  induction s as [|c s IH]; [done|]. cbn. rewrite andb_true_iff. intros [Hc Hs].
  rewrite IH by done. unfold escape_char. replace (path_unreserved c) with true; [done|].
  symmetry. unfold isSafeChar, path_unreserved in *. rewrite !orb_true_iff in *.
  rewrite !bool_decide_eq_true in *. set_solver.
Qed.

Lemma map_safe_id s :
  str_forallb isSafeChar s = true -> str_map (fun c => if isSafeChar c then c else "_"%char) s = s.
Proof.
  induction s as [|c s IH]; [done|]. cbn. rewrite andb_true_iff. intros [-> Hs]. by rewrite IH.
Qed.

Lemma map_safe s : str_forallb isSafeChar (str_map (fun c => if isSafeChar c then c else "_"%char) s) = true.
Proof.
  induction s as [|c s IH]; [done|]. cbn. rewrite IH, andb_true_r. by destruct (isSafeChar c) eqn:E.
Qed.

(** ** Properties *)

(** A path the relay accepts for an artifact is accepted by the collector
    with the same name after the URL round trip, is unchanged by the escaping,
    and is local below "artifacts/": no segment is empty, "." or "..", and
    every byte is one of [A-Za-z0-9._-].  Likewise for context paths. *)
Theorem safe_paths_confined p :
  (forall q, PathUnescape (escapePath q) = Some q) /\
  (IsSafeArtifactPath p = true ->
     IsSafeContextPath p = true /\ localPath ("artifacts/" ++ p) = Ok ("artifacts/" ++ p)) /\
  (IsSafeContextPath p = true ->
     escapePath p = p /\ localPath p = Ok p /\ (slen p <= MaxPathLen)%Z /\
     Forall (fun s => s <> "" /\ s <> "." /\ s <> ".." /\ str_forallb isSafeChar s = true)
       (Split p slash)).
Proof.
  split_and!.
  - intros q. unfold escapePath. rewrite unescape_join by apply Split_nonnil.
    by rewrite Join_Split.
  - intros H. split; [by apply artifact_context|by apply artifacts_local].
  - intros H. pose proof (context_path_segs p H) as (Hp & Hl & Hf).
    split_and!; [|by apply context_local|done|done].
    unfold escapePath. transitivity (Join (Split p slash) "/"); [|apply Join_Split]. f_equal.
    induction Hf as [|s l (_ & _ & _ & Hs) _ IH]; [done|]. cbn. by rewrite IH, PathEscape_safe.
Qed.

Lemma sanitized name :
  let out := sanitizeCaptureName name in
  out <> "" ->
  slen out = slen name /\ (slen out <= MaxPathLen)%Z /\ str_forallb isSafeChar out = true /\
  TrimByte out "." <> "" /\ (str_forallb isSafeChar name = true -> out = name).
Proof.
  cbv zeta. unfold sanitizeCaptureName. destruct (bool_decide (name = "") || _) eqn:E1; [done|].
  rewrite orb_false_iff in E1. destruct E1 as [E1 E2]. bool_to_prop.
  set (out := str_map _ name). destruct (bool_decide_reflect (TrimByte out "." = "")) as [Ht|Ht]; [done|].
  assert (Hlen : slen out = slen name) by apply slen_map. intros _.
  split_and!; [done|lia|apply map_safe|done|apply map_safe_id].
Qed.

Lemma sanitized_not_dots out : TrimByte out "." <> "" -> out <> "" /\ out <> "." /\ out <> "..".
Proof. intros H. split_and!; intros ->; by apply H. Qed.

(** [sanitizeCaptureName] returns the empty name or one portable file
    name: of the same length, made of safe bytes, hence a single segment, and
    not a run of dots; a name that is already safe is returned unchanged, and
    sanitizing twice changes nothing. *)
Theorem sanitizeCaptureName_safe name :
  let out := sanitizeCaptureName name in
  sanitizeCaptureName out = out /\
  (out <> "" ->
     slen out = slen name /\ (slen out <= MaxPathLen)%Z /\
     str_forallb isSafeChar out = true /\ Split out slash = [out] /\
     out <> "." /\ out <> ".." /\
     (str_forallb isSafeChar name = true -> out = name)).
Proof.
  cbv zeta. destruct (decide (sanitizeCaptureName name = "")) as [->|Hne]; [done|].
  destruct (sanitized name Hne) as (Hlen & Hmax & Hsafe & Ht & Hid). set (out := sanitizeCaptureName name) in *.
  destruct (sanitized_not_dots out Ht) as (_ & Hd1 & Hd2). split.
  - unfold sanitizeCaptureName. rewrite bool_decide_eq_false_2 by done.
    replace (slen out >? MaxPathLen)%Z with false by (symmetry; rewrite Z.gtb_ltb; apply Z.ltb_ge; lia).
    cbn [orb]. rewrite map_safe_id by done. by rewrite bool_decide_eq_false_2.
  - intros _. split_and!; try done. apply Split_none. unfold no_char.
    eapply str_forallb_impl; [|exact Hsafe].
    intros c Hc. apply negb_true_iff, bool_decide_eq_false. intros ->. discriminate Hc.
Qed.
End Paths.
