(* ===== verification/Translate.v ===== *)
(** * Containerfiles translated to scripts (src/driver/script/translate.go)

    The translator as a loop over the file's lines with its builder passed
    along.  The build context is a parameter: which sources are directories,
    what walking one visits, what a glob matches; and so is the order in which
    Go ranges over a map.  [lex] is the part of the POSIX shell's token
    recognition the scripts are made of. *)
From S2P Require Import Prelude Text Paths.

#[local] Open Scope string_scope.
#[local] Open Scope Z_scope.

Module Translate.
Import Paths.

(** ** Package path *)

(** [path.Clean]; a rooted path cannot go above its root. *)
Definition clean_seg_rooted (stack : list string) (seg : string) : list string :=
  if decide (seg = "" \/ seg = ".") then stack
  else if decide (seg = "..") then tail stack
  else seg :: stack.

Definition path_Clean (p : string) : string :=
  match p with
  | "" => "."
  | String c p' =>
      if decide (c = "/"%char) then "/" ++ Join (rev (foldl clean_seg_rooted [] (Split p' "/"))) "/"
      else Clean p
  end.

(** [path.Dir]: what precedes the last slash, with it, cleaned. *)
Definition through_slash (p : string) : string :=
  match rev (Split p "/") with
  | _ :: ((_ :: _) as dirs) => Join (rev dirs) "/" ++ "/"
  | _ => ""
  end.
Definition path_Dir (p : string) : string := path_Clean (through_slash p).

(** [path.Base] *)
Definition path_Base (p : string) : string :=
  if decide (p = "") then "."
  else let p := TrimRightByte p "/" in
       match last (Split p "/") with
       | Some b => if decide (b = "") then "/" else b
       | None => "/"
       end.

(** ** Quoting *)

Definition str_existsb (f : ascii -> bool) (s : string) : bool := negb (str_forallb (fun c => negb (f c)) s).

Definition newline : ascii := "010".
Definition tab : ascii := "009".
Definition dquote : ascii := "034".
Definition squote : ascii := "'".

(** The characters that make a word need quotes. *)
Definition unsafe_chars : list ascii :=
  [" "; tab; newline; squote; dquote; "\"; "$"; "`"; "!"; "#"; "&"; "|"; ";"; "("; ")"; "{"; "}"; "[";
   "]"; "<"; ">"; "?"; "*"; "~"]%char.
Definition unsafe (c : ascii) : bool := bool_decide (c ∈ unsafe_chars).

(** [shellQuote] *)
Definition shellQuote (s : string) : string :=
  if decide (s = "") then "''"
  else if negb (str_existsb unsafe s) then s
  else "'" ++ ReplaceByte s "'" "'\''" ++ "'".

(** The length of the UTF-8 sequence a string starts with, 0 when its first
    byte starts none. *)
Definition cont (c : ascii) : bool := (128 <=? code c) && (code c <? 192).
Definition utf8_len (s : string) : nat :=
  match s with
  | "" => 0
  | String c s1 =>
      if code c <? 128 then 1
      else match s1 with
      | String d s2 =>
          if (194 <=? code c) && (code c <? 224) && cont d then 2
          else match s2 with
          | String e s3 =>
              if (224 <=? code c) && (code c <? 240) && cont d && cont e &&
                 (if code c =? 224 then 160 <=? code d else if code c =? 237 then code d <? 160 else true) then 3
              else match s3 with
              | String f _ =>
                  if (240 <=? code c) && (code c <? 245) && cont d && cont e && cont f &&
                     (if code c =? 240 then 144 <=? code d else if code c =? 244 then code d <? 144 else true) then 4
                  else 0
              | "" => 0
              end
          | "" => 0
          end
      | "" => 0
      end
  end.

(** [for _, c := range s] writing each rune back: an invalid byte becomes
    U+FFFD; [fuel] is the length of [s]. *)
Definition RuneError : string := String "239" (String "191" (String "189" "")).
Fixpoint escape_runes (fuel : nat) (s : string) : string :=
  match fuel with
  | O => ""
  | S fuel' =>
      match s with
      | "" => ""
      | String c s' =>
          if code c <? 128 then
            (if bool_decide (c ∈ [dquote; "\"; "`"]%char) then String "\" (String c "") else String c "") ++
            escape_runes fuel' s'
          else match utf8_len s with
          | O => RuneError ++ escape_runes fuel' s'
          | n => substring 0 n s ++ escape_runes fuel' (substring n (String.length s - n) s)
          end
      end
  end.

(** [shellQuoteEnv] *)
Definition shellQuoteEnv (s : string) : string :=
  if decide (s = "") then "''"
  else if negb (str_existsb unsafe s) then s
  else String dquote "" ++ escape_runes (String.length s) s ++ String dquote "".

(** ** Parsing directives *)

Definition ToUpper (s : string) : string :=
  str_map (fun c => if is_lower c then ascii_of_Z (code c - 32) else c) s.

(** [splitDirective]: cut at the first space or tab. *)
Fixpoint cut_blank (s : string) : option (string * string) :=
  match s with
  | "" => None
  | String c s' =>
      if bool_decide (c = " "%char) || bool_decide (c = tab) then Some ("", s')
      else match cut_blank s' with Some (a, b) => Some (String c a, b) | None => None end
  end.
Definition splitDirective (line : string) : string * string :=
  match cut_blank line with
  | None => (ToUpper line, "")
  | Some (d, rest) => (ToUpper d, TrimSpace rest)
  end.

Definition parseFrom (rest : string) : string :=
  match Fields rest with [] => rest | f :: _ => f end.

(** [parseCopyFlags]: the chown, the chmod and the positional arguments. *)
Definition copy_flag (acc : string * string * list string) (p : string) : string * string * list string :=
  let '(chown, chmod, positional) := acc in
  if HasPrefix p "--chown=" then (TrimPrefix p "--chown=", chmod, positional)
  else if HasPrefix p "--chmod=" then (chown, TrimPrefix p "--chmod=", positional)
  else (chown, chmod, (positional ++ [p])%list).
Definition parseCopyFlags (args : string) : string * string * list string :=
  foldl copy_flag ("", "", []) (Fields args).

Definition is_word (c : ascii) : bool := is_alnum c || bool_decide (c = "_"%char).

(** [envPairRe]: a name of word characters, then the value to the end; a dot
    does not match a newline. *)
Definition envPair (field : string) : option (string * string) :=
  match Split field "=" with
  | k :: v :: rest =>
      let v := Join (v :: rest) "=" in
      if negb (bool_decide (k = "")) && str_forallb is_word k && str_forallb (fun c => negb (bool_decide (c = newline))) v
      then Some (k, v) else None
  | _ => None
  end.

Definition first_char (s : string) : option ascii := match s with "" => None | String c _ => Some c end.

(** [unquote] *)
Definition unquote (s : string) : string :=
  if (2 <=? slen s) &&
     ((bool_decide (first_char s = Some dquote) && bool_decide (last_char s = Some dquote)) ||
      (bool_decide (first_char s = Some squote) && bool_decide (last_char s = Some squote)))
  then substring 1 (String.length s - 2) s else s.

(** [splitEnvFields] *)
Fixpoint splitEnvFields_go (inQuote : option ascii) (current : string) (s : string) : list string :=
  match s with
  | "" => if decide (current = "") then [] else [current]
  | String ch s' =>
      let keep := (current ++ String ch "")%string in
      match inQuote with
      | Some q => splitEnvFields_go (if decide (ch = q) then None else Some q) keep s'
      | None =>
          if bool_decide (ch = dquote) || bool_decide (ch = squote) then splitEnvFields_go (Some ch) keep s'
          else if bool_decide (ch = " "%char) || bool_decide (ch = tab) then
            (if decide (current = "") then [] else [current]) ++ splitEnvFields_go None "" s'
          else match s' with
          | String d s'' =>
              if bool_decide (ch = "\"%char) && bool_decide (d = newline)
              then splitEnvFields_go None current s''
              else splitEnvFields_go None keep s'
          | "" => splitEnvFields_go None keep s'
          end
      end
  end%list.
Definition splitEnvFields (s : string) : list string := splitEnvFields_go None "" s.

(** [parseEnv] *)
Definition env_field (m : gmap string string) (field : string) : gmap string string :=
  match envPair field with Some (k, v) => <[k := unquote v]> m | None => m end.

Definition parseEnv (rest : string) : gmap string string :=
  let m := foldl env_field ∅ (splitEnvFields rest) in
  if decide (m = ∅) then
    match Split rest " " with
    | k :: v :: vs => {[ TrimSpace k := unquote (TrimSpace (Join (v :: vs) " ")) ]}
    | _ => ∅
    end
  else m.

(** [parseArg] *)
Definition parseArg (rest : string) : string * string :=
  let rest := TrimSpace rest in
  match Split rest "=" with
  | k :: v :: vs => (k, Join (v :: vs) "=")
  | _ => (rest, "")
  end.

(** ** [os.Expand] *)
Definition isShellSpecialVar (c : ascii) : bool :=
  bool_decide (c ∈ ["*"; "#"; "$"; "@"; "!"; "?"; "-"]%char) || is_digit c.

(** The name up to the closing brace, and what follows it. *)
Fixpoint to_brace (s : string) : option (string * string) :=
  match s with
  | "" => None
  | String c s' =>
      if decide (c = "}"%char) then Some ("", s')
      else match to_brace s' with Some (n, r) => Some (String c n, r) | None => None end
  end.
Fixpoint take_while (f : ascii -> bool) (s : string) : string * string :=
  match s with
  | String c s' => if f c then (fun p => (String c p.1, p.2)) (take_while f s') else ("", s)
  | "" => ("", "")
  end.

(** [getShellName] of a nonempty string: the name, whether anything was
    consumed, and the rest. *)
Definition getShellName (s : string) : string * bool * string :=
  match s with
  | String c s' =>
      if decide (c = "{"%char) then
        match s' with
        | String d (String "}" s'') => if isShellSpecialVar d then (String d "", true, s'')
                                       else match to_brace s' with
                                            | Some (n, r) => (n, true, r)
                                            | None => ("", true, s')
                                            end
        | _ => match to_brace s' with Some (n, r) => (n, true, r) | None => ("", true, s') end
        end
      else if isShellSpecialVar c then (String c "", true, s')
      else let '(n, r) := take_while is_word s in (n, negb (bool_decide (n = "")), r)
  | "" => ("", false, "")
  end.

Fixpoint Expand (fuel : nat) (mapping : string -> string) (s : string) : string :=
  match fuel with
  | O => ""
  | S fuel' =>
      match s with
      | "" => ""
      | String c s' =>
          if bool_decide (c = "$"%char) && negb (bool_decide (s' = "")) then
            let '(name, consumed, r) := getShellName s' in
            (if decide (name = "") then (if consumed then "" else "$") else mapping name) ++
            Expand fuel' mapping r
          else String c (Expand fuel' mapping s')
      end
  end.

Definition expandEnv (s : string) (env : gmap string string) : string :=
  Expand (String.length s) (fun key => match env !! key with Some v => v | None => "" end) s.


(** ** The build context *)

(** What [filepath.Walk] finds: files and directories in order, or an error. *)
Inductive tree :=
  | TFile (rel : string)
  | TDir (name : string) (children : list tree)
  | TErr (e : error).

(** Paths are relative to the context directory and slash-separated. *)
Class BuildContext := {
  ctx_isDir : string -> bool;
  ctx_walk : string -> tree;
  ctx_glob : string -> result (list (string * bool))  (* a match, and whether it is a file *) }.

(** How Go ranges over a map, which may differ from one time to the next; the
    time is told by the script written so far. *)
Class MapOrder := {
  range : string -> gmap string string -> list (string * string);
  range_perm t m : range t m ≡ₚ map_to_list m }.

(** The walk's visits: a [.git] directory is skipped, an error ends it. *)
Fixpoint walk_files (t : tree) : result (list string) :=
  match t with
  | TFile rel => Ok [rel]
  | TErr e => Err e
  | TDir name children =>
      if decide (name = ".git") then Ok []
      else (fix walk_all (l : list tree) : result (list string) :=
              match l with
              | [] => Ok []
              | t :: l => result_bind (walk_files t) (fun a => result_bind (walk_all l) (fun b => Ok (a ++ b)%list))
              end) children
  end.

Section Translate.
Context {BC : BuildContext} {MO : MapOrder}.

Definition expandContextPath (src : string) : result (list string) :=
  if ctx_isDir src then walk_files (ctx_walk src)
  else result_bind (ctx_glob src) (fun ms =>
    Ok (omap (fun m : string * bool => if m.2 && negb (HasPrefix m.1 ".git/") then Some m.1 else None) ms)).

Record fetchFile := mkFetch { contextPath : string; destPath : string }.

(** One source of [resolveCopySources]. *)
Definition resolve_source (src : string) : result (list fetchFile) :=
  result_bind (expandContextPath src) (fun expanded =>
    Ok ((fun f => mkFetch f (if ctx_isDir src then TrimPrefix f (path_Clean src ++ "/") else path_Base f)) <$> expanded)).

Fixpoint resolveCopySources (sources : list string) : result (list fetchFile * bool) :=
  match sources with
  | [] => Ok ([], false)
  | src :: sources =>
      result_bind (resolve_source src) (fun fs =>
      result_bind (resolveCopySources sources) (fun '(rest, anyDir) =>
        Ok ((fs ++ rest)%list, ctx_isDir src || anyDir)))
  end.

Record builder := mkBuilder { image : string; sb : string; env : gmap string string }.
Definition write (b : builder) (s : string) : builder := mkBuilder (image b) (sb b ++ s) (env b).

Definition nl : string := String newline "".

(** [writeFetches]: the commands for one file, and for files in a directory. *)
Definition fetch_line (f out : string) : string := "warden-io fetch " ++ shellQuote f ++ " -o " ++ shellQuote out ++ nl.
Definition mkdir_line (dir : string) : string := "mkdir -p " ++ shellQuote dir ++ nl.

Definition fetch_into (dest : string) (f : fetchFile) : string :=
  let out := dest ++ destPath f in
  let dir := path_Dir out in
  (if decide (dir ++ "/" = dest) then "" else mkdir_line dir) ++ fetch_line (contextPath f) out.

Definition writeFetches (files : list fetchFile) (dest : string) : string :=
  if negb (HasSuffix dest "/") then
    let dir := path_Dir dest in
    (if decide (dir = "." \/ dir = "/") then "" else mkdir_line dir) ++
    match files with f :: _ => fetch_line (contextPath f) dest | [] => "" end
  else mkdir_line dest ++ String.concat "" (fetch_into dest <$> files).

(** The last of several arguments, and those before it. *)
Definition split_last (l : list string) : option (list string * string) :=
  match rev l with [] => None | d :: r => Some (rev r, d) end.

(** [handleCopy] *)
Definition handleCopy (b : builder) (rest : string) : result builder :=
  if Contains rest "--from=" then Err (Msg "COPY --from= (multi-stage) not supported")
  else
    let '(chown, chmod, positional) := parseCopyFlags rest in
    if len positional <? 2 then Err (Msg "COPY requires source and destination")
    else match split_last positional with
    | None => Err (Msg "COPY requires source and destination")
    | Some (sources, dest) =>
        result_bind (resolveCopySources sources) (fun '(files, anyDir) =>
          if len files =? 0 then Ok (write b ("# (empty COPY: no matching files)" ++ nl))
          else
            let dest := if anyDir || (1 <? len files) then TrimSuffix dest "/" ++ "/" else dest in
            let b := write b (writeFetches files dest) in
            let b := if decide (chown = "") then b else write b ("chown -R " ++ chown ++ " " ++ shellQuote dest ++ nl) in
            Ok (if decide (chmod = "") then b else write b ("chmod -R " ++ chmod ++ " " ++ shellQuote dest ++ nl)))
    end.

Definition rejectOrIgnore (b : builder) (directive rest : string) : result builder :=
  if decide (directive = "USER")
  then Err (Errorf "USER directive not supported in script mode (build runs as root): %s" [rest])
  else if decide (directive = "SHELL") then Err (Msg "SHELL directive not supported in script mode")
  else if decide (directive = "ADD") then Err (Msg "ADD not supported (use COPY for local files, RUN for remote)")
  else if decide (directive ∈ ["EXPOSE"; "VOLUME"; "LABEL"; "STOPSIGNAL"; "HEALTHCHECK"; "ONBUILD"; "ENTRYPOINT"; "CMD"])
  then Ok b
  else Err (Errorf "unsupported directive: %s" [directive]).

Definition export_line (k v : string) : string := "export " ++ k ++ "=" ++ shellQuoteEnv v ++ nl.

Definition set_env (b : builder) (kv : string * string) : builder :=
  mkBuilder (image b) (sb b ++ export_line kv.1 kv.2) (<[kv.1 := kv.2]> (env b)).

(** [handleDirective] *)
Definition handleDirective (b : builder) (directive rest : string) : result builder :=
  if decide (directive = "FROM") then
    if negb (bool_decide (image b = "")) then Err (Msg "multi-stage builds not yet supported (second FROM)")
    else Ok (mkBuilder (parseFrom rest) (sb b) (env b))
  else if decide (directive = "RUN") then Ok (write b (rest ++ nl))
  else if decide (directive = "ENV") then Ok (foldl set_env b (range (sb b) (parseEnv rest)))
  else if decide (directive = "WORKDIR") then
    let dir := expandEnv (TrimSpace rest) (env b) in
    Ok (write b (mkdir_line dir ++ "cd " ++ shellQuote dir ++ nl))
  else if decide (directive = "COPY") then handleCopy b rest
  else if decide (directive = "ARG") then
    let '(k, v) := parseArg rest in
    if decide (v = "") then Ok b
    else Ok (mkBuilder (image b) (sb b ++ ": ${" ++ k ++ ":=" ++ shellQuote v ++ "}" ++ nl ++ "export " ++ k ++ nl)
               (<[k := v]> (env b)))
  else rejectOrIgnore b directive rest.

Definition MaxScanTokenSize : Z := 64 * 1024.

(** The loop of [Translate]; lines keep their length for the scanner's limit,
    which counts a carriage return. *)
Fixpoint translate_lines (b : builder) (continuation : string) (lines : list string) : result builder :=
  match lines with
  | [] => Ok b
  | raw :: lines =>
      if MaxScanTokenSize <=? slen raw then Err (Wrap "reading containerfile" (Sentinel "bufio.Scanner: token too long")) else
      let line := TrimSuffix raw (String "013" "") in
      if HasSuffix line "\" then translate_lines b (continuation ++ TrimSuffix line "\" ++ "\" ++ nl) lines
      else
        let line := TrimSpace (continuation ++ line) in
        if bool_decide (line = "") || HasPrefix line "#" then translate_lines b "" lines
        else
          let '(directive, rest) := splitDirective line in
          match handleDirective b directive rest with
          | Err e => Err e
          | Ok b => translate_lines b "" lines
          end
  end.

(** The lines the scanner sees, carriage returns kept. *)
Definition raw_lines (s : string) : list string :=
  let ls := Split s newline in match rev ls with "" :: r => rev r | _ => ls end.

Definition new_builder : builder := mkBuilder "" ("#!/bin/sh" ++ nl ++ "set -e" ++ nl) ∅.

(** [Translate] of the file's text: the image and the script. *)
Definition Translate (text : string) : result (string * string) :=
  match translate_lines new_builder "" (raw_lines text) with
  | Err e => Err e
  | Ok b => if decide (image b = "") then Err (Msg "no FROM directive found") else Ok (image b, sb b)
  end.
End Translate.
End Translate.

(** * What the shell makes of a script *)
Module Shell.
Import Translate.

(** Where the lexer is: outside quotes, in single or in double quotes. *)
Inductive quoting := Plain | Single | Double.

Definition add (cur : option string) (c : ascii) : option string := Some (default "" cur ++ String c "").
Definition push (cmd : list string) (cur : option string) : list string :=
  match cur with Some w => (cmd ++ [w])%list | None => cmd end.
Definition command (cmd : list string) : list (list string) := match cmd with [] => [] | _ => [cmd] end.

(** Characters with a meaning of their own outside quotes; a script using one
    of them there is not lexed. *)
Definition operators : list ascii :=
  ["$"; "`"; "!"; "#"; "&"; "|"; ";"; "("; ")"; "{"; "}"; "["; "]"; "<"; ">"; "?"; "*"; "~"]%char.

(** Token recognition (POSIX Shell Command Language, 2.2 and 2.3) of simple
    commands without expansions: the commands, each its words.  [cur] is the
    word begun, [cmd] the command's words. *)
Fixpoint lex (q : quoting) (cur : option string) (cmd : list string) (s : string) : option (list (list string)) :=
  match s with
  | "" => match q with Plain => Some (command (push cmd cur)) | _ => None end
  | String c s' =>
      match q with
      | Single => if decide (c = squote) then lex Plain cur cmd s' else lex Single (add cur c) cmd s'
      | Double =>
          if decide (c = dquote) then lex Plain cur cmd s'
          else if decide (c ∈ ["$"; "`"]%char) then None
          else if decide (c = "\"%char) then
            match s' with
            | String d s'' =>
                if decide (d ∈ ["$"; "`"; dquote; "\"]%char) then lex Double (add cur d) cmd s''
                else if decide (d = newline) then lex Double cur cmd s''
                else lex Double (add cur c) cmd s'
            | "" => None
            end
          else lex Double (add cur c) cmd s'
      | Plain =>
          if decide (c = squote) then lex Single (Some (default "" cur)) cmd s'
          else if decide (c = dquote) then lex Double (Some (default "" cur)) cmd s'
          else if decide (c = "\"%char) then
            match s' with
            | String d s'' => if decide (d = newline) then lex Plain cur cmd s'' else lex Plain (add cur d) cmd s''
            | "" => None
            end
          else if decide (c = " "%char \/ c = tab) then lex Plain None (push cmd cur) s'
          else if decide (c = newline) then
            cmds ← lex Plain None [] s'; Some (command (push cmd cur) ++ cmds)%list
          else if decide (c ∈ operators) then None
          else lex Plain (add cur c) cmd s'
      end
  end.

Definition commands (script : string) : option (list (list string)) := lex Plain None [] script.

(** ** Quoted words *)

(** Characters that need no quotes stand for themselves. *)
Lemma lex_literal w : forall cur cmd rest,
  w <> "" -> str_forallb (fun c => negb (unsafe c)) w = true ->
  lex Plain cur cmd (w ++ rest) = lex Plain (Some (default "" cur ++ w)) cmd rest.
Proof.
  induction w as [|c w IH]; intros cur cmd rest Hne Hw; [done|].
  cbn [str_forallb] in Hw. apply andb_true_iff in Hw as [Hc Hw].
  apply negb_true_iff, bool_decide_eq_false in Hc.
  assert (Hstep : lex Plain cur cmd (String c (w ++ rest)) = lex Plain (add cur c) cmd (w ++ rest)).
  { cbn [lex]. rewrite !decide_False; [done|..]; unfold unsafe_chars, operators in *; set_solver. }
  change (String c w ++ rest) with (String c (w ++ rest)). rewrite Hstep.
  destruct w as [|d w]; [done|]. rewrite IH by done. unfold add. cbn [from_option id].
  by rewrite str_app_assoc.
Qed.

Lemma lex_single s : forall cur cmd rest,
  lex Single (Some cur) cmd (ReplaceByte s "'" "'\''" ++ String squote rest) = lex Plain (Some (cur ++ s)) cmd rest.
Proof.
  induction s as [|c s IH]; intros cur cmd rest.
  - cbn [ReplaceByte append lex]. by rewrite str_app_nil_r.
  - cbn [ReplaceByte]. destruct (decide (c = "'"%char)) as [->|Hc].
    + assert (H : forall t, lex Single (Some cur) cmd ("'\''" ++ t) = lex Single (Some (cur ++ String "'" "")) cmd t).
      { intros t. reflexivity. }
      rewrite str_app_assoc, H, IH. by rewrite str_app_assoc.
    + cbn [append lex]. rewrite decide_False by done. unfold add. cbn [from_option id]. rewrite IH.
      by rewrite str_app_assoc.
Qed.

Lemma safe_word s : str_existsb unsafe s = false <-> str_forallb (fun c => negb (unsafe c)) s = true.
Proof. unfold str_existsb. apply negb_false_iff. Qed.

(** [shellQuote] makes any text (part of) one word with that text as its value. *)
Lemma lex_shellQuote_at s cur cmd rest :
  lex Plain cur cmd (shellQuote s ++ rest) = lex Plain (Some (default "" cur ++ s)) cmd rest.
Proof.
  unfold shellQuote. destruct (decide (s = "")) as [->|Hne]; [by rewrite str_app_nil_r|].
  destruct (str_existsb unsafe s) eqn:E; cbn [negb].
  - rewrite !str_app_assoc. exact (lex_single s (default "" cur) cmd rest).
  - rewrite lex_literal; [done|done|by apply safe_word].
Qed.

Lemma lex_shellQuote s cmd rest : lex Plain None cmd (shellQuote s ++ rest) = lex Plain (Some s) cmd rest.
Proof. apply lex_shellQuote_at. Qed.

(** ** ENV values *)

(** Text that is valid UTF-8; [fuel] is its length. *)
Fixpoint utf8_ok (fuel : nat) (s : string) : bool :=
  match fuel with
  | O => bool_decide (s = "")
  | S fuel' =>
      match s with
      | "" => true
      | String _ _ => match utf8_len s with O => false | n => utf8_ok fuel' (substring n (String.length s - n) s) end
      end
  end.

Lemma utf8_len_ascii c s : code c < 128 -> utf8_len (String c s) = 1%nat.
Proof. intros H. cbn [utf8_len]. by destruct (Z.ltb_spec (code c) 128); [|lia]. Qed.

(** A longer sequence is made of bytes from 128. *)
Lemma utf8_len_high c s n : 128 <= code c -> utf8_len (String c s) = S n ->
  exists h, String c s = h ++ substring (S n) (String.length (String c s) - S n) (String c s) /\
    substring 0 (S n) (String c s) = h /\ str_forallb (fun d => 128 <=? code d) h = true.
Proof.
  intros Hc Hn. cbn [utf8_len] in Hn. destruct (Z.ltb_spec (code c) 128); [lia|].
  assert (Hcont : forall d, cont d = true -> 128 <= code d).
  { intros d Hd. unfold cont in Hd. apply andb_true_iff in Hd as [Hd _]. by apply Z.leb_le. }
  destruct s as [|d s]; [done|]. destruct ((194 <=? code c) && (code c <? 224) && cont d) eqn:E2.
  { injection Hn as <-. apply andb_true_iff in E2 as [_ Hd%Hcont].
    exists (String c (String d "")). cbn. rewrite !Nat.sub_0_r. split; [by rewrite substring_all|].
    split; [by destruct s|]. destruct (Z.leb_spec 128 (code c)), (Z.leb_spec 128 (code d)); try lia; done. }
  destruct s as [|e s]; [done|]. match type of Hn with (if ?b then _ else _) = _ => destruct b eqn:E3 end.
  { injection Hn as <-. apply andb_true_iff in E3 as [E3 _]. apply andb_true_iff in E3 as [E3 He%Hcont].
    apply andb_true_iff in E3 as [_ Hd%Hcont].
    exists (String c (String d (String e ""))). cbn. rewrite !Nat.sub_0_r. split; [by rewrite substring_all|].
    split; [by destruct s|].
    destruct (Z.leb_spec 128 (code c)), (Z.leb_spec 128 (code d)), (Z.leb_spec 128 (code e)); try lia; done. }
  destruct s as [|f s]; [done|]. match type of Hn with (if ?b then _ else _) = _ => destruct b eqn:E4 end; [|done].
  injection Hn as <-. apply andb_true_iff in E4 as [E4 _]. apply andb_true_iff in E4 as [E4 Hf%Hcont].
  apply andb_true_iff in E4 as [E4 He%Hcont]. apply andb_true_iff in E4 as [_ Hd%Hcont].
  exists (String c (String d (String e (String f "")))). cbn. rewrite !Nat.sub_0_r. split; [by rewrite substring_all|].
  split; [by destruct s|].
  destruct (Z.leb_spec 128 (code c)), (Z.leb_spec 128 (code d)), (Z.leb_spec 128 (code e)), (Z.leb_spec 128 (code f)); try lia; done.
Qed.

Lemma lex_high h : forall cur cmd rest,
  str_forallb (fun d => 128 <=? code d) h = true ->
  lex Double (Some cur) cmd (h ++ rest) = lex Double (Some (cur ++ h)) cmd rest.
Proof.
  induction h as [|c h IH]; intros cur cmd rest Hh; [by rewrite str_app_nil_r|].
  cbn [str_forallb] in Hh. apply andb_true_iff in Hh as [Hc Hh]. apply Z.leb_le in Hc.
  assert (Hne : forall d, code d < 128 -> c <> d) by (intros d Hd ->; lia).
  change (String c h ++ rest) with (String c (h ++ rest)). cbn [lex].
  rewrite !decide_False; [|apply Hne; done|..|apply Hne; done].
  - unfold add. cbn [from_option id]. rewrite IH by done. by rewrite str_app_assoc.
  - intros Hin. apply elem_of_cons in Hin as [Hin|Hin]; [by apply (Hne "$"%char)|].
    apply list_elem_of_singleton in Hin. by apply (Hne "`"%char).
Qed.


Definition no_dollar (s : string) : Prop := str_forallb (fun c => negb (bool_decide (c = "$"%char))) s = true.

Lemma no_dollar_app a b : no_dollar (a ++ b) <-> no_dollar a /\ no_dollar b.
Proof. unfold no_dollar. by rewrite str_forallb_app, andb_true_iff. Qed.

(** One ASCII character as written between double quotes. *)
Lemma lex_escaped c cur cmd rest : c <> "$"%char ->
  lex Double (Some cur) cmd
    ((if bool_decide (c ∈ [dquote; "\"; "`"]%char) then String "\" (String c "") else String c "") ++ rest) =
  lex Double (Some (cur ++ String c "")) cmd rest.
Proof.
  intros Hd. destruct (bool_decide_reflect (c ∈ [dquote; "\"; "`"]%char)) as [Hin|Hin].
  - apply elem_of_cons in Hin as [->|Hin]; [done|]. apply elem_of_cons in Hin as [->|Hin]; [done|].
    apply list_elem_of_singleton in Hin as ->. done.
  - change (String c "" ++ rest) with (String c rest). cbn [lex].
    rewrite !decide_False; [done|set_solver..].
Qed.

Lemma lex_escape_runes n : forall s cur cmd rest,
  (String.length s <= n)%nat -> utf8_ok n s = true -> no_dollar s ->
  lex Double (Some cur) cmd (escape_runes n s ++ String dquote rest) = lex Plain (Some (cur ++ s)) cmd rest.
Proof.
  induction n as [|n IH]; intros s cur cmd rest Hn Hok Hd.
  { destruct s; [|cbn in Hn; lia]. cbn. by rewrite str_app_nil_r. }
  destruct s as [|c s]; [cbn; by rewrite str_app_nil_r|]. cbn [escape_runes utf8_ok] in *.
  destruct (Z.ltb_spec (code c) 128) as [Hc|Hc].
  - rewrite utf8_len_ascii in Hok by done. cbn [String.length substring] in Hok.
    rewrite Nat.sub_succ, Nat.sub_0_r, substring_all in Hok.
    change (no_dollar (String c "" ++ s)) in Hd. apply no_dollar_app in Hd as [Hdc Hd].
    unfold no_dollar in Hdc. cbn [str_forallb] in Hdc. rewrite andb_true_r in Hdc.
    apply negb_true_iff, bool_decide_eq_false in Hdc.
    rewrite str_app_assoc, lex_escaped by done. rewrite IH; [by rewrite str_app_assoc|cbn in Hn; lia|done|done].
  - destruct (utf8_len (String c s)) as [|k] eqn:El; [done|].
    destruct (utf8_len_high c s k Hc El) as (h & Hs & Hh & Hhigh).
    set (t := substring (S k) (String.length (String c s) - S k) (String c s)) in *.
    rewrite Hh, str_app_assoc, lex_high by done. rewrite Hs in Hd. apply no_dollar_app in Hd as [_ Hd].
    assert (Hlen : (String.length h + String.length t = String.length (String c s))%nat)
      by (rewrite Hs at 1; by rewrite str_length_app).
    assert (Hh0 : h <> "") by (intros ->; rewrite <- Hh in *; discriminate Hh).
    assert (Ht : (String.length t <= n)%nat).
    { destruct h; [done|]. cbn [String.length] in *. lia. }
    rewrite IH by done. rewrite str_app_assoc. by rewrite <- Hs.
Qed.

(** [shellQuoteEnv] too, for valid UTF-8 without a dollar to expand. *)
Lemma lex_shellQuoteEnv s cur cmd rest :
  utf8_ok (String.length s) s = true -> no_dollar s ->
  lex Plain cur cmd (shellQuoteEnv s ++ rest) = lex Plain (Some (default "" cur ++ s)) cmd rest.
Proof.
  intros Hok Hd. unfold shellQuoteEnv. destruct (decide (s = "")) as [->|Hne]; [by rewrite str_app_nil_r|].
  destruct (str_existsb unsafe s) eqn:E; cbn [negb].
  - rewrite !str_app_assoc. exact (lex_escape_runes (String.length s) s (default "" cur) cmd rest ltac:(lia) Hok Hd).
  - rewrite lex_literal; [done|done|by apply safe_word].
Qed.

(** ** Lines *)

Lemma lex_end w cmd rest :
  lex Plain (Some w) cmd (nl ++ rest) = (cs ← commands rest; Some ((cmd ++ [w])%list :: cs)).
Proof.
  change (nl ++ rest) with (String newline rest). unfold commands. cbn [lex].
  rewrite !decide_False by (intros H; first [discriminate H | destruct H; discriminate]).
  rewrite decide_True by done. cbn [push]. destruct (lex Plain None [] rest); [|done]. cbn.
  by destruct (cmd ++ [w])%list eqn:E; [destruct cmd|].
Qed.

Lemma lex_space w cmd rest : lex Plain (Some w) cmd (String " " rest) = lex Plain None (cmd ++ [w])%list rest.
Proof. done. Qed.

Lemma commands_mkdir d rest :
  commands (mkdir_line d ++ rest) = (cs ← commands rest; Some (["mkdir"; "-p"; d] :: cs)).
Proof.
  unfold mkdir_line. rewrite !str_app_assoc. unfold commands at 1.
  change (lex Plain None [] ("mkdir -p " ++ ?r)) with (lex Plain None ["mkdir"; "-p"] r).
  by rewrite lex_shellQuote, lex_end.
Qed.

Lemma commands_fetch f out rest :
  commands (fetch_line f out ++ rest) = (cs ← commands rest; Some (["warden-io"; "fetch"; f; "-o"; out] :: cs)).
Proof.
  unfold fetch_line. rewrite !str_app_assoc. unfold commands at 1.
  change (lex Plain None [] ("warden-io fetch " ++ ?r)) with (lex Plain None ["warden-io"; "fetch"] r).
  rewrite lex_shellQuote. change (" -o " ++ ?r) with (String " " ("-o " ++ r)). rewrite lex_space.
  change (lex Plain None ?c ("-o " ++ ?r)) with (lex Plain None (c ++ ["-o"])%list r).
  rewrite lex_shellQuote, lex_end. done.
Qed.

(** [chown -R owner dest]: the owner is written as it is. *)
Lemma commands_owner (p w : string) arg dest rest :
  (p = "chown -R " /\ w = "chown") \/ (p = "chmod -R " /\ w = "chmod") ->
  arg <> "" -> str_forallb (fun c => negb (unsafe c)) arg = true ->
  commands (p ++ arg ++ " " ++ shellQuote dest ++ nl ++ rest) =
  (cs ← commands rest; Some ([w; "-R"; arg; dest] :: cs)).
Proof.
  intros Hw Hne Ha. assert (Hp : forall r, lex Plain None [] (p ++ r) = lex Plain None [w; "-R"] r)
    by (intros r; by destruct Hw as [ [-> ->]|[-> ->] ]).
  unfold commands at 1. rewrite Hp, lex_literal by done. cbn [from_option id append].
  rewrite lex_space, lex_shellQuote, lex_end. done.
Qed.

(** ** COPY *)
Section Copy.
Context {BC : BuildContext}.

(** The commands a COPY stands for. *)
Definition into_commands (dest : string) (f : fetchFile) : list (list string) :=
  let out := dest ++ destPath f in
  ((if decide (path_Dir out ++ "/" = dest)%string then [] else [["mkdir"; "-p"; path_Dir out]]) ++
  [["warden-io"; "fetch"; contextPath f; "-o"; out]])%list.

Definition fetch_commands (files : list fetchFile) (dest : string) : list (list string) :=
  if HasSuffix dest "/" then ["mkdir"; "-p"; dest] :: mjoin (into_commands dest <$> files)
  else ((if decide (path_Dir dest = "." \/ path_Dir dest = "/") then [] else [["mkdir"; "-p"; path_Dir dest]]) ++
       match files with f :: _ => [["warden-io"; "fetch"; contextPath f; "-o"; dest]] | [] => [] end)%list.

Definition owner_commands (chown chmod dest : string) : list (list string) :=
  ((if decide (chown = "") then [] else [["chown"; "-R"; chown; dest]]) ++
  (if decide (chmod = "") then [] else [["chmod"; "-R"; chmod; dest]]))%list.

(** What commands fetch, and where to. *)
Definition fetched (cs : list (list string)) : list (string * string) :=
  omap (fun c => match c with
                 | [w; sub; f; flag; out] =>
                     if decide (w = "warden-io" /\ sub = "fetch" /\ flag = "-o") then Some (f, out) else None
                 | _ => None
                 end) cs.

Lemma commands_into dest f rest :
  commands (fetch_into dest f ++ rest) = (cs ← commands rest; Some (into_commands dest f ++ cs)%list).
Proof.
  unfold fetch_into, into_commands. destruct (decide _).
  - cbn [append app]. by rewrite commands_fetch.
  - rewrite str_app_assoc, commands_mkdir, commands_fetch. by destruct (commands rest).
Qed.

Lemma concat_cons s l : String.concat "" (s :: l) = s ++ String.concat "" l.
Proof. destruct l; cbn; [by rewrite str_app_nil_r|done]. Qed.

Lemma commands_into_all dest files rest :
  commands (String.concat "" (fetch_into dest <$> files) ++ rest) =
  (cs ← commands rest; Some (mjoin (into_commands dest <$> files) ++ cs)%list).
Proof.
  induction files as [|f files IH]; [change (commands rest = (cs ← commands rest; Some cs)); by destruct (commands rest)|].
  rewrite !fmap_cons, concat_cons, str_app_assoc, commands_into, IH, mjoin_cons.
  destruct (commands rest); cbn [mbind option_bind]; [|done]. by rewrite app_assoc.
Qed.

Lemma commands_writeFetches files dest rest :
  commands (writeFetches files dest ++ rest) = (cs ← commands rest; Some (fetch_commands files dest ++ cs)%list).
Proof.
  unfold writeFetches, fetch_commands. destruct (HasSuffix dest "/"); cbn [negb].
  - rewrite str_app_assoc, commands_mkdir, commands_into_all. by destruct (commands rest).
  - rewrite str_app_assoc. destruct (decide _).
    + cbn [append app]. destruct files as [|f files]; [cbn [append app]; by destruct (commands rest)|]. by rewrite commands_fetch.
    + rewrite commands_mkdir. destruct files as [|f files]; [cbn [append app]; by destruct (commands rest)|].
      rewrite commands_fetch. by destruct (commands rest).
Qed.

(** An argument that is written as it is. *)
Definition plain_arg (a : string) : Prop := str_forallb (fun c => negb (unsafe c)) a = true.

Lemma fetched_app a b : fetched (a ++ b)%list = (fetched a ++ fetched b)%list.
Proof. unfold fetched. apply omap_app. Qed.

Lemma fetched_into dest f : fetched (into_commands dest f) = [(contextPath f, dest ++ destPath f)].
Proof. unfold into_commands. rewrite fetched_app. by destruct (decide _). Qed.

Lemma fetched_owner chown chmod dest : fetched (owner_commands chown chmod dest) = [].
Proof. unfold owner_commands. by destruct (decide (chown = "")), (decide (chmod = "")). Qed.

Lemma fetched_commands files dest :
  fetched (fetch_commands files dest) =
  if HasSuffix dest "/" then (fun f => (contextPath f, dest ++ destPath f)) <$> files
  else match files with f :: _ => [(contextPath f, dest)] | [] => [] end.
Proof.
  unfold fetch_commands. destruct (HasSuffix dest "/").
  - cbn [fetched omap list_omap]. induction files as [|f files IH]; [done|].
    rewrite !fmap_cons, mjoin_cons. change (omap ?f ?l) with (fetched l) in *.
    by rewrite fetched_app, fetched_into, IH.
  - rewrite fetched_app. destruct (decide _), files; done.
Qed.

(** Where a COPY of these files goes. *)
Definition copy_dest (files : list fetchFile) (anyDir : bool) (dest : string) : string :=
  if anyDir || (1 <? len files) then TrimSuffix dest "/" ++ "/" else dest.

Lemma HasSuffix_app s p : HasSuffix (s ++ p) p = true.
Proof.
  unfold HasSuffix. apply bool_decide_eq_true_2. exists s. by apply CutSuffix_Some.
Qed.

Lemma write_app b s t : write (write b s) t = write b (s ++ t).
Proof. unfold write. cbn [image sb env]. by rewrite str_app_assoc. Qed.

Lemma handleCopy_spec b rest b' :
  handleCopy b rest = Ok b' ->
  exists chown chmod sources dest files anyDir out,
    parseCopyFlags rest = (chown, chmod, (sources ++ [dest])%list) /\
    resolveCopySources sources = Ok (files, anyDir) /\
    b' = write b out /\
    (files = [] -> out = "# (empty COPY: no matching files)" ++ nl) /\
    (files <> [] -> plain_arg chown -> plain_arg chmod -> forall more,
       commands (out ++ more) = (cs ← commands more;
         Some (fetch_commands files (copy_dest files anyDir dest) ++
               owner_commands chown chmod (copy_dest files anyDir dest) ++ cs)%list)) /\
    fetched (fetch_commands files (copy_dest files anyDir dest)) =
      (fun f => (contextPath f, if HasSuffix (copy_dest files anyDir dest) "/"
                                then copy_dest files anyDir dest ++ destPath f else dest)) <$> files.
Proof.
  unfold handleCopy. destruct (Contains rest "--from="); [done|].
  destruct (parseCopyFlags rest) as [ [chown chmod] positional] eqn:Ep.
  destruct (len positional <? 2); [done|]. unfold split_last.
  destruct (rev positional) as [|dest r] eqn:Er; [done|].
  assert (Hpos : positional = (rev r ++ [dest])%list).
  { rewrite <- (rev_involutive positional), Er. done. }
  intros H. apply result_bind_Ok in H as ([files anyDir] & Hr & H). fold (copy_dest files anyDir dest) in H.
  assert (Hfetched : fetched (fetch_commands files (copy_dest files anyDir dest)) =
    (fun f => (contextPath f, if HasSuffix (copy_dest files anyDir dest) "/"
                              then copy_dest files anyDir dest ++ destPath f else dest)) <$> files).
  { rewrite fetched_commands. destruct (HasSuffix (copy_dest files anyDir dest) "/") eqn:Es; [done|].
    destruct files as [|f [|g files] ]; [done| |].
    - unfold copy_dest in *. destruct anyDir; cbn [orb] in Es; [by rewrite HasSuffix_app in Es|]. done.
    - exfalso. unfold copy_dest in Es. destruct anyDir; cbn [orb] in Es; [by rewrite HasSuffix_app in Es|].
      destruct (Z.ltb_spec 1 (len (f :: g :: files))); [by rewrite HasSuffix_app in Es|].
      rewrite !len_cons in *. pose proof (len_nonneg files). lia. }
  destruct (Z.eqb_spec (len files) 0) as [Hz|Hz].
  { injection H as <-. eexists chown, chmod, (rev r), dest, files, anyDir, _.
    split; [by rewrite Hpos|]. split; [done|]. split; [done|]. split; [done|]. split; [|done].
    intros Hne. by destruct files. }
  injection H as <-.
  set (d := copy_dest files anyDir dest) in *.
  set (o1 := if decide (chown = "") then "" else "chown -R " ++ chown ++ " " ++ shellQuote d ++ nl).
  set (o2 := if decide (chmod = "") then "" else "chmod -R " ++ chmod ++ " " ++ shellQuote d ++ nl).
  eexists chown, chmod, (rev r), dest, files, anyDir, (writeFetches files d ++ o1 ++ o2).
  split; [by rewrite Hpos|]. split; [done|]. split.
  { fold d o1 o2. unfold o1, o2. destruct (decide (chown = "")), (decide (chmod = ""));
      rewrite ?write_app; by rewrite ?str_app_nil_r. }
  split; [intros ->; done|]. split; [|done]. intros _ Hco Hcm more.
  rewrite !str_app_assoc, commands_writeFetches.
  assert (Ho : commands (o1 ++ o2 ++ more) = (cs ← commands more; Some (owner_commands chown chmod d ++ cs)%list)).
  { pose proof (commands_owner "chown -R " "chown" chown d) as H1.
    pose proof (commands_owner "chmod -R " "chmod" chmod d) as H2.
    unfold o1, o2, owner_commands. destruct (decide (chown = "")), (decide (chmod = ""));
      rewrite ?str_app_assoc; repeat change (String.append "" ?x) with x; rewrite ?H1, ?H2 by auto;
      by destruct (commands more). }
  rewrite Ho. destruct (commands more); done.
Qed.
End Copy.

(** ** ENV and WORKDIR *)

Lemma is_word_safe k : str_forallb is_word k = true -> str_forallb (fun c => negb (unsafe c)) k = true.
Proof.
  apply str_forallb_impl. intros c Hc. apply negb_true_iff, bool_decide_eq_false. intros Hin.
  unfold unsafe_chars in Hin. repeat (apply elem_of_cons in Hin as [->|Hin]; [by vm_compute in Hc|]).
  by apply elem_of_nil in Hin.
Qed.

Lemma commands_export k v rest :
  k <> "" -> str_forallb is_word k = true -> utf8_ok (String.length v) v = true -> no_dollar v ->
  commands (export_line k v ++ rest) = (cs ← commands rest; Some (["export"; k ++ "=" ++ v] :: cs)).
Proof.
  intros Hne Hk Hok Hd. unfold export_line. rewrite !str_app_assoc. unfold commands at 1.
  change (lex Plain None [] ("export " ++ ?r)) with (lex Plain None ["export"] r).
  rewrite lex_literal by (done || by apply is_word_safe). cbn [from_option id append].
  change (lex Plain (Some ?w) ?c (String "=" ?r)) with (lex Plain (Some (w ++ "=")) c r).
  rewrite lex_shellQuoteEnv, lex_end by done. cbn [from_option id app]. by rewrite str_app_assoc.
Qed.

Section Directives.
Context {BC : BuildContext} {MO : MapOrder}.

Lemma handle_workdir b rest b' :
  handleDirective b "WORKDIR" rest = Ok b' ->
  exists out, b' = write b out /\ forall more, commands (out ++ more) =
    (cs ← commands more; Some (["mkdir"; "-p"; expandEnv (TrimSpace rest) (env b)] ::
                               ["cd"; expandEnv (TrimSpace rest) (env b)] :: cs)).
Proof.
  unfold handleDirective. rewrite !decide_False by done. rewrite decide_True by done.
  set (dir := expandEnv (TrimSpace rest) (env b)). intros H. apply Ok_inj in H as <-.
  exists (mkdir_line dir ++ "cd " ++ shellQuote dir ++ nl). split; [done|]. intros more. rewrite !str_app_assoc, commands_mkdir.
  unfold commands at 1. change (lex Plain None [] ("cd " ++ ?r)) with (lex Plain None ["cd"] r).
  rewrite lex_shellQuote, lex_end. by destruct (commands more).
Qed.

(** The variables an ENV sets, in the order they were ranged over. *)
Definition env_ok (kv : string * string) : Prop :=
  kv.1 <> "" /\ str_forallb is_word kv.1 = true /\ utf8_ok (String.length kv.2) kv.2 = true /\ no_dollar kv.2.

Lemma set_env_all l : forall b, Forall env_ok l ->
  exists out, foldl set_env b l = mkBuilder (image b) (sb b ++ out) (foldl (fun m kv => <[kv.1 := kv.2]> m) (env b) l) /\
    forall more, commands (out ++ more) =
      (cs ← commands more; Some (((fun kv => ["export"; (kv.1 ++ "=" ++ kv.2)%string]) <$> l) ++ cs)%list).
Proof.
  induction l as [|kv l IH]; intros b Hl.
  { exists "". split; [cbn; rewrite str_app_nil_r; by destruct b|].
    intros more. change ("" ++ more) with more. by destruct (commands more). }
  apply Forall_cons in Hl as [(Hne & Hk & Hok & Hd) Hl]. cbn [foldl].
  destruct (IH (set_env b kv) Hl) as (out & -> & Hout).
  exists (export_line kv.1 kv.2 ++ out). split.
  { unfold set_env. cbn [image sb env]. by rewrite str_app_assoc. }
  intros more. rewrite str_app_assoc, commands_export, Hout by done. by destruct (commands more).
Qed.

Lemma handle_env b rest b' :
  handleDirective b "ENV" rest = Ok b' -> map_Forall (fun k v => env_ok (k, v)) (parseEnv rest) ->
  exists out l, sb b' = sb b ++ out /\ image b' = image b /\ l ≡ₚ map_to_list (parseEnv rest) /\
    env b' = parseEnv rest ∪ env b /\
    forall more, commands (out ++ more) =
      (cs ← commands more; Some (((fun kv => ["export"; (kv.1 ++ "=" ++ kv.2)%string]) <$> l) ++ cs)%list).
Proof.
  unfold handleDirective. rewrite !decide_False by done. rewrite decide_True by done. intros [= <-] Hok.
  pose proof (range_perm (sb b) (parseEnv rest)) as Hp. set (l := range (sb b) (parseEnv rest)) in *.
  destruct (set_env_all l b) as (out & -> & Hout).
  { rewrite Hp. apply Forall_forall. intros [k v] Hin. apply elem_of_map_to_list in Hin. by apply Hok. }
  exists out, l. cbn [sb image env]. split_and!; try done.
  assert (Hnd : NoDup l.*1) by (rewrite Hp; apply NoDup_fst_map_to_list).
  rewrite <- (list_to_map_to_list (parseEnv rest)).
  rewrite <- (list_to_map_proper l (map_to_list (parseEnv rest)) Hnd Hp). clear -Hnd.
  revert Hnd. generalize (env b) as m. induction l as [|[k v] l IH]; intros m Hnd.
  { cbn. by rewrite map_empty_union. }
  cbn [foldl]. rewrite list_to_map_cons. apply NoDup_cons in Hnd as [Hk Hnd]. rewrite IH by done.
  cbn [fst snd]. apply map_eq. intros j. destruct (decide (j = k)) as [->|Hj].
  - assert (Hnone : (list_to_map l : gmap string string) !! k = None) by by apply not_elem_of_list_to_map_1.
    rewrite lookup_union_r by done. rewrite lookup_insert_eq. symmetry.
    apply lookup_union_Some_l. by rewrite lookup_insert_eq.
  - rewrite !lookup_union, !lookup_insert_ne by done. done.
Qed.

End Directives.
End Shell.

(** * Examples *)
Module TranslateExamples.
Import Translate Shell.

#[local] Instance ex_order : MapOrder := {| range _ m := map_to_list m; range_perm _ m := reflexivity _ |}.
(** The same, backwards. *)
Definition back_order : MapOrder := {|
  range _ m := rev (map_to_list m);
  range_perm _ m := Permutation_sym (Permutation_rev (map_to_list m)) |}.

(** A context with a file of an awkward name, and a directory. *)
#[local] Instance ex_context : BuildContext := {
  ctx_isDir s := bool_decide (s = "src") || bool_decide (s = "/src");
  ctx_walk _ := TDir "src" [TFile "src/a b.txt"; TDir ".git" [TFile "src/.git/config"]; TDir "d" [TFile "src/d/it's; rm -rf x"]];
  ctx_glob s := Ok [(s, true)] }.


(** A directive whose last line ends in a backslash at the end of the file is
    dropped without an error. *)
Example continuation_at_end_dropped :
  Translate ("FROM a" ++ nl ++ "RUN make test \" ++ nl) = Ok ("a", "#!/bin/sh" ++ nl ++ "set -e" ++ nl).
Proof. vm_compute. reflexivity. Qed.

(** Two variables of one ENV may be exported in either order, and the second
    may refer to the first. *)
Example env_order_matters :
  let text := "FROM a" ++ nl ++ "ENV A=1 B=$A" ++ nl in
  @Translate ex_context ex_order text <> @Translate ex_context back_order text.
Proof. vm_compute. discriminate. Qed.

(** A directory source with a leading slash keeps its own name under the
    destination, and without the slash does not. *)
Example leading_slash_source :
  (fun b => fetched (default [] (commands (sb b)))) <$>
    match handleCopy (mkBuilder "a" "" ∅) "/src /opt/" with Ok b => Some b | Err _ => None end =
  Some [("src/a b.txt", "/opt/src/a b.txt"); ("src/d/it's; rm -rf x", "/opt/src/d/it's; rm -rf x")].
Proof. vm_compute. reflexivity. Qed.

(** One file copied to the working directory is fetched to the path ".". *)
Example copy_to_dot :
  (fun b => fetched (default [] (commands (sb b)))) <$>
    match handleCopy (mkBuilder "a" "" ∅) "go.mod ." with Ok b => Some b | Err _ => None end =
  Some [("go.mod", ".")].
Proof. vm_compute. reflexivity. Qed.
End TranslateExamples.
