(* ===== verification/Streams.v ===== *)
(** * Streaming bodies

    The readers the relay wraps around bodies (src/relay/relay.go,
    src/relay/collector_client.go, src/relay/capture.go) and the collector's
    [copy] (src/collector/collector.go).  [Reader] is [io.Reader]; its laws
    describe a finite body: the bytes it yields and the error it ends with,
    whatever buffers it is read with. *)
From S2P Require Import Prelude Crypto Ledger Writer.

#[local] Open Scope Z_scope.

Module Streams.
Import Reader Writer.

(** ** io.Reader *)

(** [rd_read r n] is [Read] with an [n]-byte buffer: the new state, the bytes
    put in the buffer and the error. *)
Class IOReader (R : Type) := rd_read : R -> Z -> R * bytes * option error.

(** A finite body: [rd_data] is what is left, [rd_final] the error it ends
    with ([io.EOF], or the failure of the connection), and [rd_steps] bounds the
    reads that return without an error.  An error comes with the last bytes or
    after them, and stays. *)
Class BodyLaws (R : Type) `{IOReader R} := {
  rd_data : R -> bytes;
  rd_final : R -> error;
  rd_steps : R -> nat;
  rd_law r n : 0 < n ->
    let '(r', c, e) := rd_read r n in
    len c <= n /\ rd_data r = c ++ rd_data r' /\ rd_final r' = rd_final r /\
    match e with
    | None => (rd_steps r' < rd_steps r)%nat
    | Some err => err = rd_final r /\ rd_data r' = [] /\ (rd_steps r' <= rd_steps r)%nat
    end }.

(** A body as a list of chunks: a read returns at most one chunk, cut to the
    buffer; with [src_early] the error comes with the last chunk. *)
Record source := mkSource { src_chunks : list bytes; src_final : error; src_early : bool }.

#[export] Instance source_reader : IOReader source := fun s n =>
  match src_chunks s with
  | [] => (s, [], Some (src_final s))
  | c :: cs =>
      if len c <=? n then
        let s' := mkSource cs (src_final s) (src_early s) in
        match cs with
        | [] => (s', c, if src_early s then Some (src_final s) else None)
        | _ :: _ => (s', c, None)
        end
      else (mkSource (drop (Z.to_nat n) c :: cs) (src_final s) (src_early s),
            take (Z.to_nat n) c, None)
  end.

#[export] Program Instance source_laws : BodyLaws source := {|
  rd_data s := mjoin (src_chunks s);
  rd_final := src_final;
  rd_steps s := (length (src_chunks s) + length (mjoin (src_chunks s)))%nat |}.
Next Obligation.
  intros [cs f e] n Hn. unfold rd_read, source_reader. cbn [src_chunks src_final src_early].
  destruct cs as [|c cs].
  { rewrite len_nil. split_and!; (done || lia). }
  destruct (Z.leb_spec (len c) n) as [Hc|Hc].
  - destruct cs as [|c2 cs]; [destruct e|]; cbn [src_chunks src_final length];
      rewrite !mjoin_cons, !length_app; split_and!; (done || lia).
  - cbn [src_chunks src_final length]. rewrite !mjoin_cons, !length_app, length_drop.
    unfold len in *. rewrite length_take. split_and!; (done || lia || idtac).
    by rewrite app_assoc, take_drop.
Qed.

(** ** collector.copy *)

Record copyState (W : Type) := mkCopy { cp_dst : W; cp_total : Z; cp_written : Z }.
Arguments mkCopy {W}. Arguments cp_dst {W}. Arguments cp_total {W}. Arguments cp_written {W}.

Definition limitError (max : Z) : error := Errorf "payload exceeds limit of %d bytes" [Itoa max].

Section Copy.
Context {R : Type} `{IOReader R} {W : Type} (Write : W -> bytes -> W * option error).

Definition copy_buf : Z := 64 * 1024.

(** [c.copy(dst, src, max)]; [cp_written] is [c.bytesWritten].  [None] is out
    of fuel. *)
Fixpoint copy (fuel : nat) (st : copyState W) (src : R) (max : Z) :
    option (copyState W * R * option error) :=
  match fuel with
  | O => None
  | S fuel' =>
      let '(src, buf, rerr) := rd_read src copy_buf in
      let nr := len buf in
      let after (st : copyState W) :=
        match rerr with
        | Some e => if decide (e = EOF) then Some (st, src, None) else Some (st, src, Some e)
        | None => copy fuel' st src max
        end in
      if 0 <? nr then
        let total := to_int64 (cp_total st + nr) in
        if total >? max then
          Some (mkCopy (cp_dst st) total (cp_written st), src, Some (limitError max))
        else
          match Write (cp_dst st) buf with
          | (dst, Some werr) => Some (mkCopy dst total (cp_written st), src, Some werr)
          | (dst, None) => after (mkCopy dst total (to_int64 (cp_written st + nr)))
          end
      else after st
  end.
End Copy.

(** ** limitedReader *)

Record limitedReader (R : Type) := mkLimited { lr_r : R; remaining : Z; exceeded : bool }.
Arguments mkLimited {R}. Arguments lr_r {R}. Arguments remaining {R}. Arguments exceeded {R}.

Definition errArtifactTooLarge : error := Sentinel "artifact size limit exceeded".

#[export] Instance limited_read {R} `{IOReader R} : IOReader (limitedReader R) := fun l n =>
  if remaining l <=? 0 then
    (mkLimited (lr_r l) (remaining l) true, [], Some errArtifactTooLarge)
  else
    let n := if n >? remaining l then remaining l else n in
    let '(r, b, err) := rd_read (lr_r l) n in
    (mkLimited r (remaining l - len b) (exceeded l), b, err).

(** ** hashingBody *)

Section Hashing.
Context {HO : HashOps} {R : Type} `{IOReader R}.

(** [hashHex]: the first 32 bytes of a block, in hex. *)
Definition hashHex (hashBlock : bytes) : string := hex_encode (take 32 hashBlock).

(** [hb_trailer] is [None] without a trailer, else its [Warden-Hash] value. *)
Record hashingBody := mkHashingBody {
  hb_r : R; hb_hasher : StreamingHasher; hb_trailer : option string;
  hb_hashBlock : bytes; hb_size : Z; hb_finished : bool }.

Definition hb_Read (h : hashingBody) (n : Z) : hashingBody * bytes * option error :=
  let '(r, b, err) := rd_read (hb_r h) n in
  let hs := if 0 <? len b then sh_Write (hb_hasher h) b else hb_hasher h in
  if bool_decide (err = Some EOF) && negb (hb_finished h) then
    let '(hashBlock, size) := sh_Finish hs in
    (mkHashingBody r hs ((fun _ => hashHex hashBlock) <$> hb_trailer h) hashBlock size true, b, err)
  else (mkHashingBody r hs (hb_trailer h) (hb_hashBlock h) (hb_size h) (hb_finished h), b, err).

(** ** ledgerBody and hashingReadCloser

    Both tee a body into a hasher and, at its end or on [Close], write one
    ledger entry; they differ in the entry.  [lb_written] collects what
    [finish] hands to the ledger. *)
Record ledgerBody := mkLedgerBody {
  lb_source : R;
  lb_hasher : StreamingHasher;
  lb_done : bool;
  lb_written : list entryInput }.

(** What [finish] (or [onClose]) makes of the hash block and the size. *)
Variable entry_of : bytes -> Z -> entryInput.

Definition lb_finish (lb : ledgerBody) : ledgerBody :=
  let '(hashBlock, size) := sh_Finish (lb_hasher lb) in
  mkLedgerBody (lb_source lb) (lb_hasher lb) (lb_done lb) (lb_written lb ++ [entry_of hashBlock size]).

Definition lb_Read (lb : ledgerBody) (n : Z) : ledgerBody * bytes * option error :=
  let '(src, b, err) := rd_read (lb_source lb) n in
  let hs := if 0 <? len b then sh_Write (lb_hasher lb) b else lb_hasher lb in
  if bool_decide (err = Some EOF) && negb (lb_done lb)
  then (lb_finish (mkLedgerBody src hs true (lb_written lb)), b, err)
  else (mkLedgerBody src hs (lb_done lb) (lb_written lb), b, err).

Definition drain_buf : Z := 32 * 1024.

(** The loop of [Close]: reads on until any error. *)
Fixpoint lb_drain (fuel : nat) (src : R) (hs : StreamingHasher) : option (R * StreamingHasher) :=
  match fuel with
  | O => None
  | S fuel' =>
      let '(src, b, err) := rd_read src drain_buf in
      let hs := if 0 <? len b then sh_Write hs b else hs in
      match err with Some _ => Some (src, hs) | None => lb_drain fuel' src hs end
  end.

(** [Close]; it then closes the source and returns its error. *)
Definition lb_Close (fuel : nat) (lb : ledgerBody) : option ledgerBody :=
  if lb_done lb then Some lb
  else
    '(src, hs) ← lb_drain fuel (lb_source lb) (lb_hasher lb);
    Some (lb_finish (mkLedgerBody src hs true (lb_written lb))).

(** A client reading with buffers of the given sizes; what it got. *)
Fixpoint lb_reads (lb : ledgerBody) (ns : list Z) : ledgerBody * bytes :=
  match ns with
  | [] => (lb, [])
  | n :: ns' =>
      let '(lb, b, _) := lb_Read lb n in
      let '(lb, bs) := lb_reads lb ns' in
      (lb, b ++ bs)
  end.
End Hashing.
Arguments hashingBody R : clear implicits.
Arguments ledgerBody R : clear implicits.

(** [newLedgerBody]'s entry (response bodies) and [onRequest]'s (request
    bodies, an outbound checkpoint). *)
Definition response_entry (openSig meta hashBlock : bytes) (size : Z) : entryInput :=
  mkEntry RecordClose openSig size hashBlock Byte.x02 meta.
Definition request_entry (openSig meta hashBlock : bytes) (size : Z) : entryInput :=
  mkEntry RecordCheckpoint openSig (to_int64 (- size)) hashBlock Byte.x02 meta.

(** ** capturingReadCloser

    [Write] is the pipe to the upload: it fails once the upload has failed.
    [cap_pw] is [c.pw], nil when capturing has stopped; [cap_sent] is whether
    [finish] ended the upload body. *)
Section Capture.
Context {R : Type} `{IOReader R} {W : Type} (Write : W -> bytes -> W * option error).

Record capturingReadCloser := mkCapturing {
  cap_source : R; cap_pw : option W; cap_sent : option W }.

Definition cap_finish (c : capturingReadCloser) : capturingReadCloser :=
  match cap_pw c with
  | None => c
  | Some w => mkCapturing (cap_source c) None (Some w)
  end.

Definition cap_Read (c : capturingReadCloser) (n : Z) : capturingReadCloser * bytes * option error :=
  let '(src, b, err) := rd_read (cap_source c) n in
  let pw :=
    match cap_pw c with
    | Some w => if 0 <? len b then match Write w b with (w', None) => Some w' | (_, Some _) => None end
                else Some w
    | None => None
    end in
  let c := mkCapturing src pw (cap_sent c) in
  (if bool_decide (err = Some EOF) then cap_finish c else c, b, err).

(** [io.Copy(c.pw, c.source)]: stops at the first write error. *)
Fixpoint cap_copy (fuel : nat) (src : R) (w : W) : option (R * W) :=
  match fuel with
  | O => None
  | S fuel' =>
      let '(src, b, err) := rd_read src drain_buf in
      let '(w, werr) := if 0 <? len b then Write w b else (w, None) in
      match werr, err with
      | None, None => cap_copy fuel' src w
      | _, _ => Some (src, w)
      end
  end.

Definition cap_Close (fuel : nat) (c : capturingReadCloser) : option capturingReadCloser :=
  match cap_pw c with
  | None => Some c
  | Some w =>
      '(src, w) ← cap_copy fuel (cap_source c) w;
      Some (cap_finish (mkCapturing src (Some w) (cap_sent c)))
  end.

Fixpoint cap_reads (c : capturingReadCloser) (ns : list Z) : capturingReadCloser * list (bytes * option error) :=
  match ns with
  | [] => (c, [])
  | n :: ns' =>
      let '(c, b, e) := cap_Read c n in
      let '(c, bs) := cap_reads c ns' in
      (c, (b, e) :: bs)
  end.

(** Reading the source directly. *)
Fixpoint src_reads (s : R) (ns : list Z) : R * list (bytes * option error) :=
  match ns with
  | [] => (s, [])
  | n :: ns' =>
      let '(s, b, e) := rd_read s n in
      let '(s, bs) := src_reads s ns' in
      (s, (b, e) :: bs)
  end.
End Capture.
Arguments capturingReadCloser R W : clear implicits.
End Streams.

(** ** What the streams do *)
Module StreamSpec.
Import Reader Writer Streams WriterSpec.

(** Reading a body with a positive buffer, unpacked. *)
Ltac body_read r n :=
  let Hl := fresh "Hl" in
  pose proof (rd_law r n ltac:(reflexivity || lia || done)) as Hl;
  let r' := fresh "r" in let c := fresh "c" in let e := fresh "e" in
  destruct (rd_read r n) as [[r' c] e]; destruct Hl as (Hl & ?Hd & ?Hf & ?He).

Section Copying.
Context {R : Type} {IR : IOReader R} {BL : BodyLaws R}.

(** What [copy] has put in a buffer when it stops. *)
Definition copied (st : copyState bytes) (src : R) (max : Z) (st' : copyState bytes)
    (err : option error) : Prop :=
  exists d, cp_dst st' = cp_dst st ++ d /\ d `prefix_of` rd_data src /\
    cp_written st' = to_int64 (cp_written st + len d) /\
    if decide (cp_total st + len (rd_data src) <= max) then
      d = rd_data src /\ cp_total st' = cp_total st + len d /\
      err = (if decide (rd_final src = EOF) then None else Some (rd_final src))
    else err = Some (limitError max) /\ cp_total st + len d <= max < cp_total st'.

Lemma copy_copied fuel st src max :
  (rd_steps src < fuel)%nat -> 0 <= cp_total st <= max -> max + copy_buf < 2 ^ 63 ->
  int64_ok (cp_written st) ->
  exists st' src' err, copy buffer_write fuel st src max = Some (st', src', err) /\
    copied st src max st' err.
Proof using BL.
  revert st src. induction fuel as [|fuel IH]; intros st src Hf Ht Hm Hw; [lia|].
  cbn [copy]. body_read src copy_buf. cbv zeta.
  pose proof (len_nonneg c). pose proof (len_nonneg (rd_data r)).
  assert (Hlen : len (rd_data src) = len c + len (rd_data r)) by (rewrite Hd; apply len_app).
  unfold copy_buf in *.
  set (st1 := if 0 <? len c then mkCopy (cp_dst st ++ c) (cp_total st + len c)
                (to_int64 (cp_written st + len c)) else st).
  assert (Hst1 : cp_dst st1 = cp_dst st ++ c /\ cp_total st1 = cp_total st + len c /\
                 cp_written st1 = to_int64 (cp_written st + len c)).
  { unfold st1. destruct (Z.ltb_spec 0 (len c)); [done|]. assert (Hc0 : len c = 0) by lia.
    rewrite Hc0, !Z.add_0_r, to_int64_id by done.
    destruct c; [by rewrite app_nil_r|]. rewrite len_cons in Hc0. pose proof (len_nonneg c). lia. }
  destruct (decide (cp_total st + len c <= max)) as [Hle|Hgt]; cycle 1.
  { (* the limit stops the copy *)
    replace (0 <? len c) with true by (symmetry; apply Z.ltb_lt; lia).
    rewrite to_int64_id by (unfold int64_ok; lia).
    replace (_ >? max) with true by (symmetry; rewrite Z.gtb_ltb; apply Z.ltb_lt; lia).
    eexists _, _, _. split; [done|]. exists []. cbn. rewrite app_nil_r, len_nil, Z.add_0_r.
    rewrite decide_False by lia. rewrite to_int64_id by done.
    split_and!; try done; [apply prefix_nil|lia..]. }
  assert (Hgo : forall A (f : copyState bytes -> A) g,
    (if 0 <? len c then
       if to_int64 (cp_total st + len c) >? max then g
       else f (mkCopy (cp_dst st ++ c) (to_int64 (cp_total st + len c))
                 (to_int64 (cp_written st + len c)))
     else f st) = f st1).
  { intros A f g. unfold st1. destruct (0 <? len c); [|done].
    rewrite to_int64_id by (unfold int64_ok; lia).
    replace (_ >? max) with false by (symmetry; rewrite Z.gtb_ltb; apply Z.ltb_ge; lia). done. }
  destruct Hst1 as (Hd1 & Ht1 & Hw1).
  assert (Hdone : forall e0, e = Some e0 -> copied st src max st1
    (if decide (e0 = EOF) then None else Some e0)).
  { intros e0 ->. destruct He as (-> & Hr & _). exists c. rewrite Hr, app_nil_r in Hd.
    rewrite decide_True by (rewrite Hd; lia). by rewrite Hd1, Ht1, Hw1, Hd. }
  unfold buffer_write at 1. cbv beta iota.
  rewrite (Hgo _ (fun st => match e with
    | Some e => if decide (e = EOF) then Some (st, r, None) else Some (st, r, Some e)
    | None => copy buffer_write fuel st r max end)).
  destruct e as [e|].
  - specialize (Hdone e eq_refl). case_decide; eauto.
  - destruct (IH st1 r) as (st' & src' & err & Hc & d & Hdst & Hpre & Hwr & Hrest).
    + lia.
    + lia.
    + done.
    + rewrite Hw1. apply to_int64_range.
    + exists st', src', err. split; [done|]. exists (c ++ d). split_and!.
      * by rewrite Hdst, Hd1, app_assoc.
      * rewrite Hd. by apply prefix_app.
      * rewrite Hwr, Hw1, len_app, to_int64_add. f_equal. lia.
      * rewrite Hlen, len_app. rewrite Ht1, Hf0 in Hrest.
        destruct (decide (cp_total st + (len c + len (rd_data r)) <= max));
          [rewrite decide_True in Hrest by lia|rewrite decide_False in Hrest by lia];
          naive_solver (congruence || lia).
Qed.

Lemma copy_total {W} (Write : W -> bytes -> W * option error) fuel st src max :
  (rd_steps src < fuel)%nat -> is_Some (copy Write fuel st src max).
Proof using BL.
  revert st src. induction fuel as [|fuel IH]; intros st src Hf; [lia|]. cbn [copy].
  body_read src copy_buf. cbv zeta. destruct e as [e|].
  - repeat case_match; eauto.
  - repeat case_match; eauto; apply IH; lia.
Qed.

(** What every write preserves, copying does. *)
Lemma copy_inv {W} (Write : W -> bytes -> W * option error) (Inv : W -> Prop) fuel st src max st' src' err :
  (forall w b, Inv w -> Inv (Write w b).1) -> Inv (cp_dst st) ->
  copy Write fuel st src max = Some (st', src', err) -> Inv (cp_dst st').
Proof.
  intros HW. revert st src. induction fuel as [|fuel IH]; intros st src Hi Hc; [done|]. cbn [copy] in Hc.
  destruct (rd_read src copy_buf) as [[src1 b] e]. cbv zeta in Hc.
  pose proof (HW (cp_dst st) b Hi) as Hw. destruct (Write (cp_dst st) b) as [w we]. cbn in Hw.
  repeat case_match; simplify_eq; first [exact Hw | exact Hi | eapply IH; [|exact Hc]; done].
Qed.

(** Copying through any writer: [V w d] says the destination [w] holds [d]. *)
Section View.
Context {W : Type} (Write : W -> bytes -> W * option error) (V : W -> bytes -> Prop).
Hypothesis Vok : forall w d b w', V w d -> Write w b = (w', None) -> V w' (d ++ b).
Hypothesis Vfail : forall w d b w' e, V w d -> Write w b = (w', Some e) -> V w' d.

Lemma copy_view fuel st src max st' src' err d0 :
  copy Write fuel st src max = Some (st', src', err) -> V (cp_dst st) d0 ->
  max + copy_buf < 2 ^ 63 -> 0 <= cp_total st <= max ->
  exists d, V (cp_dst st') (d0 ++ d) /\ d `prefix_of` rd_data src /\
    (err = None -> d = rd_data src /\ rd_final src = EOF /\ cp_total st + len d <= max).
Proof using BL Vok Vfail.
  revert st src d0. induction fuel as [|fuel IH]; intros st src d0 Hc Hv Hm Ht; [done|].
  cbn [copy] in Hc. body_read src copy_buf. cbv zeta in Hc. rename r into src1. rename c into b.
  assert (Hn : forall st1 d1, V (cp_dst st1) (d0 ++ b) -> d1 = b -> cp_total st1 = cp_total st + len b ->
    cp_total st1 <= max ->
    match e with
    | Some e => if decide (e = EOF) then Some (st1, src1, None) else Some (st1, src1, Some e)
    | None => copy Write fuel st1 src1 max
    end = Some (st', src', err) ->
    exists d, V (cp_dst st') (d0 ++ d) /\ d `prefix_of` rd_data src /\
    (err = None -> d = rd_data src /\ rd_final src = EOF /\ cp_total st + len d <= max)).
  { intros st1 d1 Hv1 -> Ht1 Hle Hr. destruct e as [e|].
    - destruct He as (-> & Hz & _). rewrite Hz, app_nil_r in Hd. exists b.
      rewrite Hd. case_decide; injection Hr as <- <- <-; split_and!; try done. intros _.
      split_and!; [done|done|lia].
    - pose proof (len_nonneg b). destruct (IH st1 src1 (d0 ++ b)) as (d & Hv2 & Hp & Herr); [done|done|done|lia|].
      exists (b ++ d). rewrite app_assoc, Hd. split_and!; [done|by apply prefix_app|].
      intros Hn. destruct (Herr Hn) as (-> & ? & ?). rewrite len_app. split_and!; [done|congruence|lia]. }
  destruct (Z.ltb_spec 0 (len b)) as [Hpos|Hz].
  - unfold copy_buf in *. rewrite (to_int64_id (cp_total st + len b)) in Hc by (unfold int64_ok; lia).
    rewrite Z.gtb_ltb in Hc. destruct (Z.ltb_spec max (cp_total st + len b)).
    + injection Hc as <- <- <-. exists []. rewrite app_nil_r. split_and!; [done|apply prefix_nil|done].
    + destruct (Write (cp_dst st) b) as [w' [werr|]] eqn:Hw.
      * injection Hc as <- <- <-. exists []. rewrite app_nil_r.
        split_and!; [by eapply Vfail|apply prefix_nil|done].
      * eapply Hn; [|done| | |exact Hc]; cbn; [by eapply Vok|done|lia].
  - assert (b = []) as ->.
    { destruct b; [done|]. rewrite len_cons in Hz. pose proof (len_nonneg b0). lia. }
    rewrite len_nil, Z.add_0_r in Hn. eapply Hn; [|done|done|lia|exact Hc]. by rewrite app_nil_r.
Qed.

Lemma copy_succeeds fuel st src max st' src' err d0 :
  (forall w d b, V w d -> exists w', Write w b = (w', None)) ->
  copy Write fuel st src max = Some (st', src', err) -> V (cp_dst st) d0 ->
  max + copy_buf < 2 ^ 63 -> 0 <= cp_total st -> cp_total st + len (rd_data src) <= max ->
  rd_final src = EOF -> err = None.
Proof using BL Vok.
  intros Hok. revert st src d0. induction fuel as [|fuel IH]; intros st src d0 Hc Hv Hm Ht Hle Hfin; [done|].
  cbn [copy] in Hc. body_read src copy_buf. cbv zeta in Hc. rename r into src1. rename c into b.
  assert (Hlen : len (rd_data src) = len b + len (rd_data src1)) by (rewrite Hd; apply len_app).
  pose proof (len_nonneg b). pose proof (len_nonneg (rd_data src1)).
  assert (Hn : forall st1, V (cp_dst st1) (d0 ++ b) -> cp_total st1 = cp_total st + len b ->
    match e with
    | Some e => if decide (e = EOF) then Some (st1, src1, None) else Some (st1, src1, Some e)
    | None => copy Write fuel st1 src1 max
    end = Some (st', src', err) -> err = None).
  { intros st1 Hv1 Ht1 Hr. destruct e as [e|].
    - destruct He as (-> & _). rewrite Hfin in Hr. by injection Hr as _ _ <-.
    - eapply (IH st1 src1 (d0 ++ b)); [done|done|done|lia|lia|congruence]. }
  destruct (Z.ltb_spec 0 (len b)) as [Hpos|Hz].
  - unfold copy_buf in *. rewrite (to_int64_id (cp_total st + len b)) in Hc by (unfold int64_ok; lia).
    rewrite Z.gtb_ltb in Hc. destruct (Z.ltb_spec max (cp_total st + len b)); [lia|].
    destruct (Hok (cp_dst st) d0 b Hv) as [w' Hw]. rewrite Hw in Hc.
    eapply Hn; [| |exact Hc]; cbn; [by eapply Vok|done].
  - assert (b = []) as ->.
    { destruct b; [done|]. rewrite len_cons in Hz. pose proof (len_nonneg b0). lia. }
    rewrite len_nil, Z.add_0_r in Hn. eapply Hn; [|done|exact Hc]. by rewrite app_nil_r.
Qed.
End View.

(** [copy] always ends, and what it has written is a prefix of the body of
    at most [max] bytes: the whole body, with the body's own failure if it had
    one, when the body fits; otherwise the limit error.  The counter of landed
    bytes grows by exactly what was written. *)
Theorem copy_lands_prefix src max fuel dst :
  (rd_steps src < fuel)%nat -> 0 <= max -> max + copy_buf < 2 ^ 63 ->
  exists st src' err,
    copy buffer_write fuel (mkCopy dst 0 0) src max = Some (st, src', err) /\
    (exists d, cp_dst st = dst ++ d /\ d `prefix_of` rd_data src /\ len d <= max /\
               cp_written st = to_int64 (len d)) /\
    (len (rd_data src) <= max ->
       cp_dst st = dst ++ rd_data src /\ cp_total st = len (rd_data src) /\
       (err = None <-> rd_final src = EOF) /\ (rd_final src <> EOF -> err = Some (rd_final src))) /\
    (max < len (rd_data src) -> err = Some (limitError max)).
Proof using BL.
  intros Hf Hm Hmax.
  destruct (copy_copied fuel (mkCopy dst 0 0) src max Hf) as (st & src' & err & Hc & d & Hd & Hp & Hw & Hr);
    cbn [cp_total cp_dst cp_written] in *; [lia|done|done|].
  exists st, src', err. split; [done|]. destruct (decide (0 + len (rd_data src) <= max)).
  - destruct Hr as (-> & Ht & ->). split_and!; [exists (rd_data src); split_and!; done || lia| |lia].
    intros _. split_and!; [done|lia| |]; case_decide; naive_solver.
  - destruct Hr as (-> & Hlt). split_and!; [exists d; split_and!; done || lia|lia|done].
Qed.
End Copying.

(** ** limitedReader *)
Section Limited.
Context {R : Type} {IR : IOReader R} {BL : BodyLaws R}.

(** [got] has been read from [r0] under the cap. *)
Record limited_inv (r0 : R) (cap : Z) (got : bytes) (l : limitedReader R) : Prop := {
  li_remaining : remaining l = cap - len got;
  li_nonneg : 0 <= remaining l;
  li_data : rd_data r0 = got ++ rd_data (lr_r l);
  li_final : rd_final (lr_r l) = rd_final r0;
  li_exceeded : exceeded l = true -> len got = cap }.

Lemma limited_step r0 cap got l n :
  limited_inv r0 cap got l -> 0 < n ->
  let '(l', b, e) := limited_read l n in
  limited_inv r0 cap (got ++ b) l' /\ (exceeded l = true -> exceeded l' = true) /\
  match e with
  | None => True
  | Some err => (err = errArtifactTooLarge /\ exceeded l' = true) \/
                (err = rd_final r0 /\ rd_data r0 = got ++ b)
  end.
Proof using BL.
  intros [Hr Hnn Hd Hf Hx] Hn. unfold limited_read. destruct (Z.leb_spec (remaining l) 0) as [Hz|Hz].
  - rewrite app_nil_r. split_and!; [|done|by left]. split; cbn; try done. intros _. lia.
  - set (n' := if n >? remaining l then remaining l else n).
    assert (Hn' : 0 < n' <= remaining l).
    { unfold n'. rewrite Z.gtb_ltb. destruct (Z.ltb_spec (remaining l) n); lia. }
    pose proof (rd_law (lr_r l) n' ltac:(lia)) as Hl.
    destruct (rd_read (lr_r l) n') as [[r' b] e]. destruct Hl as (Hl & Hd' & Hf' & He).
    split_and!; [split; cbn|done|].
    + rewrite len_app. lia.
    + lia.
    + by rewrite Hd, Hd', app_assoc.
    + congruence.
    + intros Hxx. specialize (Hx Hxx). lia.
    + destruct e; [|done]. right. destruct He as (-> & He & _).
      split; [congruence|]. by rewrite Hd, Hd', He, app_nil_r.
Qed.

Lemma limited_reads r0 cap got l ns :
  limited_inv r0 cap got l -> Forall (fun n => 0 < n) ns ->
  let '(l', res) := src_reads l ns in
  limited_inv r0 cap (got ++ mjoin (fst <$> res)) l' /\ (exceeded l = true -> exceeded l' = true) /\
  forall b err, (b, Some err) ∈ res ->
    (err = errArtifactTooLarge /\ exceeded l' = true) \/
    (err = rd_final r0 /\ rd_data r0 = got ++ mjoin (fst <$> res)).
Proof using BL.
  intros Hi Hns. revert got l Hi. induction Hns as [|n ns Hn _ IH]; intros got l Hi.
  { cbn. rewrite app_nil_r. split_and!; [done|done|]. intros b err Hin. by apply elem_of_nil in Hin. }
  pose proof (limited_step _ _ _ _ n Hi Hn) as Hs. cbn [src_reads].
  change (rd_read l n) with (limited_read l n).
  destruct (limited_read l n) as [[l1 b] e]. destruct Hs as (Hi1 & Hx1 & He).
  specialize (IH _ _ Hi1). destruct (src_reads l1 ns) as [l2 res]. destruct IH as (Hi2 & Hx2 & Hres).
  cbn [fmap list_fmap fst]. rewrite mjoin_cons, app_assoc. split_and!; [done|auto|].
  intros b' err [Heq|Hin]%elem_of_cons; [|by apply Hres in Hin].
  injection Heq as -> <-. destruct He as [[-> Hx]|[-> Hd]]; [auto|]. right. split; [done|].
  pose proof (li_data _ _ _ _ Hi2) as Hd2.
  assert (Hz : mjoin (fst <$> res) = []).
  { rewrite Hd, <- app_assoc in Hd2. apply (f_equal length) in Hd2. rewrite !length_app in Hd2.
    destruct (mjoin (fst <$> res)); [done|]. cbn in Hd2. lia. }
  by rewrite Hz, app_nil_r.
Qed.

(** The artifact cap.  Reading a body through [limitedReader] never gives
    more than the cap; it reports the size error only when the body has at
    least that many bytes, and reports the body's own end only when all of it
    was read.  The cap is sharp: a body of exactly the cap whose last read
    carries EOF is let through (so the relay, which sets the cap to
    maxArtifactBytes + 1, can accept one byte more than the limit). *)
Theorem limitedReader_cap r cap ns :
  0 < cap -> Forall (fun n => 0 < n) ns ->
  (let '(l, res) := src_reads (mkLimited r cap false) ns in
   let got := mjoin (fst <$> res) in
   got `prefix_of` rd_data r /\ len got <= cap /\
   (exceeded l = true -> len got = cap /\ cap <= len (rd_data r)) /\
   forall b err, (b, Some err) ∈ res ->
     (err = errArtifactTooLarge /\ exceeded l = true) \/ (err = rd_final r /\ got = rd_data r)) /\
  (forall d, len d = cap ->
     src_reads (mkLimited (mkSource [d] EOF true) cap false) [cap] =
       (mkLimited (mkSource [] EOF true) 0 false, [(d, Some EOF)])).
Proof using BL.
  intros Hc Hns. split.
  - pose proof (limited_reads r cap [] (mkLimited r cap false) ns) as Hl.
    destruct (src_reads _ ns) as [l res]. cbn [app] in Hl.
    destruct Hl as (Hi & _ & Hres); [split; cbn; rewrite ?len_nil; done || lia|done|].
    pose proof (li_data _ _ _ _ Hi) as Hd. pose proof (li_remaining _ _ _ _ Hi).
    pose proof (li_nonneg _ _ _ _ Hi). pose proof (li_exceeded _ _ _ _ Hi) as Hx.
    split_and!; [by eexists|lia| |].
    + intros Hxx. specialize (Hx Hxx). split; [done|]. rewrite Hd, len_app.
      pose proof (len_nonneg (rd_data (lr_r l))). lia.
    + intros b err Hin. destruct (Hres b err Hin) as [?|[? ?]]; auto.
  - intros d Hd. cbn [src_reads]. unfold rd_read at 1. unfold limited_read. cbn [remaining lr_r exceeded].
    destruct (Z.leb_spec cap 0); [lia|]. rewrite Z.gtb_ltb, Z.ltb_irrefl.
    unfold rd_read, source_reader. cbn [src_chunks src_final src_early].
    subst cap. rewrite Z.leb_refl. cbv zeta iota beta. by rewrite Z.sub_diag.
Qed.
End Limited.

(** ** Bodies recorded in the ledger *)
Section LedgerBodies.
Context {HO : HashOps} {HL : HashLaws} {R : Type} {IR : IOReader R} {BL : BodyLaws R}.
Variable entry_of : bytes -> Z -> entryInput.

(** [got] of the body [r0] has been read and hashed. *)
Record lb_inv (s0 : StreamingHasher) (r0 : R) (e : entryInput) (got : bytes) (lb : ledgerBody R) : Prop := {
  lbi_hash : exists chunks, lb_hasher lb = foldl sh_Write s0 chunks /\ mjoin chunks = got;
  lbi_data : rd_data r0 = got ++ rd_data (lb_source lb);
  lbi_final : rd_final (lb_source lb) = rd_final r0;
  lbi_steps : (rd_steps (lb_source lb) <= rd_steps r0)%nat;
  lbi_done : lb_done lb = true -> got = rd_data r0;
  lbi_written : lb_written lb = if lb_done lb then [e] else [] }.

Lemma hash_write_some hs s0 chunks b :
  hs = foldl sh_Write s0 chunks ->
  (if 0 <? len b then sh_Write hs b else hs) =
    foldl sh_Write s0 (chunks ++ if 0 <? len b then [b] else []) /\
  mjoin (chunks ++ if 0 <? len b then [b] else []) = mjoin chunks ++ b.
Proof.
  intros ->. destruct (Z.ltb_spec 0 (len b)) as [Hb|Hb].
  - by rewrite foldl_app, join_app, mjoin_cons, app_nil_r.
  - rewrite app_nil_r. split; [done|]. destruct b; [by rewrite app_nil_r|].
    rewrite len_cons in Hb. pose proof (len_nonneg b0). lia.
Qed.

Section Once.
Variables (names : list string) (s0 : StreamingHasher) (r0 : R) (block : bytes).
Hypothesis Hs0 : NewStreamingHasher names = Some s0.
Hypothesis Hblock : ComputeHashBlock names (rd_data r0) [] = Some block.

Let e : entryInput := entry_of block (to_int64 (len (rd_data r0))).

Lemma finish_entry (src : R) chunks w :
  mjoin chunks = rd_data r0 ->
  lb_finish entry_of (mkLedgerBody src (foldl sh_Write s0 chunks) true w) =
    mkLedgerBody src (foldl sh_Write s0 chunks) true (w ++ [e]).
Proof using Hs0 Hblock HL.
  intros Hc. unfold lb_finish. cbn [lb_hasher].
  destruct (streamed names s0 chunks Hs0) as (b & -> & Hb & _).
  rewrite Hc in Hb |- *. unfold e. cbn. congruence.
Qed.

Lemma lb_read_inv got lb n :
  lb_inv s0 r0 e got lb -> 0 < n ->
  let '(lb', b, err) := lb_Read entry_of lb n in lb_inv s0 r0 e (got ++ b) lb'.
Proof using Hs0 Hblock HL BL.
  intros [(chunks & Hh & Hg) Hd Hf Hst Hdn Hw] Hn. unfold lb_Read.
  pose proof (rd_law (lb_source lb) n Hn) as Hl.
  destruct (rd_read (lb_source lb) n) as [[src b] err]. destruct Hl as (_ & Hd' & Hf' & He).
  destruct (hash_write_some _ _ _ b Hh) as [Hh' Hg']. rewrite Hg in Hg'. rewrite Hh'.
  set (chunks' := chunks ++ _) in *.
  assert (Hall : rd_data r0 = (got ++ b) ++ rd_data src) by (by rewrite Hd, Hd', app_assoc).
  assert (Hsteps : (rd_steps src <= rd_steps r0)%nat) by (destruct err; lia).
  destruct (bool_decide_reflect (err = Some EOF)) as [->|Hne]; cbn [andb].
  - destruct He as (_ & Hz & _). rewrite Hz, app_nil_r in Hall.
    destruct (lb_done lb) eqn:Hdone; cbn [negb].
    + split; cbn; eauto; [by rewrite Hz, app_nil_r|congruence].
    + rewrite finish_entry by congruence. split; cbn; eauto; [by rewrite Hz, app_nil_r|congruence|].
      by rewrite Hw.
  - split; cbn; eauto; [congruence|]. intros Hdone. specialize (Hdn Hdone).
    rewrite Hdn in Hall. apply (f_equal length) in Hall. rewrite !length_app in Hall.
    destruct b; [by rewrite app_nil_r|cbn in Hall; lia].
Qed.

Lemma lb_reads_inv got lb ns :
  lb_inv s0 r0 e got lb -> Forall (fun n => 0 < n) ns ->
  let '(lb', bs) := lb_reads entry_of lb ns in lb_inv s0 r0 e (got ++ bs) lb'.
Proof using Hs0 Hblock HL BL.
  intros Hi Hns. revert got lb Hi. induction Hns as [|n ns Hn _ IH]; intros got lb Hi; cbn [lb_reads].
  - by rewrite app_nil_r.
  - pose proof (lb_read_inv got lb n Hi Hn) as Hr. destruct (lb_Read entry_of lb n) as [[lb1 b] err].
    specialize (IH _ _ Hr). destruct (lb_reads entry_of lb1 ns) as [lb2 bs].
    by rewrite app_assoc.
Qed.

Lemma drain_all fuel src chunks :
  rd_data r0 = mjoin chunks ++ rd_data src -> (rd_steps src < fuel)%nat ->
  exists src' chunks', lb_drain fuel src (foldl sh_Write s0 chunks) = Some (src', foldl sh_Write s0 chunks') /\
    mjoin chunks' = rd_data r0.
Proof using BL.
  revert src chunks. induction fuel as [|fuel IH]; intros src chunks Hd Hf; [lia|].
  cbn [lb_drain]. pose proof (rd_law src drain_buf ltac:(done)) as Hl.
  destruct (rd_read src drain_buf) as [[src' b] err]. destruct Hl as (_ & Hd' & _ & He).
  destruct (hash_write_some _ s0 chunks b eq_refl) as [Hh Hg]. rewrite Hh.
  assert (Hall : rd_data r0 = mjoin (chunks ++ if 0 <? len b then [b] else []) ++ rd_data src').
  { by rewrite Hg, Hd, Hd', app_assoc. }
  destruct err.
  - destruct He as (_ & Hz & _). rewrite Hz, app_nil_r in Hall. eauto.
  - apply IH; [done|lia].
Qed.

Lemma lb_close_written got lb fuel :
  lb_inv s0 r0 e got lb -> (rd_steps r0 < fuel)%nat ->
  exists lb', lb_Close entry_of fuel lb = Some lb' /\ lb_written lb' = [e] /\ lb_done lb' = true.
Proof using Hs0 Hblock HL BL.
  intros [(chunks & Hh & Hg) Hd Hf Hst Hdn Hw] Hfuel. unfold lb_Close.
  destruct (lb_done lb) eqn:Hdone; [eauto|]. rewrite Hh.
  destruct (drain_all fuel (lb_source lb) chunks) as (src' & chunks' & -> & Hc); [congruence|lia|].
  cbn [mbind option_bind]. rewrite finish_entry by done. eexists. split; [done|]. by rewrite Hw.
Qed.
End Once.

(** However the guest reads a recorded body and wherever it stops, the
    ledger gets exactly one entry for it: the hash block and size of the whole
    body, written when the last byte has been read, or else on [Close], which
    reads the rest; a second [Close] writes nothing more. *)
Theorem body_recorded_once names s0 r0 ns fuel :
  NewStreamingHasher names = Some s0 -> Forall (fun n => 0 < n) ns -> (rd_steps r0 < fuel)%nat ->
  let '(lb, got) := lb_reads entry_of (mkLedgerBody r0 s0 false []) ns in
  exists block, ComputeHashBlock names (rd_data r0) [] = Some block /\
    let e := entry_of block (to_int64 (len (rd_data r0))) in
    got `prefix_of` rd_data r0 /\
    lb_written lb = (if lb_done lb then [e] else []) /\ (lb_done lb = true -> got = rd_data r0) /\
    exists lb', lb_Close entry_of fuel lb = Some lb' /\ lb_written lb' = [e] /\
                lb_Close entry_of fuel lb' = Some lb'.
Proof using HL BL.
  intros Hs Hns Hf.
  destruct (streamed names s0 [rd_data r0] Hs) as (block & _ & Hb & _).
  rewrite mjoin_cons, app_nil_r in Hb.
  pose proof (lb_reads_inv names s0 r0 block Hs Hb [] (mkLedgerBody r0 s0 false []) ns) as Hi.
  destruct (lb_reads entry_of _ ns) as [lb got]. cbn [app] in Hi.
  assert (H : lb_inv s0 r0 (entry_of block (to_int64 (len (rd_data r0)))) got lb).
  { apply Hi; [|done]. split; cbn; try done. by exists []. }
  exists block. split; [done|]. cbv zeta. split_and!.
  - eexists. apply (lbi_data _ _ _ _ _ H).
  - apply (lbi_written _ _ _ _ _ H).
  - apply (lbi_done _ _ _ _ _ H).
  - destruct (lb_close_written names s0 r0 block Hs Hb got lb fuel H Hf) as (lb' & Hc & Hw & Hd).
    exists lb'. split_and!; [done|done|]. unfold lb_Close. by rewrite Hd.
Qed.
End LedgerBodies.

(** ** Captures *)
Section Captures.
Context {R : Type} {IR : IOReader R} {BL : BodyLaws R}.

Lemma cap_reads_src {W} (Write : W -> bytes -> W * option error) c ns :
  let '(c', res) := cap_reads Write c ns in
  src_reads (cap_source c) ns = (cap_source c', res).
Proof.
  revert c. induction ns as [|n ns IH]; intros c; cbn [cap_reads src_reads]; [done|].
  unfold cap_Read. destruct (rd_read (cap_source c) n) as [[src b] err].
  set (c1 := if bool_decide _ then _ else _).
  assert (Hc1 : cap_source c1 = src).
  { unfold c1, cap_finish. cbn. destruct (bool_decide _); [|done]. by repeat case_match. }
  specialize (IH c1). destruct (cap_reads Write c1 ns) as [c2 res]. rewrite Hc1 in IH. by rewrite IH.
Qed.

(** [got] of the body has been read; an upload that does not fail has it. *)
Record cap_inv (r0 : R) (got : bytes) (c : capturingReadCloser R bytes) : Prop := {
  ci_data : rd_data r0 = got ++ rd_data (cap_source c);
  ci_steps : (rd_steps (cap_source c) <= rd_steps r0)%nat;
  ci_state : (cap_pw c = Some got /\ cap_sent c = None) \/
             (cap_pw c = None /\ cap_sent c = Some (rd_data r0) /\ got = rd_data r0) }.

Lemma buffer_if w (b : bytes) :
  (if 0 <? len b then buffer_write w b else (w, None)) = (w ++ b, None).
Proof.
  destruct (Z.ltb_spec 0 (len b)); [done|]. destruct b; [by rewrite app_nil_r|].
  rewrite len_cons in *. pose proof (len_nonneg b0). lia.
Qed.

Lemma cap_read_inv r0 got c n :
  cap_inv r0 got c -> 0 < n ->
  let '(c', b, err) := cap_Read buffer_write c n in cap_inv r0 (got ++ b) c'.
Proof using BL.
  intros [Hd Hst Hs] Hn. unfold cap_Read. pose proof (rd_law (cap_source c) n Hn) as Hl.
  destruct (rd_read (cap_source c) n) as [[src b] err]. destruct Hl as (_ & Hd' & _ & He).
  assert (Hall : rd_data r0 = (got ++ b) ++ rd_data src) by (by rewrite Hd, Hd', app_assoc).
  assert (Hsteps : (rd_steps src <= rd_steps r0)%nat) by (destruct err; lia).
  destruct Hs as [[Hpw Hsent]|(Hpw & Hsent & Hgot)]; rewrite Hpw.
  - replace (if 0 <? len b then _ else Some got) with (Some (got ++ b)); cycle 1.
    { pose proof (buffer_if got b) as Hb. destruct (0 <? len b); cbn in *; congruence. }
    destruct (bool_decide_reflect (err = Some EOF)) as [->|_]; split; cbn; try done; [|by left].
    destruct He as (_ & Hz & _). rewrite Hz, app_nil_r in Hall. right. by rewrite Hall.
  - assert (Hb : b = []).
    { rewrite Hgot in Hall. apply (f_equal length) in Hall. rewrite !length_app in Hall.
      destruct b; [done|cbn in Hall; lia]. }
    subst b. rewrite app_nil_r in *. unfold cap_finish.
    destruct (bool_decide _); cbn; split; cbn; try done; by right.
Qed.

Lemma cap_reads_inv r0 got c ns :
  cap_inv r0 got c -> Forall (fun n => 0 < n) ns ->
  exists got', cap_inv r0 got' (cap_reads buffer_write c ns).1.
Proof using BL.
  intros Hc Hns. revert c got Hc. induction Hns as [|n ns Hn _ IH]; intros c got Hc; [by exists got|].
  cbn [cap_reads]. pose proof (cap_read_inv r0 got c n Hc Hn) as H1.
  destruct (cap_Read buffer_write c n) as [[c1 b] err]. destruct (IH c1 _ H1) as [got' H2].
  exists got'. by destruct (cap_reads buffer_write c1 ns).
Qed.

Lemma cap_copy_all fuel r0 src got :
  rd_data r0 = got ++ rd_data src -> (rd_steps src < fuel)%nat ->
  exists src', cap_copy buffer_write fuel src got = Some (src', rd_data r0).
Proof using BL.
  revert src got. induction fuel as [|fuel IH]; intros src got Hd Hf; [lia|].
  cbn [cap_copy]. pose proof (rd_law src drain_buf ltac:(done)) as Hl.
  destruct (rd_read src drain_buf) as [[src' b] err]. destruct Hl as (_ & Hd' & _ & He).
  rewrite buffer_if. assert (Hall : rd_data r0 = (got ++ b) ++ rd_data src') by (by rewrite Hd, Hd', app_assoc).
  destruct err.
  - destruct He as (_ & Hz & _). rewrite Hz, app_nil_r in Hall. rewrite Hall. eauto.
  - apply IH; [done|lia].
Qed.

(** Capturing is transparent and complete: for any upload, failing or not,
    the guest reads exactly what it would read from the body itself; and an
    upload that accepts everything holds the whole body after [Close], however
    much the guest read. *)
Theorem capture_transparent r0 ns fuel :
  (forall (W : Type) (Write : W -> bytes -> W * option error) (w : W),
     (src_reads r0 ns).2 = (cap_reads Write (mkCapturing r0 (Some w) None) ns).2) /\
  (Forall (fun n => 0 < n) ns -> (rd_steps r0 < fuel)%nat ->
     exists c, cap_Close buffer_write fuel (cap_reads buffer_write (mkCapturing r0 (Some []) None) ns).1 = Some c /\
               cap_sent c = Some (rd_data r0)).
Proof using BL.
  split.
  - intros W Write w. pose proof (cap_reads_src Write (mkCapturing r0 (Some w) None) ns) as Hs.
    destruct (cap_reads Write _ ns) as [c res]. cbn in Hs. by rewrite Hs.
  - intros Hns Hf.
    assert (Hi : exists got, cap_inv r0 got (cap_reads buffer_write (mkCapturing r0 (Some []) None) ns).1).
    { apply (cap_reads_inv r0 []); [|done]. split; cbn; auto. }
    destruct Hi as [got [Hd Hst Hs]]. set (c := (cap_reads _ _ _).1) in *. unfold cap_Close.
    destruct Hs as [[Hpw Hsent]|(Hpw & Hsent & Hg)]; rewrite Hpw; [|eauto].
    destruct (cap_copy_all fuel r0 (cap_source c) got Hd) as (src' & ->); [lia|].
    cbn. eauto.
Qed.
End Captures.
End StreamSpec.

(** ** Witnesses *)
Module StreamExamples.
Import Toy Reader Writer Streams StreamSpec.

Definition ex_body : source := mkSource [[Byte.x01; Byte.x02]; []; [Byte.x03]] EOF false.
Definition ex_hasher : StreamingHasher :=
  match NewStreamingHasher ["md5"%string] with Some s => s | None => mkStreamingHasher [] 0 end.

Lemma copy_lands_prefix_witness :
  exists st src' err, copy buffer_write 10 (mkCopy [Byte.xaa] 0 0) ex_body 3 = Some (st, src', err) /\
    cp_dst st = [Byte.xaa; Byte.x01; Byte.x02; Byte.x03].
Proof.
  destruct (copy_lands_prefix (R:=source) ex_body 3 10 [Byte.xaa]) as (st & src' & err & Hc & _ & Hd & _).
  - vm_compute. lia.
  - lia.
  - vm_compute. reflexivity.
  - exists st, src', err. split; [exact Hc|]. apply Hd. vm_compute. discriminate.
Defined.

Lemma limitedReader_cap_witness :
  src_reads (mkLimited (mkSource [[Byte.x01; Byte.x02]] EOF true) 2 false) [2] =
    (mkLimited (mkSource [] EOF true) 0 false, [([Byte.x01; Byte.x02], Some EOF)]).
Proof.
  apply (limitedReader_cap (R:=source) ex_body 2 [1; 5]); [lia|repeat constructor|reflexivity].
Defined.

Lemma body_recorded_once_witness :
  exists lb', lb_Close (response_entry [] []) 10
      (lb_reads (response_entry [] []) (mkLedgerBody ex_body ex_hasher false []) [1; 1]).1 = Some lb' /\
    length (lb_written lb') = 1%nat.
Proof.
  pose proof (body_recorded_once (HL:=Toy.hash_laws) (R:=source) (response_entry [] []) ["md5"%string] ex_hasher ex_body [1; 1] 10)
    as H.
  destruct (lb_reads _ _ [1; 1]) as [lb got] eqn:E.
  destruct H as (block & _ & _ & _ & _ & lb' & Hc & Hw & _).
  - reflexivity.
  - repeat constructor.
  - vm_compute. lia.
  - exists lb'. split; [exact Hc|]. rewrite Hw. reflexivity.
Defined.

Lemma capture_transparent_witness :
  exists c, cap_Close buffer_write 10 (cap_reads buffer_write (mkCapturing ex_body (Some []) None) [1]).1 = Some c /\
    cap_sent c = Some [Byte.x01; Byte.x02; Byte.x03].
Proof.
  destruct (capture_transparent (R:=source) ex_body [1] 10) as [_ H].
  apply H; [repeat constructor|vm_compute; lia].
Defined.
End StreamExamples.
