(* ===== verification/Fair.v ===== *)
(** * Fair bandwidth (src/relay/fair.go)

    The deficit round robin between response bodies: a scheduler goroutine adds
    a quantum to every joined stream each pass, a read is cut to the stream's
    quota and waits for one while it has none. *)
From S2P Require Import Prelude Streams.

#[local] Open Scope Z_scope.

Module Fair.

Definition quantum : Z := 128 * 1024.

(** [waiting] holds the request blocked in [cond.Wait], [signalled] whether it
    has been woken since. *)
Record drrStream := mkStream { quota : Z; waiting : option Z; signalled : bool }.

(** [streams] is the scheduler's slice of pointers, [heap] what they point to;
    [grants] logs what [acquireQuota] returned. *)
Record drrScheduler := mkSched {
  streams : list nat; heap : gmap nat drrStream; grants : list (nat * Z) }.

Definition join (i : nat) (s : drrScheduler) : drrScheduler :=
  mkSched (streams s ++ [i]) (<[i := mkStream quantum None false]> (heap s)) (grants s).

Definition signal (st : drrStream) : drrStream :=
  match waiting st with
  | Some _ => mkStream (quota st) (waiting st) true
  | None => st
  end.

(** Removes the first occurrence, and signals the stream. *)
Fixpoint remove_first (i : nat) (l : list nat) : list nat :=
  match l with [] => [] | j :: l' => if decide (j = i) then l' else j :: remove_first i l' end.

Definition leave (i : nat) (s : drrScheduler) : drrScheduler :=
  mkSched (remove_first i (streams s)) (alter signal i (heap s)) (grants s).

(** One stream's share of a pass of [run]. *)
Definition refill (st : drrStream) : drrStream :=
  let q := quota st + quantum in
  let q := if q >? quantum * 2 then quantum * 2 else q in
  signal (mkStream q (waiting st) (signalled st)).

Definition pass (s : drrScheduler) : drrScheduler :=
  mkSched (streams s) (foldl (fun h i => alter refill i h) (heap s) (streams s)) (grants s).

(** [sleepUntilNeeded] returns once some joined stream is waiting. *)
Definition needed (s : drrScheduler) : bool :=
  existsb (fun i => match heap s !! i with
                    | Some st => match waiting st with Some _ => true | None => false end
                    | None => false end) (streams s).

(** [acquireQuota(requested)] with the lock held: [None] waits. *)
Definition acquireQuota (st : drrStream) (requested : Z) : drrStream * option Z :=
  if quota st <=? 0 then (mkStream (quota st) (Some requested) false, None)
  else
    let grant := if requested >? quota st then quota st else requested in
    (mkStream (quota st - grant) None (signalled st), Some grant).

(** [fairReader.Read]: the source is read with the granted part of the
    buffer. *)
Definition fair_Read {R} `{Streams.IOReader R} (st : drrStream) (src : R) (n : Z) :
    option (drrStream * (R * bytes * option error)) :=
  match acquireQuota st n with
  | (st', Some allowed) => Some (st', Streams.rd_read src allowed)
  | (_, None) => None
  end.

(** ** The machine *)
Inductive event :=
  | Join (i : nat)
  | Leave (i : nat)
  | Pass
  | Request (i : nat) (n : Z)    (* a reader calls [acquireQuota] *)
  | Resume (i : nat).            (* a woken reader re-checks its quota *)

Definition acquire_at (s : drrScheduler) (i : nat) (st : drrStream) (n : Z) : drrScheduler :=
  let '(st', g) := acquireQuota st n in
  mkSched (streams s) (<[i := st']> (heap s))
    (match g with Some g => grants s ++ [(i, g)] | None => grants s end).

(** [None]: the event cannot happen in this state. *)
Definition step (s : drrScheduler) (e : event) : option drrScheduler :=
  match e with
  | Join i => match heap s !! i with None => Some (join i s) | Some _ => None end
  | Leave i => Some (leave i s)
  | Pass => Some (pass s)
  | Request i n =>
      st ← heap s !! i;
      match waiting st with
      | None => Some (acquire_at s i st n)
      | Some _ => None
      end
  | Resume i =>
      st ← heap s !! i;
      match waiting st with
      | Some n => if signalled st then Some (acquire_at s i st n) else None
      | None => None
      end
  end.

Definition run (s : drrScheduler) (es : list event) : option drrScheduler :=
  foldl (fun o e => s ← o; step s e) (Some s) es.

Definition empty : drrScheduler := mkSched [] ∅ [].

(** ** Accounting *)

Fixpoint passes (es : list event) : Z :=
  match es with [] => 0 | e :: es' => (match e with Pass => 1 | _ => 0 end) + passes es' end.

(** What stream [i] has been granted. *)
Fixpoint granted (i : nat) (gs : list (nat * Z)) : Z :=
  match gs with [] => 0 | (j, g) :: gs' => (if decide (j = i) then g else 0) + granted i gs' end.

Definition requests_ok (es : list event) : Prop :=
  Forall (fun e => match e with Request _ n => 0 <= n | _ => True end) es.

Lemma granted_app i gs gs' : granted i (gs ++ gs') = granted i gs + granted i gs'.
Proof. induction gs as [|[j g] gs IH]; cbn; [done|]. rewrite IH. lia. Qed.

Lemma passes_app es es' : passes (es ++ es') = passes es + passes es'.
Proof. induction es as [|e es IH]; cbn; [done|]. rewrite IH. lia. Qed.

Lemma passes_nonneg es : 0 <= passes es.
Proof. induction es as [|[]]; cbn; lia. Qed.

Lemma signal_quota st : quota (signal st) = quota st /\ waiting (signal st) = waiting st.
Proof. unfold signal. destruct (waiting st) eqn:E; by rewrite ?E. Qed.

Lemma refill_quota st :
  quota (refill st) = Z.min (quota st + quantum) (2 * quantum) /\
  waiting (refill st) = waiting st /\ (is_Some (waiting st) -> signalled (refill st) = true).
Proof.
  unfold refill. set (st1 := mkStream _ _ _). destruct (signal_quota st1) as [-> ->].
  cbn. split_and!; [|done|].
  - rewrite Z.gtb_ltb. destruct (Z.ltb_spec (quantum * 2) (quota st + quantum)); lia.
  - intros [n Hn]. unfold signal. cbn. by rewrite Hn.
Qed.

Lemma alter_all (l : list nat) (h : gmap nat drrStream) (f : drrStream -> drrStream) i :
  NoDup l ->
  foldl (fun h j => alter f j h) h l !! i = if decide (i ∈ l) then f <$> h !! i else h !! i.
Proof.
  intros Hnd. revert h. induction Hnd as [|j l Hj _ IH]; intros h; cbn [foldl].
  - rewrite decide_False; [done|]. set_solver.
  - rewrite IH. destruct (decide (i = j)) as [->|Hij].
    + rewrite decide_False by done. rewrite lookup_alter_eq, decide_True by set_solver. done.
    + rewrite lookup_alter_ne by done.
      destruct (decide (i ∈ l)); [rewrite decide_True by set_solver|rewrite decide_False by set_solver]; done.
Qed.

Lemma remove_first_elem i j l : j ∈ remove_first i l -> j ∈ l.
Proof. induction l as [|k l IH]; cbn; [done|]. case_decide; set_solver. Qed.

Lemma remove_first_NoDup i l : NoDup l -> NoDup (remove_first i l) /\ i ∉ remove_first i l.
Proof.
  induction 1 as [|k l Hk Hl [IH1 IH2]]; cbn; [split; [constructor|set_solver]|].
  case_decide; [by subst|]. split; [|set_solver].
  constructor; [|done]. intros Hin. by apply remove_first_elem in Hin.
Qed.

(** ** Invariant *)
Record stream_ok (k : Z) (i : nat) (gs : list (nat * Z)) (st : drrStream) : Prop := {
  so_quota : 0 <= quota st <= 2 * quantum;
  so_account : granted i gs + quota st <= quantum * (1 + k);
  so_granted : 0 <= granted i gs;
  so_waiting : forall n, waiting st = Some n -> 0 <= n }.

Record sched_ok (k : Z) (s : drrScheduler) : Prop := {
  sk_nodup : NoDup (streams s);
  sk_dom : forall i, i ∈ streams s -> is_Some (heap s !! i);
  sk_streams : forall i st, heap s !! i = Some st -> stream_ok k i (grants s) st;
  sk_fresh : forall i, heap s !! i = None -> granted i (grants s) = 0;
  sk_nonneg : 0 <= k }.

Lemma acquire_ok k i gs st n :
  stream_ok k i gs st -> 0 <= n ->
  match acquireQuota st n with
  | (st', None) => stream_ok k i gs st' /\ quota st = 0 /\ waiting st' = Some n
  | (st', Some g) => stream_ok k i (gs ++ [(i, g)]) st' /\ 0 <= g <= n /\ g = Z.min n (quota st)
  end.
Proof.
  intros [Hq Ha Hg Hw] Hn. unfold acquireQuota. destruct (Z.leb_spec (quota st) 0) as [Hz|Hz].
  - split_and!; [|lia|done]. split; cbn; try done. congruence.
  - set (g := if n >? quota st then quota st else n).
    assert (Hgm : g = Z.min n (quota st)).
    { unfold g. rewrite Z.gtb_ltb. destruct (Z.ltb_spec (quota st) n); lia. }
    split_and!; [|lia..]. split; cbn; rewrite ?granted_app; cbn; rewrite ?decide_True by done; try lia.
    done.
Qed.

Lemma stream_ok_other k i gs j g st : i <> j -> stream_ok k i gs st -> stream_ok k i (gs ++ [(j, g)]) st.
Proof.
  intros Hij [? ? ? ?]. split; rewrite ?granted_app; cbn; rewrite ?decide_False by done; rewrite ?Z.add_0_r; done.
Qed.

Lemma acquire_at_ok k s i st n :
  sched_ok k s -> heap s !! i = Some st -> 0 <= n -> sched_ok k (acquire_at s i st n).
Proof.
  intros [Hnd Hd Hs Hf Hk] Hi Hn. unfold acquire_at.
  pose proof (acquire_ok k i (grants s) st n (Hs _ _ Hi) Hn) as Ha.
  destruct (acquireQuota st n) as [st' [g|]].
  - destruct Ha as (Ha & _). split; cbn; try done.
    + intros j Hj. destruct (decide (i = j)) as [->|]; [rewrite lookup_insert_eq|rewrite lookup_insert_ne by done]; eauto.
    + intros j sj. destruct (decide (i = j)) as [->|Hij].
      * rewrite lookup_insert_eq. by intros [= <-].
      * rewrite lookup_insert_ne by done. intros Hj. apply stream_ok_other; eauto.
    + intros j. destruct (decide (i = j)) as [->|Hij]; [by rewrite lookup_insert_eq|].
      rewrite lookup_insert_ne by done. intros Hj. rewrite granted_app. cbn.
      rewrite decide_False by done. rewrite Hf by done. done.
  - destruct Ha as (Ha & _). split; cbn; try done.
    + intros j Hj. destruct (decide (i = j)) as [->|]; [rewrite lookup_insert_eq|rewrite lookup_insert_ne by done]; eauto.
    + intros j sj. destruct (decide (i = j)) as [->|Hij].
      * rewrite lookup_insert_eq. by intros [= <-].
      * rewrite lookup_insert_ne by done. eauto.
    + intros j. destruct (decide (i = j)) as [->|Hij]; [by rewrite lookup_insert_eq|].
      rewrite lookup_insert_ne by done. eauto.
Qed.

Lemma alter_ok k s i (f : drrStream -> drrStream) :
  (forall st, quota (f st) = quota st /\ waiting (f st) = waiting st) ->
  forall j st, (forall st, heap s !! j = Some st -> stream_ok k j (grants s) st) ->
  alter f i (heap s) !! j = Some st -> stream_ok k j (grants s) st.
Proof.
  intros Hf j st Hs. destruct (decide (i = j)) as [->|Hij].
  - rewrite lookup_alter_eq, fmap_Some. intros (st0 & Hst0 & ->). destruct (Hs _ Hst0), (Hf st0) as [Hq Hw].
    split; rewrite ?Hq, ?Hw; done.
  - rewrite lookup_alter_ne by done. apply Hs.
Qed.

Lemma stream_ok_pass k i gs st : stream_ok k i gs st -> stream_ok (k + 1) i gs (refill st).
Proof.
  intros [? ? ? ?]. destruct (refill_quota st) as (Hq & Hw & _). split; rewrite ?Hq, ?Hw; try done;
    unfold quantum in *; lia.
Qed.

Lemma stream_ok_mono k i gs st : stream_ok k i gs st -> stream_ok (k + 1) i gs st.
Proof. intros [? ? ? ?]. split; try done. unfold quantum in *. lia. Qed.

Lemma step_ok k s e s' :
  sched_ok k s -> (match e with Request _ n => 0 <= n | _ => True end) -> step s e = Some s' ->
  sched_ok (k + match e with Pass => 1 | _ => 0 end) s'.
Proof.
  intros Hok Hn Hs. pose proof Hok as [Hnd Hd Hst Hf Hk].
  destruct e as [i|i| |i n|i]; cbn in Hs; rewrite ?Z.add_0_r.
  - destruct (heap s !! i) eqn:Hi; [done|]. injection Hs as <-. unfold join. split; cbn; try done.
    + apply NoDup_app. split_and!; [done| |apply NoDup_singleton].
      intros j Hj ->%list_elem_of_singleton. destruct (Hd _ Hj). congruence.
    + intros j Hj. destruct (decide (i = j)) as [->|Hij]; [by rewrite lookup_insert_eq|].
      rewrite lookup_insert_ne by done. set_solver.
    + intros j st. destruct (decide (i = j)) as [->|Hij].
      * rewrite lookup_insert_eq. intros [= <-]. specialize (Hf _ Hi).
        split; cbn; rewrite ?Hf; unfold quantum; lia || done.
      * rewrite lookup_insert_ne by done. eauto.
    + intros j. destruct (decide (i = j)) as [->|Hij]; [by rewrite lookup_insert_eq|].
      rewrite lookup_insert_ne by done. eauto.
  - injection Hs as <-. unfold leave. split; cbn; try done.
    + by apply remove_first_NoDup.
    + intros j Hj%remove_first_elem. destruct (decide (i = j)) as [->|Hij].
      * rewrite lookup_alter_eq. destruct (Hd _ Hj) as [? ->]. eauto.
      * rewrite lookup_alter_ne by done. eauto.
    + intros j st. apply (alter_ok k s i signal signal_quota); eauto.
    + intros j. destruct (decide (i = j)) as [->|Hij].
      * rewrite lookup_alter_eq, fmap_None. eauto.
      * rewrite lookup_alter_ne by done. eauto.
  - injection Hs as <-. unfold pass. split; cbn; try done; try lia.
    + intros j Hj. rewrite alter_all, decide_True by done. destruct (Hd _ Hj) as [? ->]. eauto.
    + intros j st. rewrite alter_all by done. case_decide.
      * rewrite fmap_Some. intros (st0 & Hj & ->). apply stream_ok_pass. eauto.
      * intros Hj. apply stream_ok_mono. eauto.
    + intros j. rewrite alter_all by done. case_decide; [rewrite fmap_None|]; eauto.
  - apply bind_Some in Hs as (st & Hi & Hs). destruct (waiting st) eqn:Hw; [done|]. injection Hs as <-.
    by apply acquire_at_ok.
  - apply bind_Some in Hs as (st & Hi & Hs). destruct (waiting st) as [n|] eqn:Hw; [|done].
    destruct (signalled st); [|done]. injection Hs as <-. apply acquire_at_ok; [done|done|].
    by apply (so_waiting _ _ _ _ (Hst _ _ Hi)).
Qed.

Lemma run_snoc s es e : run s (es ++ [e]) = (s' ← run s es; step s' e).
Proof. unfold run. by rewrite foldl_app. Qed.

Lemma run_ok es s : run empty es = Some s -> requests_ok es -> sched_ok (passes es) s.
Proof.
  revert s. induction es as [|e es IH] using rev_ind; intros s Hr Hq.
  - injection Hr as <-. split; cbn; try done; [constructor|set_solver].
  - rewrite run_snoc in Hr. apply bind_Some in Hr as (s0 & Hr & Hs).
    apply Forall_app in Hq as [Hq He]. apply Forall_inv in He.
    rewrite passes_app. cbn [passes]. rewrite Z.add_0_r. eapply step_ok; eauto.
Qed.

(** ** A stream that has left *)

(** Without quota and out of the scheduler's slice, a stream stays so. *)
Definition stranded (i : nat) (s : drrScheduler) : Prop :=
  i ∉ streams s /\ exists st, heap s !! i = Some st /\ quota st <= 0.

Lemma stranded_acquire i s j sj n st :
  i ∉ streams s -> heap s !! i = Some st -> quota st <= 0 -> heap s !! j = Some sj ->
  (i ∉ streams (acquire_at s j sj n) /\
   exists st', heap (acquire_at s j sj n) !! i = Some st' /\ quota st' <= 0) /\
  granted i (grants (acquire_at s j sj n)) = granted i (grants s).
Proof.
  intros Hi Hst Hq Hj. unfold acquire_at, acquireQuota. destruct (decide (j = i)) as [->|Hij].
  - assert (sj = st) as -> by congruence. destruct (Z.leb_spec (quota st) 0); [|lia]. cbn.
    split; [|done]. split; [done|]. rewrite lookup_insert_eq. eexists. by split.
  - destruct (Z.leb_spec (quota sj) 0); cbn; (split; [split; [done|]|]).
    1,3: rewrite lookup_insert_ne by done; eauto.
    + done.
    + rewrite granted_app. cbn. rewrite decide_False by done. lia.
Qed.

Lemma stranded_step i s e s' :
  NoDup (streams s) -> stranded i s -> step s e = Some s' ->
  stranded i s' /\ granted i (grants s') = granted i (grants s).
Proof.
  intros Hnd (Hi & st & Hst & Hq) Hs. unfold stranded.
  destruct e as [j|j| |j n|j]; cbn in Hs.
  - destruct (heap s !! j) eqn:Hj; [done|]. injection Hs as <-. cbn. split; [|done].
    split; [|exists st; split; [|done]].
    + rewrite elem_of_app, list_elem_of_singleton. intros [?| ->]; [done|congruence].
    + rewrite lookup_insert_ne; [done|congruence].
  - injection Hs as <-. cbn. split; [|done]. split; [by intros ?%remove_first_elem|].
    destruct (decide (j = i)) as [->|].
    + rewrite lookup_alter_eq, Hst. exists (signal st). by rewrite (proj1 (signal_quota st)).
    + rewrite lookup_alter_ne by done. eauto.
  - injection Hs as <-. cbn. split; [|done]. split; [done|]. rewrite alter_all, decide_False by done. eauto.
  - apply bind_Some in Hs as (sj & Hj & Hs). destruct (waiting sj); [done|]. injection Hs as <-.
    by apply (stranded_acquire i s j sj n st).
  - apply bind_Some in Hs as (sj & Hj & Hs). destruct (waiting sj) as [n|]; [|done].
    destruct (signalled sj); [|done]. injection Hs as <-. by apply (stranded_acquire i s j sj n st).
Qed.

Lemma stranded_run i s es s' k :
  sched_ok k s -> requests_ok es -> stranded i s -> run s es = Some s' ->
  granted i (grants s') = granted i (grants s).
Proof.
  intros Hok Hq Hst. revert s'. cut (forall s', run s es = Some s' ->
    (exists k', sched_ok k' s') /\ stranded i s' /\ granted i (grants s') = granted i (grants s)).
  { intros H s' Hr. by destruct (H s' Hr) as (_ & _ & ?). }
  induction es as [|e es IH] using rev_ind; intros s' Hr; [injection Hr as <-; eauto|].
  rewrite run_snoc in Hr. apply bind_Some in Hr as (s0 & Hr & Hs).
  apply Forall_app in Hq as [Hq He]. apply Forall_inv in He.
  destruct (IH Hq s0 Hr) as ([k' Hk'] & Hst0 & <-).
  destruct (stranded_step i s0 e s' (sk_nodup _ _ Hk') Hst0 Hs) as [? ?].
  split_and!; [|done|done]. eexists. by eapply step_ok.
Qed.

(** Fairness by construction: in every run from the empty scheduler, a
    stream's quota stays between 0 and two quanta, no read gets more than it
    asked for, and all reads of a stream together get at most one quantum plus
    one for every pass of the scheduler, whatever the other streams do. *)
Theorem fair_bandwidth es s i :
  run empty es = Some s -> requests_ok es ->
  0 <= granted i (grants s) <= quantum * (1 + passes es) /\
  (forall st, heap s !! i = Some st ->
     0 <= quota st <= 2 * quantum /\ granted i (grants s) + quota st <= quantum * (1 + passes es)) /\
  (forall st n, heap s !! i = Some st -> 0 <= n ->
     match acquireQuota st n with (_, Some g) => 0 <= g <= n /\ (0 < n -> 0 < g) | (_, None) => quota st = 0 end).
Proof.
  intros Hr Hq. destruct (run_ok es s Hr Hq) as [_ _ Hs Hf Hk]. split_and!.
  - destruct (heap s !! i) as [st|] eqn:Hi.
    + destruct (Hs _ _ Hi). lia.
    + rewrite Hf by done. lia.
  - destruct (heap s !! i) as [st|] eqn:Hi.
    + destruct (Hs _ _ Hi). lia.
    + rewrite Hf by done. unfold quantum. lia.
  - intros st Hi. by destruct (Hs _ _ Hi).
  - intros st n Hi Hn. pose proof (acquire_ok (passes es) i (grants s) st n (Hs _ _ Hi) Hn) as Ha.
    destruct (Hs _ _ Hi). unfold acquireQuota in *. destruct (Z.leb_spec (quota st) 0); [tauto|].
    destruct Ha as (_ & ? & ?). lia.
Qed.

(** C12.  No starvation, and its limit.  A joined stream whose read waits is
    served after a single further pass, however many streams there are; a
    stream that [leave] removed while its quota was empty is never granted
    another byte, so a read blocked in it stays blocked although [leave]
    signals it. *)
Theorem fair_progress es s i st :
  run empty es = Some s -> requests_ok es -> heap s !! i = Some st ->
  (forall n, i ∈ streams s -> waiting st = Some n -> 0 < n ->
     exists s2 g, run s [Pass; Resume i] = Some s2 /\ grants s2 = grants s ++ [(i, g)] /\
                  0 < g /\ g = Z.min n (Z.min (quota st + quantum) (2 * quantum))) /\
  (i ∉ streams s -> quota st = 0 -> forall es' s', requests_ok es' -> run s es' = Some s' ->
     granted i (grants s') = granted i (grants s)).
Proof.
  intros Hr Hq Hi. pose proof (run_ok es s Hr Hq) as Hok. split.
  - intros n Hin Hw Hn. destruct (refill_quota st) as (Hrq & Hrw & Hrs).
    destruct (so_quota _ _ _ _ (sk_streams _ _ Hok _ _ Hi)).
    assert (Hp : heap (pass s) !! i = Some (refill st)).
    { unfold pass. cbn. rewrite alter_all, decide_True by (done || apply Hok). by rewrite Hi. }
    unfold run. cbn [foldl mbind option_bind step]. rewrite Hp. cbn [mbind option_bind].
    rewrite Hrw, Hw, Hrs by (by rewrite Hw). unfold acquire_at, acquireQuota. rewrite Hrq.
    assert (0 < Z.min (quota st + quantum) (2 * quantum)) by (unfold quantum; lia).
    destruct (Z.leb_spec (Z.min (quota st + quantum) (2 * quantum)) 0); [lia|].
    rewrite Z.gtb_ltb. eexists _, _. split; [done|]. cbn. split; [done|].
    destruct (Z.ltb_spec (Z.min (quota st + quantum) (2 * quantum)) n); lia.
  - intros Hin Hz es' s' Hq' Hr'. eapply stranded_run; [done|done| |done].
    split; [done|]. exists st. split; [done|lia].
Qed.

(** ** Witnesses *)

(** Two streams; the first has used up its quota and waits. *)
Definition ex_events : list event :=
  [Join 1; Join 2; Request 1 200000; Request 2 10; Request 1 5].
Definition ex_sched : drrScheduler := default empty (run empty ex_events).
Definition ex_stream : drrStream := default (mkStream 0 None false) (heap ex_sched !! 1%nat).

Lemma fair_bandwidth_witness : 0 <= granted 1 (grants ex_sched) <= quantum * 1.
Proof.
  apply (fair_bandwidth ex_events ex_sched 1); [vm_compute; reflexivity|].
  repeat constructor; lia.
Defined.

Lemma fair_progress_witness :
  waiting ex_stream = Some 5 /\
  exists s2 g, run ex_sched [Pass; Resume 1] = Some s2 /\ grants s2 = grants ex_sched ++ [(1%nat, g)] /\ 0 < g.
Proof.
  split; [vm_compute; reflexivity|].
  destruct (fair_progress ex_events ex_sched 1 ex_stream) as [Hp _].
  - vm_compute. reflexivity.
  - repeat constructor; lia.
  - vm_compute. reflexivity.
  - destruct (Hp 5) as (s2 & g & Hr & Hg & Hpos & _); [vm_compute; constructor|vm_compute; reflexivity|lia|].
    exists s2, g. split; [exact Hr|]. split; [exact Hg|exact Hpos].
Defined.
End Fair.
