(* ===== verification/Collector.v ===== *)
(** * The collector (src/collector/collector.go, store.go, signals.go)

    The host side of a build: an HTTP server that lands every output under one
    directory and serves the inputs.  Handlers run one after the other here.

    [fault op path] says whether the operating system refuses an operation, so
    every error return is reachable; the context directory is an [os.Root] whose
    lookups are parameters of its record. *)
From S2P Require Import Prelude Text Crypto Ledger Writer Paths Streams.

#[local] Open Scope Z_scope.

Module Collector.
Import Paths Streams.

Definition HashTrailer : string := "Warden-Hash".
Definition ContextKindHeader : string := "Warden-Context".
Definition defaultMaxArtifactBytes : Z := 4 * 1024 * 1024 * 1024.
Definition MaxEnvironmentBytes : Z := 2 ^ 20.
Definition EnvironmentFile : string := "environment.json".

(** ** State *)

Inductive node := File (b : bytes) | Dir | Symlink (target : string).

#[export] Instance node_eq_dec : EqDecision node.
Proof. solve_decision. Defined.

Abbreviation fs := (gmap string node).

Record CompletionSignal := mkSignal {
  ExitCode : Z; Message : string; ErrorText : string; ReceivedAt : Z }.

(** The build context behind [os.Root]: [cx_stat] follows symlinks inside the
    root and fails outside it ([Some true] is a directory), [cx_open] reads a
    file, [cx_walk] lists what [fs.WalkDir] visits (path, is a directory, is a
    symlink). *)
Record contextRoot := mkContext {
  cx_stat : string -> option bool;
  cx_open : string -> option bytes;
  cx_walk : string -> list (string * bool * bool) }.

Record Config := mkConfig {
  Token : string;
  BuildScript : option (option bytes);  (* [None]: no path; [Some None]: unreadable *)
  Bootstrap : bytes;
  ContextDir : option contextRoot;
  MaxArtifactBytes : Z }.

(** [ready] and [doneClosed] are the closed channels, [done] what the buffered
    [done] channel has been sent, [tee] the console copy of the build output. *)
Record Collector := mkCollector {
  cfg : Config;
  maxArtifact : Z;
  bytesWritten : Z;
  ready : bool;
  lastHeartbeat : Z;
  completion : option CompletionSignal;
  done : list CompletionSignal;
  doneClosed : bool;
  out : fs;
  tee : option bytes }.

Definition set_out (c : Collector) (f : fs) : Collector :=
  mkCollector (cfg c) (maxArtifact c) (bytesWritten c) (ready c) (lastHeartbeat c)
    (completion c) (done c) (doneClosed c) f (tee c).
Definition set_written (c : Collector) (n : Z) : Collector :=
  mkCollector (cfg c) (maxArtifact c) n (ready c) (lastHeartbeat c)
    (completion c) (done c) (doneClosed c) (out c) (tee c).
Definition set_tee (c : Collector) (t : option bytes) : Collector :=
  mkCollector (cfg c) (maxArtifact c) (bytesWritten c) (ready c) (lastHeartbeat c)
    (completion c) (done c) (doneClosed c) (out c) t.

Definition New (cfg : Config) (out : fs) (tee : option bytes) : Collector :=
  let max := if MaxArtifactBytes cfg <=? 0 then defaultMaxArtifactBytes else MaxArtifactBytes cfg in
  mkCollector cfg max 0 false 0 None [] false out tee.

Record Request := mkRequest {
  Method : string; Path : string; Authorization : string;
  Body : source; Trailer : string;
  Now : Z;                      (* the clock when it is handled *)
  Rands : list (result bytes)   (* what [rand.Read] returns *) }.

(** The status and the body; [Kind] is the [Warden-Context] header. *)
Record Response := mkResponse { Status : Z; Kind : string; RBody : bytes }.

Definition Error (msg : string) (code : Z) : Response := mkResponse code "" (bytes_of msg).
Definition OK : Response := mkResponse 200 "" [].

(** ** The output directory *)

(** [filepath.Dir] of a relative path. *)
Definition dir_of (p : string) : string :=
  match removelast (Split p slash) with [] => "." | segs => Join segs "/" end.

(** The prefixes of a path, outermost first. *)
Fixpoint prefixes (acc : list string) (segs : list string) : list string :=
  match segs with
  | [] => []
  | s :: rest => Join (acc ++ [s]) "/" :: prefixes (acc ++ [s]) rest
  end.

Section Handlers.
Context (fault : string -> string -> option error).

Definition notDirectory : error := Msg "not a directory".
Definition notExist : error := Sentinel "file does not exist".

Definition mkdir_step (acc : fs * option error) (p : string) : fs * option error :=
  match acc with
  | (f, Some e) => (f, Some e)
  | (f, None) =>
      match f !! p with
      | None => (<[p := Dir]> f, None)
      | Some Dir => (f, None)
      | Some _ => (f, Some notDirectory)
      end
  end.

Definition MkdirAll (f : fs) (dir : string) : fs * option error :=
  match fault "mkdir" dir with
  | Some e => (f, Some e)
  | None => foldl mkdir_step (f, None) (prefixes [] (Split dir slash))
  end.

Definition parent_ok (f : fs) (p : string) : bool :=
  bool_decide (dir_of p = ".") || bool_decide (f !! dir_of p = Some Dir).

(** [Root.Create] (create or truncate). *)
Definition Create (f : fs) (p : string) : fs * option error :=
  match fault "create" p with
  | Some e => (f, Some e)
  | None =>
      if negb (parent_ok f p) then (f, Some notDirectory) else
      match f !! p with
      | Some Dir | Some (Symlink _) => (f, Some (Msg "cannot create"))
      | _ => (<[p := File []]> f, None)
      end
  end.

Definition Remove (f : fs) (p : string) : fs :=
  match fault "remove" p with
  | Some _ => f
  | None => match f !! p with Some Dir => f | _ => delete p f end
  end.

(** [File.Write]: the file is at [p]. *)
Definition file_write (p : string) (f : fs) (b : bytes) : fs * option error :=
  match fault "write" p with
  | Some e => (f, Some e)
  | None => match f !! p with
            | Some (File old) => (<[p := File (old ++ b)]> f, None)
            | _ => (f, Some notExist)
            end
  end.

Definition createOutput (f : fs) (rel : string) : fs * option error :=
  if negb (IsLocal rel) then (f, Some (Errorf "collector: output path %q is not local" [rel]))
  else
    if decide (dir_of rel = ".") then Create f rel
    else match MkdirAll f (dir_of rel) with
         | (f, Some e) => (f, Some e)
         | (f, None) => Create f rel
         end.

(** Tries up to [n] random names. *)
Fixpoint temp_names (n : nat) (f : fs) (dir prefix : string) (rands : list (result bytes)) :
    fs * result string :=
  match n, rands with
  | S n', Ok b :: rands' =>
      let rel := (dir ++ "/" ++ prefix ++ Writer.hex_encode b)%string in
      match fault "create" rel with
      | Some e => (f, Err e)
      | None => match f !! rel with
                | None => (<[rel := File []]> f, Ok rel)
                | Some _ => temp_names n' f dir prefix rands'
                end
      end
  | S _, Err e :: _ => (f, Err e)
  | S _, [] => (f, Err (Msg "rand"))
  | O, _ => (f, Err (Errorf "collector: no free temporary name in %s" [dir]))
  end.

Definition createOutputTemp (f : fs) (dir prefix : string) (rands : list (result bytes)) :
    fs * result string :=
  match MkdirAll f dir with
  | (f, Some e) => (f, Err e)
  | (f, None) => temp_names 8 f dir prefix rands
  end.

(** [c.copy(f, req.Body, max)] into the file at [p]; the body's length bounds
    its reads. *)
Definition copy_to (c : Collector) (p : string) (body : source) (max : Z) :
    Collector * Z * option error :=
  match copy (file_write p) (S (rd_steps body)) (mkCopy (out c) 0 (bytesWritten c)) body max with
  | None => (c, 0, Some (Msg "out of fuel"))
  | Some (st, _, err) => (set_written (set_out c (cp_dst st)) (cp_written st), cp_total st, err)
  end.

(** [if closeErr := f.Close(); err == nil { err = closeErr }] *)
Definition close_err (p : string) (err : option error) : option error :=
  match err with Some e => Some e | None => fault "close" p end.

Definition streamToFile (c : Collector) (dst : string) (body : source) (max : Z) :
    Collector * Z * option error :=
  match createOutput (out c) dst with
  | (f, Some e) => (set_out c f, 0, Some e)
  | (f, None) =>
      let '(c, n, err) := copy_to (set_out c f) dst body max in
      match close_err dst err with
      | Some e => (set_out c (Remove (out c) dst), n, Some e)
      | None => (c, n, None)
      end
  end.

(** The fallback of [linkCapture]: a copy of the payload. *)
Definition copyCapture (f : fs) (link payload : string) : fs * option error :=
  match fault "open" payload, f !! payload with
  | Some e, _ => (f, Some e)
  | None, Some (File b) =>
      match Create f link with
      | (f, Some e) => (f, Some e)
      | (f, None) =>
          match file_write link f b with
          | (f, Some e) => (f, Some e)
          | (f, None) => (f, fault "close" link)
          end
      end
  | None, _ => (f, Some notExist)
  end.

Definition linkCapture (f : fs) (name hash : string) : fs * option error :=
  match MkdirAll f "captures" with
  | (f, Some e) => (f, Some e)
  | (f, None) =>
      let link := ("captures/" ++ name)%string in
      let payload := ("payloads/" ++ hash)%string in
      let f := Remove f link in
      match fault "symlink" link, f !! link with
      | None, None => (<[link := Symlink ("../" ++ payload)]> f, None)
      | _, _ => copyCapture f link payload
      end
  end.

(** ** Handlers *)

Fixpoint is_limit (e : error) : bool :=
  match e with
  | Errorf f _ => bool_decide (f = "payload exceeds limit of %d bytes"%string)
  | Wrap _ e => is_limit e
  | _ => false
  end.

(** [err.Error()] is not rendered. *)
Definition writeErr (err : error) : Response :=
  if is_limit err then mkResponse 413 "" [] else mkResponse 500 "" [].

Definition isWrite (req : Request) : bool :=
  bool_decide (Method req = "PUT"%string) || bool_decide (Method req = "POST"%string).

Definition handleArtifact (c : Collector) (req : Request) : Collector * Response :=
  if negb (isWrite req) then (c, Error "PUT only" 405) else
  let name := TrimPrefix (Path req) "/v1/artifacts/" in
  if negb (IsSafeArtifactPath name) then (c, Error "invalid artifact name" 400) else
  match localPath ("artifacts/" ++ name) with
  | Err _ => (c, Error "invalid artifact name" 400)
  | Ok dst =>
      match streamToFile c dst (Body req) (maxArtifact c) with
      | (c, _, Some err) => (c, writeErr err)
      | (c, _, None) => (c, OK)
      end
  end.

(** [hex.DecodeString] accepts either case. *)
Definition isHexHash (s : string) : bool :=
  (slen s =? 64) && str_forallb (fun ch => bool_decide (is_Some (hex_val ch))) s.

Definition handleCapture (c : Collector) (req : Request) : Collector * Response :=
  if negb (isWrite req) then (c, Error "PUT only" 405) else
  let name := sanitizeCaptureName (TrimPrefix (Path req) "/v1/captures/") in
  if decide (name = ""%string) then (c, Error "invalid capture name" 400) else
  match createOutputTemp (out c) "payloads" "incoming-" (Rands req) with
  | (f, Err e) => (set_out c f, writeErr e)
  | (f, Ok tmpRel) =>
      let '(c, _, err) := copy_to (set_out c f) tmpRel (Body req) (maxArtifact c) in
      let err := close_err tmpRel err in
      let hash := Trailer req in
      let err := match err with
                 | Some e => Some e
                 | None => if isHexHash hash then None
                           else Some (Errorf "missing or invalid %s trailer" [HashTrailer])
                 end in
      match err with
      | Some e => (set_out c (Remove (out c) tmpRel), writeErr e)
      | None =>
          let payload := ("payloads/" ++ hash)%string in
          let '(f, err) :=
            match fault "stat" payload, out c !! payload with
            | None, Some _ => (Remove (out c) tmpRel, None)
            | _, _ =>
                match fault "rename" payload, out c !! tmpRel with
                | None, Some x => (<[payload := x]> (delete tmpRel (out c)), None)
                | Some e, _ => (Remove (out c) tmpRel, Some e)
                | None, None => (Remove (out c) tmpRel, Some notExist)
                end
            end in
          match err with
          | Some e => (set_out c f, writeErr e)
          | None =>
              match linkCapture f name hash with
              | (f, Some e) => (set_out c f, writeErr e)
              | (f, None) => (set_out c f, OK)
              end
          end
      end
  end.

(** A truncated ledger is kept. *)
Definition handleLedger (c : Collector) (req : Request) : Collector * Response :=
  if negb (isWrite req) then (c, Error "PUT only" 405) else
  match Create (out c) "ledger" with
  | (f, Some e) => (set_out c f, writeErr e)
  | (f, None) =>
      let '(c, _, err) := copy_to (set_out c f) "ledger" (Body req) (maxArtifact c) in
      match close_err "ledger" err with
      | Some e => (c, writeErr e)
      | None => (c, OK)
      end
  end.

Definition handleEnvironment (c : Collector) (req : Request) : Collector * Response :=
  if negb (bool_decide (Method req = "PUT"%string)) then (c, Error "PUT only" 405) else
  match Create (out c) EnvironmentFile with
  | (f, Some e) => (set_out c f, writeErr e)
  | (f, None) =>
      let '(c, _, err) := copy_to (set_out c f) EnvironmentFile (Body req) MaxEnvironmentBytes in
      match close_err EnvironmentFile err with
      | Some e => (set_out c (Remove (out c) EnvironmentFile), writeErr e)
      | None => (c, OK)
      end
  end.

(** Append to the log; the tee's own errors are ignored. *)
Definition tee_write (p : string) (w : fs * option bytes) (b : bytes) : (fs * option bytes) * option error :=
  match file_write p w.1 b with
  | (f, Some e) => ((f, w.2), Some e)
  | (f, None) => ((f, (fun t => t ++ b) <$> w.2), None)
  end.

Definition handleOutput (c : Collector) (req : Request) : Collector * Response :=
  if negb (isWrite req) then (c, Error "POST only" 405) else
  let p := "build-output.log"%string in
  match fault "open" p with
  | Some e => (c, writeErr e)
  | None =>
      let f := match out c !! p with None => <[p := File []]> (out c) | Some _ => out c end in
      match copy (tee_write p) (S (rd_steps (Body req)))
              (mkCopy (f, tee c) 0 (bytesWritten c)) (Body req) (maxArtifact c) with
      | None => (c, Error "out of fuel" 500)
      | Some (st, _, err) =>
          let c := set_tee (set_written (set_out c (cp_dst st).1) (cp_written st)) (cp_dst st).2 in
          match err with Some e => (c, writeErr e) | None => (c, OK) end
      end
  end.

Definition handleBuildScript (c : Collector) (req : Request) : Collector * Response :=
  if negb (bool_decide (Method req = "GET"%string)) then (c, Error "GET only" 405) else
  match BuildScript (cfg c) with
  | None => (c, Error "no build script" 404)
  | Some None => (c, Error "unavailable" 404)
  | Some (Some b) => (c, mkResponse 200 "" b)
  end.

Definition handleBootstrap (c : Collector) (req : Request) : Collector * Response :=
  if negb (bool_decide (Method req = "GET"%string)) then (c, Error "GET only" 405) else
  if len (Bootstrap (cfg c)) =? 0 then (c, Error "no bootstrap config" 404)
  else (c, mkResponse 200 "" (Bootstrap (cfg c))).

(** [contextFiles]: the safe file paths below [dir]. *)
Definition contextFiles (cx : contextRoot) (dir : string) : list string :=
  omap (fun '(p, isdir, link) =>
    if (isdir : bool) then None
    else if (link : bool) && negb (bool_decide (cx_stat cx p = Some false)) then None
    else if IsSafeContextPath p then Some p else None) (cx_walk cx dir).

(** [sort.Strings]: insertion into a sorted list. *)
Fixpoint insert_sorted (s : string) (l : list string) : list string :=
  match l with
  | [] => [s]
  | x :: l' => if String.leb s x then s :: l else x :: insert_sorted s l'
  end.
Definition sort_strings (l : list string) : list string := foldr insert_sorted [] l.

Definition handleContext (c : Collector) (req : Request) : Collector * Response :=
  if negb (bool_decide (Method req = "GET"%string)) then (c, Error "GET only" 405) else
  match ContextDir (cfg c) with
  | None => (c, Error "no build context" 404)
  | Some cx =>
      let rel := TrimPrefix (Path req) "/v1/context/" in
      let trimmed := TrimSuffix rel "/" in
      let local :=
        if decide (trimmed = ""%string) then Some "."%string
        else match localPath trimmed with
             | Ok p => if IsSafeContextPath trimmed then Some p else None
             | Err _ => None
             end in
      match local with
      | None => (c, Error "forbidden" 403)
      | Some local =>
          match cx_stat cx local with
          | None => (c, Error "not found" 404)
          | Some isdir =>
              if negb isdir && negb (HasSuffix rel "/") && negb (bool_decide (rel = ""%string)) then
                match cx_open cx local with
                | None => (c, Error "unavailable" 404)
                | Some b => (c, mkResponse 200 "file" b)
                end
              else if negb isdir then (c, Error "not a directory" 404)
              else
                let files := sort_strings (contextFiles cx local) in
                let body := Join files (String "010"%char "") in
                let body := if 0 <? len files then (body ++ String "010"%char "")%string else body in
                (c, mkResponse 200 "list" (bytes_of body))
          end
      end
  end.

Definition handleReady (c : Collector) (req : Request) : Collector * Response :=
  if negb (bool_decide (Method req = "POST"%string)) then (c, Error "POST only" 405)
  else (mkCollector (cfg c) (maxArtifact c) (bytesWritten c) true (lastHeartbeat c)
          (completion c) (done c) (doneClosed c) (out c) (tee c), OK).

Definition MarkHeartbeat (c : Collector) (now : Z) : Collector :=
  mkCollector (cfg c) (maxArtifact c) (bytesWritten c) (ready c) now
    (completion c) (done c) (doneClosed c) (out c) (tee c).

Definition handleHeartbeat (c : Collector) (req : Request) : Collector * Response :=
  if negb (bool_decide (Method req = "POST"%string)) then (c, Error "POST only" 405)
  else (MarkHeartbeat c (Now req), OK).

(** The channel has room for one signal and is closed after it. *)
Definition recordCompletion (c : Collector) (sig : CompletionSignal) : Collector :=
  let completion := match completion c with None => Some sig | Some s => Some s end in
  if doneClosed c then
    mkCollector (cfg c) (maxArtifact c) (bytesWritten c) (ready c) (lastHeartbeat c)
      completion (done c) true (out c) (tee c)
  else
    mkCollector (cfg c) (maxArtifact c) (bytesWritten c) (ready c) (lastHeartbeat c)
      completion (done c ++ [sig]) true (out c) (tee c).

(** [json.NewDecoder(req.Body).Decode(&body)] is a parameter. *)
Context (decode_complete : source -> option (Z * string * string)).

Definition handleComplete (c : Collector) (req : Request) : Collector * Response :=
  if negb (bool_decide (Method req = "POST"%string)) then (c, Error "POST only" 405) else
  match decode_complete (Body req) with
  | None => (c, Error "invalid JSON body" 400)
  | Some (code, msg, err) => (recordCompletion c (mkSignal code msg err (Now req)), OK)
  end.

(** The signal is left unencoded. *)
Definition handleStatus (c : Collector) (req : Request) : Collector * Response :=
  if negb (bool_decide (Method req = "GET"%string)) then (c, Error "GET only" 405)
  else (c, match completion c with
           | Some _ => mkResponse 200 "" []
           | None => mkResponse 200 "" (bytes_of "running") end).

Definition auth (h : Collector -> Request -> Collector * Response) (c : Collector) (req : Request) :
    Collector * Response :=
  if negb (bool_decide (Token (cfg c) = ""%string)) &&
     negb (bool_decide (TrimPrefix (Authorization req) "Bearer " = Token (cfg c)))
  then (c, Error "unauthorized" 401)
  else h c req.

(** The patterns of the mux: exact paths, and prefixes ending in a slash. *)
Definition routes : list (string * (Collector -> Request -> Collector * Response)) :=
  [("/healthz"%string, fun c _ => (c, mkResponse 200 "" (bytes_of "ok")));
   ("/v1/artifacts/"%string, auth handleArtifact);
   ("/v1/captures/"%string, auth handleCapture);
   ("/v1/ledger"%string, auth handleLedger);
   ("/v1/environment"%string, auth handleEnvironment);
   ("/v1/output"%string, auth handleOutput);
   ("/v1/build-script"%string, auth handleBuildScript);
   ("/v1/bootstrap"%string, auth handleBootstrap);
   ("/v1/context/"%string, auth handleContext);
   ("/v1/ready"%string, auth handleReady);
   ("/v1/heartbeat"%string, auth handleHeartbeat);
   ("/v1/complete"%string, auth handleComplete);
   ("/v1/status"%string, handleStatus)].

Definition pattern_matches (pat path : string) : bool :=
  if HasSuffix pat "/" then HasPrefix path pat else bool_decide (path = pat).

(** [http.ServeMux]: a path with empty or dot segments is redirected to its
    clean form; no two patterns match one path. *)
Definition unclean (path : string) : bool :=
  match Split path slash with
  | "" :: segs => existsb dot_seg (removelast segs) ||
                  match last segs with Some s => bool_decide (s = "."%string \/ s = ".."%string) | None => false end
  | _ => true
  end.

Definition Handler (c : Collector) (req : Request) : Collector * Response :=
  if unclean (Path req) then (c, Error "Moved Permanently" 301) else
  match List.find (fun '(pat, _) => pattern_matches pat (Path req)) routes with
  | Some (_, h) => h c req
  | None => (c, Error "404 page not found" 404)
  end.

Definition serve (c : Collector) (reqs : list Request) : Collector :=
  foldl (fun c req => (Handler c req).1) c reqs.
End Handlers.

(** ** Wait

    One round of [select], by what is ready. *)
Inductive wake := WDone | WContext (e : error) | WTick (now : Z).

Definition UnresponsiveError (silence : Z) : error :=
  Errorf "build guest unresponsive (no heartbeat for %s)" [Itoa silence].

(** [None] loops again.  A receive on the closed [done] channel gives the zero
    signal, which cannot happen before the one signal is received. *)
Definition Wait_step (c : Collector) (heartbeatTimeout : Z) (w : wake) :
    option (CompletionSignal * option error) :=
  let zero := mkSignal 0 "" "" 0 in
  match w with
  | WDone => match done c with sig :: _ => Some (sig, None) | [] => None end
  | WContext e => Some (zero, Some e)
  | WTick now =>
      if heartbeatTimeout <=? 0 then None else
      let last := lastHeartbeat c in
      if negb (last =? 0) && (now - last >? heartbeatTimeout) then
        match completion c with
        | Some sig => Some (sig, None)
        | None => Some (zero, Some (UnresponsiveError heartbeatTimeout))
        end
      else None
  end.
End Collector.
