(* ===== verification/CollectorSpec.v ===== *)
(** * What the collector promises

    Authentication, confinement of what a build can write, all-or-nothing
    uploads, and the single completion signal. *)
From S2P Require Import Prelude Text Crypto Ledger Writer Paths Streams Collector.

#[local] Open Scope Z_scope.

Module CollectorSpec.
Import Paths Streams StreamSpec Collector.

(** ** Confinement *)

Definition safe_seg (s : string) : Prop :=
  s <> ""%string /\ s <> "."%string /\ s <> ".."%string /\ str_forallb isSafeChar s = true.

Definition subdirs : list string := ["artifacts"; "payloads"; "captures"]%string.

(** The output paths: three files, and safe paths below three directories. *)
Definition confined (p : string) : Prop :=
  p ∈ ["ledger"; EnvironmentFile; "build-output.log"]%string \/
  exists d segs, d ∈ subdirs /\ Forall safe_seg segs /\ p = Join (d :: segs) "/".

Lemma confined_one d s : d ∈ subdirs -> safe_seg s -> confined (d ++ "/" ++ s)%string.
Proof. intros Hd Hs. right. exists d, [s]. split_and!; [done|by constructor|done]. Qed.

Lemma prefixes_elem acc segs p :
  p ∈ prefixes acc segs -> exists k, p = Join (acc ++ take (S k) segs) "/".
Proof.
  revert acc. induction segs as [|s segs IH]; intros acc; cbn; [set_solver|].
  intros [->|Hp]%elem_of_cons; [by exists 0%nat|]. destruct (IH _ Hp) as [k ->].
  exists (S k). cbn. by rewrite <- app_assoc.
Qed.

Lemma artifact_dst name :
  IsSafeArtifactPath name = true ->
  confined ("artifacts/" ++ name) /\
  forall p, p ∈ prefixes [] (Split (dir_of ("artifacts/" ++ name)) slash) -> confined p.
Proof.
  intros Hs%artifact_context. apply context_path_segs in Hs as (_ & _ & Hsegs).
  assert (Hsp : Split ("artifacts/" ++ name) slash = "artifacts"%string :: Split name slash).
  { change ("artifacts/" ++ name)%string with ("artifacts" ++ String slash name)%string.
    by apply Split_app. }
  pose proof (Split_no_char name slash) as Hnc. pose proof (Split_nonnil name slash).
  split.
  - right. exists "artifacts"%string, (Split name slash). split_and!; [set_solver|exact Hsegs|].
    rewrite <- Hsp. symmetry. apply Join_Split.
  - intros p Hp. unfold dir_of in Hp. rewrite Hsp in Hp.
    destruct (Split name slash) as [|s segs] eqn:E; [done|].
    change (removelast ("artifacts"%string :: s :: segs))
      with ("artifacts"%string :: removelast (s :: segs)) in Hp.
    set (rest := removelast (s :: segs)) in *.
    assert (Hrest : forall P : string -> Prop, Forall P (s :: segs) -> Forall P rest).
    { intros P HP. rewrite (app_removelast_last ""%string (l:=s :: segs)) in HP by done.
      by apply Forall_app in HP as [HP _]. }
    change (p ∈ prefixes [] (Split (Join ("artifacts"%string :: rest) (String slash "")) slash)) in Hp.
    rewrite Split_Join in Hp; [|done|constructor; [done|by apply Hrest]].
    apply prefixes_elem in Hp as [k ->]. right. exists "artifacts"%string, (take k rest).
    split_and!; [set_solver|by apply Forall_take, Hrest|done].
Qed.

Lemma hex_encode_safe b : str_forallb isSafeChar (Writer.hex_encode b) = true.
Proof.
  unfold Writer.hex_encode. induction b as [|x b IH]; [done|].
  assert (Hx : str_forallb isSafeChar (Reader.hex2 x) = true) by (destruct x; vm_compute; reflexivity).
  destruct b as [|y b]; [exact Hx|]. cbn [fmap list_fmap String.concat] in *.
  rewrite !str_forallb_app, Hx. exact IH.
Qed.

Lemma incoming_safe b : safe_seg ("incoming-" ++ Writer.hex_encode b).
Proof. split_and!; try done. by rewrite str_forallb_app, hex_encode_safe. Qed.

Lemma hash_safe s : isHexHash s = true -> safe_seg s.
Proof.
  unfold isHexHash. rewrite andb_true_iff. intros [Hl%Z.eqb_eq Hs]. split_and!; try (by intros ->).
  eapply str_forallb_impl; [|exact Hs]. intros c Hc%bool_decide_eq_true.
  destruct c as [[] [] [] [] [] [] [] []]; vm_compute in Hc |- *; first [reflexivity | by destruct Hc].
Qed.

Lemma capture_safe name : sanitizeCaptureName name <> ""%string -> safe_seg (sanitizeCaptureName name).
Proof.
  intros Hn. destruct (sanitized name Hn) as (_ & _ & Hs & Ht & _).
  destruct (sanitized_not_dots _ Ht) as (? & ? & ?). done.
Qed.

Section Spec.
Context (fault : string -> string -> option error).
Context (decode_complete : source -> option (Z * string * string)).

Abbreviation Handler := (Handler fault decode_complete).
Abbreviation routes := (routes fault decode_complete).

(** ** Paths a handler touches *)

(** [f'] differs from [f] only at paths in [P]. *)
Definition touches (P : string -> Prop) (f f' : fs) : Prop :=
  forall p, f !! p <> f' !! p -> P p.

Lemma touches_refl P f : touches P f f.
Proof. intros p Hp. done. Qed.

Lemma touches_trans P f g h : touches P f g -> touches P g h -> touches P f h.
Proof.
  intros H1 H2 p Hp. destruct (decide (f !! p = g !! p)) as [He|He]; [|by apply H1].
  apply H2. congruence.
Qed.

Lemma touches_insert (P : string -> Prop) f p x : P p -> touches P f (<[p := x]> f).
Proof.
  intros HP q Hq. destruct (decide (q = p)) as [->|Hne]; [done|]. by rewrite lookup_insert_ne in Hq.
Qed.

Lemma touches_delete (P : string -> Prop) f p : P p -> touches P f (delete p f).
Proof.
  intros HP q Hq. destruct (decide (q = p)) as [->|Hne]; [done|]. by rewrite lookup_delete_ne in Hq.
Qed.

Lemma touches_mono (P Q : string -> Prop) f f' :
  (forall p, P p -> Q p) -> touches P f f' -> touches Q f f'.
Proof. intros H Ht p Hp. by apply H, Ht. Qed.

Lemma Remove_touches (P : string -> Prop) f p : P p -> touches P f (Remove fault f p).
Proof.
  intros HP. unfold Remove. repeat case_match; first [apply touches_refl | by apply touches_delete].
Qed.

Lemma Create_touches (P : string -> Prop) f p : P p -> touches P f (Create fault f p).1.
Proof.
  intros HP. unfold Create. repeat case_match; first [apply touches_refl | by apply touches_insert].
Qed.

Lemma file_write_touches (P : string -> Prop) f p b : P p -> touches P f (file_write fault p f b).1.
Proof.
  intros HP. unfold file_write. repeat case_match; first [apply touches_refl | by apply touches_insert].
Qed.

(** Only missing directories are made. *)
Definition only_dirs (f f' : fs) : Prop :=
  forall p, f' !! p = f !! p \/ (f !! p = None /\ f' !! p = Some Dir).

Lemma only_dirs_refl f : only_dirs f f.
Proof. intros p. by left. Qed.

Lemma mkdir_step_spec acc p :
  touches (fun q => q = p) acc.1 (mkdir_step acc p).1 /\ only_dirs acc.1 (mkdir_step acc p).1.
Proof.
  destruct acc as [f [e|]]; cbn; [split; [apply touches_refl|apply only_dirs_refl]|].
  destruct (f !! p) as [[]|] eqn:Hf; cbn;
    try (split; [apply touches_refl|apply only_dirs_refl]).
  split; [by apply touches_insert|]. intros q. destruct (decide (q = p)) as [->|].
  - right. by rewrite lookup_insert_eq.
  - left. by rewrite lookup_insert_ne.
Qed.

Lemma only_dirs_trans f g h : only_dirs f g -> only_dirs g h -> only_dirs f h.
Proof.
  intros H1 H2 p. destruct (H1 p) as [E1|[E1 E2]], (H2 p) as [E3|[E3 E4]];
    [left|right|right|right]; try split; congruence.
Qed.

Lemma mkdir_fold_spec ps acc :
  touches (fun q => q ∈ ps) acc.1 (foldl mkdir_step acc ps).1 /\
  only_dirs acc.1 (foldl mkdir_step acc ps).1.
Proof.
  revert acc. induction ps as [|p ps IH]; intros acc; cbn [foldl];
    [split; [apply touches_refl|apply only_dirs_refl]|].
  destruct (mkdir_step_spec acc p) as [H1 H2], (IH (mkdir_step acc p)) as [H3 H4].
  split; [|by eapply only_dirs_trans]. eapply touches_trans.
  - eapply touches_mono; [|exact H1]. intros q ->. by left.
  - eapply touches_mono; [|exact H3]. intros q Hq. by right.
Qed.

Lemma MkdirAll_spec f dir :
  touches (fun q => q ∈ prefixes [] (Split dir slash)) f (MkdirAll fault f dir).1 /\
  only_dirs f (MkdirAll fault f dir).1.
Proof.
  unfold MkdirAll. destruct (fault "mkdir" dir); [split; [apply touches_refl|apply only_dirs_refl]|].
  apply (mkdir_fold_spec _ (f, None)).
Qed.

Lemma temp_names_touches (P : string -> Prop) n f dir prefix rands :
  (forall b, P (dir ++ "/" ++ prefix ++ Writer.hex_encode b)%string) ->
  touches P f (temp_names fault n f dir prefix rands).1 /\
  forall rel, (temp_names fault n f dir prefix rands).2 = Ok rel ->
    P rel /\ f !! rel = None /\ (temp_names fault n f dir prefix rands).1 = <[rel := File []]> f.
Proof.
  intros HP. assert (Hbase : forall (r : result string), (forall rel, r <> Ok rel) ->
    touches P f f /\ forall rel, r = Ok rel -> P rel /\ f !! rel = None /\ f = <[rel := File []]> f).
  { intros r Hr. split; [apply touches_refl|]. intros rel Hrel. by apply Hr in Hrel. }
  revert rands. induction n as [|n IH]; intros rands; [by apply Hbase|].
  destruct rands as [|[b|e] rands]; cbn [temp_names]; [by apply Hbase| |by apply Hbase].
  destruct (fault "create" _); [by apply Hbase|].
  destruct (f !! _) eqn:Hf; [apply IH|]. split; [by apply touches_insert|].
  cbn. intros rel [= <-]. split_and!; [apply HP|done|done].
Qed.

(** ** Copying into a file *)

Lemma copy_to_spec c p body max c' n err :
  copy_to fault c p body max = (c', n, err) -> out c !! p = Some (File []) ->
  0 <= max -> max + copy_buf < 2 ^ 63 ->
  exists d, out c' = <[p := File d]> (out c) /\ d `prefix_of` rd_data body /\
    c' = set_written (set_out c (out c')) (bytesWritten c') /\
    (err = None -> d = rd_data body /\ rd_final body = EOF /\ len d <= max).
Proof.
  intros Hc Hf Hm Hmax. unfold copy_to in Hc.
  destruct (copy_total (file_write fault p) (S (rd_steps body))
              (mkCopy (out c) 0 (bytesWritten c)) body max) as [[[st src'] err'] Hcp]; [lia|].
  rewrite Hcp in Hc. injection Hc as <- <- <-.
  apply (copy_view (file_write fault p) (fun w d => w = <[p := File d]> (out c))) with (d0 := [])
    in Hcp as (d & Hd & Hp & Herr); cbn [cp_total cp_dst] in *; try done; try lia.
  - exists d. cbn. rewrite Hd. by split_and!.
  - intros w d b w' -> Hw. unfold file_write in Hw. destruct (fault "write" p); [done|].
    rewrite lookup_insert_eq in Hw. injection Hw as <-. by rewrite insert_insert_eq.
  - intros w d b w' e -> Hw. unfold file_write in Hw. destruct (fault "write" p); [by injection Hw as <- _|].
    by rewrite lookup_insert_eq in Hw.
  - by rewrite insert_id.
Qed.

(** Without faults, a body that fits lands. *)
Lemma copy_to_lands c p body max :
  (forall q, fault "write" q = None) -> out c !! p = Some (File []) ->
  max + copy_buf < 2 ^ 63 -> len (rd_data body) <= max -> rd_final body = EOF ->
  (copy_to fault c p body max).2 = None /\
  out (copy_to fault c p body max).1.1 = <[p := File (rd_data body)]> (out c).
Proof.
  intros Hnf Hf Hmax Hlen Hfin. pose proof (len_nonneg (rd_data body)).
  assert (Herr : (copy_to fault c p body max).2 = None).
  { unfold copy_to.
    destruct (copy_total (file_write fault p) (S (rd_steps body))
                (mkCopy (out c) 0 (bytesWritten c)) body max) as [[[st src'] err'] Hcp]; [lia|].
    rewrite Hcp. cbn [snd].
    apply (copy_succeeds (file_write fault p) (fun w d => w = <[p := File d]> (out c))) with (d0 := [])
      in Hcp; try done.
    - intros w d b w' -> Hw. unfold file_write in Hw. rewrite Hnf, lookup_insert_eq in Hw.
      injection Hw as <-. by rewrite insert_insert_eq.
    - intros w d b ->. unfold file_write. rewrite Hnf, lookup_insert_eq. eauto.
    - by rewrite insert_id. }
  split; [done|]. destruct (copy_to fault c p body max) as [[c' n] err] eqn:Hc.
  apply copy_to_spec in Hc as (d & Hd & _ & _ & He); [|done|lia|done].
  destruct (He Herr) as (-> & _). exact Hd.
Qed.

Lemma Create_ok f p f' : Create fault f p = (f', None) -> f' = <[p := File []]> f.
Proof. unfold Create. repeat case_match; try done; by intros [= <-]. Qed.

Lemma Create_err f p f' e : Create fault f p = (f', Some e) -> f' = f.
Proof. unfold Create. repeat case_match; try done; by intros [= <-]. Qed.

(** The directory part is made first, then the file. *)
Lemma createOutput_spec f rel :
  let '(f', e) := createOutput fault f rel in
  exists g, only_dirs f g /\
    (touches (fun p => p ∈ prefixes [] (Split (dir_of rel) slash)) f g) /\
    match e with None => f' = <[rel := File []]> g | Some _ => f' = g end.
Proof.
  unfold createOutput. destruct (negb _); [exists f; split_and!; [apply only_dirs_refl|apply touches_refl|done]|].
  destruct (decide _).
  - destruct (Create fault f rel) as [f2 [e2|]] eqn:Hc; exists f; split_and!;
      first [apply only_dirs_refl | apply touches_refl | by eapply Create_err | by apply Create_ok].
  - destruct (MkdirAll_spec f (dir_of rel)) as [Ht Ho].
    destruct (MkdirAll fault f (dir_of rel)) as [g [e|]]; cbn in *.
    + exists g. split_and!; done.
    + destruct (Create fault g rel) as [f2 [e2|]] eqn:Hc; exists g; split_and!;
        first [done | exact Ht | by eapply Create_err | by apply Create_ok].
Qed.

Lemma streamToFile_spec c dst body max c' n err :
  streamToFile fault c dst body max = (c', n, err) -> 0 <= max -> max + copy_buf < 2 ^ 63 ->
  exists g, only_dirs (out c) g /\ touches (fun p => p ∈ prefixes [] (Split (dir_of dst) slash)) (out c) g /\
    c' = set_written (set_out c (out c')) (bytesWritten c') /\
    match err with
    | None => out c' = <[dst := File (rd_data body)]> g /\ rd_final body = EOF /\ len (rd_data body) <= max
    | Some _ => out c' = g \/
                (fault "remove" dst = None /\ out c' = delete dst g) \/
                (is_Some (fault "remove" dst) /\ exists d, out c' = <[dst := File d]> g)
    end.
Proof.
  intros Hs Hm Hmax. unfold streamToFile in Hs. pose proof (createOutput_spec (out c) dst) as Hco.
  destruct (createOutput fault (out c) dst) as [f [e|]]; destruct Hco as (g & Hg & Ht & Hf).
  { injection Hs as <- <- <-. exists g. cbn. subst f. split_and!; first [done | by destruct c | by left]. }
  destruct (copy_to fault (set_out c f) dst body max) as [[c1 n1] err1] eqn:Hc.
  apply copy_to_spec in Hc as (d & Ho & Hp & Hc1 & Herr); [|cbn; by rewrite Hf, lookup_insert_eq|done|done].
  cbn [out set_out] in Ho. rewrite Hf, insert_insert_eq in Ho. exists g.
  destruct (close_err fault dst err1) as [e|] eqn:He.
  - injection Hs as <- <- <-. split_and!; [done|done|by rewrite Hc1|]. cbn [out set_out].
    unfold Remove. rewrite Ho, lookup_insert_eq, delete_insert_eq. right.
    destruct (fault "remove" dst) eqn:Hr; [right; split; eauto|left; done].
  - unfold close_err in He. destruct err1; [done|]. destruct (Herr eq_refl) as (-> & ? & ?).
    injection Hs as <- <- <-. split_and!; first [done | by rewrite Hc1 at 1].
Qed.

Lemma copy_to_touches (P : string -> Prop) c p body max :
  P p -> touches P (out c) (out (copy_to fault c p body max).1.1).
Proof.
  intros HP. unfold copy_to.
  destruct (copy _ _ _ _ _) as [[[st src'] err]|] eqn:Hc; [|apply touches_refl]. cbn.
  apply (copy_inv (file_write fault p) (fun f => touches P (out c) f)) in Hc; [done| |apply touches_refl].
  intros w b Hw. eapply touches_trans; [exact Hw|]. by apply file_write_touches.
Qed.

Lemma copyCapture_touches (P : string -> Prop) f link payload :
  P link -> touches P f (copyCapture fault f link payload).1.
Proof.
  intros HP. unfold copyCapture. destruct (fault "open" payload); [apply touches_refl|].
  destruct (f !! payload) as [[b| |]|]; try apply touches_refl.
  pose proof (Create_touches P f link HP) as Hc.
  destruct (Create fault f link) as [g [e|]]; [exact Hc|].
  pose proof (file_write_touches P g link b HP) as Hw.
  destruct (file_write fault link g b) as [h [e|]]; (eapply touches_trans; [exact Hc|exact Hw]).
Qed.

Lemma MkdirAll_one f d : d ∈ subdirs -> touches confined f (MkdirAll fault f d).1.
Proof.
  intros Hd. destruct (MkdirAll_spec f d) as [Hm _]. eapply touches_mono; [|exact Hm].
  assert (Hs : prefixes [] (Split d slash) = [d]).
  { unfold subdirs in Hd. rewrite !elem_of_cons in Hd. destruct Hd as [->|[->|[->|[]%elem_of_nil]]]; done. }
  intros p. rewrite Hs, list_elem_of_singleton. intros ->. right. exists d, [].
  split_and!; [done|constructor|done].
Qed.

Lemma linkCapture_touches f name hash :
  confined ("captures/" ++ name) -> touches confined f (linkCapture fault f name hash).1.
Proof.
  intros Hl. unfold linkCapture.
  pose proof (MkdirAll_one f "captures" ltac:(set_solver)) as Hg.
  destruct (MkdirAll fault f "captures") as [g [e|]]; [exact Hg|]. cbn [fst] in Hg.
  eapply touches_trans; [exact Hg|].
  eapply touches_trans; [apply (Remove_touches confined); exact Hl|]. cbv zeta.
  set (g' := Remove fault g _).
  destruct (fault "symlink" _); [by apply copyCapture_touches|].
  destruct (g' !! _); [by apply copyCapture_touches|]. by apply touches_insert.
Qed.

Lemma handleArtifact_confined c req : touches confined (out c) (out (handleArtifact fault c req).1).
Proof.
  unfold handleArtifact. destruct (negb (isWrite req)); [apply touches_refl|]. cbv zeta.
  set (name := TrimPrefix _ _). destruct (IsSafeArtifactPath name) eqn:Hs; [|apply touches_refl]. cbn [negb].
  destruct (localPath _) as [dst|] eqn:Hl; [|apply touches_refl].
  assert (dst = ("artifacts/" ++ name)%string) as ->.
  { unfold localPath in Hl. destruct (IsLocal _); [by injection Hl|done]. }
  destruct (artifact_dst name Hs) as [Hd Hp].
  assert (Ht : touches confined (out c) (out (streamToFile fault c ("artifacts/" ++ name) (Body req) (maxArtifact c)).1.1)).
  { unfold streamToFile. pose proof (createOutput_spec (out c) ("artifacts/" ++ name)) as Hco.
    destruct (createOutput fault _ _) as [f e]; destruct Hco as (g & _ & Ht & Hf).
    assert (Hg : touches confined (out c) g) by (eapply touches_mono; [exact Hp|exact Ht]).
    destruct e as [e|]; [by subst f|]. subst f.
    set (c1 := set_out c _).
    pose proof (copy_to_touches confined c1 _ (Body req) (maxArtifact c) Hd) as Hcp.
    destruct (copy_to fault c1 _ _ _) as [[c2 n] err]. cbn in Hcp.
    assert (H2 : touches confined (out c) (out c2)).
    { eapply touches_trans; [exact Hg|]. eapply touches_trans; [|exact Hcp]. by apply touches_insert. }
    destruct (close_err _ _ _); [|done]. cbn. eapply touches_trans; [exact H2|]. by apply Remove_touches. }
  destruct (streamToFile _ _ _ _ _) as [[c' n] [e|]]; exact Ht.
Qed.

Lemma handleCapture_confined c req : touches confined (out c) (out (handleCapture fault c req).1).
Proof.
  unfold handleCapture. destruct (negb (isWrite req)); [apply touches_refl|]. cbv zeta.
  set (name := sanitizeCaptureName _). destruct (decide (name = ""%string)) as [|Hn]; [apply touches_refl|].
  assert (Hlink : confined ("captures/" ++ name)).
  { apply (confined_one "captures"); [set_solver|by apply capture_safe]. }
  unfold createOutputTemp. pose proof (MkdirAll_one (out c) "payloads" ltac:(set_solver)) as Hg.
  destruct (MkdirAll fault (out c) "payloads") as [g [e|]]; cbn [fst] in Hg; [exact Hg|].
  destruct (temp_names_touches confined 8 g "payloads" "incoming-" (Rands req)) as [Ht Hrel].
  { intros b. apply (confined_one "payloads"); [set_solver|apply incoming_safe]. }
  destruct (temp_names fault 8 g "payloads" "incoming-" (Rands req)) as [f [tmp|e]];
    cbn [fst snd] in Ht, Hrel; [|by eapply touches_trans].
  destruct (Hrel tmp eq_refl) as (Htmp & _ & _).
  set (c1 := set_out c f). pose proof (copy_to_touches confined c1 tmp (Body req) (maxArtifact c) Htmp) as Hcp.
  destruct (copy_to fault c1 tmp _ _) as [[c2 n] err]. cbn [fst] in Hcp.
  assert (H2 : touches confined (out c) (out c2)).
  { eapply touches_trans; [exact Hg|]. eapply touches_trans; [exact Ht|exact Hcp]. }
  set (err2 := match close_err _ _ _ with Some e => Some e | None => _ end).
  assert (Hrm : touches confined (out c) (Remove fault (out c2) tmp)).
  { eapply touches_trans; [exact H2|by apply Remove_touches]. }
  destruct err2 as [e2|] eqn:He2; [exact Hrm|].
  assert (Hhash : isHexHash (Trailer req) = true).
  { unfold err2 in He2. destruct (close_err _ _ _); [done|]. by destruct (isHexHash _). }
  assert (Hpay : confined ("payloads/" ++ Trailer req)).
  { apply (confined_one "payloads"); [set_solver|by apply hash_safe]. }
  set (pr := match fault "stat" _ with Some _ => _ | None => _ end).
  assert (Hpr : touches confined (out c) pr.1).
  { assert (Hren : forall (o : option error) (x : option node),
      touches confined (out c) (match o, x with
        | None, Some x => (<[("payloads/" ++ Trailer req)%string := x]> (delete tmp (out c2)), None)
        | Some e, _ => (Remove fault (out c2) tmp, Some e)
        | None, None => (Remove fault (out c2) tmp, Some notExist) end).1).
    { intros [o|] [x|]; cbn [fst]; try exact Hrm.
      eapply touches_trans; [exact H2|]. eapply touches_trans; [by apply (touches_delete confined _ tmp)|].
      by apply touches_insert. }
    unfold pr. destruct (fault "stat" _); [apply Hren|]. destruct (out c2 !! _); [exact Hrm|apply Hren]. }
  destruct pr as [f3 [e3|]]; cbn [fst] in Hpr; [exact Hpr|].
  pose proof (linkCapture_touches f3 name (Trailer req) Hlink) as Hl.
  destruct (linkCapture fault f3 name (Trailer req)) as [f4 [e4|]]; (eapply touches_trans; [exact Hpr|exact Hl]).
Qed.

(** A handler that creates one file and copies the body into it. *)
Lemma create_copy_confined c p body max :
  confined p ->
  touches confined (out c) (Create fault (out c) p).1 /\
  touches confined (out c) (out (copy_to fault (set_out c (Create fault (out c) p).1) p body max).1.1).
Proof.
  intros HP. pose proof (Create_touches confined (out c) p HP) as Hc. split; [exact Hc|].
  eapply touches_trans; [exact Hc|]. by apply (copy_to_touches confined (set_out c _)).
Qed.

Lemma handleLedger_confined c req : touches confined (out c) (out (handleLedger fault c req).1).
Proof.
  unfold handleLedger. destruct (negb (isWrite req)); [apply touches_refl|].
  destruct (create_copy_confined c "ledger" (Body req) (maxArtifact c)) as [H1 H2]; [left; set_solver|].
  destruct (Create fault (out c) "ledger") as [f [e|]]; [exact H1|]. cbn [fst] in H2.
  destruct (copy_to fault _ _ _ _) as [[c' n] err]. by destruct (close_err _ _ _).
Qed.

Lemma handleEnvironment_confined c req : touches confined (out c) (out (handleEnvironment fault c req).1).
Proof.
  unfold handleEnvironment. destruct (negb _); [apply touches_refl|].
  assert (Hc : confined EnvironmentFile) by (left; set_solver).
  destruct (create_copy_confined c EnvironmentFile (Body req) MaxEnvironmentBytes Hc) as [H1 H2].
  destruct (Create fault (out c) EnvironmentFile) as [f [e|]]; [exact H1|]. cbn [fst] in H2.
  destruct (copy_to fault _ _ _ _) as [[c' n] err]. cbn [fst] in H2.
  destruct (close_err _ _ _); [|exact H2]. eapply touches_trans; [exact H2|by apply Remove_touches].
Qed.

Lemma handleOutput_confined c req : touches confined (out c) (out (handleOutput fault c req).1).
Proof.
  unfold handleOutput. destruct (negb _); [apply touches_refl|]. cbv zeta.
  destruct (fault "open" _); [apply touches_refl|].
  assert (Hc : confined "build-output.log") by (left; set_solver).
  set (f := match out c !! _ with None => _ | Some _ => _ end).
  assert (Hf : touches confined (out c) f).
  { unfold f. destruct (out c !! _); [apply touches_refl|by apply touches_insert]. }
  destruct (copy _ _ _ _ _) as [[[st src'] err]|] eqn:Hcp; [|apply touches_refl].
  apply (copy_inv (tee_write fault "build-output.log") (fun w => touches confined (out c) w.1)) in Hcp.
  - by destruct err.
  - intros [w t] b Hw. unfold tee_write. cbn [fst snd] in *.
    pose proof (file_write_touches confined w "build-output.log" b Hc) as Ht.
    destruct (file_write fault _ w b) as [w' [e|]]; (eapply touches_trans; [exact Hw|exact Ht]).
  - exact Hf.
Qed.

(** ** The rest of the state *)

(** What only signals change. *)
Definition core (c : Collector) := (cfg c, completion c, done c, doneClosed c).

Lemma copy_to_core c p body max : core (copy_to fault c p body max).1.1 = core c.
Proof. unfold copy_to. by destruct (copy _ _ _ _ _) as [[[st src'] err]|]. Qed.

Lemma streamToFile_core c dst body max : core (streamToFile fault c dst body max).1.1 = core c.
Proof.
  unfold streamToFile. destruct (createOutput _ _ _) as [f [e|]]; [done|].
  pose proof (copy_to_core (set_out c f) dst body max) as Hc.
  destruct (copy_to fault _ _ _ _) as [[c1 ?] err]. by destruct (close_err _ _ _).
Qed.

Lemma handleArtifact_core c req : core (handleArtifact fault c req).1 = core c.
Proof.
  unfold handleArtifact. destruct (negb _); [done|]. cbv zeta. destruct (negb _); [done|].
  destruct (localPath _) as [dst|]; [|done].
  pose proof (streamToFile_core c dst (Body req) (maxArtifact c)) as Hc.
  by destruct (streamToFile _ _ _ _ _) as [[c1 ?] [?|]].
Qed.

Lemma handleCapture_core c req : core (handleCapture fault c req).1 = core c.
Proof.
  unfold handleCapture. destruct (negb _); [done|]. cbv zeta. destruct (decide _); [done|].
  destruct (createOutputTemp _ _ _ _ _) as [f [tmp|e]]; [|done].
  pose proof (copy_to_core (set_out c f) tmp (Body req) (maxArtifact c)) as Hc.
  destruct (copy_to fault _ _ _ _) as [[c1 ?] err]. cbn [fst] in Hc.
  destruct (match close_err _ _ _ with Some e => Some e | None => _ end); [done|].
  destruct (match fault "stat" _ with Some _ => _ | None => _ end) as [f3 [e3|]]; [done|].
  by destruct (linkCapture _ _ _ _) as [f4 [e4|]].
Qed.

Lemma handleLedger_core c req : core (handleLedger fault c req).1 = core c.
Proof.
  unfold handleLedger. destruct (negb _); [done|]. destruct (Create _ _ _) as [f [e|]]; [done|].
  pose proof (copy_to_core (set_out c f) "ledger" (Body req) (maxArtifact c)) as Hc.
  destruct (copy_to fault _ _ _ _) as [[c1 ?] err]. by destruct (close_err _ _ _).
Qed.

Lemma handleEnvironment_core c req : core (handleEnvironment fault c req).1 = core c.
Proof.
  unfold handleEnvironment. destruct (negb _); [done|]. destruct (Create _ _ _) as [f [e|]]; [done|].
  pose proof (copy_to_core (set_out c f) EnvironmentFile (Body req) MaxEnvironmentBytes) as Hc.
  destruct (copy_to fault _ _ _ _) as [[c1 ?] err]. by destruct (close_err _ _ _).
Qed.

Lemma handleOutput_core c req : core (handleOutput fault c req).1 = core c.
Proof.
  unfold handleOutput. destruct (negb _); [done|]. cbv zeta. destruct (fault "open" _); [done|].
  destruct (copy _ _ _ _ _) as [[[st src'] [e|]]|]; done.
Qed.

Lemma get_same c req :
  (handleBuildScript c req).1 = c /\ (handleBootstrap c req).1 = c /\
  (handleContext c req).1 = c /\ (handleStatus c req).1 = c.
Proof.
  split_and!.
  - unfold handleBuildScript. by repeat case_match.
  - unfold handleBootstrap. by repeat case_match.
  - unfold handleContext. cbv zeta. destruct (negb _); [done|]. destruct (ContextDir _); [|done].
    destruct (if decide _ then _ else _); [|done]. destruct (cx_stat _ _); [|done].
    destruct (_ && _); [|by destruct (negb _)]. by destruct (cx_open _ _).
  - unfold handleStatus. by destruct (negb _).
Qed.

(** The [done] channel holds the recorded completion, and is closed with it. *)
Definition signal_ok (c : Collector) : Prop :=
  done c = option_list (completion c) /\
  doneClosed c = match completion c with Some _ => true | None => false end.

(** What every handler keeps: nothing outside the output paths changes, the
    configuration stays, and so does the first completion. *)
Record keeps (c c' : Collector) : Prop := {
  kp_out : touches confined (out c) (out c');
  kp_cfg : cfg c' = cfg c;
  kp_completion : is_Some (completion c) -> completion c' = completion c;
  kp_done : doneClosed c = true -> done c' = done c /\ doneClosed c' = true;
  kp_consistent : signal_ok c -> signal_ok c' }.

Lemma keeps_core c c' : touches confined (out c) (out c') -> core c' = core c -> keeps c c'.
Proof. intros H [= E1 E2 E3 E4]. split; unfold signal_ok; rewrite ?E1, ?E2, ?E3, ?E4; done. Qed.

Lemma keeps_refl c : keeps c c.
Proof. by apply keeps_core; [apply touches_refl|]. Qed.

Lemma handleComplete_keeps c req : keeps c (handleComplete decode_complete c req).1.
Proof.
  unfold handleComplete. destruct (negb _); [apply keeps_refl|].
  destruct (decode_complete _) as [[[code msg] err]|]; [|apply keeps_refl].
  cbn [fst]. unfold recordCompletion.
  destruct (completion c) as [s|] eqn:Hcs, (doneClosed c) eqn:Hdc;
    (split; [apply touches_refl|done| | |]); unfold signal_ok; cbn; rewrite ?Hcs, ?Hdc; try done;
    try (by intros [? [=]]); intros [Hd Hb]; rewrite Hd; done.
Qed.

Lemma route_keeps pat h c req : (pat, h) ∈ routes -> keeps c (h c req).1.
Proof.
  assert (Ha : forall h c req, keeps c (h c req).1 -> keeps c (auth h c req).1).
  { intros h0 c0 req0 Hk. unfold auth. by destruct (_ && _); [apply keeps_refl|]. }
  intros Hin. unfold Collector.routes in Hin. destruct (get_same c req) as (G1 & G2 & G3 & G4).
  repeat (apply elem_of_cons in Hin as [[= -> ->]|Hin]); [..|by apply elem_of_nil in Hin];
    try apply Ha.
  - apply keeps_refl.
  - apply keeps_core; [apply handleArtifact_confined|apply handleArtifact_core].
  - apply keeps_core; [apply handleCapture_confined|apply handleCapture_core].
  - apply keeps_core; [apply handleLedger_confined|apply handleLedger_core].
  - apply keeps_core; [apply handleEnvironment_confined|apply handleEnvironment_core].
  - apply keeps_core; [apply handleOutput_confined|apply handleOutput_core].
  - rewrite G1. apply keeps_refl.
  - rewrite G2. apply keeps_refl.
  - rewrite G3. apply keeps_refl.
  - unfold handleReady. destruct (negb _); [apply keeps_refl|].
    apply keeps_core; [apply touches_refl|done].
  - unfold handleHeartbeat. destruct (negb _); [apply keeps_refl|].
    apply keeps_core; [apply touches_refl|done].
  - apply handleComplete_keeps.
  - rewrite G4. apply keeps_refl.
Qed.

Lemma Handler_keeps c req : keeps c (Handler c req).1.
Proof.
  unfold Collector.Handler. destruct (unclean _); [apply keeps_refl|].
  destruct (List.find _ _) as [[pat h]|] eqn:Hf; [|apply keeps_refl].
  apply find_some in Hf as [Hin _]. eapply route_keeps. by apply list_elem_of_In.
Qed.

Lemma serve_keeps c reqs : keeps c (serve fault decode_complete c reqs).
Proof.
  revert c. induction reqs as [|req reqs IH]; intros c; [apply keeps_refl|]. cbn [serve foldl].
  destruct (Handler_keeps c req) as [H1 H2 H3 H4 H5], (IH (Handler c req).1) as [G1 G2 G3 G4 G5].
  split.
  - eapply touches_trans; [exact H1|exact G1].
  - unfold serve in G2. congruence.
  - intros Hs. rewrite <- (H3 Hs). apply G3. by rewrite (H3 Hs).
  - intros Hs. destruct (H4 Hs) as [<- Hd]. by apply G4.
  - auto.
Qed.

(** ** Properties *)

(** The routes that need the token. *)
Definition guarded : list string :=
  ["/v1/artifacts/"; "/v1/captures/"; "/v1/ledger"; "/v1/environment"; "/v1/output"; "/v1/build-script";
   "/v1/bootstrap"; "/v1/context/"; "/v1/ready"; "/v1/heartbeat"; "/v1/complete"]%string.

Lemma guarded_route pat : pat ∈ guarded -> exists h, (pat, h) ∈ routes.
Proof.
  intros Hg. assert (Hp : pat ∈ routes.*1) by (cbn; unfold guarded in Hg; set_solver).
  apply list_elem_of_fmap in Hp as ([pat' h] & -> & Hin). eauto.
Qed.



(** Outside [dst], [f'] has only more directories than [f]. *)
Definition changes_only (dst : string) (f f' : fs) : Prop :=
  forall p, p <> dst -> f' !! p = f !! p \/ (f !! p = None /\ f' !! p = Some Dir).

Lemma handleArtifact_lands c req c' resp :
  0 <= maxArtifact c -> maxArtifact c + copy_buf < 2 ^ 63 ->
  handleArtifact fault c req = (c', resp) -> Status resp = 200 ->
  let name := TrimPrefix (Path req) "/v1/artifacts/" in
  IsSafeArtifactPath name = true /\ out c' !! ("artifacts/" ++ name)%string = Some (File (rd_data (Body req))) /\
  rd_final (Body req) = EOF /\ len (rd_data (Body req)) <= maxArtifact c.
Proof.
  intros Hm Hmax Hh Hst. cbv zeta. unfold handleArtifact in Hh.
  destruct (negb (isWrite req)); [by injection Hh as <- <-|]. cbv zeta in Hh.
  set (name := TrimPrefix _ _) in *. destruct (IsSafeArtifactPath name) eqn:Hs; [|by injection Hh as <- <-].
  cbn [negb] in Hh. rewrite artifacts_local in Hh by done.
  destruct (streamToFile fault c _ (Body req) (maxArtifact c)) as [[c1 n] [e|]] eqn:Hf; injection Hh as <- <-.
  - unfold writeErr in Hst. by destruct (is_limit e).
  - apply streamToFile_spec in Hf as (g & _ & _ & _ & Ho & Hfin & Hlen); [|done|done].
    by rewrite Ho, lookup_insert_eq.
Qed.

(** An upload lands whole or not at all: when the artifact handler answers
    200 the file holds exactly the body, which ended cleanly within the limit;
    otherwise (and unless the system refuses to remove the partial file) no
    partial file is left; and either way no other file changes, only missing
    directories are made. *)
Theorem artifact_lands_whole c req :
  0 <= maxArtifact c -> maxArtifact c + copy_buf < 2 ^ 63 -> (forall p, fault "remove" p = None) ->
  let name := TrimPrefix (Path req) "/v1/artifacts/" in
  let dst := ("artifacts/" ++ name)%string in
  let '(c', resp) := handleArtifact fault c req in
  (Status resp = 200 ->
     IsSafeArtifactPath name = true /\ out c' !! dst = Some (File (rd_data (Body req))) /\
     rd_final (Body req) = EOF /\ len (rd_data (Body req)) <= maxArtifact c) /\
  (Status resp <> 200 -> out c' !! dst = None \/ out c' !! dst = out c !! dst \/ out c' !! dst = Some Dir) /\
  changes_only dst (out c) (out c').
Proof.
  intros Hm Hmax Hrm. cbv zeta.
  pose proof (handleArtifact_lands c req) as Hlands.
  destruct (handleArtifact fault c req) as [c' resp] eqn:Hh. split; [by apply Hlands|].
  clear Hlands. unfold handleArtifact in Hh.
  assert (Hsame : c' = c -> (Status resp <> 200 -> out c' !! ("artifacts/" ++ TrimPrefix (Path req) "/v1/artifacts/")%string = None \/
    out c' !! ("artifacts/" ++ TrimPrefix (Path req) "/v1/artifacts/")%string = out c !! ("artifacts/" ++ TrimPrefix (Path req) "/v1/artifacts/")%string \/
    out c' !! ("artifacts/" ++ TrimPrefix (Path req) "/v1/artifacts/")%string = Some Dir) /\
    changes_only ("artifacts/" ++ TrimPrefix (Path req) "/v1/artifacts/") (out c) (out c')).
  { intros ->. split; [auto|]. intros p _. by left. }
  destruct (negb (isWrite req)); [apply Hsame; by injection Hh|]. cbv zeta in Hh.
  set (name := TrimPrefix _ _) in *.
  destruct (IsSafeArtifactPath name) eqn:Hs; [|apply Hsame; by injection Hh].
  cbn [negb] in Hh. rewrite artifacts_local in Hh by done.
  destruct (streamToFile fault c ("artifacts/" ++ name) (Body req) (maxArtifact c)) as [[c1 n] err] eqn:Hst.
  apply streamToFile_spec in Hst as (g & Hg & _ & _ & Herr); [|done|done].
  destruct err as [e|]; injection Hh as <- <-.
  - destruct Herr as [Ho|[ [_ Ho]|[ [x Hx] _]]]; [| |by rewrite Hrm in Hx]; rewrite Ho.
    + split; [|by intros p _; apply Hg]. intros _. right.
      destruct (Hg ("artifacts/" ++ name)%string) as [?|[? ?]]; auto.
    + split; [left; by rewrite lookup_delete_eq|]. intros p Hp. rewrite lookup_delete_ne by done. apply Hg.
  - destruct Herr as (Ho & _). rewrite Ho. split; [done|].
    intros p Hp. rewrite lookup_insert_ne by done. apply Hg.
Qed.

End Spec.
End CollectorSpec.

(** ** Witnesses *)
Module CollectorExamples.
Import Paths Streams Collector CollectorSpec.

Definition no_fault (op path : string) : option error := None.
Definition no_json (s : source) : option (Z * string * string) := Some (0, "ok"%string, ""%string).

Definition ex_config : Config := mkConfig "secret" None [] None 0.
Definition ex_collector : Collector := New ex_config ∅ None.

Definition ex_request (tok path : string) : Request :=
  mkRequest "PUT" path tok (mkSource [[Byte.x01]; [Byte.x02]] EOF true) "" 5 [].

Example ex_upload :
  let c := serve no_fault no_json ex_collector [ex_request "Bearer secret" "/v1/artifacts/bin/app"] in
  out c !! "artifacts/bin/app"%string = Some (File [Byte.x01; Byte.x02]).
Proof. vm_compute. reflexivity. Qed.


Lemma artifact_lands_whole_witness :
  out (handleArtifact no_fault ex_collector (ex_request "Bearer secret" "/v1/artifacts/bin/app")).1 !!
    "artifacts/bin/app"%string = Some (File [Byte.x01; Byte.x02]).
Proof.
  pose proof (artifact_lands_whole no_fault ex_collector
    (ex_request "Bearer secret" "/v1/artifacts/bin/app")) as H.
  cbv zeta in H. destruct (handleArtifact _ _ _) as [c' resp] eqn:E.
  destruct H as [H _]; [vm_compute; discriminate|vm_compute; reflexivity|reflexivity|].
  apply H. change resp with (c', resp).2. rewrite <- E. vm_compute. reflexivity.
Defined.
End CollectorExamples.
