(* ===== verification/Relay.v ===== *)
(** * The relay's core (src/relay/relay.go, collector_client.go, heartbeat.go,
    controlplane.go)

    [Client] is the relay's only output path, HTTP requests to the collector
    through the interface [CollectorAPI]; [Relay] is the guest API, the
    recording of proxied exchanges and the end of a build. *)
From S2P Require Import Prelude Text Crypto Ledger Writer Environment Paths Streams Collector Claim.

#[local] Open Scope Z_scope.

(** What the relay relies on: a server for collector requests. *)
Class CollectorAPI (S : Type) :=
  api_request : S -> Collector.Request -> S * result Collector.Response.

(** ** The collector client *)
Module Client.
Import Streams Paths.

Definition maxArtifactBytes : Z := 2 * 1024 * 1024 * 1024.

Record collectorClient := mkClient { cc_token : string }.

Section Client.
Context {HO : HashOps} {S : Type} {API : CollectorAPI S}.

Definition bearer (c : collectorClient) : string :=
  if decide (cc_token c = ""%string) then ""%string else ("Bearer " ++ cc_token c)%string.

(** The path a server sees for a request to [path]. *)
Definition url_path (path : string) : string := default path (PathUnescape path).

Definition newRequest (c : collectorClient) (method path : string) (body : source) (trailer : string) :
    Collector.Request :=
  Collector.mkRequest method (url_path path) (bearer c) body trailer 0 [].

Definition empty_body : source := mkSource [] EOF true.

(** [c.do]: only the given statuses are success. *)
Definition do (s : S) (req : Collector.Request) (okStatus : list Z) : S * option error :=
  match api_request s req with
  | (s, Err e) => (s, Some e)
  | (s, Ok resp) =>
      if bool_decide (Collector.Status resp ∈ okStatus) then (s, None)
      else (s, Some (Errorf "collector %s %s: HTTP %d"
                       [Collector.Method req; Collector.Path req; Itoa (Collector.Status resp)]))
  end.

Definition transport_buf : Z := 32 * 1024.

(** The transport sends at most [n] buffers of a body, fewer when the body
    ends; [n] stands for how far it gets before the server replies. *)
Fixpoint send {R} `{HO : HashOps} `{IOReader R} (n : nat) (hb : hashingBody R) :
    hashingBody R * list bytes * option error :=
  match n with
  | O => (hb, [], None)
  | Datatypes.S n' =>
      let '(hb, b, err) := hb_Read hb transport_buf in
      match err with
      | Some e => (hb, [b], Some e)
      | None => let '(hb, bs, err) := send n' hb in (hb, b :: bs, err)
      end
  end.

(** The server reads a body cut short as one that fails. *)
Definition sent_body (chunks : list bytes) (err : option error) : source :=
  mkSource chunks (if bool_decide (err = Some EOF) then EOF else Sentinel "unexpected EOF") true.

Definition putArtifact {R} `{IOReader R} (n : nat) (c : collectorClient) (s : S) (name : string)
    (body : R) (hasher : Writer.StreamingHasher) : S * R * result (bytes * Z) :=
  let '(hb, chunks, err) := send n (mkHashingBody body hasher None [] 0 false) in
  let req := newRequest c "PUT" ("/v1/artifacts/" ++ escapePath name) (sent_body chunks err) "" in
  let '(s, derr) := do s req [200] in
  let derr := match err with
              | Some e => if decide (e = EOF) then derr else Some e
              | None => derr
              end in
  match derr with
  | Some e => (s, hb_r hb, Err e)
  | None =>
      if negb (hb_finished hb) then (s, hb_r hb, Err (Errorf "artifact %s: body not fully sent" [name]))
      else (s, hb_r hb, Ok (hb_hashBlock hb, hb_size hb))
  end.

Definition putEnvironment (c : collectorClient) (s : S) (payload : bytes) : S * option error :=
  do s (newRequest c "PUT" "/v1/environment" (mkSource [payload] EOF true) "") [200].

(** The ledger stream: one PUT whose body is everything written. *)
Definition flushLedger (c : collectorClient) (s : S) (written : bytes) : S * option error :=
  do s (newRequest c "PUT" "/v1/ledger" (mkSource [written] EOF true) "") [200].

(** The body, the context kind and the status. *)
Definition fetch (c : collectorClient) (s : S) (path : string) : S * result (bytes * string * Z) :=
  match api_request s (newRequest c "GET" path empty_body "") with
  | (s, Err e) => (s, Err e)
  | (s, Ok resp) =>
      if decide (Collector.Status resp = 200) then
        (s, Ok (take (Z.to_nat maxArtifactBytes) (Collector.RBody resp), Collector.Kind resp, 200))
      else (s, Ok ([], ""%string, Collector.Status resp))
  end.

Definition signal (c : collectorClient) (s : S) (path : string) (payload : source) : S * option error :=
  do s (newRequest c "POST" path payload "") [200; 204].

Context (json_complete : Z -> string -> string -> source).

Definition postReady (c : collectorClient) (s : S) : S * option error := signal c s "/v1/ready" empty_body.
Definition postHeartbeat (c : collectorClient) (s : S) : S * option error := signal c s "/v1/heartbeat" empty_body.
Definition postComplete (c : collectorClient) (s : S) (exitCode : Z) (message errStr : string) : S * option error :=
  signal c s "/v1/complete" (json_complete exitCode message errStr).
End Client.
End Client.

Module Relay.
Export ClaimEnvironment.
Import Streams Paths Client Environment.

Definition schemaHTTPOpen : byte := Byte.x00.
Definition schemaHTTPHeaders : byte := Byte.x01.
Definition schemaHTTPBody : byte := Byte.x02.
Definition schemaArtifact : byte := Byte.x03.
Definition schemaEnv : byte := Byte.x05.
Definition maxOutputBytes : Z := 256 * 1024 * 1024.

(** ** Header metadata *)

(** A token byte of an HTTP field name. *)
Definition token_char (c : ascii) : bool :=
  is_alnum c || bool_decide (c ∈ ["!"; "#"; "$"; "%"; "&"; "'"; "*"; "+"; "-"; "."; "^"; "_"; "`"; "|"; "~"]%char).

Definition to_upper (c : ascii) : ascii := if is_lower c then ascii_of_Z (code c - 32) else c.
Definition to_lower (c : ascii) : ascii := if is_upper c then ascii_of_Z (code c + 32) else c.

Fixpoint canonical (upper : bool) (s : string) : string :=
  match s with
  | EmptyString => EmptyString
  | String c s' =>
      String (if upper then to_upper c else to_lower c) (canonical (bool_decide (c = "-"%char)) s')
  end.

(** [http.CanonicalHeaderKey]: names with other bytes are returned unchanged. *)
Definition CanonicalHeaderKey (s : string) : string :=
  if str_forallb token_char s then canonical true s else s.

Definition standardHeaders : list string :=
  ["Content-Length"; "Content-Type"; "Transfer-Encoding"; "Connection"; "Host"; "Accept";
   "Accept-Encoding"; "Accept-Language"; "Cache-Control"; "Date"; "Server"; "User-Agent"; "Vary";
   "Etag"; "Last-Modified"; "If-Modified-Since"; "If-None-Match"; "Content-Encoding"; "Location"]%string.

Definition authHeaders : list string :=
  ["Authorization"; "Cookie"; "Set-Cookie"; "Proxy-Authorization"]%string.

Definition isStandardHeader (name : string) : bool := bool_decide (CanonicalHeaderKey name ∈ standardHeaders).
Definition isAuthHeader (name : string) : bool := bool_decide (CanonicalHeaderKey name ∈ authHeaders).

(** A header map, in the order the iteration takes. *)
Abbreviation Headers := (list (string * list string)).

Definition headerPairs (h : Headers) : list (string * string) :=
  mjoin ((fun '(name, values) =>
    if isStandardHeader name then []
    else (fun v => (name, if isAuthHeader name then "<redacted>"%string else v)) <$> values) <$> h).

Section Meta.
Context {CO : CborOps}.

(** [meta, _ := cbor.Marshal(...)] *)
Definition marshal (m : list (string * any)) : bytes :=
  match cbor_marshal_map m with Ok b => b | Err _ => [] end.

Definition buildHeadersMeta (h : Headers) : bytes :=
  marshal [("headers"%string, AArray ((fun '(n, v) => AArray [AText n; AText v]) <$> headerPairs h))].

Definition open_meta (method url proto : string) : bytes :=
  marshal [("method"%string, AText method); ("url"%string, AText url); ("protocol"%string, AText proto)].
End Meta.

(** ** Requests and responses *)
Record Req := mkReq {
  rMethod : string; rHost : string; rPath : string; rURL : string; rProto : string;
  rQueryCode : string;                (* the [code] query parameter *)
  rHeader : Headers; rDump : result bytes;  (* [httputil.DumpRequest] *)
  rBody : source; rContentLength : Z }.

Record Resp := mkResp { pStatus : Z; pBody : bytes }.

(** A text body ends in a newline. *)
Definition line (s : string) : string := (s ++ String "010" "")%string.
Definition newTextResponse (status : Z) (body : string) : Resp := mkResp status (bytes_of body).
Definition newBytesResponse (data : bytes) : Resp := mkResp 200 data.

(** An upstream response. *)
Record UpResp := mkUpResp { uStatus : Z; uHeader : Headers; uDump : result bytes; uBody : source }.

(** ** State

    [ledger]'s writer is the stream to the collector; the loop's writes are
    sequential in enqueue order (Writer.Channel).  [entries] logs what was
    enqueued.  [flushed] is [flushOnce]; after it the entry channel is closed. *)
Record Relay (S : Type) := mkRelay {
  sink : S;
  client : collectorClient;
  ledger : Writer.Ledger bytes;
  entries : list Writer.entryInput;
  captureSeq : Z;
  captureBodies : bool;
  reqSigs : gmap nat bytes;
  lastActivity : Z;
  outputBytesWritten : Z;
  flushed : bool;
  caCert : bytes;
  caCRL : bytes }.
Arguments mkRelay {S}. Arguments sink {S}. Arguments client {S}. Arguments ledger {S}.
Arguments entries {S}. Arguments captureSeq {S}. Arguments captureBodies {S}. Arguments reqSigs {S}.
Arguments lastActivity {S}. Arguments outputBytesWritten {S}. Arguments flushed {S}.
Arguments caCert {S}. Arguments caCRL {S}.

Section Relay.
Context {HO : HashOps} {EO : Ed25519Ops} {CO : CborOps} {JO : JsonOps}.
Context {S : Type} {API : CollectorAPI S}.
Context (json_complete : Z -> string -> string -> source).

Abbreviation Relay := (Relay S).

Definition set_sink (r : Relay) (s : S) : Relay :=
  mkRelay s (client r) (ledger r) (entries r) (captureSeq r) (captureBodies r) (reqSigs r)
    (lastActivity r) (outputBytesWritten r) (flushed r) (caCert r) (caCRL r).
Definition set_activity (r : Relay) (now : Z) : Relay :=
  mkRelay (sink r) (client r) (ledger r) (entries r) (captureSeq r) (captureBodies r) (reqSigs r)
    now (outputBytesWritten r) (flushed r) (caCert r) (caCRL r).
Definition set_sigs (r : Relay) (m : gmap nat bytes) : Relay :=
  mkRelay (sink r) (client r) (ledger r) (entries r) (captureSeq r) (captureBodies r) m
    (lastActivity r) (outputBytesWritten r) (flushed r) (caCert r) (caCRL r).
Definition set_seq (r : Relay) (n : Z) : Relay :=
  mkRelay (sink r) (client r) (ledger r) (entries r) n (captureBodies r) (reqSigs r)
    (lastActivity r) (outputBytesWritten r) (flushed r) (caCert r) (caCRL r).
Definition set_flushed (r : Relay) (l : Writer.Ledger bytes) (s : S) : Relay :=
  mkRelay s (client r) l (entries r) (captureSeq r) (captureBodies r) (reqSigs r)
    (lastActivity r) (outputBytesWritten r) true (caCert r) (caCRL r).

(** Sending an entry to the ledger; [None] is the panic of a send on the closed
    channel.  Returns the record's signature. *)
Definition ledger_write (r : Relay) (e : Writer.entryInput) : option (Relay * bytes) :=
  if flushed r then None
  else
    let '(l, sig) := Writer.loop_body Writer.buffer_write (ledger r) e in
    Some (mkRelay (sink r) (client r) l (entries r ++ [e]) (captureSeq r) (captureBodies r) (reqSigs r)
            (lastActivity r) (outputBytesWritten r) (flushed r) (caCert r) (caCRL r), sig).

Definition Open (r : Relay) (schema : byte) (meta : bytes) : option (Relay * bytes) :=
  ledger_write r (Writer.mkEntry Reader.RecordOpen [] 0 [] schema meta).

Definition write_record (r : Relay) (typ : byte) (openSig : bytes) (size : Z) (hb : bytes) (schema : byte)
    (meta : bytes) : option Relay :=
  fst <$> ledger_write r (Writer.mkEntry typ openSig (to_int64 size) hb schema meta).

(** [r.ledger.ComputeHashBlock(data)]; the ledger's hash names are supported,
    so it does not panic. *)
Definition hash_block (r : Relay) (data : bytes) : bytes :=
  default [] (Writer.ComputeHashBlock (Writer.hashes (ledger r)) data []).

(** ** The end of a build (heartbeat.go, relay.go) *)

(** [finishAndFlush]: exactly once; [Finish] drains and zeroes the key. *)
Definition finishAndFlush (r : Relay) : Relay :=
  if flushed r then r
  else
    let '(s, _) := flushLedger (client r) (sink r) (Writer.writer (ledger r)) in
    set_flushed r (Writer.zero_key (ledger r)) s.

Definition complete (r : Relay) (code : Z) : Relay :=
  let r := finishAndFlush r in
  set_sink r (postComplete json_complete (client r) (sink r) code "" "").1.

(** [fmt.Sscanf(q, "%d", &code)] with [code] 0: the leading integer, 0 when
    there is none or it is out of range. *)
Fixpoint scan_digits (acc : Z) (s : string) : Z :=
  match s with
  | String c s' => if is_digit c then scan_digits (acc * 10 + (code c - 48)) s' else acc
  | EmptyString => acc
  end.
Definition Sscanf_int (s : string) : Z :=
  let s := TrimLeftSpace s in
  let n := match s with
           | String "-" s' => - scan_digits 0 s'
           | String "+" s' => scan_digits 0 s'
           | _ => scan_digits 0 s
           end in
  if (- 2 ^ 63 <=? n) && (n <? 2 ^ 63) then n else 0.

Definition exit_code (q : string) : Z := if decide (q = ""%string) then 0 else Sscanf_int q.

(** ** Inputs served to the guest *)

(** [recordServed] *)
Definition recordServed (r : Relay) (req : Req) (data : bytes) : option Relay :=
  '(r, openSig) ← Open r schemaHTTPOpen (open_meta "GET" (rURL req) (rProto req));
  write_record r Reader.RecordClose openSig (len data) (hash_block r data) schemaHTTPBody
    (marshal [("status"%string, AInt 200)]).

Definition serve_fetched (r : Relay) (req : Req) (path missing : string) : option (Relay * Resp) :=
  match fetch (client r) (sink r) path with
  | (s, Ok (data, _, 200)) =>
      r ← recordServed (set_sink r s) req data;
      Some (r, newBytesResponse data)
  | (s, _) => Some (set_sink r s, newTextResponse 404 missing)
  end.

Definition handleBuildScript (r : Relay) (req : Req) : option (Relay * Resp) :=
  serve_fetched r req "/v1/build-script" (line "build script unavailable").

Definition handleBootstrap (r : Relay) (req : Req) : option (Relay * Resp) :=
  serve_fetched r req "/v1/bootstrap" (line "no bootstrap config").

Definition handleContextGet (r : Relay) (req : Req) : option (Relay * Resp) :=
  let filePath := TrimPrefix (rPath req) "/" in
  let trimmed := TrimSuffix filePath "/" in
  if negb (bool_decide (trimmed = ""%string)) && negb (IsSafeContextPath trimmed)
  then Some (r, newTextResponse 403 (line "forbidden")) else
  match fetch (client r) (sink r) ("/v1/context/" ++ escapePath filePath) with
  | (s, Ok (data, kind, 200)) =>
      if decide (kind = "list"%string) then Some (set_sink r s, newBytesResponse data)
      else
        r ← recordServed (set_sink r s) req data;
        Some (r, newBytesResponse data)
  | (s, _) => Some (set_sink r s, newTextResponse 404 (line ("not found: " ++ filePath)))
  end.

(** ** Artifacts *)

Definition request_headers (req : Req) : bytes := match rDump req with Ok b => b | Err _ => [] end.

(** [n] is how far the upload gets before the collector replies. *)
Definition handleArtifactPost (n : nat) (r : Relay) (req : Req) : option (Relay * Resp) :=
  let artifactName := TrimPrefix (rPath req) "/" in
  let artifactName := if decide (artifactName = ""%string) then "unnamed"%string else artifactName in
  if negb (IsSafeArtifactPath artifactName)
  then Some (r, newTextResponse 400 (line "invalid artifact name"))
  else
    '(r, openSig) ← Open r schemaHTTPOpen (open_meta "POST" (rURL req) (rProto req));
    let reqHeaders := request_headers req in
    r ← write_record r Reader.RecordCheckpoint openSig (- len reqHeaders) (hash_block r reqHeaders)
          schemaHTTPHeaders (buildHeadersMeta (rHeader req));
    hasher ← Writer.NewStreamingHasher (Writer.hashes (ledger r));
    let limited := mkLimited (rBody req) (maxArtifactBytes + 1) false in
    match putArtifact n (client r) (sink r) artifactName limited hasher with
    | (s, lim, Err e) =>
        if exceeded lim then Some (set_sink r s, newTextResponse 413 (line "artifact size limit exceeded"))
        else Some (set_sink r s, newTextResponse 500 "storage error")
    | (s, lim, Ok (hashBlock, size)) =>
        r ← write_record (set_sink r s) Reader.RecordArtifact openSig (- size) hashBlock schemaArtifact
              (marshal [("name"%string, AText artifactName); ("context"%string, AStrMap [])]);
        Some (r, newTextResponse 200 (line ("artifact stored: " ++ artifactName ++ " (" ++ Itoa size ++ " bytes)")))
    end.

(** ** The guest API on the host "artifacts" *)
Definition handleArtifacts (n : nat) (now : Z) (r : Relay) (req : Req) : option (Relay * Resp) :=
  if decide (rPath req = "/heartbeat"%string) then Some (set_activity r now, newTextResponse 200 (line "ok"))
  else if decide (rPath req = "/exit"%string) then
    Some (complete r (exit_code (rQueryCode req)), newTextResponse 200 (line "ok"))
  else if decide (rPath req = "/ca.pem"%string) then Some (r, newBytesResponse (caCert r))
  else if decide (rPath req = "/ca.crl"%string) then Some (r, newBytesResponse (caCRL r))
  else if decide (rPath req = "/build-script"%string) then handleBuildScript r req
  else if decide (rPath req = "/bootstrap"%string) then handleBootstrap r req
  else if decide (rMethod req = "POST"%string) then handleArtifactPost n r req
  else Some (r, newTextResponse 404 (line "not found")).

(** ** Proxied exchanges *)

(** [strings.Split(req.Host, ":")[0]] *)
Definition host_of (req : Req) : string := default ""%string (head (Split (rHost req) ":")).

(** What [onRequest] does with a request: answers it, or lets it go upstream
    with a body that records itself. *)
Inductive Decision :=
  | Answered (resp : Resp)
  | Upstream (openSig : bytes) (body : option source).

(** [id] is the request's identity (the pointer the maps are keyed by). *)
Definition onRequest (n : nat) (now : Z) (r : Relay) (id : nat) (req : Req) : option (Relay * Decision) :=
  let host := host_of req in
  if decide (host = "artifacts"%string) then
    '(r, resp) ← handleArtifacts n now r req; Some (r, Answered resp)
  else if decide (host = "cwd"%string /\ rMethod req = "GET"%string) then
    '(r, resp) ← handleContextGet r req; Some (r, Answered resp)
  else
    let r := set_activity r now in
    let r := set_seq r (to_int64 (captureSeq r + 1)) in
    '(r, openSig) ← Open r schemaHTTPOpen (open_meta (rMethod req) (rURL req) (rProto req));
    let reqHeaders := request_headers req in
    r ← write_record r Reader.RecordCheckpoint openSig (- len reqHeaders) (hash_block r reqHeaders)
          schemaHTTPHeaders (buildHeadersMeta (rHeader req));
    let body := if negb (rContentLength req =? 0) then Some (rBody req) else None in
    Some (set_sigs r (<[id := openSig]> (reqSigs r)), Upstream openSig body).

(** What [onResponse] returns: the response unrecorded, closed at once, or with
    a body that records itself. *)
Inductive Recorded :=
  | Unrecorded
  | ClosedNow
  | WithBody (openSig : bytes) (status : Z).

Definition response_headers (res : UpResp) : bytes := match uDump res with Ok b => b | Err _ => [] end.

Definition no_body_status (st : Z) : bool := (st =? 304) || (st =? 204) || ((100 <=? st) && (st <? 200)).

Definition onResponse (r : Relay) (id : nat) (res : UpResp) : option (Relay * Recorded) :=
  match reqSigs r !! id with
  | None => Some (r, Unrecorded)
  | Some openSig =>
      let r := set_sigs r (delete id (reqSigs r)) in
      let respHeaders := response_headers res in
      r ← write_record r Reader.RecordCheckpoint openSig (len respHeaders) (hash_block r respHeaders)
            schemaHTTPHeaders (buildHeadersMeta (uHeader res));
      if no_body_status (uStatus res) then
        r ← write_record r Reader.RecordClose openSig 0 [] schemaHTTPBody
              (marshal [("status"%string, AInt (uStatus res))]);
        Some (r, ClosedNow)
      else Some (r, WithBody openSig (uStatus res))
  end.

(** The entry a recorded response body writes when it ends (Streams.ledgerBody
    with [response_entry]), and the request body's. *)
Definition finish_body (r : Relay) (e : Writer.entryInput) : option Relay := fst <$> ledger_write r e.

Definition body_meta (status : Z) : bytes := marshal [("status"%string, AInt status)].

(** ** The environment record *)

Definition environmentLabel (env : option EnvConfig) : result (option (list (string * any))) :=
  match env with
  | None => Ok None
  | Some env =>
      if len (ePayload env) =? 0 then Err (Msg "environment payload is empty")
      else if len (ePayload env) >? Collector.MaxEnvironmentBytes
      then Err (Errorf "environment payload is %d bytes (limit %d)"
                  [Itoa (len (ePayload env)); Itoa Collector.MaxEnvironmentBytes])
      else match EnvironmentType (ePayload env) with
           | Err e => Err e
           | Ok t =>
               if negb (bool_decide (eType env = ""%string)) && negb (bool_decide (eType env = t))
               then Err (Errorf "environment declared as %q but its payload names %q" [eType env; t])
               else Ok (Some [("type"%string, AText t)])
           end
  end.

Definition recordEnvironment (r : Relay) (env : option EnvConfig) : option (result Relay) :=
  match env with
  | None => Some (Ok r)
  | Some env =>
      match cbor_unmarshal_map (eMeta env) with
      | Err e => Some (Err (Wrap "invalid environment metadata CBOR" e))
      | Ok _ =>
          match putEnvironment (client r) (sink r) (ePayload env) with
          | (s, Some e) => Some (Err (Wrap "landing environment payload" e))
          | (s, None) =>
              '(r, openSig) ← Open (set_sink r s) schemaEnv (marshal [("type"%string, AText "environment")]);
              r ← write_record r Reader.RecordClose openSig (- len (ePayload env))
                    (hash_block r (ePayload env)) schemaEnv (eMeta env);
              Some (Ok r)
          end
      end
  end.

(** The part of [Start] before the listeners. *)
Definition start_ledger (c : collectorClient) (s : S) (rand : result bytes) (env : option EnvConfig)
    (bodies : bool) (caCert caCRL : bytes) : option (result Relay) :=
  match environmentLabel env with
  | Err e => Some (Err (Wrap "relay" e))
  | Ok headerEnv =>
      l ← Writer.NewLedger Writer.buffer_write rand (Writer.mkLedgerConfig [] headerEnv None None);
      match l with
      | Err e => Some (Err (Wrap "initializing ledger" e))
      | Ok l =>
          res ← recordEnvironment (mkRelay s c l [] 0 bodies ∅ 0 0 false caCert caCRL) env;
          Some (match res with Err e => Err (Wrap "recording environment" e) | Ok r => Ok r end)
      end
  end.

(** ** Build output (controlplane.go)

    One POST: what is left of the allowance is read first, then the body is
    copied up to it. *)
Definition output_allowed (r : Relay) : Z := maxOutputBytes - outputBytesWritten r.

Definition post_output (r : Relay) (body : bytes) : option bytes * Relay :=
  if output_allowed r <=? 0 then (None, r)
  else
    let b := take (Z.to_nat (output_allowed r)) body in
    (Some b, mkRelay (sink r) (client r) (ledger r) (entries r) (captureSeq r) (captureBodies r) (reqSigs r)
               (lastActivity r) (to_int64 (outputBytesWritten r + len b)) (flushed r) (caCert r) (caCRL r)).
End Relay.
End Relay.
