(* ===== verification/RelaySpec.v ===== *)
(** * What the relay records

    Artifacts, served inputs and proxied exchanges against the ledger and the
    collector, and the end of a build. *)
From S2P Require Import Prelude Text Crypto Ledger LedgerVerify Writer Environment.
From S2P Require Import Paths Streams Collector CollectorSpec Relay.

#[local] Open Scope Z_scope.

(** ** The collector as the relay's server *)
#[export] Instance collector_api (fault : string -> string -> option error)
    (decode_complete : Streams.source -> option (Z * string * string)) : CollectorAPI Collector.Collector :=
  fun c req => let '(c', resp) := Collector.Handler fault decode_complete c req in (c', Ok resp).

(** A server that only logs its requests. *)
#[export] Instance log_api : CollectorAPI (list Collector.Request) :=
  fun log req => (log ++ [req], Ok Collector.OK).

Module RelaySpec.
Import Streams StreamSpec Paths Client Relay Writer WriterSpec.

#[local] Arguments loop_body : simpl never.
#[local] Arguments write_all : simpl never.

(** ** Headers *)

Lemma headerPairs_elem h n v :
  (n, v) ∈ headerPairs h ->
  isStandardHeader n = false /\ (isAuthHeader n = true -> v = "<redacted>"%string).
Proof.
  unfold headerPairs. intros Hin. apply list_elem_of_join in Hin as (l & Hl & Hin).
  apply list_elem_of_fmap in Hin as ([name values] & -> & _).
  destruct (isStandardHeader name) eqn:Hs; [by apply elem_of_nil in Hl|].
  apply list_elem_of_fmap in Hl as (v0 & [= -> ->] & _). split; [done|]. by intros ->.
Qed.

(** Headers that differ only in the values of credentials. *)
Definition same_public (h h' : Headers) : Prop :=
  Forall2 (fun x y => x.1 = y.1 /\ length x.2 = length y.2 /\
                      (isAuthHeader x.1 = false -> x.2 = y.2)) h h'.

Lemma same_public_pairs h h' : same_public h h' -> headerPairs h = headerPairs h'.
Proof.
  unfold headerPairs. induction 1 as [|[n vs] [n' vs'] h h' (Hn & Hl & Hv) _ IH]; [done|].
  cbn [fmap list_fmap fst snd] in *. subst n'. rewrite !mjoin_cons, IH. f_equal.
  destruct (isStandardHeader n); [done|]. destruct (isAuthHeader n) eqn:Ha.
  - clear Hv. revert vs' Hl. clear. induction vs as [|v vs IH]; intros [|v' vs'] Hl; try done.
    cbn. f_equal. apply IH. cbn in Hl. lia.
  - by rewrite Hv.
Qed.


Section Spec.
Context {HO : HashOps} {EO : Ed25519Ops} {CO : CborOps} {JO : Environment.JsonOps}.
Context {S : Type} {API : CollectorAPI S}.
Context (json_complete : Z -> string -> string -> source).

Abbreviation Relay := (Relay.Relay S).

(** ** Writing records *)

Definition open_entry (schema : byte) (meta : bytes) : entryInput :=
  mkEntry Reader.RecordOpen [] 0 [] schema meta.

(** The signature the next record will get. *)
Definition next_sig (l : Ledger bytes) (e : entryInput) : bytes := (loop_body buffer_write l e).2.

(** [r'] is [r] with [es] written to its ledger, and another sink. *)
Record wrote (r : Relay) (es : list entryInput) (r' : Relay) : Prop := {
  wr_entries : entries r' = entries r ++ es;
  wr_ledger : ledger r' = write_all buffer_write (ledger r) es;
  wr_flushed : flushed r' = flushed r;
  wr_client : client r' = client r }.

Lemma wrote_refl r : wrote r [] r.
Proof. split; try done. by rewrite app_nil_r. Qed.

Lemma wrote_trans r1 r2 r3 es es' : wrote r1 es r2 -> wrote r2 es' r3 -> wrote r1 (es ++ es') r3.
Proof.
  intros [E1 L1 F1 C1] [E2 L2 F2 C2]. split; [by rewrite E2, E1, app_assoc| |congruence..].
  rewrite L2, L1. unfold write_all. by rewrite foldl_app.
Qed.

Lemma ledger_write_spec r e r' sig :
  ledger_write r e = Some (r', sig) ->
  wrote r [e] r' /\ sig = next_sig (ledger r) e /\ sink r' = sink r /\ reqSigs r' = reqSigs r /\
  flushed r = false.
Proof.
  unfold ledger_write, next_sig. destruct (flushed r) eqn:Hf; [done|].
  destruct (loop_body buffer_write (ledger r) e) as [l sg] eqn:He. intros [= <- <-].
  split_and!; try done. split; cbn; try done.
  unfold write_all. cbn [foldl]. by rewrite He.
Qed.

Lemma write_record_spec r typ openSig size hb schema meta r' :
  write_record r typ openSig size hb schema meta = Some r' ->
  wrote r [mkEntry typ openSig (to_int64 size) hb schema meta] r' /\ sink r' = sink r /\
  reqSigs r' = reqSigs r.
Proof.
  unfold write_record. intros H. apply fmap_Some in H as ([r0 sig] & H & ->).
  apply ledger_write_spec in H as (Hw & _ & Hs & Hq & _). done.
Qed.

Lemma wrote_hashes r es r' : wrote r es r' -> hashes (ledger r') = hashes (ledger r).
Proof.
  intros [_ -> _ _]. revert r. cut (forall l, hashes (write_all buffer_write l es) = hashes l); [eauto|].
  induction es as [|e es IH]; intros l; [done|].
  unfold write_all in *. cbn [foldl]. by rewrite IH.
Qed.

Lemma wrote_sink r s es r' : wrote (set_sink r s) es r' <-> wrote r es r'.
Proof. split; intros []; by split. Qed.

Lemma wrote_set r s : wrote r [] (set_sink r s).
Proof. split; try done. cbn. by rewrite app_nil_r. Qed.

Lemma wrote_block r es r' d : wrote r es r' -> hash_block r' d = hash_block r d.
Proof. intros H. unfold hash_block. by rewrite (wrote_hashes _ _ _ H). Qed.

(** ** Served inputs *)

(** The two records of a served input. *)
Definition served_entries (r : Relay) (req : Req) (data : bytes) : list entryInput :=
  let o := open_entry schemaHTTPOpen (open_meta "GET" (rURL req) (rProto req)) in
  [o; mkEntry Reader.RecordClose (next_sig (ledger r) o) (to_int64 (len data)) (hash_block r data)
        schemaHTTPBody (marshal [("status"%string, AInt 200)])].

Lemma recordServed_spec r req data r' :
  recordServed r req data = Some r' ->
  wrote r (served_entries r req data) r' /\ sink r' = sink r.
Proof.
  unfold recordServed. intros H. apply bind_Some in H as ([r1 sig] & Ho & Hc).
  apply ledger_write_spec in Ho as (Hw1 & -> & Hs1 & _).
  rewrite (wrote_block r _ r1 data Hw1) in Hc.
  apply write_record_spec in Hc as (Hw2 & Hs2 & _).
  split; [|congruence]. apply (wrote_trans _ _ _ [_] [_] Hw1 Hw2).
Qed.

Lemma serve_fetched_spec r req path missing r' resp :
  serve_fetched r req path missing = Some (r', resp) ->
  (pStatus resp = 200 /\ wrote r (served_entries r req (pBody resp)) r') \/
  (pStatus resp = 404 /\ wrote r [] r').
Proof.
  unfold serve_fetched. destruct (fetch (client r) (sink r) path) as [s [[[data kind] st]|e]].
  - destruct (decide (st = 200)) as [->|Hst].
    + intros H. apply bind_Some in H as (r1 & Hr & [= <- <-]). left. split; [done|].
      apply recordServed_spec in Hr as [Hw _]. by apply wrote_sink in Hw.
    + intros H. right. assert (H' : Some (set_sink r s, newTextResponse 404 missing) = Some (r', resp)).
      { rewrite <- H. destruct st as [|p|p]; try done.
        repeat (destruct p as [p|p|]; try done). }
      injection H' as <- <-. split; [done|]. apply wrote_set.
  - intros [= <- <-]. right. split; [done|]. apply wrote_set.
Qed.

Lemma handleContextGet_spec r req r' resp :
  handleContextGet r req = Some (r', resp) ->
  (pStatus resp = 200 /\ wrote r (served_entries r req (pBody resp)) r') \/
  (wrote r [] r' /\
   (pStatus resp = 200 -> exists s data, fetch (client r) (sink r)
      ("/v1/context/" ++ escapePath (TrimPrefix (rPath req) "/")) = (s, Ok (data, "list"%string, 200)) /\
      pBody resp = data)).
Proof.
  unfold handleContextGet. cbv zeta. destruct (_ && _).
  { intros [= <- <-]. right. split; [apply wrote_refl|done]. }
  destruct (fetch _ _ _) as [s [[[data kind] st]|e]]; cycle 1.
  { intros [= <- <-]. right. split; [apply wrote_set|done]. }
  destruct (decide (st = 200)) as [->|Hst].
  - destruct (decide (kind = "list"%string)) as [->|Hk].
    + intros [= <- <-]. right. split; [apply wrote_set|]. eauto.
    + intros H. apply bind_Some in H as (r1 & Hr & [= <- <-]). left. split; [done|].
      apply recordServed_spec in Hr as [Hw _]. by apply wrote_sink in Hw.
  - intros H. right.
    assert (H' : Some (set_sink r s, newTextResponse 404 (line ("not found: " ++ TrimPrefix (rPath req) "/")))
                 = Some (r', resp)).
    { rewrite <- H. destruct st as [|p|p]; try done. repeat (destruct p as [p|p|]; try done). }
    injection H' as <- <-. split; [apply wrote_set|done].
Qed.

(** Served inputs are witnessed: when the guest gets the build script, the
    bootstrap config or a context file with status 200, the ledger has gained
    exactly an open record with the request's URL and a close record naming its
    signature, whose hash block and size are those of the bytes served; a
    refused or missing input, and a directory listing, is not recorded. *)
Theorem served_inputs_recorded r req :
  (forall r' resp,
     handleBuildScript r req = Some (r', resp) \/ handleBootstrap r req = Some (r', resp) ->
     (pStatus resp = 200 /\ wrote r (served_entries r req (pBody resp)) r') \/
     (pStatus resp = 404 /\ wrote r [] r')) /\
  (forall r' resp, handleContextGet r req = Some (r', resp) ->
     (pStatus resp = 200 /\ wrote r (served_entries r req (pBody resp)) r') \/
     (wrote r [] r' /\
      (pStatus resp = 200 -> exists s data, fetch (client r) (sink r)
         ("/v1/context/" ++ escapePath (TrimPrefix (rPath req) "/")) = (s, Ok (data, "list"%string, 200)) /\
         pBody resp = data))).
Proof.
  split.
  - intros r' resp [H|H]; by apply serve_fetched_spec in H.
  - intros r' resp. apply handleContextGet_spec.
Qed.

(** ** Proxied exchanges *)

(** The records of a request going upstream. *)
Definition request_entries (r : Relay) (req : Req) : list entryInput :=
  let o := open_entry schemaHTTPOpen (open_meta (rMethod req) (rURL req) (rProto req)) in
  [o; mkEntry Reader.RecordCheckpoint (next_sig (ledger r) o) (to_int64 (- len (request_headers req)))
        (hash_block r (request_headers req)) schemaHTTPHeaders (buildHeadersMeta (rHeader req))].

(** The records of its response, up to the body. *)
Definition response_entries (r : Relay) (openSig : bytes) (res : UpResp) : list entryInput :=
  mkEntry Reader.RecordCheckpoint openSig (to_int64 (len (response_headers res)))
    (hash_block r (response_headers res)) schemaHTTPHeaders (buildHeadersMeta (uHeader res)) ::
  (if no_body_status (uStatus res)
   then [mkEntry Reader.RecordClose openSig 0 [] schemaHTTPBody (body_meta (uStatus res))] else []).

Lemma onRequest_spec n now r id req r' sig body :
  onRequest json_complete n now r id req = Some (r', Upstream sig body) ->
  wrote r (request_entries r req) r' /\ reqSigs r' = <[id := sig]> (reqSigs r) /\
  sig = next_sig (ledger r) (open_entry schemaHTTPOpen (open_meta (rMethod req) (rURL req) (rProto req))) /\
  body = (if negb (rContentLength req =? 0) then Some (rBody req) else None) /\ sink r' = sink r.
Proof.
  unfold onRequest. cbv zeta. destruct (decide _).
  { intros H. by apply bind_Some in H as ([r1 resp] & _ & [=]). }
  destruct (decide _); [intros H; by apply bind_Some in H as ([r1 resp] & _ & [=])|].
  set (r0 := set_seq _ _). intros H. apply bind_Some in H as ([r1 sg] & Ho & H).
  apply bind_Some in H as (r2 & Hc & [= <- <- <-]).
  apply ledger_write_spec in Ho as (Hw1 & Hsig & Hs1 & Hq1 & _).
  rewrite (wrote_block r0 _ r1 _ Hw1) in Hc. apply write_record_spec in Hc as (Hw2 & Hs2 & Hq2).
  assert (Hw : wrote r (request_entries r req) r2).
  { pose proof (wrote_trans _ _ _ [_] [_] Hw1 Hw2) as [E L F C]. rewrite Hsig in E, L. by split. }
  destruct Hw as [E L F C]. cbn. split_and!; [by split|by rewrite Hq2, Hq1|done|done|by rewrite Hs2, Hs1].
Qed.

Lemma onResponse_spec r id res r' rec :
  onResponse r id res = Some (r', rec) ->
  match reqSigs r !! id with
  | None => r' = r /\ rec = Unrecorded
  | Some sig => wrote r (response_entries r sig res) r' /\ reqSigs r' = delete id (reqSigs r) /\
      rec = if no_body_status (uStatus res) then ClosedNow else WithBody sig (uStatus res)
  end.
Proof.
  unfold onResponse. destruct (reqSigs r !! id) as [sig|]; [|by intros [= <- <-]]. cbv zeta.
  set (r0 := set_sigs r _). intros H. apply bind_Some in H as (r1 & Hc & H).
  apply write_record_spec in Hc as (Hw1 & Hs1 & Hq1). unfold response_entries.
  assert (Hw : wrote r [mkEntry Reader.RecordCheckpoint sig (to_int64 (len (response_headers res)))
    (hash_block r (response_headers res)) schemaHTTPHeaders (buildHeadersMeta (uHeader res))] r1).
  { destruct Hw1 as [E L F C]. by split. }
  destruct (no_body_status (uStatus res)).
  - apply bind_Some in H as (r2 & Hc & [= <- <-]). apply write_record_spec in Hc as (Hw2 & Hs2 & Hq2).
    split_and!; [exact (wrote_trans _ _ _ [_] [_] Hw Hw2)|by rewrite Hq2, Hq1|done].
  - injection H as <- <-. split_and!; [exact Hw|by rewrite Hq1|done].
Qed.

(** A proxied exchange is recorded under one open record: going upstream
    writes its open record and the request headers, the response writes its
    headers (and a close record at once when it has no body) under that same
    signature, and is taken only once: a second response to the request is
    passed on unrecorded. *)
Theorem exchange_recorded n now r id req r1 sig body :
  onRequest json_complete n now r id req = Some (r1, Upstream sig body) ->
  wrote r (request_entries r req) r1 /\
  sig = next_sig (ledger r) (open_entry schemaHTTPOpen (open_meta (rMethod req) (rURL req) (rProto req))) /\
  forall res r2 rec, onResponse r1 id res = Some (r2, rec) ->
    wrote r1 (response_entries r1 sig res) r2 /\
    rec = (if no_body_status (uStatus res) then ClosedNow else WithBody sig (uStatus res)) /\
    forall res', onResponse r2 id res' = Some (r2, Unrecorded).
Proof.
  intros H. apply onRequest_spec in H as (Hw & Hq & Hs & _ & _). split_and!; [done|done|].
  intros res r2 rec Hr. apply onResponse_spec in Hr. rewrite Hq, lookup_insert_eq in Hr.
  destruct Hr as (Hw2 & Hq2 & Hrec). split_and!; [done|done|].
  intros res'. unfold onResponse. by rewrite Hq2, lookup_delete_eq.
Qed.
End Spec.

(** ** The end of a build *)
Section Flush.
Context {HO : HashOps} {EO : Ed25519Ops} {CO : CborOps}.
Context (json_complete : Z -> string -> string -> source).

(** Build completion, and the two other paths that finish the ledger. *)
Inductive finisher := Complete (code : Z) | Stop.

Definition finish_with {S} {API : CollectorAPI S} (r : Relay S) (f : finisher) : Relay S :=
  match f with Complete code => complete json_complete r code | Stop => finishAndFlush r end.

Definition completion_requests (c : collectorClient) (fs : list finisher) : list Collector.Request :=
  omap (fun f => match f with
    | Complete code => Some (newRequest c "POST" "/v1/complete" (json_complete code "" "") "")
    | Stop => None end) fs.

Lemma finish_flushed (r : Relay (list Collector.Request)) fs :
  flushed r = true ->
  let r' := foldl finish_with r fs in
  sink r' = sink r ++ completion_requests (client r) fs /\ flushed r' = true.
Proof.
  revert r. induction fs as [|f fs IH]; intros r Hf; cbn [foldl].
  - cbn. by rewrite app_nil_r.
  - assert (Hfin : finishAndFlush r = r) by (unfold finishAndFlush; by rewrite Hf).
    destruct f as [code|]; cbn [finish_with].
    + unfold complete. rewrite Hfin. destruct (IH (set_sink r (sink r ++
        [newRequest (client r) "POST" "/v1/complete" (json_complete code "" "") ""]))) as [H1 H2]; [done|].
      cbn in H1. rewrite <- app_assoc in H1. by split.
    + rewrite Hfin. by apply IH.
Qed.

(** C18.  The ledger is flushed exactly once, with everything written to it, and
    before any completion is posted, whichever of completion, a listener
    failure or Stop comes first and however often; afterwards any attempt to
    record (a request or body still in flight) panics on the closed channel. *)
Theorem flushed_before_completion (r : Relay (list Collector.Request)) f fs :
  flushed r = false ->
  let r' := foldl finish_with r (f :: fs) in
  sink r' = sink r ++
    newRequest (client r) "PUT" "/v1/ledger" (mkSource [writer (ledger r)] EOF true) "" ::
    completion_requests (client r) (f :: fs) /\
  flushed r' = true /\ forall e, ledger_write r' e = None.
Proof.
  intros Hf. cbv zeta.
  set (r1 := finishAndFlush r).
  assert (H1 : sink r1 = sink r ++ [newRequest (client r) "PUT" "/v1/ledger"
                 (mkSource [writer (ledger r)] EOF true) ""] /\ flushed r1 = true /\ client r1 = client r).
  { unfold r1, finishAndFlush. rewrite Hf. done. }
  destruct H1 as (Hs & Hf1 & Hc).
  assert (H2 : foldl finish_with r (f :: fs) = foldl finish_with r1 (f :: fs)).
  { cbn [foldl]. f_equal. assert (Hid : finishAndFlush r1 = r1) by (unfold finishAndFlush at 1; by rewrite Hf1).
    destruct f; cbn [finish_with]; unfold complete; by rewrite Hid. }
  rewrite H2. destruct (finish_flushed r1 (f :: fs) Hf1) as [Hsink Hfl].
  rewrite Hsink, Hs, Hc, <- app_assoc. split_and!; [done|done|].
  intros e. unfold ledger_write. by rewrite Hfl.
Qed.
End Flush.
End RelaySpec.
