(* ===== verification/EndToEnd.v ===== *)
(** * The relay against the collector

    The relay of [Relay] with the collector of [Collector] as its server: what
    the ledger says about a build is what the collector has landed. *)
From S2P Require Import Prelude Text Crypto Ledger LedgerVerify Writer Environment.
From S2P Require Import Paths Streams Collector CollectorSpec Claim Relay RelaySpec.

#[local] Open Scope Z_scope.

Module EndToEnd.
Import Reader Format LedgerSpec Environment Streams StreamSpec Paths Collector CollectorSpec Client Relay Writer WriterSpec RelaySpec.

#[local] Arguments loop_body : simpl never.
#[local] Arguments write_all : simpl never.

(** ** Routing *)
Section Routing.
Context (fault : string -> string -> option error).
Context (decode_complete : source -> option (Z * string * string)).

Abbreviation Handler := (Handler fault decode_complete).

Lemma Handler_artifact c req name :
  Path req = ("/v1/artifacts/" ++ name)%string ->
  Handler c req = (c, Error "Moved Permanently" 301) \/
  Handler c req = auth (handleArtifact fault) c req.
Proof.
  intros Hp. unfold Collector.Handler. destruct (unclean _); [by left|right].
  unfold Collector.routes. cbn [List.find].
  assert (Hz : pattern_matches "/healthz" (Path req) = false).
  { rewrite Hp. unfold pattern_matches. change (HasSuffix "/healthz" "/") with false. cbn iota.
    apply bool_decide_eq_false_2. intros H. cbv [append] in H. discriminate H. }
  rewrite Hz. clear Hz. cbn [find]. replace (pattern_matches "/v1/artifacts/" (Path req)) with true; [done|].
  symmetry. unfold pattern_matches. change (HasSuffix "/v1/artifacts/" "/") with true. cbn iota.
  unfold HasPrefix. apply bool_decide_eq_true. exists name. by apply CutPrefix_Some.
Qed.

Lemma auth_ok h c req :
  TrimPrefix (Authorization req) "Bearer " = Token (cfg c) -> auth h c req = h c req.
Proof.
  intros Ht. unfold auth. rewrite Ht, (bool_decide_eq_true_2 (Token (cfg c) = Token (cfg c))) by done.
  cbn [negb]. by rewrite andb_false_r.
Qed.

(** A fixed path goes to its handler. *)
Ltac route :=
  unfold Collector.Handler, Collector.routes;
  match goal with H : Path ?req = _ |- _ => rewrite H end;
  match goal with |- context [unclean ?p] =>
    let v := eval vm_compute in (unclean p) in change (unclean p) with v end;
  cbv iota; cbn [List.find];
  repeat match goal with |- context [pattern_matches ?a ?b] =>
    let v := eval vm_compute in (pattern_matches a b) in change (pattern_matches a b) with v; cbv iota end.

Lemma Handler_ledger c req :
  Path req = "/v1/ledger"%string -> Handler c req = auth (handleLedger fault) c req.
Proof. intros Hp. route. done. Qed.

Lemma Handler_environment c req :
  Path req = "/v1/environment"%string -> Handler c req = auth (handleEnvironment fault) c req.
Proof. intros Hp. route. done. Qed.

Lemma Handler_complete c req :
  Path req = "/v1/complete"%string -> Handler c req = auth (handleComplete decode_complete) c req.
Proof. intros Hp. route. done. Qed.
End Routing.

(** ** Uploading through the cap and the hash *)
Section Upload.
Context {HO : HashOps} {HL : HashLaws}.

Record upload_inv (names : list string) (s0 : StreamingHasher) (r0 : source) (cap : Z) (got : bytes)
    (hb : hashingBody (limitedReader source)) : Prop := {
  ui_hash : exists chunks, hb_hasher hb = foldl sh_Write s0 chunks /\ mjoin chunks = got;
  ui_limited : limited_inv r0 cap got (hb_r hb);
  ui_open : hb_finished hb = false }.

Lemma upload_step names s0 r0 cap got hb :
  NewStreamingHasher names = Some s0 -> upload_inv names s0 r0 cap got hb ->
  let '(hb', b, err) := hb_Read hb transport_buf in
  limited_inv r0 cap (got ++ b) (hb_r hb') /\
  (err = Some EOF ->
     rd_data r0 = got ++ b /\ hb_finished hb' = true /\ hb_size hb' = to_int64 (len (rd_data r0)) /\
     ComputeHashBlock names (rd_data r0) [] = Some (hb_hashBlock hb')) /\
  (err <> Some EOF -> upload_inv names s0 r0 cap (got ++ b) hb').
Proof using HL.
  intros Hs [(chunks & Hh & Hg) Hl Ho]. unfold hb_Read.
  pose proof (limited_step r0 cap got (hb_r hb) transport_buf Hl ltac:(done)) as Hst.
  change (rd_read (hb_r hb) transport_buf) with (limited_read (hb_r hb) transport_buf).
  destruct (limited_read (hb_r hb) transport_buf) as [[l' b] err]. destruct Hst as (Hl' & _ & He).
  destruct (hash_write_some _ _ _ b Hh) as [Hh' Hg']. rewrite Hg in Hg'. rewrite Hh'.
  set (chunks' := chunks ++ _) in *. rewrite Ho, andb_true_r.
  destruct (bool_decide_reflect (err = Some EOF)) as [->|Hne].
  - destruct He as [[[=] _]|[_ Hd]].
    destruct (streamed names s0 chunks' Hs) as (block & -> & Hb & _). cbn [fst snd].
    split_and!; [done| |done]. intros _.
    cbn [hb_finished hb_size hb_hashBlock]. rewrite <- Hg' in Hd. rewrite Hd. by split_and!.
  - split_and!; [done|done|]. intros _. split; cbn; eauto.
Qed.

Lemma send_spec n names s0 r0 cap got hb :
  NewStreamingHasher names = Some s0 -> upload_inv names s0 r0 cap got hb ->
  let '(hb', bs, err) := send n hb in
  (err = Some EOF ->
     rd_data r0 = got ++ mjoin bs /\ len (rd_data r0) <= cap /\ hb_finished hb' = true /\
     hb_size hb' = to_int64 (len (rd_data r0)) /\
     ComputeHashBlock names (rd_data r0) [] = Some (hb_hashBlock hb')) /\
  (err = None -> hb_finished hb' = false).
Proof using HL.
  intros Hs. revert got hb. induction n as [|n IH]; intros got hb Hi; cbn [send].
  - split; [done|]. intros _. apply Hi.
  - pose proof (upload_step names s0 r0 cap got hb Hs Hi) as Hst.
    destruct (hb_Read hb transport_buf) as [[hb1 b] [e|]]; destruct Hst as (Hl & H1 & H2).
    + split; [|done]. intros He. destruct (H1 He) as (Hd & Hfin & Hsz & Hb).
      rewrite mjoin_cons, app_nil_r. split_and!; try done.
      pose proof (li_remaining _ _ _ _ Hl). pose proof (li_nonneg _ _ _ _ Hl). rewrite Hd. lia.
    + assert (Hi1 : upload_inv names s0 r0 cap (got ++ b) hb1) by by apply H2.
      specialize (IH _ _ Hi1). destruct (send n hb1) as [[hb2 bs] err2]. destruct IH as [I1 I2].
      split; [|done]. intros He. destruct (I1 He) as (Hd & ? & ? & ? & ?).
      rewrite mjoin_cons, app_assoc. done.
Qed.
End Upload.

Section Build.
Context {HO : HashOps} {HL : HashLaws} {EO : Ed25519Ops} {CO : CborOps}.
Context (fault : string -> string -> option error).
Context (decode_complete : source -> option (Z * string * string)).
Context (json_complete : Z -> string -> string -> source).

#[local] Existing Instance collector_api.
#[local] Instance API : CollectorAPI Collector := collector_api fault decode_complete.

Definition roomy (c : Collector) : Prop := 0 <= maxArtifact c /\ maxArtifact c + copy_buf < 2 ^ 63.

Definition artifact_name (req : Req) : string :=
  let n := TrimPrefix (rPath req) "/" in if decide (n = ""%string) then "unnamed"%string else n.

(** The records of a stored artifact. *)
Definition artifact_entries (r : Relay Collector) (req : Req) (block : bytes) : list entryInput :=
  let o := open_entry schemaHTTPOpen (open_meta "POST" (rURL req) (rProto req)) in
  let sig := next_sig (ledger r) o in
  [o; mkEntry Reader.RecordCheckpoint sig (to_int64 (- len (request_headers req)))
        (hash_block r (request_headers req)) schemaHTTPHeaders (buildHeadersMeta (rHeader req));
   mkEntry Reader.RecordArtifact sig (to_int64 (- to_int64 (len (rd_data (rBody req))))) block schemaArtifact
     (marshal [("name"%string, AText (artifact_name req)); ("context"%string, AStrMap [])])].

Lemma PathUnescape_artifact name :
  IsSafeArtifactPath name = true -> url_path ("/v1/artifacts/" ++ escapePath name) = ("/v1/artifacts/" ++ name)%string.
Proof.
  intros Hs. unfold url_path.
  assert (Hu : PathUnescape ("/v1/artifacts/" ++ escapePath name) = Some ("/v1/artifacts/" ++ name)%string).
  { cbn [append PathUnescape]. repeat (rewrite decide_False by done).
    unfold escapePath. rewrite unescape_join by apply Split_nonnil.
    change (Join (Split name slash) "/") with (Join (Split name slash) (String slash "")).
    by rewrite Join_Split. }
  by rewrite Hu.
Qed.

Lemma putArtifact_lands n cl c name r0 s0 names c' lim block size :
  IsSafeArtifactPath name = true -> roomy c -> NewStreamingHasher names = Some s0 ->
  putArtifact n cl c name (mkLimited r0 (maxArtifactBytes + 1) false) s0 = (c', lim, Ok (block, size)) ->
  out c' !! ("artifacts/" ++ name)%string = Some (File (rd_data r0)) /\
  len (rd_data r0) <= maxArtifactBytes + 1 /\ size = to_int64 (len (rd_data r0)) /\
  ComputeHashBlock names (rd_data r0) [] = Some block.
Proof using HL.
  intros Hsafe [Hm Hmax] Hs Hp. unfold putArtifact in Hp.
  pose proof (send_spec n names s0 r0 (maxArtifactBytes + 1) []
    (mkHashingBody (mkLimited r0 (maxArtifactBytes + 1) false) s0 None [] 0 false) Hs) as Hsend.
  destruct (send n _) as [[hb bs] err].
  destruct Hsend as [H1 H2].
  { split; cbn; [by exists []| |done]. split; cbn; rewrite ?len_nil; done || lia. }
  set (req := newRequest cl "PUT" _ _ _) in *.
  destruct (do c req [200]) as [c1 derr] eqn:Hdo.
  destruct err as [e|].
  - destruct (decide (e = EOF)) as [->|]; [|done]. destruct derr as [|]; [done|].
    destruct (hb_finished hb) eqn:Hfin; [|done]. cbn [negb] in Hp. injection Hp as <- <- <- <-.
    destruct (H1 eq_refl) as (Hd & Hlen & _ & Hsz & Hb). split_and!; try done.
    unfold do, api_request, API, collector_api in Hdo.
    destruct (Handler_artifact fault decode_complete c req name (PathUnescape_artifact name Hsafe)) as [Hh|Hh];
      rewrite Hh in Hdo; [done|].
    unfold auth in Hdo. destruct (_ && _); [done|].
    destruct (handleArtifact fault c req) as [c2 resp] eqn:Hha.
    case_bool_decide as Hst; [|done]. injection Hdo as <-.
    apply list_elem_of_singleton in Hst.
    destruct (handleArtifact_lands fault c req c2 resp Hm Hmax Hha Hst) as (_ & Hout & _ & _).
    assert (Hname : TrimPrefix (Path req) "/v1/artifacts/" = name).
    { change (Path req) with (url_path ("/v1/artifacts/" ++ escapePath name)).
      rewrite PathUnescape_artifact by done. apply TrimPrefix_app. }
    rewrite Hname in Hout. rewrite Hout. do 2 f_equal. symmetry. exact Hd.
  - specialize (H2 eq_refl). rewrite H2 in Hp. cbn in Hp. by destruct derr.
Qed.

(** ** The end of a build *)

(** Without faults, the ledger stream lands whole. *)
Lemma handleLedger_lands c req :
  (forall op p, fault op p = None) -> roomy c -> isWrite req = true ->
  (out c !! "ledger"%string = None \/ exists b, out c !! "ledger"%string = Some (File b)) ->
  len (rd_data (Body req)) <= maxArtifact c -> rd_final (Body req) = EOF ->
  let '(c', resp) := handleLedger fault c req in
  Status resp = 200 /\ out c' = <["ledger"%string := File (rd_data (Body req))]> (out c) /\
  completion c' = completion c /\ cfg c' = cfg c.
Proof.
  intros Hnf [Hm Hmax] Hw Hold Hlen Hfin. unfold handleLedger. rewrite Hw. cbn [negb].
  assert (Hc : Create fault (out c) "ledger" = (<["ledger"%string := File []]> (out c), None)).
  { unfold Create. rewrite Hnf. change (parent_ok (out c) "ledger") with true. cbn [negb].
    destruct Hold as [->|[b ->]]; done. }
  rewrite Hc. set (c0 := set_out c _).
  destruct (copy_to_lands fault c0 "ledger" (Body req) (maxArtifact c)) as [Herr Hout]; try done.
  { unfold c0. cbn. by rewrite lookup_insert_eq. }
  destruct (copy_to fault c0 "ledger" (Body req) (maxArtifact c)) as [[c' k] err] eqn:Hcp.
  cbn [fst snd] in *. subst err. apply copy_to_spec in Hcp as (d & _ & _ & Hc' & _); try done.
  - unfold close_err. rewrite Hnf. rewrite Hc'. cbn [out completion cfg set_out set_written].
    rewrite Hout. unfold c0. cbn [out completion cfg set_out]. by rewrite insert_insert_eq.
  - unfold c0. cbn. by rewrite lookup_insert_eq.
Qed.

Lemma bearer_token (cl : collectorClient) : TrimPrefix (bearer cl) "Bearer " = cc_token cl.
Proof. unfold bearer. destruct (decide _) as [->|]; [done|]. apply TrimPrefix_app. Qed.

(** C20.  The end of a build: when the guest's exit reaches a relay whose ledger
    holds the records of [es] (after a new ledger's header), and nothing fails,
    the collector's ledger file verifies as valid and reads back as exactly
    those entries, in order; it landed before the completion was recorded; the
    completion carries the guest's exit code; and no other output changed. *)
Theorem build_end (EL : Ed25519Laws) seed lcfg l0 mb es (r : Relay Collector) code :
  NewLedger buffer_write (Ok seed) lcfg = Some (Ok l0) -> cWriter lcfg = [] ->
  cbor_marshal_header (header_meta lcfg) = Ok mb ->
  cbor_unmarshal_header mb = Ok (header_meta lcfg) -> len mb < 2 ^ 32 ->
  0 <= hashBlockSize l0 < 2 ^ 16 -> Forall (wf_entry (hashBlockSize l0)) es ->
  ledger r = write_all buffer_write l0 es -> flushed r = false ->
  (forall op p, fault op p = None) -> roomy (sink r) -> cc_token (client r) = Token (cfg (sink r)) ->
  (out (sink r) !! "ledger"%string = None \/ exists b, out (sink r) !! "ledger"%string = Some (File b)) ->
  len (writer (ledger r)) <= maxArtifact (sink r) -> completion (sink r) = None ->
  decode_complete (json_complete code "" "") = Some (code, ""%string, ""%string) ->
  let c1 := sink (finishAndFlush r) in
  let c2 := sink (complete json_complete r code) in
  exists b res, out c1 = <["ledger"%string := File b]> (out (sink r)) /\ completion c1 = None /\
    Verify b = Some (Ok res) /\ Valid res = true /\
    Forall2 (fun e rec => exists prev sig, rec = entry_record prev sig e) es (Records res) /\
    out c2 = out c1 /\ ExitCode <$> completion c2 = Some code.
Proof using Type.
  intros Hn Hcw Hmb Hum Hml Hh Hes Hl Hfl Hnf Hroom Htok Hold Hlen Hnone Hdec. cbv zeta.
  destruct (written_report seed lcfg l0 mb es Hn Hcw Hmb Hum Hml Hh Hes) as (Hv & Hok & Hrs).
  destruct (report_fields (read_header (header_meta lcfg) l0) (entry_records (key l0) (prevSigRaw l0) es))
    as (Hrec & _ & _ & _).
  set (lreq := newRequest (client r) "PUT" "/v1/ledger" (mkSource [writer (ledger r)] EOF true) "").
  assert (Hdata : rd_data (Body lreq) = writer (ledger r)) by (cbn; by rewrite app_nil_r).
  pose proof (handleLedger_lands (sink r) lreq Hnf Hroom eq_refl Hold) as HL1. rewrite Hdata in HL1.
  specialize (HL1 Hlen eq_refl).
  assert (Hauth : TrimPrefix (Authorization lreq) "Bearer " = Token (cfg (sink r))).
  { change (Authorization lreq) with (bearer (client r)). by rewrite bearer_token. }
  destruct (handleLedger fault (sink r) lreq) as [c1 resp] eqn:Hhl. destruct HL1 as (Hst & Hout & Hcomp & Hcfg).
  assert (Hflush : finishAndFlush r = set_flushed r (zero_key (ledger r)) c1).
  { unfold finishAndFlush, flushLedger, do, api_request, API, collector_api. rewrite Hfl.
    fold lreq. rewrite (Handler_ledger fault decode_complete (sink r) lreq eq_refl).
    rewrite (auth_ok (handleLedger fault) (sink r) lreq Hauth), Hhl. by case_bool_decide. }
  set (creq := newRequest (client r) "POST" "/v1/complete" (json_complete code "" "") "").
  assert (Hauth2 : TrimPrefix (Authorization creq) "Bearer " = Token (cfg c1)).
  { rewrite Hcfg. change (Authorization creq) with (bearer (client r)). by rewrite bearer_token. }
  assert (Hcompl : sink (complete json_complete r code) =
    (recordCompletion c1 (mkSignal code "" "" (Now creq)))).
  { unfold complete. rewrite Hflush. cbn [sink set_sink set_flushed client].
    unfold postComplete, signal, do, api_request, API, collector_api. fold creq.
    rewrite (Handler_complete fault decode_complete c1 creq eq_refl).
    rewrite (auth_ok (handleComplete decode_complete) c1 creq Hauth2). unfold handleComplete.
    change (Method creq) with "POST"%string. cbn [negb bool_decide decide_rel].
    change (Body creq) with (json_complete code "" ""). rewrite Hdec. by case_bool_decide. }
  exists (writer (ledger r)), (report (read_header (header_meta lcfg) l0) (entry_records (key l0) (prevSigRaw l0) es)).
  rewrite Hflush, Hcompl. cbn [sink set_flushed]. split_and!.
  - exact Hout.
  - by rewrite Hcomp.
  - by rewrite Hl.
  - done.
  - by rewrite Hrec.
  - unfold recordCompletion. by destruct (doneClosed c1).
  - unfold recordCompletion. rewrite Hcomp, Hnone. by destruct (doneClosed c1).
Qed.

(** ** The environment *)

Lemma handleEnvironment_lands c req c' resp :
  handleEnvironment fault c req = (c', resp) -> Status resp = 200 ->
  out c' !! EnvironmentFile = Some (File (rd_data (Body req))).
Proof.
  unfold handleEnvironment. intros Hh Hst.
  destruct (negb _); [by injection Hh as <- <-|].
  destruct (Create fault (out c) EnvironmentFile) as [f [e|]] eqn:Hc.
  { injection Hh as <- <-. unfold writeErr in Hst. by destruct (is_limit e). }
  apply Create_ok in Hc as ->.
  destruct (copy_to fault (set_out c _) EnvironmentFile (Body req) MaxEnvironmentBytes) as [[c1 k] err] eqn:Hcp.
  apply copy_to_spec in Hcp as (d & Ho & _ & _ & He); [|cbn; by rewrite lookup_insert_eq|done|done].
  destruct (close_err fault EnvironmentFile err) as [e|] eqn:Hce.
  { injection Hh as <- <-. unfold writeErr in Hst. by destruct (is_limit e). }
  injection Hh as <- <-. unfold close_err in Hce. destruct err; [done|].
  destruct (He eq_refl) as (-> & _). by rewrite Ho, lookup_insert_eq.
Qed.

Lemma putEnvironment_lands cl c payload c' :
  putEnvironment cl c payload = (c', None) -> out c' !! EnvironmentFile = Some (File payload).
Proof.
  unfold putEnvironment, do, api_request, API, collector_api.
  set (req := newRequest cl "PUT" "/v1/environment" _ _).
  rewrite (Handler_environment fault decode_complete c req eq_refl).
  unfold auth. destruct (_ && _); [done|].
  destruct (handleEnvironment fault c req) as [c1 resp] eqn:Hh.
  case_bool_decide as Hst; [|done]. intros [= <-]. apply list_elem_of_singleton in Hst.
  assert (Hd : payload = rd_data (Body req)) by (cbn; by rewrite app_nil_r).
  rewrite Hd. by apply (handleEnvironment_lands c req c1 resp).
Qed.

Context {JO : JsonOps}.

Lemma environmentLabel_spec env :
  match environmentLabel (Some env) with
  | Ok label => exists t, EnvironmentType (ePayload env) = Ok t /\ label = Some [("type"%string, AText t)] /\
      0 < len (ePayload env) <= MaxEnvironmentBytes /\ (ClaimEnvironment.eType env = ""%string \/ ClaimEnvironment.eType env = t)
  | Err _ => ePayload env = [] \/ len (ePayload env) > MaxEnvironmentBytes \/
      match EnvironmentType (ePayload env) with
      | Ok t => ClaimEnvironment.eType env <> ""%string /\ ClaimEnvironment.eType env <> t
      | Err _ => True
      end
  end.
Proof.
  unfold environmentLabel. pose proof (len_nonneg (ePayload env)).
  destruct (Z.eqb_spec (len (ePayload env)) 0) as [H0|H0].
  { left. unfold len in H0. destruct (ePayload env); [done|cbn in H0; lia]. }
  rewrite Z.gtb_ltb. destruct (Z.ltb_spec MaxEnvironmentBytes (len (ePayload env))); [right; left; lia|].
  destruct (EnvironmentType (ePayload env)) as [t|e]; [|auto].
  repeat case_bool_decide; cbn [negb andb]; first [exists t; split_and!; by auto || lia | by auto].
Qed.

(** The two records of the environment. *)
Definition environment_entries (r : Relay Collector) (env : EnvConfig) : list entryInput :=
  let o := open_entry schemaEnv (marshal [("type"%string, AText "environment")]) in
  [o; mkEntry Reader.RecordClose (next_sig (ledger r) o) (to_int64 (- len (ePayload env)))
        (hash_block r (ePayload env)) schemaEnv (eMeta env)].

Lemma recordEnvironment_spec (r : Relay Collector) env r' :
  recordEnvironment r (Some env) = Some (Ok r') ->
  wrote r (environment_entries r env) r' /\ out (sink r') !! EnvironmentFile = Some (File (ePayload env)).
Proof.
  unfold recordEnvironment. destruct (cbor_unmarshal_map (eMeta env)); [|done].
  destruct (putEnvironment _ _ _) as [c1 [e|]] eqn:Hput; [done|]. intros H.
  apply bind_Some in H as ([r1 sig] & Ho & H). apply bind_Some in H as (r2 & Hc & [= <-]).
  apply ledger_write_spec in Ho as (Hw1 & Hsig & Hs1 & _).
  apply wrote_sink in Hw1. rewrite (wrote_block r _ r1 _ Hw1) in Hc.
  apply write_record_spec in Hc as (Hw2 & Hs2 & _). rewrite Hsig in Hw2. split.
  - exact (wrote_trans _ _ _ [_] [_] Hw1 Hw2).
  - rewrite Hs2, Hs1. by apply (putEnvironment_lands (client r) (sink r)).
Qed.

(** A relay starts with its environment witnessed or not at all: when
    [Start] succeeds with an environment, the payload is non-empty, within the
    limit, names its own type, and that is the type the ledger's header carries
    and the configuration declared, if it declared one; the collector holds the
    payload as environment.json; and the ledger's first records are the open
    and close of the environment with the payload's hash block and size.
    Without one, the header carries no environment and nothing is recorded. *)
Theorem environment_witnessed cl c rand env bodies cert crl r :
  start_ledger cl c rand env bodies cert crl = Some (Ok r) ->
  match env with
  | None => entries r = [] /\ sink r = c /\
      NewLedger buffer_write rand (mkLedgerConfig [] None None None) = Some (Ok (ledger r))
  | Some env => exists t l,
      EnvironmentType (ePayload env) = Ok t /\ (ClaimEnvironment.eType env = ""%string \/ ClaimEnvironment.eType env = t) /\
      0 < len (ePayload env) <= MaxEnvironmentBytes /\
      NewLedger buffer_write rand (mkLedgerConfig [] (Some [("type"%string, AText t)]) None None) = Some (Ok l) /\
      out (sink r) !! EnvironmentFile = Some (File (ePayload env)) /\
      let r0 := mkRelay c cl l [] 0 bodies ∅ 0 0 false cert crl in
      wrote r0 (environment_entries r0 env) r
  end.
Proof.
  unfold start_ledger. intros H. destruct env as [env|].
  - pose proof (environmentLabel_spec env) as Hl.
    destruct (environmentLabel (Some env)) as [label|e]; [|done].
    destruct Hl as (t & Ht & -> & Hlen & Htype).
    apply bind_Some in H as ([l|e] & Hn & H); [|done].
    apply bind_Some in H as ([r1|e] & Hr & H); [|done]. injection H as <-.
    apply recordEnvironment_spec in Hr as [Hw Hout]. exists t, l. cbv zeta. split_and!; try done; try lia.
  - cbn in H. apply bind_Some in H as ([l|e] & Hn & H); [|done]. injection H as <-. done.
Qed.
End Build.
End EndToEnd.

(** ** Witnesses *)
Module EndToEndExamples.
Import Toy Reader Format LedgerSpec Environment Streams StreamSpec Paths Collector CollectorSpec CollectorExamples
  Client Relay Writer WriterSpec RelaySpec EndToEnd.

#[local] Instance json : JsonOps := {
  json_object b := if decide (b = []) then Err (Msg "EOF") else Ok {["type"%string := JString "oci-image"]};
  json_decode_chain _ := Err (Msg "unused");
  json_marshal_chain _ := Err (Msg "unused") }.

#[local] Existing Instance collector_api.
#[local] Instance api : CollectorAPI Collector := collector_api no_fault no_json.

Definition ex_client : collectorClient := mkClient "secret".
Definition ex_env : EnvConfig := mkEnv "oci-image" [Byte.x7b; Byte.x7d] (marshal []).

Definition ex_start : option (result (Relay Collector)) :=
  start_ledger ex_client ex_collector (Ok [Byte.x07]) (Some ex_env) false [] [].

Definition ex_lcfg : LedgerConfig bytes :=
  mkLedgerConfig [] (Some [("type"%string, AText "oci-image")]) None None.
Definition ex_l0 : Ledger bytes :=
  match NewLedger buffer_write (Ok [Byte.x07]) ex_lcfg with
  | Some (Ok l) => l
  | _ => mkLedger [] [] [] 0 [] 0 0 []
  end.
Definition ex_fresh : Relay Collector := mkRelay ex_collector ex_client ex_l0 [] 0 false ∅ 0 0 false [] [].
Definition ex_relay : Relay Collector :=
  match ex_start with Some (Ok r) => r | _ => ex_fresh end.

Definition ex_get : Req :=
  mkReq "GET" "example.com:443" "/" "https://example.com/" "HTTP/1.1" "" [] (Ok [Byte.x47]) empty_body 0.
Definition ex_post : Req :=
  mkReq "POST" "artifacts" "/bin/app" "/bin/app" "HTTP/1.1" "" [] (Ok [Byte.x50])
    (mkSource [[Byte.x01]; [Byte.x02]] EOF true) 2.

Definition ex_complete_json (code : Z) (msg err : string) : source := empty_body.

Lemma exchange_recorded_witness :
  exists r1 sig body, onRequest ex_complete_json 5 0 ex_fresh 1 ex_get = Some (r1, Upstream sig body) /\
    wrote ex_fresh (request_entries ex_fresh ex_get) r1.
Proof.
  pose proof (exchange_recorded ex_complete_json 5 0 ex_fresh 1 ex_get) as H.
  destruct (onRequest ex_complete_json 5 0 ex_fresh 1 ex_get) as [[r1 [resp|sig body]]|] eqn:E.
  - exfalso. assert (Hn : match onRequest ex_complete_json 5 0 ex_fresh 1 ex_get with
      | Some (_, Upstream _ _) => True | _ => False end) by (vm_compute; exact I). by rewrite E in Hn.
  - exists r1, sig, body. split; [done|]. apply (H r1 sig body eq_refl).
  - exfalso. assert (Hn : match onRequest ex_complete_json 5 0 ex_fresh 1 ex_get with
      | Some (_, Upstream _ _) => True | _ => False end) by (vm_compute; exact I). by rewrite E in Hn.
Defined.

Definition ex_logged : Relay (list Collector.Request) :=
  mkRelay [] ex_client ex_l0 [] 0 false ∅ 0 0 false [] [].

Lemma flushed_before_completion_witness :
  Collector.Path <$> sink (foldl (finish_with ex_complete_json) ex_logged [Complete 3; Stop; Complete 0]) =
    ["/v1/ledger"; "/v1/complete"; "/v1/complete"]%string.
Proof.
  rewrite (proj1 (flushed_before_completion ex_complete_json ex_logged (Complete 3) [Stop; Complete 0] eq_refl)).
  reflexivity.
Defined.


Lemma ex_l0_new : NewLedger buffer_write (Ok [Byte.x07]) ex_lcfg = Some (Ok ex_l0).
Proof. vm_compute. reflexivity. Qed.

Definition ex_lmeta : bytes :=
  match cbor_marshal_header (header_meta ex_lcfg) with Ok b => b | Err _ => [] end.

(** The relay that has written the environment's records. *)
Definition ex_records : list entryInput := environment_entries ex_fresh ex_env.
Definition ex_done : Relay Collector :=
  mkRelay ex_collector ex_client (write_all buffer_write ex_l0 ex_records) ex_records 0 false ∅ 0 0 false [] [].

Lemma ex_size : hashBlockSize ex_l0 = 100.
Proof. vm_compute. reflexivity. Qed.

Lemma ex_build_wf : Forall (wf_entry (hashBlockSize ex_l0)) ex_records.
Proof.
  rewrite ex_size. unfold ex_records, environment_entries, open_entry.
  repeat constructor; cbn; try (vm_compute; congruence);
    try (left; reflexivity); right; vm_compute; reflexivity.
Qed.

Definition ex_decode (s : source) : option (Z * string * string) := Some (7, ""%string, ""%string).

Lemma build_end_witness :
  exists b res,
    out (sink (complete (API := @API no_fault ex_decode) ex_complete_json ex_done 7)) !! "ledger"%string = Some (File b) /\
    Verify b = Some (Ok res) /\ Valid res = true /\ length (Records res) = 2%nat.
Proof.
  destruct (build_end no_fault ex_decode ex_complete_json _ [Byte.x07] ex_lcfg ex_l0 ex_lmeta ex_records ex_done 7)
    as (b & res & Hout & _ & Hv & Hok & Hrs & Hsame & _).
  - exact ex_l0_new.
  - reflexivity.
  - vm_compute. reflexivity.
  - vm_compute. reflexivity.
  - vm_compute. reflexivity.
  - rewrite ex_size. lia.
  - exact ex_build_wf.
  - reflexivity.
  - reflexivity.
  - reflexivity.
  - split; vm_compute; [discriminate|reflexivity].
  - reflexivity.
  - left. reflexivity.
  - vm_compute. discriminate.
  - reflexivity.
  - reflexivity.
  - exists b, res. rewrite Hsame, Hout, lookup_insert_eq.
    split; [reflexivity|]. split; [exact Hv|]. split; [exact Hok|].
    apply Forall2_length in Hrs. rewrite <- Hrs. reflexivity.
Defined.

Lemma environment_witnessed_witness :
  EnvironmentType (ePayload ex_env) = Ok "oci-image"%string /\
  out (sink ex_relay) !! EnvironmentFile = Some (File [Byte.x7b; Byte.x7d]).
Proof.
  destruct (environment_witnessed no_fault no_json ex_client ex_collector (Ok [Byte.x07]) (Some ex_env)
    false [] [] ex_relay) as (t & l & Ht & [Hty|Hty] & _ & _ & Hout & _).
  - vm_compute. reflexivity.
  - discriminate Hty.
  - split; [|exact Hout]. rewrite Ht. by rewrite <- Hty.
Defined.
End EndToEndExamples.
