(* ===== verification/Dns.v ===== *)
(** * The relay's DNS (src/relay/dns.go), and what it finds out about its host

    The guest's resolver: the relay's own names are answered with its address,
    the rest by the host's resolver, or forwarded where there is a network path.
    The DNS library is a parameter. *)
From S2P Require Import Prelude Text Netip Proxy Relay.

#[local] Open Scope Z_scope.

Module Dns.
Import Netip Proxy.

Definition TypeA : Z := 1.
Definition TypeCNAME : Z := 5.
Definition TypeAAAA : Z := 28.
Definition RcodeServerFailure : Z := 2.

Record Question := mkQuestion { qName : string; qType : Z }.
Inductive RR := A (name : string) (ttl : Z) (ip : bytes) | AAAA (name : string) (ttl : Z) (ip : bytes)
  | CNAME (name : string) (ttl : Z) (target : string).
Record Msg := mkMsg { Id : Z; Questions : list Question; Answer : list RR; Rcode : Z }.

(** The library: [SetReply] starts the reply to a request, [Exchange] asks a
    server; the host's resolver; [Fqdn] ends a name in a dot. *)
Class DnsOps := {
  SetReply : Msg -> Msg;
  Exchange : Msg -> string -> result Msg;
  LookupIPAddr : string -> result (list bytes);
  LookupCNAME : string -> result string;
  Fqdn : string -> string }.
Class DnsLaws `{DnsOps} := {
  SetReply_id m : Id (SetReply m) = Id m;
  SetReply_questions m : Questions (SetReply m) = take 1 (Questions m);
  SetReply_answer m : Answer (SetReply m) = [];
  SetReply_rcode m : Rcode (SetReply m) = 0 }.


Definition reservedHosts : list string := ["artifacts"; "cwd"]%string.

(** Whom the handler asks. *)
Inductive contact := Resolver (name : string) | Server (addr : string) (m : Msg).

Section Handler.
Context {DO : DnsOps}.

Definition set_answer (m : Msg) (rrs : list RR) : Msg := mkMsg (Id m) (Questions m) rrs (Rcode m).
Definition set_rcode (m : Msg) (c : Z) : Msg := mkMsg (Id m) (Questions m) (Answer m) c.
Definition set_id (m : Msg) (i : Z) : Msg := mkMsg i (Questions m) (Answer m) (Rcode m).

(** The records of the question's family among the addresses found. *)
Definition addr_records (q : Question) (ips : list bytes) : list RR :=
  flat_map (fun ip =>
    match To4 ip with
    | Some v4 => if qType q =? TypeA then [A (qName q) 60 v4] else []
    | None => if qType q =? TypeAAAA then [AAAA (qName q) 60 ip] else []
    end) ips.

(** [resolveViaSystem]; what it asked, and [None] for no answer of its own. *)
Definition resolveViaSystem (req : Msg) : list contact * option Msg :=
  match Questions req with
  | [] => ([], None)
  | q :: _ =>
      let name := TrimSuffix (qName q) "." in
      let resp := SetReply req in
      if (qType q =? TypeA) || (qType q =? TypeAAAA) then
        ([Resolver name],
         match LookupIPAddr name with
         | Err _ => None
         | Ok ips => Some (set_answer resp (Answer resp ++ addr_records q ips))
         end)
      else if qType q =? TypeCNAME then
        ([Resolver name],
         match LookupCNAME name with
         | Err _ => None
         | Ok cname => Some (set_answer resp (Answer resp ++ [CNAME (qName q) 60 (Fqdn cname)]))
         end)
      else ([], None)
  end.

(** The loop over the reply's questions: the answer for the relay's own names. *)
Fixpoint own_names (selfIP : bytes) (m : Msg) (qs : list Question) : option Msg :=
  match qs with
  | [] => None
  | q :: qs =>
      if bool_decide (TrimSuffix (qName q) "." ∈ reservedHosts)
      then Some (if qType q =? TypeA then set_answer m (Answer m ++ [A (qName q) 0 selfIP]) else m)
      else own_names selfIP m qs
  end.

(** The handler [newDNSHandler] returns: whom it asks and the reply it writes,
    [None] for a run-time panic.  [packetConn] is an injected [DNSPacketConn]
    (host mode). *)
Definition handleDNS (packetConn : bool) (selfIP : bytes) (upstreamDNS : string) (req : Msg) :
    list contact * option Msg :=
  let m := SetReply req in
  match own_names selfIP m (Questions m) with
  | Some reply => ([], Some reply)
  | None =>
      match resolveViaSystem req with
      | (asked, Some resp) => (asked, Some (set_id resp (Id req)))
      | (asked, None) =>
          if packetConn then (asked, Some (set_rcode m RcodeServerFailure))
          else
            (asked ++ [Server upstreamDNS req],
             match Exchange req upstreamDNS with
             | Ok resp => Some (set_id resp (Id req))
             | Err _ =>
                 (* the log line names [req.Question[0]] *)
                 match Questions req with
                 | [] => None
                 | _ :: _ => Some (set_rcode m RcodeServerFailure)
                 end
             end)
      end
  end.
End Handler.

(** ** What the relay finds out (relay.go) *)

(** [detectSelfIP]: the interfaces' networks' addresses; other kinds of
    address are left out. *)
Definition detectSelfIP (addrs : result (list bytes)) : result bytes :=
  match addrs with
  | Err e => Err (Wrap "cannot enumerate interfaces" e)
  | Ok l =>
      match List.find (fun ip => match To4 ip with Some v4 => negb (ip_IsLoopback v4) | None => false end) l with
      | Some ip => Ok (default [] (To4 ip))
      | None => Err (Prelude.Msg "no non-loopback IPv4 address found")
      end
  end.

(** [detectUpstreamDNS] with the environment's [UPSTREAM_DNS] and the resolver
    configuration. *)
Definition detectUpstreamDNS (env : string) (resolv : result string) (selfIP : bytes) (link : option Prefix) : string :=
  if negb (bool_decide (env = ""%string)) then (if no_byte ":" env then (env ++ ":53")%string else env)
  else match resolv with
       | Err _ => "8.8.8.8:53"
       | Ok data => pickNameserver data (ip_String selfIP) link
       end.

(** [setCaptureMode]: whether headers and bodies are captured. *)
Definition setCaptureMode (mode : string) : bool * bool :=
  if decide (mode = "headers") then (true, false)
  else if decide (mode = "bodies") then (false, true)
  else if decide (mode = "all") then (true, true)
  else (false, false)%string.

(** ** Properties *)
Section Spec.
Context {DO : DnsOps} {DL : DnsLaws}.

Lemma own_names_one selfIP m q :
  own_names selfIP m [q] =
  if bool_decide (TrimSuffix (qName q) "." ∈ reservedHosts)
  then Some (if qType q =? TypeA then set_answer m (Answer m ++ [A (qName q) 0 selfIP]) else m) else None.
Proof. reflexivity. Qed.

Lemma To4_mapped_len ip v4 : To4 ip = Some v4 -> length v4 = 4%nat.
Proof. apply To4_length. Qed.

Lemma addr_records_family q ips rr :
  rr ∈ addr_records q ips ->
  (exists ip v4, rr = A (qName q) 60 v4 /\ qType q = TypeA /\ ip ∈ ips /\ To4 ip = Some v4) \/
  (exists ip, rr = AAAA (qName q) 60 ip /\ qType q = TypeAAAA /\ ip ∈ ips /\ To4 ip = None).
Proof.
  unfold addr_records. rewrite list_elem_of_In, in_flat_map. intros (ip & Hip%list_elem_of_In & Hrr).
  destruct (To4 ip) as [v4|] eqn:E.
  - destruct (Z.eqb_spec (qType q) TypeA); [|done]. destruct Hrr as [<-|[] ]. left. by exists ip, v4.
  - destruct (Z.eqb_spec (qType q) TypeAAAA); [|done]. destruct Hrr as [<-|[] ]. right. by exists ip.
Qed.

Lemma resolve_spec req q qs :
  Questions req = q :: qs ->
  (forall addr m, Server addr m ∉ (resolveViaSystem req).1) /\
  (forall resp, (resolveViaSystem req).2 = Some resp -> Id resp = Id req /\ Rcode resp = 0 /\ Questions resp = [q] /\
     forall rr, rr ∈ Answer resp -> match rr with
       | A n ttl ip => n = qName q /\ ttl = 60 /\ qType q = TypeA /\ length ip = 4%nat
       | AAAA n ttl ip => n = qName q /\ ttl = 60 /\ qType q = TypeAAAA /\ To4 ip = None
       | CNAME n ttl _ => n = qName q /\ ttl = 60 /\ qType q = TypeCNAME
       end).
Proof using DL.
  intros Hq. unfold resolveViaSystem. rewrite Hq.
  assert (Hqs : Questions (SetReply req) = [q]) by by rewrite SetReply_questions, Hq.
  destruct ((qType q =? TypeA) || (qType q =? TypeAAAA)); [|destruct (qType q =? TypeCNAME) eqn:Ec]; cbn [fst snd].
  - split; [by intros addr m ?%list_elem_of_singleton|]. intros resp. destruct (LookupIPAddr _) as [ips|]; [|done].
    intros [= <-]. cbn. rewrite SetReply_id, SetReply_rcode, SetReply_answer. split_and!; [done..|].
    intros rr [(ip & v4 & -> & Ht & _ & Hv)|(ip & -> & Ht & _ & Hv)]%addr_records_family; split_and!; try done.
    by eapply To4_length.
  - split; [by intros addr m ?%list_elem_of_singleton|]. intros resp. destruct (LookupCNAME _) as [cname|]; [|done].
    intros [= <-]. cbn. rewrite SetReply_id, SetReply_rcode, SetReply_answer. split_and!; [done..|].
    intros rr ->%list_elem_of_singleton. split_and!; [done|done|by apply Z.eqb_eq].
  - split; [|done]. intros addr m H. by apply elem_of_nil in H.
Qed.

(** A DNS query with a question is always answered, under its own id.  The
    relay's own names are answered from its address alone: nobody is asked about
    them, only an A query gets a record, which is not cached.  Other names go to
    the host's resolver; a query is forwarded to the upstream server only when
    that gives nothing and the relay has a network path, so never in host mode;
    and the addresses answered are of the family asked for. *)
Theorem dns_reply_exact packetConn selfIP upstreamDNS req q qs :
  Questions req = q :: qs ->
  let '(asked, out) := handleDNS packetConn selfIP upstreamDNS req in
  exists reply, out = Some reply /\ Id reply = Id req /\
  (TrimSuffix (qName q) "." ∈ reservedHosts ->
     asked = [] /\ Answer reply = (if qType q =? TypeA then [A (qName q) 0 selfIP] else []) /\ Rcode reply = 0) /\
  (TrimSuffix (qName q) "." ∉ reservedHosts ->
     (packetConn = true -> forall addr m, Server addr m ∉ asked) /\
     (forall addr m, Server addr m ∈ asked -> addr = upstreamDNS /\ m = req /\ (resolveViaSystem req).2 = None) /\
     (forall resp, (resolveViaSystem req).2 = Some resp -> reply = resp /\
        forall rr, rr ∈ Answer reply -> match rr with
          | A n ttl ip => n = qName q /\ ttl = 60 /\ qType q = TypeA /\ length ip = 4%nat
          | AAAA n ttl ip => n = qName q /\ ttl = 60 /\ qType q = TypeAAAA /\ To4 ip = None
          | CNAME n ttl _ => n = qName q /\ ttl = 60 /\ qType q = TypeCNAME
          end)).
Proof using DL.
  intros Hq. unfold handleDNS.
  assert (Hqs : Questions (SetReply req) = [q]) by by rewrite SetReply_questions, Hq.
  rewrite Hqs, own_names_one. case_bool_decide as Hres.
  - eexists. split; [done|]. split; [destruct (_ =? _); apply SetReply_id|]. split; [|done]. intros _.
    destruct (qType q =? TypeA); cbn; by rewrite SetReply_answer, SetReply_rcode.
  - destruct (resolve_spec req q qs Hq) as [Hask Hrs].
    destruct (resolveViaSystem req) as [asked [resp|] ]; cbn [fst snd] in *.
    + destruct (Hrs resp eq_refl) as (Hid & Hrc & Hqr & Hans). exists (set_id resp (Id req)). split_and!; [done|done|done|].
      intros _. split_and!; [by intros _|by intros addr m ?%Hask|].
      intros resp' [= <-]. split; [rewrite <- Hid; by destruct resp|done].
    + destruct packetConn.
      { exists (set_rcode (SetReply req) RcodeServerFailure). split_and!; [done|apply SetReply_id|done|].
        intros _. split_and!; [by intros _|by intros addr m ?%Hask|done]. }
      rewrite Hq. assert (Hs : forall addr m, Server addr m ∈ asked ++ [Server upstreamDNS req] -> addr = upstreamDNS /\ m = req).
      { intros addr m [?%Hask|H%list_elem_of_singleton]%elem_of_app; [done|by injection H as -> ->]. }
      destruct (Exchange req upstreamDNS) as [resp|e].
      * exists (set_id resp (Id req)). split_and!; [done..|]. intros _. split_and!; [done| |done].
        intros addr m [-> ->]%Hs. by split_and!.
      * exists (set_rcode (SetReply req) RcodeServerFailure). split_and!; [done|apply SetReply_id|done|]. intros _.
        split_and!; [done| |done]. intros addr m [-> ->]%Hs. by split_and!.
Qed.
End Spec.

(** ** Examples *)
Definition ex_reply (m : Msg) : Msg := mkMsg (Id m) (take 1 (Questions m)) [] 0.
#[local] Instance ex_dns : DnsOps :=
  Build_DnsOps ex_reply (fun _ _ => Err (Prelude.Msg "timeout"))
    (fun n => if String.eqb n "example.com" then Ok [[Byte.x5d; Byte.xb8; Byte.xd8; Byte.x22]] else Err (Prelude.Msg "no such host"))
    (fun n => Ok n) (fun n => (n ++ ".")%string).
#[local] Instance ex_laws : DnsLaws.
Proof. by split. Qed.

Definition ex_query (name : string) : Msg := mkMsg 7 [mkQuestion name TypeA] [] 0.

(** The guest finds its build script's host at the relay, which asks nobody. *)
Example dns_reply_exact_witness :
  (handleDNS true [Byte.x0a] "8.8.8.8:53" (ex_query "artifacts.")).1 = [] /\
  exists reply, (handleDNS true [Byte.x0a] "8.8.8.8:53" (ex_query "artifacts.")).2 = Some reply /\
    Answer reply = [A "artifacts." 0 [Byte.x0a] ].
Proof.
  pose proof (dns_reply_exact true [Byte.x0a] "8.8.8.8:53" (ex_query "artifacts.") _ [] eq_refl) as H.
  destruct (handleDNS true [Byte.x0a] "8.8.8.8:53" (ex_query "artifacts.")) as [asked out].
  destruct H as (reply & -> & _ & H & _). destruct H as (-> & Ha & _); [vm_compute; by left|].
  split; [done|]. by exists reply.
Defined.

(** Without a question and without an upstream answer the handler panics; the
    DNS server refuses such a query before it gets here. *)
Example dns_no_question : (handleDNS false [] "8.8.8.8:53" (mkMsg 7 [] [] 0)).2 = None.
Proof. reflexivity. Qed.
End Dns.
