(* ===== verification/Serve.v ===== *)
(** * Serving the build's connections (src/relay/proxy.go)

    A connection carries requests one after the other: each is answered by the
    guest API or sent upstream and recorded, and the connection is kept or
    closed.  The leaf certificates a TLS connection is answered with are made
    by [signHost].  The connection's bytes, the upstream transport and X.509
    are parameters. *)
From S2P Require Import Prelude Text Crypto Ledger Writer Environment Paths Streams Netip Proxy Collector Relay.

#[local] Open Scope Z_scope.

(** ** What the connection loop is given *)

(** A request as [http.ReadRequest] returns it: its URL's host and scheme are
    empty in origin form, [pURL] is the text of its URL with a scheme and a
    host filled in; [pTakes] the buffers the guest takes of the response before
    it goes away. *)
Record Parsed := mkParsed {
  pHost : string; pScheme : string; pURL : string -> string -> string;
  pReq : Relay.Req; pKeep : Proxy.Req; pTakes : list Z }.

(** A connection: its next request, and what it holds once of that request's
    body [b] is left.  [conn_size] bounds what a guest can still send. *)
Class Conn (C : Type) := {
  read_request : C -> option Parsed;
  rest : C -> Streams.source -> C;
  conn_size : C -> nat;
  rest_size c p b : read_request c = Some p -> (conn_size (rest c b) < conn_size c)%nat }.

(** A request handed to the transport. *)
Record UpReq := mkUpReq { upScheme : string; upHost : string; upReq : Relay.Req; upBody : option Streams.source }.

(** The transport: the buffers it reads the request's body with before closing
    it, whether it closes it only after the response arrived, and the response. *)
Class Transport (T : Type) := round_trip : T -> UpReq -> T * list Z * bool * result Relay.UpResp.

Module Serve.
Import Writer Streams Paths Client Relay.

(** [Header.Get] *)
Definition header_get (h : Headers) (key : string) : string :=
  match List.find (fun kv => String.eqb kv.1 (CanonicalHeaderKey key)) h with
  | Some (_, v :: _) => v
  | _ => ""
  end.

(** *** Leaf certificates *)
Record Template := mkTemplate {
  CommonName : string; DNSNames : list string; IPAddresses : list bytes; CRLDistributionPoints : list string }.

Definition caCRLPath : string := "/ca.crl".
Definition caCRLURL : string := "http://artifacts" ++ caCRLPath.

Section Sign.
(** [create rnd] makes a new key, with the serial number and key from [rnd], and
    is [x509.CreateCertificate] for it under the relay's CA; [parse_ip] is
    [net.ParseIP]. *)
Context {Rand Cert : Type} (create : Rand -> Template -> result Cert) (parse_ip : string -> option bytes).

Definition leaf_template (hostname : string) : Template :=
  match parse_ip hostname with
  | Some ip => mkTemplate hostname [] [ip] [caCRLURL]
  | None => mkTemplate hostname [hostname] [] [caCRLURL]
  end.

(** [signHost] *)
Definition signHost (rnd : Rand) (cache : gmap string Cert) (hostname : string) : gmap string Cert * result Cert :=
  match cache !! hostname with
  | Some cert => (cache, Ok cert)
  | None =>
      match create rnd (leaf_template hostname) with
      | Err e => (cache, Err e)
      | Ok cert => (<[hostname := cert]> cache, Ok cert)
      end
  end.
End Sign.

(** *** The connection loop *)

(** What a connection's service leaves in a trace: [recorded] is the ledger's
    entries when the upstream was contacted, [sent] and [got] what the upstream
    and the guest took of the bodies. *)
Inductive event :=
  | EvAnswered (req : Req) (resp : Resp)
  | EvProxied (up : UpReq) (late : bool) (recorded : list entryInput) (res : UpResp) (sent got : bytes).

Section Serve.
Context {HO : HashOps} {EO : Ed25519Ops} {CO : CborOps} {JO : Environment.JsonOps}.
Context {S : Type} {API : CollectorAPI S} {T : Type} {TR : Transport T} {C : Type} {CN : Conn C}.
Context (json_complete : Z -> string -> string -> source).
(** [n] is how far an artifact's upload gets, [clock id] the time request [id]
    came, [dump_502] the dump of the relay's own error response. *)
Context (n : nat) (clock : nat -> Z) (dump_502 : result bytes).

Abbreviation Relay := (Relay S).

Definition set_url (req : Req) (url : string) : Req :=
  mkReq (rMethod req) (rHost req) (rPath req) url (rProto req) (rQueryCode req) (rHeader req) (rDump req)
    (rBody req) (rContentLength req).

Definition or_else (s d : string) : string := if decide (s = ""%string) then d else s.

(** The URL's missing scheme and host: the [Host] header's on a plain
    connection, the handshake's server name on a TLS one. *)
Definition fill (tls : option string) (p : Parsed) : string * string * Req :=
  let '(h, s) := match tls with Some sni => (sni, "https") | None => (rHost (pReq p), "http") end%string in
  let host := or_else (pHost p) h in
  let scheme := or_else (pScheme p) s in
  (scheme, host, set_url (pReq p) (pURL p scheme host)).

(** A body read with [ns] and then closed, its entry written to the ledger;
    what the reads returned. *)
Definition record_body (entry_of : bytes -> Z -> entryInput) (src : source) (ns : list Z) (r : Relay) :
    option (Relay * bytes) :=
  hs ← NewStreamingHasher (hashes (ledger r));
  let '(lb, got) := lb_reads entry_of (mkLedgerBody src hs false []) ns in
  lb ← lb_Close entry_of (Datatypes.S (rd_steps src)) lb;
  r ← foldl (fun r e => r ← r; finish_body r e) (Some r) (lb_written lb);
  Some (r, got).

Definition record_request (sig : bytes) (body : option source) (ns : list Z) (r : Relay) : option (Relay * bytes) :=
  match body with
  | Some src => record_body (request_entry sig (marshal [])) src ns r
  | None => Some (r, [])
  end.

Definition badGateway : UpResp :=
  mkUpResp 502 [("Content-Type", ["text/plain"])]%string dump_502
    (mkSource [bytes_of (line "upstream unreachable")] EOF false).

Definition or_bad_gateway (res : result UpResp) : UpResp := match res with Ok x => x | Err _ => badGateway end.

(** [roundTrip], and [resp.Write] with [resp.Body.Close] after it; [takes] are
    the reads of the response's body. *)
Definition roundTrip (r : Relay) (t : T) (id : nat) (scheme host : string) (req : Req) (takes : list Z) :
    option (Relay * T * event * string) :=
  '(r, d) ← onRequest json_complete n (clock id) r id req;
  match d with
  | Answered resp => Some (r, t, EvAnswered req resp, ""%string)
  | Upstream sig body =>
      let up := mkUpReq scheme host req body in
      let recorded := entries r in
      let '(t, ns, late, res) := round_trip t up in
      let res := or_bad_gateway res in
      '(r, sent) ← if late then Some (r, []) else record_request sig body ns r;
      '(r, rec) ← onResponse r id res;
      '(r, got) ← match rec with
                  | WithBody sig st => record_body (response_entry sig (body_meta st)) (uBody res) takes r
                  | _ => Some (r, [])
                  end;
      '(r, sent) ← if late then record_request sig body ns r else Some (r, sent);
      Some (r, t, EvProxied up late recorded res sent got, header_get (uHeader res) "Connection")
  end.

(** What the handler of an answered request leaves of its body: only an
    artifact's upload reads it, and closes it after, which reads it to its end. *)
Definition unread (req : Req) : source :=
  let artifactName := or_else (TrimPrefix (rPath req) "/") "unnamed" in
  if bool_decide (host_of req = "artifacts"%string) && bool_decide (rMethod req = "POST"%string) &&
     bool_decide (rPath req ∉ ["/heartbeat"; "/exit"; "/ca.pem"; "/ca.crl"; "/build-script"; "/bootstrap"]%string) &&
     IsSafeArtifactPath artifactName
  then mkSource [] EOF false
  else rBody req.

(** A body the transport closed was read to its end. *)
Definition left_of (req : Req) (ev : event) : source :=
  match ev with
  | EvProxied _ _ _ _ _ _ => if rContentLength req =? 0 then rBody req else mkSource [] EOF false
  | EvAnswered _ _ => unread req
  end.

(** [ServeHTTPConn], and [ServeTLSConn] after its handshake with the server
    name [tls]; request [id] is the next. *)
Fixpoint serve (fuel : nat) (tls : option string) (c : C) (r : Relay) (t : T) (id : nat) :
    option (Relay * T * list event) :=
  match fuel with
  | O => None
  | Datatypes.S fuel =>
      match read_request c with
      | None => Some (r, t, [])
      | Some p =>
          let '(scheme, host, req) := fill tls p in
          '(r', t, ev, connection) ← roundTrip r t id scheme host req (pTakes p);
          if Proxy.shouldKeepAlive (pKeep p) connection
          then
            '(r', t, evs) ← serve fuel tls (rest c (left_of req ev)) r' t (Datatypes.S id);
            Some (r', t, ev :: evs)
          else Some (r', t, [ev])
      end
  end.

(** [ServeTLSConn]: the leaf for the name the guest asks for; [accepts] is
    whether the handshake succeeds with it. *)
Definition ServeTLSConn {Rand Cert} (create : Rand -> Template -> result Cert) (parse_ip : string -> option bytes)
    (accepts : Cert -> bool) (rnd : Rand) (fuel : nat) (cache : gmap string Cert) (sni : string) (c : C) (r : Relay) (t : T)
    (id : nat) : option (gmap string Cert * Relay * T * list event) :=
  match signHost create parse_ip rnd cache sni with
  | (cache, Err _) => Some (cache, r, t, [])
  | (cache, Ok cert) =>
      if accepts cert then '(r, t, evs) ← serve fuel (Some sni) c r t id; Some (cache, r, t, evs)
      else Some (cache, r, t, [])
  end.

Definition ServeHTTPConn (fuel : nat) (c : C) (r : Relay) (t : T) (id : nat) : option (Relay * T * list event) :=
  serve fuel None c r t id.
End Serve.
End Serve.
