(* ===== verification/ServeSpec.v ===== *)
(** * What a connection leaves in the ledger

    Every request a guest sends is answered by the guest API or recorded before
    the upstream hears of it, and its whole response is recorded whatever the
    guest reads; and the leaf certificates TLS connections are served with. *)
From S2P Require Import Prelude Text Crypto Ledger LedgerVerify Writer Environment.
From S2P Require Import Paths Streams Netip Proxy Collector CollectorSpec Relay RelaySpec EndToEnd Serve.

#[local] Open Scope Z_scope.

Module ServeSpec.
Import Streams StreamSpec Paths Client Relay Writer WriterSpec RelaySpec Serve.

#[local] Arguments loop_body : simpl never.
#[local] Arguments write_all : simpl never.

(** ** Leaf certificates *)
Section Sign.
Context {Rand Cert : Type} (create : Rand -> Template -> result Cert) (parse_ip : string -> option bytes).

(** A leaf made for a name. *)
Definition leaf_of (h : string) (cert : Cert) : Prop := exists rnd, create rnd (leaf_template parse_ip h) = Ok cert.
Definition cache_ok (cache : gmap string Cert) : Prop := map_Forall leaf_of cache.

(** The names asked for, one after the other. *)
Fixpoint sign_all (cache : gmap string Cert) (asks : list (Rand * string)) : gmap string Cert * list (result Cert) :=
  match asks with
  | [] => (cache, [])
  | (rnd, h) :: asks =>
      let '(cache, res) := signHost create parse_ip rnd cache h in
      let '(cache, rs) := sign_all cache asks in (cache, res :: rs)
  end.

Lemma signHost_spec rnd cache h :
  cache_ok cache ->
  let '(cache', res) := signHost create parse_ip rnd cache h in
  cache_ok cache' /\ cache ⊆ cache' /\
  match res with
  | Ok cert => cache' !! h = Some cert /\ leaf_of h cert
  | Err e => cache !! h = None /\ cache' = cache /\ create rnd (leaf_template parse_ip h) = Err e
  end.
Proof.
  intros Hc. unfold signHost. destruct (cache !! h) as [cert|] eqn:E; [split_and!; [done..|by apply (Hc h)]|].
  destruct (create rnd (leaf_template parse_ip h)) as [cert|e] eqn:Hcert; [|done].
  assert (Hl : leaf_of h cert) by by exists rnd.
  split_and!; [by apply map_Forall_insert_2|by apply insert_subseteq|by rewrite lookup_insert_eq|done].
Qed.

Lemma sign_all_spec asks cache :
  cache_ok cache ->
  let '(cache', rs) := sign_all cache asks in
  cache_ok cache' /\ cache ⊆ cache' /\
  Forall2 (fun ask res => forall cert, res = Ok cert -> cache' !! ask.2 = Some cert /\ leaf_of ask.2 cert) asks rs.
Proof.
  revert cache. induction asks as [|[rnd h] asks IH]; intros cache Hc; cbn [sign_all]; [by split_and!|].
  pose proof (signHost_spec rnd cache h Hc) as Hs. destruct (signHost create parse_ip rnd cache h) as [cache1 res].
  destruct Hs as (Hc1 & Hsub & Hres). specialize (IH cache1 Hc1). destruct (sign_all cache1 asks) as [cache2 rs].
  destruct IH as (Hc2 & Hsub2 & Hrs). split_and!; [done|by trans cache1|]. constructor; [|done].
  intros cert ->. destruct Hres as [Hl Hleaf]. split; [|done]. by eapply lookup_weaken.
Qed.

(** Whatever names the guest's TLS connections ask for, one after the
    other (two first handshakes of one name at the same time may each make a
    leaf), a connection is served a leaf made for exactly the name it asked for (an IP
    address as such, any other name as a DNS name, nothing else in it), and all
    connections of one name get the same leaf, which stays in the cache. *)
Theorem leaf_for_host asks :
  let '(cache, rs) := sign_all ∅ asks in
  (forall i j rnd rnd' h c c', asks !! i = Some (rnd, h) -> asks !! j = Some (rnd', h) ->
     rs !! i = Some (Ok c) -> rs !! j = Some (Ok c') -> c = c' /\ leaf_of h c) /\
  (forall h, let t := leaf_template parse_ip h in
     CommonName t = h /\ CRLDistributionPoints t = [caCRLURL] /\
     match parse_ip h with
     | Some ip => IPAddresses t = [ip] /\ DNSNames t = []
     | None => IPAddresses t = [] /\ DNSNames t = [h]
     end).
Proof.
  pose proof (sign_all_spec asks ∅ ltac:(by apply map_Forall_empty)) as H.
  destruct (sign_all ∅ asks) as [cache rs]. destruct H as (_ & _ & H). split.
  - intros i j rnd rnd' h c c' Hi Hj Hci Hcj.
    destruct (Forall2_lookup_lr _ _ _ _ _ _ H Hi Hci c eq_refl) as [Hl Hleaf].
    destruct (Forall2_lookup_lr _ _ _ _ _ _ H Hj Hcj c' eq_refl) as [Hl' _]. cbn in *. split; [congruence|done].
  - intros h. unfold leaf_template. by destruct (parse_ip h).
Qed.
End Sign.

(** ** What a handler does to the relay *)
Section Grew.
Context {HO : HashOps} {EO : Ed25519Ops} {CO : CborOps} {JO : Environment.JsonOps}.
Context {S : Type} {API : CollectorAPI S}.
Context (json_complete : Z -> string -> string -> source).

Abbreviation Relay := (Relay.Relay S).

(** [r'] is a later state of [r]; [open] unless the ledger was finished. *)
Record grew (r r' : Relay) : Prop := {
  gr_entries : exists es, entries r' = entries r ++ es;
  gr_hashes : hashes (ledger r') = hashes (ledger r);
  gr_sigs : reqSigs r' = reqSigs r }.
Record grew_open (r r' : Relay) : Prop := { go_grew : grew r r'; go_flushed : flushed r' = flushed r }.

Lemma grew_refl r : grew r r.
Proof. split; try done. exists []. by rewrite app_nil_r. Qed.
Lemma grew_trans r1 r2 r3 : grew r1 r2 -> grew r2 r3 -> grew r1 r3.
Proof.
  intros [ [es E] H1 S1] [ [es' E'] H2 S2]. split; [|congruence..]. exists (es ++ es'). by rewrite E', E, app_assoc.
Qed.
Lemma open_refl r : grew_open r r.
Proof. split; [apply grew_refl|done]. Qed.
Lemma open_trans r1 r2 r3 : grew_open r1 r2 -> grew_open r2 r3 -> grew_open r1 r3.
Proof. intros [G1 F1] [G2 F2]. split; [by eapply grew_trans|congruence]. Qed.
Lemma open_sink r s : grew_open r (set_sink r s).
Proof. split; [split; try done; exists []; by rewrite app_nil_r|done]. Qed.
Lemma open_activity r now : grew_open r (set_activity r now).
Proof. split; [split; try done; exists []; by rewrite app_nil_r|done]. Qed.

Lemma wrote_open r es r' : wrote r es r' -> reqSigs r' = reqSigs r -> grew_open r r'.
Proof. intros Hw Hq. split; [split; [|by apply wrote_hashes in Hw|done]|apply Hw]. exists es. apply Hw. Qed.

(** An unfinished ledger takes an entry. *)
Lemma ledger_write_some r e : flushed r = false -> exists r' sig, ledger_write r e = Some (r', sig) /\ grew_open r r'.
Proof.
  intros Hf. destruct (ledger_write r e) as [[r' sig]|] eqn:E.
  - exists r', sig. split; [done|]. apply ledger_write_spec in E as (Hw & _ & _ & Hq & _). by eapply wrote_open.
  - unfold ledger_write in E. rewrite Hf in E. by destruct (loop_body _ _ _).
Qed.

Lemma write_record_some r typ sig size hb schema meta :
  flushed r = false -> exists r', write_record r typ sig size hb schema meta = Some r' /\ grew_open r r'.
Proof.
  intros Hf. unfold write_record. destruct (ledger_write_some r (mkEntry typ sig (to_int64 size) hb schema meta) Hf)
    as (r' & sg & -> & Hg). by exists r'.
Qed.

Lemma recordServed_some r req data :
  flushed r = false -> exists r', recordServed r req data = Some r' /\ grew_open r r'.
Proof.
  intros Hf. unfold recordServed, Open.
  destruct (ledger_write_some r (mkEntry Reader.RecordOpen [] 0 [] schemaHTTPOpen (open_meta "GET" (rURL req) (rProto req))) Hf)
    as (r1 & sig & -> & G1). cbn [mbind option_bind].
  destruct (write_record_some r1 Reader.RecordClose sig (len data) (hash_block r1 data) schemaHTTPBody
    (marshal [("status"%string, AInt 200)])) as (r2 & -> & G2); [by rewrite (go_flushed _ _ G1)|].
  exists r2. split; [done|]. by eapply open_trans.
Qed.

(** What a handler that goes on gives: an answer, and a later state. *)
Definition answers (r : Relay) (x : option (Relay * Resp)) : Prop := exists r' resp, x = Some (r', resp) /\ grew_open r r'.

Lemma answers_same r resp : answers r (Some (r, resp)).
Proof. exists r, resp. split; [done|apply open_refl]. Qed.
Lemma answers_sink r s resp : answers r (Some (set_sink r s, resp)).
Proof. exists (set_sink r s), resp. split; [done|apply open_sink]. Qed.
Lemma answers_served r s req data resp :
  flushed r = false -> answers r (r' ← recordServed (set_sink r s) req data; Some (r', resp)).
Proof.
  intros Hf. destruct (recordServed_some (set_sink r s) req data Hf) as (r' & -> & G).
  exists r', resp. split; [done|]. eapply open_trans; [apply open_sink|done].
Qed.

Lemma serve_fetched_answers r req path missing : flushed r = false -> answers r (serve_fetched r req path missing).
Proof.
  intros Hf. unfold serve_fetched. destruct (fetch (client r) (sink r) path) as [s [[[data kind] st]|e]]; [|apply answers_sink].
  destruct (decide (st = 200)) as [->|Hst]; [by apply answers_served|].
  destruct st as [|p|p]; try apply answers_sink.
  repeat (destruct p as [p|p|]; try apply answers_sink). done.
Qed.

Lemma context_answers r req : flushed r = false -> answers r (handleContextGet r req).
Proof.
  intros Hf. unfold handleContextGet. cbv zeta. destruct (_ && _); [apply answers_same|].
  destruct (fetch (client r) (sink r) _) as [s [[[data kind] st]|e]]; [|apply answers_sink].
  destruct (decide (st = 200)) as [->|Hst].
  - destruct (decide (kind = "list"%string)); [apply answers_sink|by apply answers_served].
  - destruct st as [|p|p]; try apply answers_sink.
    repeat (destruct p as [p|p|]; try apply answers_sink). done.
Qed.

Lemma artifact_answers n r req :
  flushed r = false -> is_Some (NewStreamingHasher (hashes (ledger r))) -> answers r (handleArtifactPost n r req).
Proof.
  intros Hf [hs Hhs]. unfold handleArtifactPost. cbv zeta. set (name := if decide _ then _ else _).
  destruct (negb (IsSafeArtifactPath name)); [apply answers_same|]. unfold Open.
  destruct (ledger_write_some r (mkEntry Reader.RecordOpen [] 0 [] schemaHTTPOpen (open_meta "POST" (rURL req) (rProto req))) Hf)
    as (r1 & sig & -> & G1). cbn [mbind option_bind].
  edestruct (write_record_some r1) as (r2 & -> & G2); [by rewrite (go_flushed _ _ G1)|]. cbn [mbind option_bind].
  assert (G : grew_open r r2) by by eapply open_trans.
  rewrite (gr_hashes _ _ (go_grew _ _ G)), Hhs. cbn [mbind option_bind].
  destruct (putArtifact n (client r2) (sink r2) name _ hs) as [[s lim] [[hb size]|e]].
  - edestruct (write_record_some (set_sink r2 s)) as (r3 & -> & G3); [by rewrite <- Hf, <- (go_flushed _ _ G)|].
    cbn [mbind option_bind]. eexists _, _. split; [done|]. eapply open_trans; [exact G|].
    eapply open_trans; [apply open_sink|exact G3].
  - destruct (exceeded lim); (eexists _, _; split; [done|]; eapply open_trans; [exact G|apply open_sink]).
Qed.

(** The guest asks for the end of the build. *)
Definition is_exit (req : Req) : Prop := host_of req = "artifacts"%string /\ rPath req = "/exit"%string.

Lemma complete_grew r code : grew r (complete json_complete r code).
Proof.
  unfold complete, finishAndFlush. destruct (flushed r); [apply open_sink|].
  destruct (flushLedger _ _ _) as [s e]. split; try done. exists []. by rewrite app_nil_r.
Qed.

(** A request the guest API answers. *)
Lemma onRequest_answered n now r id req :
  flushed r = false -> is_Some (NewStreamingHasher (hashes (ledger r))) ->
  exists r' d, onRequest json_complete n now r id req = Some (r', d) /\
    match d with
    | Answered _ => grew r r' /\ (~ is_exit req -> flushed r' = flushed r)
    | Upstream _ _ => flushed r' = flushed r
    end.
Proof.
  intros Hf Hh. unfold onRequest. cbv zeta. destruct (decide (host_of req = "artifacts"%string)) as [Ha|Ha].
  - assert (Hx : exists r' resp, handleArtifacts json_complete n now r req = Some (r', resp) /\ grew r r' /\
      (~ is_exit req -> flushed r' = flushed r)).
    { assert (Hans : forall x, answers r x -> exists r' resp, x = Some (r', resp) /\ grew r r' /\
        (~ is_exit req -> flushed r' = flushed r)).
      { intros x (r' & resp & -> & G). exists r', resp. split_and!; [done|apply G|by intros _; apply G]. }
      unfold handleArtifacts. repeat case_decide; try (apply Hans, answers_same).
      - apply Hans. eexists _, _. split; [done|apply open_activity].
      - eexists _, _. split; [done|]. split; [apply complete_grew|]. intros Hn. by destruct Hn.
      - by apply Hans, serve_fetched_answers.
      - by apply Hans, serve_fetched_answers.
      - by apply Hans, artifact_answers. }
    destruct Hx as (r' & resp & -> & G & F). exists r', (Answered resp). by split_and!.
  - destruct (decide (host_of req = "cwd"%string /\ rMethod req = "GET"%string)).
    + destruct (context_answers r req Hf) as (r' & resp & -> & G). exists r', (Answered resp). split; [done|].
      split; [apply G|by intros _; apply G].
    + unfold Open. set (r0 := set_seq (set_activity r now) _). edestruct (ledger_write_some r0) as (r1 & sig & -> & G1); [done|].
      cbn [mbind option_bind].
      edestruct (write_record_some r1) as (r2 & -> & G2); [by rewrite (go_flushed _ _ G1)|]. cbn [mbind option_bind].
      eexists _, (Upstream _ _). split; [done|]. cbn. by rewrite (go_flushed _ _ G2), (go_flushed _ _ G1).
Qed.
End Grew.

(** ** Exchanges *)
Section Exchange.
Context {HO : HashOps} {HL : HashLaws} {EO : Ed25519Ops} {CO : CborOps} {JO : Environment.JsonOps}.
Context {S : Type} {API : CollectorAPI S} {T : Type} {TR : Transport T} {C : Type} {CN : Conn C}.
Context (json_complete : Z -> string -> string -> source).
Context (n : nat) (clock : nat -> Z) (dump_502 : result bytes).

Abbreviation Relay := (Relay.Relay S).

(** The transport reads with buffers that hold something. *)
Context (Hreads : forall (t : T) up, Forall (fun k => 0 < k) (round_trip t up).1.1.2).

(** The entry a whole body leaves. *)
Definition body_entry (r : Relay) (entry_of : bytes -> Z -> entryInput) (src : source) : entryInput :=
  entry_of (hash_block r (rd_data src)) (to_int64 (len (rd_data src))).

Lemma finish_all (es : list entryInput) (r r' : Relay) :
  foldl (fun (r : option Relay) e => r ← r; finish_body r e) (Some r) es = Some r' -> wrote r es r' /\ reqSigs r' = reqSigs r.
Proof.
  revert r r'. induction es as [|e es IH] using rev_ind; intros r r'; cbn [foldl].
  - intros [= <-]. split; [apply wrote_refl|done].
  - rewrite foldl_app. cbn [foldl]. intros H. apply bind_Some in H as (r1 & H1 & H). apply IH in H1 as [Hw Hq].
    unfold finish_body in H. apply fmap_Some in H as ([r2 sig] & H & ->).
    apply ledger_write_spec in H as (Hw2 & _ & _ & Hq2 & _). cbn. split; [by eapply wrote_trans|congruence].
Qed.

Lemma record_body_spec entry_of src ns (r : Relay) :
  flushed r = false -> is_Some (NewStreamingHasher (hashes (ledger r))) -> Forall (fun k => 0 < k) ns ->
  exists r' got, record_body entry_of src ns r = Some (r', got) /\
    wrote r [body_entry r entry_of src] r' /\ reqSigs r' = reqSigs r /\ got `prefix_of` rd_data src.
Proof using HL.
  intros Hf [hs Hhs] Hns. unfold record_body. rewrite Hhs. cbn [mbind option_bind].
  destruct (streamed (hashes (ledger r)) hs [rd_data src] Hhs) as (block & _ & Hb & _).
  rewrite mjoin_cons, app_nil_r in Hb.
  pose proof (lb_reads_inv entry_of _ hs src block Hhs Hb [] (mkLedgerBody src hs false []) ns) as Hi.
  destruct (lb_reads entry_of (mkLedgerBody src hs false []) ns) as [lb got]. cbn [app] in Hi.
  assert (H : lb_inv hs src (entry_of block (to_int64 (len (rd_data src)))) got lb).
  { apply Hi; [|done]. split; cbn; try done. by exists []. }
  destruct (lb_close_written entry_of _ hs src block Hhs Hb got lb (Datatypes.S (rd_steps src)) H ltac:(lia)) as (lb' & -> & Hw & _).
  cbn [mbind option_bind]. rewrite Hw.
  assert (He : body_entry r entry_of src = entry_of block (to_int64 (len (rd_data src)))).
  { unfold body_entry, hash_block. by rewrite Hb. }
  rewrite He. set (e := entry_of _ _). cbn [foldl mbind option_bind]. unfold finish_body.
  destruct (ledger_write_some r e Hf) as (r' & sig & Hl & _). rewrite Hl. cbn.
  apply ledger_write_spec in Hl as (Hwr & _ & _ & Hq & _).
  exists r', got. split_and!; [done|done|done|]. eexists. apply (lbi_data _ _ _ _ _ H).
Qed.

(** The signature of a request's open record. *)
Definition open_sig (r : Relay) (req : Req) : bytes :=
  next_sig (ledger r) (open_entry schemaHTTPOpen (open_meta (rMethod req) (rURL req) (rProto req))).

(** The records of a request's body, and of a response's. *)
Definition sent_entries (r : Relay) (sig : bytes) (body : option source) : list entryInput :=
  match body with Some src => [body_entry r (request_entry sig (marshal [])) src] | None => [] end.
Definition got_entries (r : Relay) (sig : bytes) (res : UpResp) : list entryInput :=
  response_entries r sig res ++
  (if no_body_status (uStatus res) then [] else [body_entry r (response_entry sig (body_meta (uStatus res))) (uBody res)]).

(** All records of an exchange. *)
Definition exchange_entries (r : Relay) (up : UpReq) (late : bool) (res : UpResp) : list entryInput :=
  let sig := open_sig r (upReq up) in
  request_entries r (upReq up) ++
  (if late then [] else sent_entries r sig (upBody up)) ++ got_entries r sig res ++
  (if late then sent_entries r sig (upBody up) else []).

(** What a request leaves: an answer of the guest API, or a recorded exchange. *)
Inductive turn (r : Relay) (t : T) (scheme host : string) (req : Req) : Relay -> T -> event -> Prop :=
  | turn_answered r' resp :
      grew r r' -> (~ is_exit req -> flushed r' = flushed r) -> turn r t scheme host req r' t (EvAnswered req resp)
  | turn_proxied r' up late res sent got :
      upReq up = req -> upScheme up = scheme -> upHost up = host ->
      upBody up = (if negb (rContentLength req =? 0) then Some (rBody req) else None) ->
      res = or_bad_gateway dump_502 (round_trip t up).2 ->
      wrote r (exchange_entries r up late res) r' -> reqSigs r' = reqSigs r ->
      sent `prefix_of` match upBody up with Some src => rd_data src | None => [] end ->
      got `prefix_of` rd_data (uBody res) ->
      turn r t scheme host req r' (round_trip t up).1.1.1
        (EvProxied up late (entries r ++ request_entries r req) res sent got).

Lemma record_request_spec sig body ns (r : Relay) :
  flushed r = false -> is_Some (NewStreamingHasher (hashes (ledger r))) -> Forall (fun k => 0 < k) ns ->
  exists r' sent, record_request sig body ns r = Some (r', sent) /\ wrote r (sent_entries r sig body) r' /\
    reqSigs r' = reqSigs r /\ sent `prefix_of` match body with Some src => rd_data src | None => [] end.
Proof using HL.
  intros Hf Hh Hns. unfold record_request, sent_entries. destruct body as [src|]; [by apply record_body_spec|].
  exists r, []. split_and!; [done|apply wrote_refl|done|apply prefix_nil].
Qed.

Lemma wrote_body_entry r es r' f src : wrote r es r' -> body_entry r' f src = body_entry r f src.
Proof. intros Hw. unfold body_entry. by rewrite (wrote_block _ _ _ _ Hw). Qed.
Lemma wrote_sent_entries r es r' sig body : wrote r es r' -> sent_entries r' sig body = sent_entries r sig body.
Proof. intros Hw. destruct body; [|done]. cbn. by rewrite (wrote_body_entry _ _ _ _ _ Hw). Qed.

Lemma wrote_got_entries r es r' sig res : wrote r es r' -> got_entries r' sig res = got_entries r sig res.
Proof.
  intros Hw. unfold got_entries, response_entries. by rewrite (wrote_block _ _ _ _ Hw), (wrote_body_entry _ _ _ _ _ Hw).
Qed.

Lemma onResponse_some (r : Relay) id res : flushed r = false -> is_Some (onResponse r id res).
Proof.
  intros Hf. unfold onResponse. destruct (reqSigs r !! id) as [sig|]; [|done]. cbv zeta.
  edestruct (write_record_some (set_sigs r (delete id (reqSigs r)))) as (r1 & -> & G1); [done|]. cbn [mbind option_bind].
  destruct (no_body_status _); [|done]. edestruct (write_record_some r1) as (r2 & -> & _); [by rewrite (go_flushed _ _ G1)|done].
Qed.

(** The response to a request with an open record, and its body. *)
Lemma respond_spec (r : Relay) id sig res takes :
  flushed r = false -> is_Some (NewStreamingHasher (hashes (ledger r))) -> Forall (fun k => 0 < k) takes ->
  reqSigs r !! id = Some sig ->
  exists r1 rec r2 got, onResponse r id res = Some (r1, rec) /\
    (match rec with
     | WithBody sig st => record_body (response_entry sig (body_meta st)) (uBody res) takes r1
     | _ => Some (r1, [])
     end) = Some (r2, got) /\
    wrote r (got_entries r sig res) r2 /\ reqSigs r2 = delete id (reqSigs r) /\ got `prefix_of` rd_data (uBody res).
Proof using HL.
  intros Hf Hh Ht Hq. destruct (onResponse_some r id res Hf) as [[r1 rec] Hr]. exists r1, rec.
  pose proof (onResponse_spec r id res r1 rec Hr) as Hs. rewrite Hq in Hs. destruct Hs as (Hw & Hq1 & ->).
  unfold got_entries. destruct (no_body_status (uStatus res)).
  - exists r1, []. rewrite app_nil_r. split_and!; [done..|apply prefix_nil].
  - destruct (record_body_spec (response_entry sig (body_meta (uStatus res))) (uBody res) takes r1)
      as (r2 & got & Hb & Hw2 & Hq2 & Hp); [by rewrite (wr_flushed _ _ _ Hw)|by rewrite (wrote_hashes _ _ _ Hw)|done|].
    exists r2, got. split_and!; [done|done| |congruence|done].
    rewrite (wrote_body_entry _ _ _ _ _ Hw) in Hw2. by eapply wrote_trans.
Qed.

Lemma roundTrip_turn (r : Relay) (t : T) id scheme host req takes :
  flushed r = false -> is_Some (NewStreamingHasher (hashes (ledger r))) -> Forall (fun k => 0 < k) takes ->
  reqSigs r !! id = None ->
  exists r' t' ev connection,
    roundTrip json_complete n clock dump_502 r t id scheme host req takes = Some (r', t', ev, connection) /\
    turn r t scheme host req r' t' ev.
Proof using HL Hreads.
  intros Hf Hh Ht Hid. unfold roundTrip.
  destruct (onRequest_answered json_complete n (clock id) r id req Hf Hh) as (r1 & d & Hreq & Hd). rewrite Hreq.
  cbn [mbind option_bind]. destruct d as [resp|sig body].
  { destruct Hd as [G F]. eexists _, _, _, _. split; [done|]. by constructor. }
  apply onRequest_spec in Hreq as (Hw1 & Hq1 & Hsig & Hbody & _).
  assert (Hh1 : forall es r', wrote r es r' -> is_Some (NewStreamingHasher (hashes (ledger r')))) by
    (intros es r' Hw; by rewrite (wrote_hashes _ _ _ Hw)).
  assert (Hf1 : forall es r', wrote r es r' -> flushed r' = false) by (intros es r' Hw; by rewrite (wr_flushed _ _ _ Hw)).
  set (up := mkUpReq scheme host req body). pose proof (Hreads t up) as Hns.
  assert (Hent : entries r1 = entries r ++ request_entries r req) by apply Hw1. rewrite Hent.
  assert (Hturn : forall r' late res sent got, res = or_bad_gateway dump_502 (round_trip t up).2 ->
    wrote r (exchange_entries r up late res) r' -> reqSigs r' = reqSigs r ->
    sent `prefix_of` match body with Some src => rd_data src | None => [] end -> got `prefix_of` rd_data (uBody res) ->
    turn r t scheme host req r' (round_trip t up).1.1.1 (EvProxied up late (entries r ++ request_entries r req) res sent got)).
  { intros. by econstructor. }
  destruct (round_trip t up) as [[[t' ns] late] res0]. cbn [fst snd] in Hns, Hturn. set (res := or_bad_gateway dump_502 res0) in *.
  assert (Hdel : delete id (<[id := sig]> (reqSigs r)) = reqSigs r) by (rewrite delete_insert_eq; by apply delete_id).
  unfold exchange_entries in Hturn. cbv zeta in Hturn. change (upReq up) with req in Hturn. change (upBody up) with body in Hturn.
  change (open_sig r req) with (next_sig (ledger r) (open_entry schemaHTTPOpen (open_meta (rMethod req) (rURL req) (rProto req)))) in Hturn.
  rewrite <- Hsig in Hturn.
  destruct late; cbn [mbind option_bind].
  - destruct (respond_spec r1 id sig res takes) as (r2 & rec & r3 & got & -> & Hb & Hw3 & Hq3 & Hp);
      [by eapply Hf1|by eapply Hh1|done|by rewrite Hq1, lookup_insert_eq|]. cbn [mbind option_bind].
    rewrite Hb. cbn [mbind option_bind]. assert (Hw13 := wrote_trans _ _ _ _ _ Hw1 Hw3).
    destruct (record_request_spec sig body ns r3) as (r4 & sent & -> & Hw4 & Hq4 & Hs);
      [by eapply Hf1|by eapply Hh1|done|]. cbn [mbind option_bind].
    eexists _, _, _, _. split; [done|]. apply (Hturn r4 true res sent got); [done| |congruence|done..].
    rewrite (wrote_sent_entries _ _ _ _ _ Hw13) in Hw4. pose proof (wrote_trans _ _ _ _ _ Hw13 Hw4) as Hw.
    rewrite app_nil_l, (app_assoc (request_entries r req)). by rewrite (wrote_got_entries _ _ _ _ _ Hw1) in Hw.
  - destruct (record_request_spec sig body ns r1) as (r2 & sent & -> & Hw2 & Hq2 & Hs);
      [by eapply Hf1|by eapply Hh1|done|]. cbn [mbind option_bind].
    rewrite (wrote_sent_entries _ _ _ _ _ Hw1) in Hw2. assert (Hw12 := wrote_trans _ _ _ _ _ Hw1 Hw2).
    destruct (respond_spec r2 id sig res takes) as (r3 & rec & r4 & got & -> & Hb & Hw4 & Hq4 & Hp);
      [by eapply Hf1|by eapply Hh1|done|by rewrite Hq2, Hq1, lookup_insert_eq|]. cbn [mbind option_bind].
    rewrite Hb. cbn [mbind option_bind].
    eexists _, _, _, _. split; [done|]. apply (Hturn r4 false res sent got); [done| |congruence|done..].
    pose proof (wrote_trans _ _ _ _ _ Hw12 Hw4) as Hw. rewrite app_nil_r, app_assoc.
    by rewrite (wrote_got_entries _ _ _ _ _ Hw12) in Hw.
Qed.

(** ** Connections *)

(** The turns of a connection, one after the other, until it ends or is
    closed. *)
Inductive turns (tls : option string) : C -> Relay -> T -> list event -> Relay -> T -> Prop :=
  | turns_end c r t : read_request c = None -> turns tls c r t [] r t
  | turns_close c p scheme host req r t r1 t1 ev :
      read_request c = Some p -> fill tls p = (scheme, host, req) -> turn r t scheme host req r1 t1 ev ->
      turns tls c r t [ev] r1 t1
  | turns_next c p b scheme host req r t r1 t1 ev evs r2 t2 :
      read_request c = Some p -> fill tls p = (scheme, host, req) -> turn r t scheme host req r1 t1 ev ->
      turns tls (rest c b) r1 t1 evs r2 t2 -> turns tls c r t (ev :: evs) r2 t2.

(** A relay ready for request [id]: its ledger is open, its hashes known, and
    the request new. *)
Record ready (r : Relay) (id : nat) : Prop := {
  rd_open : flushed r = false;
  rd_hashes : is_Some (NewStreamingHasher (hashes (ledger r)));
  rd_fresh j : (id <= j)%nat -> reqSigs r !! j = None }.

Lemma turn_ready r t scheme host req r' t' ev id :
  ready r id -> turn r t scheme host req r' t' ev -> ~ is_exit req -> ready r' (Datatypes.S id).
Proof.
  intros [Ho Hh Hi] Ht Hx.
  assert (H : flushed r' = false /\ hashes (ledger r') = hashes (ledger r) /\ reqSigs r' = reqSigs r).
  { destruct Ht as [r' resp [_ G Q] F|r' up late res sent got _ _ _ _ _ Hw Hq _ _].
    - split_and!; [by rewrite F|done|done].
    - split_and!; [by rewrite (wr_flushed _ _ _ Hw)|by rewrite (wrote_hashes _ _ _ Hw)|done]. }
  destruct H as (F & G & Q). split; [done|by rewrite G|]. intros j Hj. rewrite Q. apply Hi. lia.
Qed.

(** What a guest's requests are assumed to be: it takes responses in pieces
    that hold something, and sends nothing after it has ended the build. *)
Record polite (tls : option string) : Prop := {
  po_takes c p : read_request c = Some p -> Forall (fun k => 0 < k) (pTakes p);
  po_exit c p b : read_request c = Some p -> is_exit (fill tls p).2 -> read_request (rest c b) = None }.

Lemma serve_turns tls fuel c r t id :
  polite tls -> ready r id -> (conn_size c < fuel)%nat ->
  exists r' t' evs, serve json_complete n clock dump_502 fuel tls c r t id = Some (r', t', evs) /\
    turns tls c r t evs r' t'.
Proof using HL Hreads.
  intros Hp. revert c r t id. induction fuel as [|fuel IH]; intros c r t id Hr Hsz; [lia|]. cbn [serve].
  destruct (read_request c) as [p|] eqn:Ec; [|eexists _, _, _; split; [done|by constructor]].
  destruct (fill tls p) as [[scheme host] req] eqn:Ef.
  destruct (roundTrip_turn r t id scheme host req (pTakes p) (rd_open _ _ Hr) (rd_hashes _ _ Hr)
    (po_takes _ Hp _ _ Ec) (rd_fresh _ _ Hr id ltac:(done))) as (r1 & t1 & ev & conn & -> & Ht).
  cbn [mbind option_bind]. destruct (Proxy.shouldKeepAlive _ _).
  - set (b := left_of req ev). pose proof (rest_size c p b Ec) as Hlt.
    destruct (decide (is_exit req)) as [Hx|Hx].
    { assert (Hn : read_request (rest c b) = None) by (eapply (po_exit _ Hp); [exact Ec|by rewrite Ef]).
      destruct fuel as [|fuel]; [lia|]. cbn [serve]. rewrite Hn. cbn [mbind option_bind].
      eexists _, _, _. split; [done|]. eapply turns_next; [done..|]. by apply turns_end. }
    destruct (IH (rest c b) r1 t1 (Datatypes.S id)) as (r2 & t2 & evs & -> & Hts); [by eapply turn_ready|lia|].
    cbn [mbind option_bind]. eexists _, _, _. split; [done|]. by eapply turns_next.
  - eexists _, _, _. split; [done|]. by eapply turns_close.
Qed.

(** The requests the upstream was sent. *)
Definition upstream (evs : list event) : list UpReq :=
  omap (fun ev => match ev with EvProxied up _ _ _ _ _ => Some up | EvAnswered _ _ => None end) evs.

(** An exchange in a ledger that grew from [es0] to [es1]: its request's
    records were there, last, when the upstream was contacted. *)
Definition witnessed (es0 es1 : list entryInput) (up : UpReq) (late : bool) (recorded : list entryInput) (res : UpResp)
    (sent got : bytes) : Prop :=
  exists (r : Relay) pre post,
    es1 = pre ++ exchange_entries r up late res ++ post /\ es0 `prefix_of` pre /\
    recorded = pre ++ request_entries r (upReq up) /\ got `prefix_of` rd_data (uBody res) /\
    sent `prefix_of` match upBody up with Some src => rd_data src | None => [] end.

Lemma turn_entries r t scheme host req r' t' ev :
  turn r t scheme host req r' t' ev -> entries r `prefix_of` entries r' /\
  t' = foldl (fun t up => (round_trip t up).1.1.1) t (upstream [ev]) /\
  forall up late recorded res sent got, ev = EvProxied up late recorded res sent got ->
    upReq up = req /\ upScheme up = scheme /\ upHost up = host /\
    witnessed (entries r) (entries r') up late recorded res sent got.
Proof using Type.
  intros [r1 resp [ [es E] _ _] _|r1 up late res sent got Hreq Hs Hh _ _ Hw _ Hsent Hgot].
  - split_and!; [by exists es|done|done].
  - split_and!; [eexists; apply Hw|done|]. intros ? ? ? ? ? ? [= <- <- <- <- <- <-]. split_and!; [done..|].
    exists r, (entries r), []. rewrite app_nil_r, Hreq. split_and!; [apply Hw|done|done|done|done].
Qed.

Lemma witnessed_weaken es0 es0' es1 es1' up late recorded res sent got :
  es0 `prefix_of` es0' -> es1' `prefix_of` es1 -> witnessed es0' es1' up late recorded res sent got ->
  witnessed es0 es1 up late recorded res sent got.
Proof using Type.
  intros H0 [k ->] (r & pre & post & -> & Hp & Hrest). exists r, pre, (post ++ k).
  split_and!; [by rewrite <- !app_assoc|by trans es0'|apply Hrest..].
Qed.

Lemma turns_facts tls c r t evs r' t' :
  turns tls c r t evs r' t' -> entries r `prefix_of` entries r' /\
  t' = foldl (fun t up => (round_trip t up).1.1.1) t (upstream evs) /\
  forall up late recorded res sent got, EvProxied up late recorded res sent got ∈ evs ->
    (exists c' p, read_request c' = Some p /\ fill tls p = (upScheme up, upHost up, upReq up)) /\
    witnessed (entries r) (entries r') up late recorded res sent got.
Proof using Type.
  induction 1 as [c r t Hc|c p scheme host req r t r1 t1 ev Hc Hf Ht|c p b scheme host req r t r1 t1 ev evs r2 t2 Hc Hf Ht Hts IH].
  - split_and!; [done|done|]. intros ? ? ? ? ? ? H. by apply elem_of_nil in H.
  - destruct (turn_entries _ _ _ _ _ _ _ _ Ht) as (He & Htr & Hev). split_and!; [done|done|].
    intros up late rcd res sent got Heq%list_elem_of_singleton. subst ev.
    destruct (Hev _ _ _ _ _ _ eq_refl) as (<- & <- & <- & Hw). split; [by exists c, p|done].
  - destruct (turn_entries _ _ _ _ _ _ _ _ Ht) as (He & Htr & Hev). destruct IH as (He' & Htr' & Hev').
    split_and!; [by trans (entries r1)| |].
    + change (ev :: evs) with ([ev] ++ evs). unfold upstream. rewrite omap_app, foldl_app. by rewrite Htr', Htr.
    + intros up late rcd res sent got [Heq|Hin]%elem_of_cons.
      * subst ev. destruct (Hev _ _ _ _ _ _ eq_refl) as (<- & <- & <- & Hw). split; [by exists c, p|].
        eapply witnessed_weaken; [reflexivity|exact He'|exact Hw].
      * destruct (Hev' _ _ _ _ _ _ Hin) as [Hp Hw]. split; [done|]. eapply witnessed_weaken; [exact He|reflexivity|exact Hw].
Qed.

End Exchange.
End ServeSpec.

(** A connection of two requests. *)
Module ServeExamples.
Import Toy Streams Client Relay Writer RelaySpec EndToEnd EndToEndExamples Serve ServeSpec.

#[local] Existing Instance json.
#[local] Existing Instance api.

Definition ex_parsed : Parsed :=
  mkParsed "" "" (fun scheme host => scheme ++ "://" ++ host ++ "/")%string ex_get (Proxy.mkReq false 1 1 "") [1; 4].

#[local] Program Instance ex_conn : Conn nat := {|
  read_request c := match c with O => None | Datatypes.S _ => Some ex_parsed end;
  rest c _ := Nat.pred c;
  conn_size c := c |}.
Next Obligation. intros [|c] p b H; [done|]. cbn. lia. Qed.

#[local] Instance ex_transport : Transport (list UpReq) := fun t up =>
  (t ++ [up], [4], false, Ok (mkUpResp 200 [] (Ok [Byte.x48]) (mkSource [[Byte.x01; Byte.x02]] EOF false))).

Lemma ex_polite : polite (Some "example.com"%string).
Proof.
  split; intros [|c] p; cbn; try done.
  - intros [= <-]. repeat constructor.
  - intros b [= <-] [_ H]. by vm_compute in H.
Qed.

Lemma ex_ready : ready ex_fresh 0.
Proof.
  split; [reflexivity| |intros j _; apply lookup_empty].
  apply (bool_decide_unpack (is_Some (NewStreamingHasher (hashes (ledger ex_fresh))))). vm_compute. exact I.
Qed.

Lemma ex_reads (t : list UpReq) up : Forall (fun k => 0 < k) (round_trip t up).1.1.2.
Proof. change (Forall (fun k => 0 < k) [4]). repeat constructor. Qed.


(** Both requests reached the upstream, at the server name of the handshake. *)
Example ex_both :
  option_map (fun x => List.map (fun u => (upHost u, rURL (upReq u))) x.1.2)
    (serve ex_complete_json 5 (fun _ => 0) (Ok []) 3 (Some "example.com"%string) 2%nat ex_fresh [] 0) =
  Some [("example.com", "https://example.com/"); ("example.com", "https://example.com/")]%string.
Proof. vm_compute. reflexivity. Qed.

(** A refused artifact upload leaves its body on the connection, where it is
    read as the next request. *)
Definition ex_refused : Req :=
  mkReq "POST" "artifacts" "/../x" "/../x" "HTTP/1.1" "" [] (Ok []) (mkSource [bytes_of "GET http://example.com/ HTTP/1.1"] EOF false) 32.
Example ex_body_left : left_of ex_refused (EvAnswered ex_refused (newTextResponse 400 (line "invalid artifact name"))) = rBody ex_refused.
Proof. vm_compute. reflexivity. Qed.
End ServeExamples.
