(* ===== verification/Session.v ===== *)
(** * The host side of a build (src/driver/session.go, compress.go, hostutil.go)

    Staging and recording the inputs, claiming the relay, waiting for the end
    and finalizing the output.  The host's files are a map from cleaned paths;
    [fault op path] is the error a system call meets. *)
From S2P Require Import Prelude Text BuildLink Paths Translate Streams Collector CollectorSpec Claim.

#[local] Open Scope string_scope.
#[local] Open Scope Z_scope.
#[local] Open Scope go_scope.

Module Session.
Import Translate ClaimEnvironment.

(** ** The host's file system *)
Inductive node := NFile (content : bytes) | NDir (entries : list string).
Abbreviation fs := (gmap string node).

Definition ENOENT : error := Sentinel "file does not exist".
Definition EISDIR : error := Sentinel "is a directory".

(** [filepath.Join] of a nonempty first element. *)
Definition Join (a b : string) : string := path_Clean (a ++ "/" ++ b).

(** [fmt.Errorf]-made fixable errors keep their text and fix. *)
Inductive outcome :=
  | Success
  | ExitError (code : Z) (detail : string)
  | Fixable (fix_ : string) (e : error)
  | Failure (e : error).

Record BuildRequest := mkRequest {
  Script : string; ContextDir : string; GuestOS : string; Containerfile : string;
  CaptureMode : string; UpstreamCACerts : list string; UpstreamSystemCA : bool }.

Definition firstNonEmpty (a b : string) : string := if decide (a = "") then b else a.

Section Host.
Context (fault : string -> string -> option error).

(** A call that fails when its fault says so. *)
Definition call {A} (op path : string) (r : result A) : result A :=
  match fault op path with Some e => Err e | None => r end.

Definition ReadFile (s : fs) (p : string) : result bytes :=
  call "read" p match s !! p with Some (NFile b) => Ok b | Some (NDir _) => Err EISDIR | None => Err ENOENT end.

Definition WriteFile (s : fs) (p : string) (b : bytes) : fs * option error :=
  match fault "create" p with
  | Some e => (s, Some e)
  | None => match s !! p with
            | Some (NDir _) => (s, Some EISDIR)
            | _ => match fault "write" p with
                   | Some e => (<[p := NFile []]> s, Some e)
                   | None => (<[p := NFile b]> s, None)
                   end
            end
  end.

(** [CopyFile]: the destination is created, and truncated, before the copy.
    Permission bits are not modelled. *)
Definition CopyFile (s : fs) (src dst : string) : fs * option error :=
  match call "open" src match s !! src with Some n => Ok n | None => Err ENOENT end with
  | Err e => (s, Some e)
  | Ok _ =>
      match fault "create" dst, s !! dst with
      | Some e, _ => (s, Some e)
      | None, Some (NDir _) => (s, Some EISDIR)
      | None, _ =>
          let s := <[dst := NFile []]> s in
          match ReadFile s src with
          | Err e => (s, Some e)
          | Ok b => match fault "write" dst with
                    | Some e => (s, Some e)
                    | None => (<[dst := NFile b]> s, None)
                    end
          end
      end
  end.

Definition fileExists (s : fs) (p : string) : bool :=
  match call "stat" p (Ok tt), s !! p with Ok _, Some (NFile _) => true | _, _ => false end.

Definition MkdirAll (s : fs) (p : string) : fs * option error :=
  match fault "mkdir" p with
  | Some e => (s, Some e)
  | None => match s !! p with
            | Some (NFile _) => (s, Some (Sentinel "not a directory"))
            | Some (NDir _) => (s, None)
            | None => (<[p := NDir []]> s, None)
            end
  end.

(** ** Staging *)
Context {MO : MapOrder} (context_of : fs -> string -> BuildContext).

Definition windows (req : BuildRequest) : bool := bool_decide (ToUpper (GuestOS req) = "WINDOWS").

Definition translates (req : BuildRequest) : bool :=
  bool_decide (Script req = "") && negb (windows req) && negb (bool_decide (Containerfile req = "")).

Definition script_name (req : BuildRequest) : string := if windows req then "build.ps1" else "build.sh".
Definition noop (req : BuildRequest) : bytes :=
  bytes_of (if windows req then "exit 0" ++ String "013" nl else "#!/bin/sh" ++ nl ++ "true" ++ nl).

(** [script.Translate] of a file in a context directory. *)
Definition translate_file (s : fs) (path contextDir : string) : result (string * string) :=
  let? b := ReadFile s path in
  Translate.Translate (BC := context_of s (if decide (contextDir = "") then "." else contextDir)) (string_of b).

(** [StageBuildScript]: the path, and the error that may come with it. *)
Definition StageBuildScript (s : fs) (req : BuildRequest) (workDir : string) : fs * string * option error :=
  let dst := Join workDir (script_name req) in
  if negb (bool_decide (Script req = "")) then
    let '(s, err) := CopyFile s (Script req) dst in (s, dst, err)
  else if translates req then
    match translate_file s (Containerfile req) (ContextDir req) with
    | Err e => (s, "", Some (Wrap ("translating " ++ Containerfile req) e))
    | Ok (_, script) => let '(s, err) := WriteFile s dst (bytes_of script) in (s, dst, err)
    end
  else if negb (bool_decide (ContextDir req = "")) && fileExists s (Join (ContextDir req) (script_name req)) then
    let '(s, err) := CopyFile s (Join (ContextDir req) (script_name req)) dst in (s, dst, err)
  else let '(s, err) := WriteFile s dst (noop req) in (s, dst, err).

(** [RecordInputs] *)
Definition RecordInputs (s : fs) (outputDir : string) (req : BuildRequest) (script : string) : fs * option error :=
  if negb (translates req) then (s, None)
  else
    let dir := Join outputDir "inputs" in
    match MkdirAll s dir with
    | (s, Some e) => (s, Some e)
    | (s, None) =>
        match CopyFile s (Containerfile req) (Join dir "Containerfile") with
        | (s, Some e) => (s, Some e)
        | (s, None) => CopyFile s script (Join dir "build.sh")
        end
    end.

(** ** Upstream certificates *)

Definition add_ca (s : fs) (bundle : bytes) (path : string) : result bytes :=
  let? data := wrap_err ("reading CA cert " ++ path) (ReadFile s path) in
  Ok (bundle ++ data ++ (match last data with
                         | Some b => if decide (b = Byte.x0a) then [] else [Byte.x0a]
                         | None => []
                         end))%list.

(** [filepath.Ext], lowered: from the last dot, when no slash follows it. *)
Definition Ext (name : string) : string :=
  match rev (Split name ".") with
  | e :: _ :: _ => if bool_decide ("/"%char ∈ String.list_ascii_of_string e) then "" else "." ++ e
  | _ => ""
  end.
Definition ToLower (s : string) : string := str_map (fun c => if is_upper c then ascii_of_Z (code c + 32) else c) s.
Definition ca_name (name : string) : bool := bool_decide (ToLower (Ext name) ∈ [".pem"; ".crt"; ".cer"]).

Definition is_dir (s : fs) (p : string) : bool := match s !! p with Some (NDir _) => true | _ => false end.

(** The entries of one directory, in the order [os.ReadDir] gives them. *)
Fixpoint add_entries (s : fs) (p : string) (bundle : bytes) (entries : list string) : result bytes :=
  match entries with
  | [] => Ok bundle
  | e :: entries =>
      if ca_name e && negb (is_dir s (Join p e))
      then let? bundle := add_ca s bundle (Join p e) in add_entries s p bundle entries
      else add_entries s p bundle entries
  end.

Definition add_path (s : fs) (bundle : bytes) (p : string) : result bytes :=
  match call "stat" p match s !! p with Some n => Ok n | None => Err ENOENT end with
  | Err e => Err (Wrap ("upstream CA path " ++ p) e)
  | Ok (NFile _) => add_ca s bundle p
  | Ok (NDir entries) =>
      let? entries := wrap_err ("reading CA directory " ++ p) (call "readdir" p (Ok entries)) in
      add_entries s p bundle entries
  end.

Fixpoint load_cas (s : fs) (bundle : bytes) (paths : list string) : result bytes :=
  match paths with
  | [] => Ok bundle
  | p :: paths => let? bundle := add_path s bundle p in load_cas s bundle paths
  end.
Definition LoadUpstreamCAs (s : fs) (paths : list string) : result bytes := load_cas s [] paths.

(** ** Finalizing *)

Definition compressedMagic : list bytes :=
  [[Byte.x1f; Byte.x8b]; [Byte.x28; Byte.xb5; Byte.x2f; Byte.xfd]; [Byte.xfd; Byte.x37; Byte.x7a; Byte.x58];
   [Byte.x50; Byte.x4b; Byte.x03; Byte.x04]; [Byte.x42; Byte.x5a; Byte.x68]].

Definition isCompressedFile (s : fs) (path : string) : bool :=
  match ReadFile s path with
  | Ok b => existsb (fun magic => bool_decide (magic = take (length magic) b)) compressedMagic
  | Err _ => false
  end.

(** zstd: what an encoder writes for the input; [fault "encode" dst] is a
    failure after [partial] bytes, which the code does not look at. *)
Context (zstd : bytes -> bytes) (partial : string -> nat).

Definition compressFile (s : fs) (src dst : string) : fs :=
  if isCompressedFile s src then
    let uncompDst := TrimSuffix dst ".zst" in
    match fault "rename" src, s !! src with
    | None, Some n => <[uncompDst := n]> (delete src s)
    | _, _ => s
    end
  else
    match ReadFile s src with
    | Err _ => s
    | Ok b =>
        match fault "create" dst, s !! dst with
        | Some _, _ => s
        | None, Some (NDir _) => s
        | None, _ =>
            match fault "encode" dst with
            | Some _ => <[dst := NFile (take (partial dst) (zstd b))]> s
            | None => <[dst := NFile (zstd b)]> s
            end
        end
    end.

Definition exists_ (s : fs) (p : string) : bool :=
  match call "stat" p (Ok tt), s !! p with Ok _, Some _ => true | _, _ => false end.

Definition finalize_one (outputDir : string) (s : fs) (name : string) : fs :=
  let src := Join outputDir name in
  if negb (exists_ s src) then s
  else
    let s := compressFile s src (src ++ ".zst") in
    if exists_ s (src ++ ".zst") then match fault "remove" src with Some _ => s | None => delete src s end else s.

(** [FinalizeOutput] *)
Definition FinalizeOutput (s : fs) (outputDir : string) (compress : bool) : fs :=
  if negb compress then s else foldl (finalize_one outputDir) s ["ledger"; "ca.cert.pem"].
End Host.

(** ** Claiming the relay *)

(** The claim's configuration. *)
Definition claim_config (token : string) (req : BuildRequest) (cas : bytes) (env : option EnvConfig)
    (link : option LinkClaim.BuildLink) : ClaimServer.Config :=
  ClaimServer.mkConfig ClaimServer.TunnelURL token (CaptureMode req)
    (if 0 <? len cas then [string_of cas] else [])
    (if (0 <? len cas) && negb (UpstreamSystemCA req) then Some false else None) env link.

(** What happens after the claim: the relay reports ready, its tunnel closes
    or the time is up, whichever the select takes. *)
Inductive claim_end := Ready | TunnelClosed | TimedOut.

(** What the relay does: [Err] when no tunnel opens, else the claim's answer
    and what follows. *)
Record relay_answer := mkAnswer { ra_claim : result ClaimServer.Identity; ra_text : string; ra_end : claim_end }.

Section Claim.
Context (fault : string -> string -> option error).

(** [ClaimRelay]; [relay] is what the relay makes of the claim it is sent. *)
Definition ClaimRelay (s : fs) (outputDir token : string) (req : BuildRequest) (env : option EnvConfig)
    (link : option LinkClaim.BuildLink) (oldRelayFix : string) (relay : ClaimServer.Config -> result relay_answer) :
    fs * (ClaimServer.Identity + outcome) :=
  match LoadUpstreamCAs fault s (UpstreamCACerts req) with
  | Err e => (s, inr (Failure e))
  | Ok cas =>
      match relay (claim_config token req cas env link) with
      | Err e => (s, inr (Failure (Wrap "connecting to relay" e)))
      | Ok a =>
          match ra_claim a with
          | Err e =>
              if errors_Is e ClaimServer.ErrRejected && Contains (ra_text a) ("unknown field " ++ String dquote "" ++ "build_link" ++ String dquote "")
              then (s, inr (Fixable oldRelayFix (Errorf "the relay predates the build link in its claim (%v)" [ra_text a])))
              else (s, inr (Failure (Wrap "claiming relay" e)))
          | Ok id =>
              match ra_end a with
              | TunnelClosed => (s, inr (Failure (Msg "relay tunnel closed before the relay was ready")))
              | TimedOut => (s, inr (Failure (Msg "relay was claimed but never reported ready")))
              | Ready =>
                  match WriteFile fault s (Join outputDir "ca.cert.pem") (bytes_of (ClaimServer.CACert id)) with
                  | (s, Some e) => (s, inr (Failure e))
                  | (s, None) => (s, inl id)
                  end
              end
          end
      end
  end.
End Claim.

(** ** Waiting *)

Definition exitErr (sig : Collector.CompletionSignal) : outcome :=
  if Collector.ExitCode sig =? 0 then Success
  else ExitError (Collector.ExitCode sig) (firstNonEmpty (Collector.ErrorText sig) (Collector.Message sig)).

Definition HeartbeatTimeout : Z := 30 * 1000000000.

(** One wake of [Collector.Wait] and what [Wait] makes of it: [c] is the
    collector then, [lost] whether the tunnel's end cancelled the wait, [c'] the
    collector when [Status] is asked.  [None] waits on. *)
Definition Wait (outputDir : string) (c : Collector.Collector) (w : Collector.wake) (lost : bool)
    (c' : Collector.Collector) : option outcome :=
  match Collector.Wait_step c HeartbeatTimeout w with
  | None => None
  | Some (sig, None) => Some (exitErr sig)
  | Some (_, Some e) =>
      Some match Collector.completion c' with
           | Some sig => exitErr sig
           | None =>
               if bool_decide (e = Collector.UnresponsiveError HeartbeatTimeout)
               then Fixable ("see " ++ Join outputDir "build-output.log" ++ " for the last thing the build printed")
                      (Wrap "build failed" e)
               else if lost then Failure (Msg "build failed: lost the connection to the relay")
               else Failure e
           end
  end.
End Session.

Module SessionSpec.
Import Translate ClaimEnvironment Session.

(** ** Waiting *)
Section Wait.
Context (cfault : string -> string -> option error).
Context (decode_complete : Streams.source -> option (Z * string * string)).

Abbreviation serve := (Collector.serve cfault decode_complete).

(** What [Wait] returns when the collector's completion is [sig]. *)
Definition told (completion : option Collector.CompletionSignal) (o : outcome) : Prop :=
  match completion with
  | Some sig => o = exitErr sig
  | None => o <> Success /\ forall code detail, o <> ExitError code detail
  end.

Lemma Wait_told cfg0 out0 tee0 reqs more dir w lost o :
  let c := serve (Collector.New cfg0 out0 tee0) reqs in
  let c' := serve c more in
  Wait dir c w lost c' = Some o -> told (Collector.completion c') o.
Proof.
  intros c c'. assert (Hok : CollectorSpec.signal_ok c) by (by apply CollectorSpec.serve_keeps).
  destruct (CollectorSpec.serve_keeps cfault decode_complete c more) as [_ _ Hkeep _ _].
  change (Collector.serve cfault decode_complete c more) with c' in Hkeep. unfold Wait.
  destruct (Collector.Wait_step c HeartbeatTimeout w) as [ [sig [e|] ]|] eqn:Ew; [| |done]; intros [= <-]; unfold told.
  - destruct (Collector.completion c') as [s|]; [done|]. destruct (bool_decide _); [done|]. by destruct lost.
  - assert (Hc : Collector.completion c = Some sig).
    { destruct Hok as [Hd _]. unfold Collector.Wait_step in Ew. destruct w as [|e|now]; [|done|].
      + rewrite Hd in Ew. destruct (Collector.completion c) as [s|]; cbn in Ew; [by injection Ew as ->|done].
      + destruct (HeartbeatTimeout <=? 0); [done|]. destruct (_ && _); [|done].
        destruct (Collector.completion c); [by injection Ew as ->|done]. }
    rewrite Hkeep, Hc by (rewrite Hc; eauto). done.
Qed.

(** C36.  [Session.Wait] tells the build's end truthfully: whatever woke it, the
    completion, the tunnel's end, the context's or a silent guest, and whatever
    requests arrived meanwhile, it returns nil exactly when the collector has
    recorded exit code 0 by then and an [ExitError] exactly when it has
    recorded that other code; a completion that raced the tunnel's teardown is
    never reported as a lost connection. *)
Theorem wait_truthful cfg0 out0 tee0 reqs more dir w lost o :
  let c := serve (Collector.New cfg0 out0 tee0) reqs in
  let c' := serve c more in
  Wait dir c w lost c' = Some o ->
  (o = Success <-> exists sig, Collector.completion c' = Some sig /\ Collector.ExitCode sig = 0) /\
  (forall code, (exists detail, o = ExitError code detail) <->
     exists sig, Collector.completion c' = Some sig /\ Collector.ExitCode sig = code /\ code <> 0) /\
  (is_Some (Collector.completion c') -> forall e, o <> Failure e).
Proof.
  intros c c' Hw. pose proof (Wait_told cfg0 out0 tee0 reqs more dir w lost o Hw) as Ht. fold c c' in Ht.
  unfold told in Ht. destruct (Collector.completion c') as [sig|]; cycle 1.
  { destruct Ht as [Hs He]. split; [by split; [|intros (? & [=] & _)]|].
    split; [|by intros [? [=] ] ]. intros code. split; [by intros [d Hd]; destruct (He code d)|by intros (? & [=] & _)]. }
  subst o. unfold exitErr. destruct (Z.eqb_spec (Collector.ExitCode sig) 0) as [Hz|Hz].
  - split; [split; [eauto|done]|]. split; [|done]. intros code. split; [by intros [? [=] ]|].
    intros (s & [= <-] & <- & Hne). done.
  - split; [split; [done|by intros (s & [= <-] & ?)]|]. split; [|done]. intros code. split.
    + intros [d [= <- <-] ]. eauto.
    + intros (s & [= <-] & <- & _). eauto.
Qed.
End Wait.

(** ** Staging and recording *)
Section Stage.
Context (fault : string -> string -> option error) {MO : MapOrder} (context_of : fs -> string -> BuildContext).

Lemma CopyFile_ok s src dst s' :
  CopyFile fault s src dst = (s', None) -> src <> dst ->
  exists b, s !! src = Some (NFile b) /\ s' = <[dst := NFile b]> s.
Proof.
  unfold CopyFile, ReadFile, call. intros H Hne.
  destruct (fault "open" src); [done|]. destruct (s !! src) as [n|] eqn:Hs; [|done].
  destruct (fault "create" dst); [done|].
  destruct (s !! dst) as [ [b0|es]|]; [|done|];
    (rewrite lookup_insert_ne, Hs in H by done; destruct (fault "read" src); [done|];
     destruct n as [b|es']; [|done]; destruct (fault "write" dst); [done|];
     injection H as <-; exists b; split; [done|]; by rewrite insert_insert_eq).
Qed.

Lemma WriteFile_ok s p b s' : WriteFile fault s p b = (s', None) -> s' = <[p := NFile b]> s.
Proof.
  unfold WriteFile. destruct (fault "create" p); [done|].
  destruct (s !! p) as [ [b0|es]|]; [|done|]; destruct (fault "write" p); try done; by intros [= <-].
Qed.

Lemma MkdirAll_ok s p s' : MkdirAll fault s p = (s', None) ->
  exists es, s' = <[p := NDir es]> s /\ s' !! p = Some (NDir es).
Proof.
  unfold MkdirAll. destruct (fault "mkdir" p); [done|]. destruct (s !! p) as [ [b|es]|] eqn:E; [done| |]; intros [= <-].
  - exists es. by rewrite insert_id.
  - exists []. by rewrite lookup_insert_eq.
Qed.

(** Where the staged script's bytes come from. *)
Definition staged (s : fs) (req : BuildRequest) (b : bytes) : Prop :=
  if negb (bool_decide (Script req = "")) then s !! Script req = Some (NFile b)
  else if translates req then
    exists image text, translate_file fault context_of s (Containerfile req) (ContextDir req) = Ok (image, text) /\ b = bytes_of text
  else if negb (bool_decide (ContextDir req = "")) && fileExists fault s (Join (ContextDir req) (script_name req))
  then s !! Join (ContextDir req) (script_name req) = Some (NFile b)
  else b = noop req.

(** The paths the staged script must not be. *)
Definition separate (req : BuildRequest) (workDir : string) : Prop :=
  let dst := Join workDir (script_name req) in
  Script req <> dst /\ Join (ContextDir req) (script_name req) <> dst /\ Containerfile req <> dst.

Lemma StageBuildScript_ok s req workDir s1 script :
  separate req workDir -> StageBuildScript fault context_of s req workDir = (s1, script, None) ->
  script = Join workDir (script_name req) /\ exists b, staged s req b /\ s1 = <[script := NFile b]> s.
Proof.
  intros (H1 & H2 & H3). unfold StageBuildScript, staged. destruct (negb (bool_decide (Script req = ""))).
  { destruct (CopyFile fault s (Script req) _) as [s' e] eqn:E. intros [= <- <- ->].
    apply CopyFile_ok in E as (b & Hb & ->); [|done]. split; [done|]. by exists b. }
  destruct (translates req).
  { destruct (translate_file fault context_of s _ _) as [ [image text]|e]; [|done].
    destruct (WriteFile fault s _ _) as [s' e] eqn:E. intros [= <- <- ->].
    apply WriteFile_ok in E as ->. split; [done|]. exists (bytes_of text). eauto. }
  destruct (negb (bool_decide (ContextDir req = "")) && _).
  { destruct (CopyFile fault s _ _) as [s' e] eqn:E. intros [= <- <- ->].
    apply CopyFile_ok in E as (b & Hb & ->); [|done]. split; [done|]. by exists b. }
  destruct (WriteFile fault s _ _) as [s' e] eqn:E. intros [= <- <- ->].
  apply WriteFile_ok in E as ->. split; [done|]. by exists (noop req).
Qed.

(** The copies must not be the originals. *)
Definition apart (outputDir script containerfile : string) : Prop :=
  let dir := Join outputDir "inputs" in
  NoDup [dir; Join dir "Containerfile"; Join dir "build.sh"; script; containerfile].

Lemma RecordInputs_ok s outputDir req script s' :
  apart outputDir script (Containerfile req) -> RecordInputs fault s outputDir req script = (s', None) ->
  if translates req
  then exists cf sh, s !! Containerfile req = Some (NFile cf) /\ s !! script = Some (NFile sh) /\
         s' !! Join (Join outputDir "inputs") "Containerfile" = Some (NFile cf) /\
         s' !! Join (Join outputDir "inputs") "build.sh" = Some (NFile sh)
  else s' = s.
Proof using context_of.
  intros Ha. unfold RecordInputs. destruct (translates req); cbn [negb]; [|by intros [= <-] ].
  unfold apart in Ha. set (dir := Join outputDir "inputs") in *. rewrite !NoDup_cons in Ha.
  destruct Ha as (Hd & Hc & Hb & Hs & _).
  destruct (MkdirAll fault s dir) as [s0 [e|] ] eqn:Em; [done|]. apply MkdirAll_ok in Em as (es & -> & _).
  destruct (CopyFile fault _ (Containerfile req) _) as [s1 [e|] ] eqn:E1; [done|].
  apply CopyFile_ok in E1 as (cf & Hcf & ->); [|set_solver]. intros E2.
  apply CopyFile_ok in E2 as (sh & Hsh & ->); [|set_solver].
  rewrite lookup_insert_ne in Hcf by set_solver.
  rewrite !lookup_insert_ne in Hsh by set_solver.
  exists cf, sh. split_and!; [done|done| |].
  - rewrite lookup_insert_ne by set_solver. by rewrite lookup_insert_eq.
  - by rewrite lookup_insert_eq.
Qed.

(** The inputs a build altered are kept next to what they became.  When
    staging and recording both succeed, the staged script is, in this order of
    precedence, the given script, the translation of the Containerfile, the
    context's own script, or the no-op; if and only if it was translated, the
    output's inputs directory holds the Containerfile's bytes and the script's,
    which is the translation; and nothing else in the output is touched when
    it was not. *)
Theorem inputs_recorded s req workDir outputDir s1 script s2 :
  separate req workDir -> apart outputDir (Join workDir (script_name req)) (Containerfile req) ->
  StageBuildScript fault context_of s req workDir = (s1, script, None) ->
  RecordInputs fault s1 outputDir req script = (s2, None) ->
  exists b, staged s req b /\ s1 !! script = Some (NFile b) /\
  if translates req
  then exists cf image text,
         s !! Containerfile req = Some (NFile cf) /\ b = bytes_of text /\
         translate_file fault context_of s (Containerfile req) (ContextDir req) = Ok (image, text) /\
         s2 !! Join (Join outputDir "inputs") "Containerfile" = Some (NFile cf) /\
         s2 !! Join (Join outputDir "inputs") "build.sh" = Some (NFile (bytes_of text))
  else s2 = <[script := NFile b]> s.
Proof.
  intros Hsep Hap Hst Hrec. destruct (StageBuildScript_ok _ _ _ _ _ Hsep Hst) as [Hscript (b & Hb & Hs1)].
  rewrite <- Hscript in Hap. pose proof (RecordInputs_ok _ _ _ _ _ Hap Hrec) as Hr.
  exists b. split; [done|]. split; [by rewrite Hs1, lookup_insert_eq|].
  destruct (translates req) eqn:Et; [|by rewrite Hr, Hs1]. destruct Hr as (cf & sh & Hcf & Hsh & H1 & H2).
  rewrite Hs1 in Hcf, Hsh. rewrite lookup_insert_eq in Hsh. injection Hsh as <-.
  rewrite lookup_insert_ne in Hcf by (rewrite Hscript; apply not_eq_sym, Hsep).
  unfold staged in Hb. rewrite Et in Hb. unfold translates in Et. apply andb_true_iff in Et as [Et _].
  apply andb_true_iff in Et as [Et _]. rewrite Et in Hb. cbn [negb] in Hb. destruct Hb as (image & text & Ht & ->).
  exists cf, image, text. done.
Qed.
End Stage.


(** ** Finalizing *)
Section Finalize.
Context (fault : string -> string -> option error) (zstd : bytes -> bytes) (partial : string -> nat).

Abbreviation finalize_one := (finalize_one fault zstd partial).

Lemma zst_ne s : (s ++ ".zst")%string <> s.
Proof. intros H. apply (f_equal String.length) in H. rewrite str_length_app in H. cbn in H. lia. Qed.

Lemma TrimSuffix_zst s : TrimSuffix (s ++ ".zst") ".zst" = s.
Proof.
  unfold TrimSuffix. destruct (CutSuffix (s ++ ".zst") ".zst") as [r|] eqn:E.
  - apply CutSuffix_Some in E. cbn [from_option id].
    apply (f_equal str_rev) in E. rewrite !str_rev_app in E. apply str_app_inj_l in E.
    apply (f_equal str_rev) in E. by rewrite !str_rev_involutive in E.
  - assert (H : CutSuffix (s ++ ".zst") ".zst" = Some s) by by apply CutSuffix_Some. by rewrite H in E.
Qed.

Lemma exists_none (s : fs) p : s !! p = None -> exists_ fault s p = false.
Proof. intros H. unfold exists_, call. destruct (fault "stat" p); [done|]. by rewrite H. Qed.

(** Compressing loses nothing while the encoder does not fail: the file is
    still there or its encoding is, and no other file changes. *)
Lemma finalize_one_keeps s dir name b :
  let src := Join dir name in
  s !! src = Some (NFile b) -> s !! (src ++ ".zst")%string = None -> fault "encode" (src ++ ".zst") = None ->
  let s' := finalize_one dir s name in
  (s' !! src = Some (NFile b) \/ s' !! (src ++ ".zst")%string = Some (NFile (zstd b))) /\
  forall p, p <> src -> p <> (src ++ ".zst")%string -> s' !! p = s !! p.
Proof.
  intros src Hs Hz Hf. unfold Session.finalize_one. fold src. pose proof (zst_ne src) as Hne.
  destruct (exists_ fault s src); cbn [negb]; [|split; [by left|done] ].
  unfold compressFile. rewrite TrimSuffix_zst. destruct (isCompressedFile fault s src).
  - assert (Hsame : (match fault "rename" src, s !! src with
                     | None, Some n => <[src := n]> (delete src s) | _, _ => s end) = s).
    { destruct (fault "rename" src); [done|]. rewrite Hs. apply map_eq. intros p.
      destruct (decide (p = src)) as [->|Hp]; [by rewrite lookup_insert_eq|by rewrite lookup_insert_ne, lookup_delete_ne]. }
    rewrite Hsame. rewrite (exists_none _ _ Hz). split; [by left|done].
  - destruct (ReadFile fault s src) as [b'|e] eqn:Er; cycle 1.
    { rewrite (exists_none _ _ Hz). split; [by left|done]. }
    assert (b' = b) as ->.
    { unfold ReadFile, call in Er. destruct (fault "read" src); [done|]. rewrite Hs in Er. by injection Er as ->. }
    destruct (fault "create" (src ++ ".zst")).
    { rewrite (exists_none _ _ Hz). split; [by left|done]. }
    rewrite Hz, Hf. destruct (exists_ fault _ (src ++ ".zst")).
    + destruct (fault "remove" src).
      * split; [right; by rewrite lookup_insert_eq|]. intros p Hp1 Hp2. by rewrite lookup_insert_ne.
      * split; [right; by rewrite lookup_delete_ne, lookup_insert_eq|].
        intros p Hp1 Hp2. by rewrite lookup_delete_ne, lookup_insert_ne.
    + split; [right; by rewrite lookup_insert_eq|]. intros p Hp1 Hp2. by rewrite lookup_insert_ne.
Qed.
End Finalize.

(** When the encoder fails, with a full disk say, the original is removed all
    the same and what is left of the ledger is what the encoder had written. *)
Example finalize_loses_ledger :
  let fault := fun op _ => if decide (op = "encode") then Some (Sentinel "no space left on device") else None in
  FinalizeOutput fault (fun b => b) (fun _ => 1%nat) {[ "/out/ledger" := NFile [Byte.x42; Byte.x57; Byte.x01] ]} "/out" true =
  {[ "/out/ledger.zst" := NFile [Byte.x42] ]}.
Proof. vm_compute. reflexivity. Qed.

(** ** Upstream certificates *)
Section Certificates.
Context (fault : string -> string -> option error).

(** A certificate file's part of the bundle: its bytes and, when they do not
    end in one, a newline. *)
Definition terminated (data : bytes) : bytes :=
  (data ++ match last data with Some b => if decide (b = Byte.x0a) then [] else [Byte.x0a] | None => [] end)%list.

Lemma terminated_end data : data = [] /\ terminated data = [] \/ last (terminated data) = Some Byte.x0a.
Proof.
  unfold terminated. destruct (last data) as [b|] eqn:El.
  - right. destruct (decide (b = Byte.x0a)) as [->|]; [by rewrite app_nil_r|apply last_snoc].
  - left. apply last_None in El as ->. done.
Qed.

(** Every file of a loaded directory or path list is in the bundle whole and
    ended, in order, and nothing else is. *)
Lemma add_entries_spec s p entries : forall bundle b,
  add_entries fault s p bundle entries = Ok b ->
  exists parts, Forall2 (fun e data => s !! Join p e = Some (NFile data))
    (List.filter (fun e => ca_name e && negb (is_dir s (Join p e))) entries) parts /\
    b = (bundle ++ mjoin (terminated <$> parts))%list.
Proof.
  induction entries as [|e entries IH]; intros bundle b; cbn [add_entries List.filter].
  { intros [= <-]. exists []. split; [constructor|]. by rewrite app_nil_r. }
  destruct (ca_name e && negb (is_dir s (Join p e))); [|apply IH].
  unfold add_ca, ReadFile, call. destruct (fault "read" (Join p e)); [done|].
  destruct (s !! Join p e) as [ [data|]|] eqn:Hs; try done. cbn [wrap_err result_bind]. intros H.
  apply IH in H as (parts & Hp & ->). exists (data :: parts). split; [by constructor|].
  rewrite fmap_cons, mjoin_cons. unfold terminated at 2. by rewrite <- !app_assoc.
Qed.
End Certificates.

(** ** Claiming *)

(** The CA certificate is written only once the relay is claimed and ready;
    a claim that fails leaves the output as it was. *)
Lemma ClaimRelay_spec fault s dir token req env link fix_ relay s' res :
  ClaimRelay fault s dir token req env link fix_ relay = (s', res) ->
  let answer := fun cas a =>
    LoadUpstreamCAs fault s (UpstreamCACerts req) = Ok cas /\ relay (claim_config token req cas env link) = Ok a in
  match res with
  | inl id => exists cas a, answer cas a /\ ra_claim a = Ok id /\ ra_end a = Ready /\
                s' = <[Join dir "ca.cert.pem" := NFile (bytes_of (ClaimServer.CACert id))]> s
  | inr o => o <> Success /\ (s' = s \/ exists cas a id, answer cas a /\ ra_claim a = Ok id /\ ra_end a = Ready)
  end.
Proof.
  unfold ClaimRelay. cbv zeta. destruct (LoadUpstreamCAs fault s (UpstreamCACerts req)) as [cas|e]; [|by intros [= <- <-]; auto].
  destruct (relay _) as [a|e] eqn:Ea; [|by intros [= <- <-]; auto].
  destruct (ra_claim a) as [id|e] eqn:Ec; [|by destruct (_ && _); intros [= <- <-]; auto].
  destruct (ra_end a) eqn:Ee; [|by intros [= <- <-]; auto..].
  destruct (WriteFile fault s _ _) as [s1 [e|] ] eqn:Ew; intros [= <- <-].
  - split; [done|]. right. eauto 10.
  - apply WriteFile_ok in Ew as ->. exists cas, a. done.
Qed.
End SessionSpec.

(** ** Witnesses *)
Module SessionExamples.
Import Translate ClaimEnvironment Session SessionSpec.

#[local] Instance ex_order : MapOrder := {| range _ m := map_to_list m; range_perm _ m := reflexivity _ |}.

(** The relay posts a completion while its tunnel goes down. *)
Definition ex_complete : Collector.Request :=
  Collector.mkRequest "POST" "/v1/complete" "Bearer t" (Streams.mkSource [] EOF true) "" 5 [].
Definition ex_decode (code : Z) : Streams.source -> option (Z * string * string) := fun _ => Some (code, "done", "").
Definition ex_cfg : Collector.Config := Collector.mkConfig "t" None [] None 0.

Lemma wait_truthful_witness :
  exists o, Wait "/out" (Collector.New ex_cfg ∅ None) (Collector.WContext (Msg "context canceled")) true
      (Collector.serve (fun _ _ => None) (ex_decode 3) (Collector.New ex_cfg ∅ None) [ex_complete]) = Some o /\
    exists detail, o = ExitError 3 detail.
Proof.
  destruct (Wait "/out" (Collector.New ex_cfg ∅ None) (Collector.WContext (Msg "context canceled")) true
      (Collector.serve (fun _ _ => None) (ex_decode 3) (Collector.New ex_cfg ∅ None) [ex_complete])) as [o|] eqn:Ew;
    [|vm_compute in Ew; discriminate Ew].
  exists o. split; [reflexivity|].
  destruct (wait_truthful (fun _ _ => None) (ex_decode 3) ex_cfg ∅ None [] [ex_complete] "/out"
    (Collector.WContext (Msg "context canceled")) true o Ew) as (_ & Hc & _).
  apply Hc. exists (Collector.mkSignal 3 "done" "" 5). split; [vm_compute; reflexivity|]. split; [reflexivity|discriminate].
Defined.

Definition ex_req : BuildRequest := mkRequest "" "/src" "linux" "/src/Dockerfile" "" [] true.
Definition ex_text : string := "FROM alpine" ++ nl ++ "RUN make" ++ nl.
Definition ex_fs : fs := {[ "/src/Dockerfile" := NFile (bytes_of ex_text) ]}.
Definition ex_context (s : fs) (dir : string) : BuildContext :=
  {| ctx_isDir _ := false; ctx_walk _ := TDir "" []; ctx_glob _ := Ok [] |}.

Lemma inputs_recorded_witness :
  exists s1 s2 script, StageBuildScript (fun _ _ => None) ex_context ex_fs ex_req "/work" = (s1, script, None) /\
    RecordInputs (fun _ _ => None) s1 "/out" ex_req script = (s2, None) /\
    exists cf, s2 !! "/out/inputs/Containerfile" = Some (NFile cf) /\ ex_fs !! "/src/Dockerfile" = Some (NFile cf).
Proof.
  destruct (StageBuildScript (fun _ _ => None) ex_context ex_fs ex_req "/work") as [ [s1 script] [e|] ] eqn:Es;
    [vm_compute in Es; discriminate Es|].
  destruct (RecordInputs (fun _ _ => None) s1 "/out" ex_req script) as [s2 [e|] ] eqn:Er.
  { vm_compute in Es. injection Es as <- <-. vm_compute in Er. discriminate Er. }
  exists s1, s2, script. split; [reflexivity|]. split; [exact Er|].
  assert (Hsep : separate ex_req "/work") by (vm_compute; repeat split; discriminate).
  assert (Hap : apart "/out" (Session.Join "/work" (script_name ex_req)) (Containerfile ex_req)).
  { unfold apart. apply (bool_decide_unpack _). vm_compute. exact I. }
  destruct (inputs_recorded (fun _ _ => None) ex_context ex_fs ex_req "/work" "/out" s1 script s2 Hsep Hap Es Er)
    as (b & _ & _ & cf & image & text & Hcf & _ & _ & H1 & _).
  exists cf. split; [exact H1|exact Hcf].
Defined.
End SessionExamples.
