(* ===== verification/Fmt.v ===== *)
(** * Text the commands print

    The verbs of package [fmt] the inspect command uses, base64 and the
    rounding of [%.1f]. *)
From stdpp Require Import sorting.
From S2P Require Import Prelude Text Crypto.

#[local] Open Scope string_scope.
#[local] Open Scope Z_scope.

Module Fmt.

(** [%3d], [%-8s]: widths count characters, which are bytes in what they are
    used on. *)
Fixpoint spaces (n : nat) : string := match n with O => "" | S n' => " " ++ spaces n' end.
Definition pad_left (w : nat) (s : string) : string := spaces (w - String.length s) ++ s.
Definition pad_right (w : nat) (s : string) : string := s ++ spaces (w - String.length s).

Fixpoint repeat_str (s : string) (n : nat) : string :=
  match n with O => "" | S n' => s ++ repeat_str s n' end.

(** [%v] of a [[]string]. *)
Definition strings_v (l : list string) : string := "[" ++ String.concat " " l ++ "]".

Definition newline : string := String "010" "".
Definition ESC : string := String "027" "".

(** The map order of [%v] is that of the keys. *)
Definition key_le (a b : string * string) : Prop := String.leb a.1 b.1 = true.
#[export] Instance key_le_dec a b : Decision (key_le a b).
Proof. unfold key_le. apply _. Defined.

Definition map_v (kvs : list (string * string)) : string :=
  "map[" ++ String.concat " " ((fun kv => kv.1 ++ ":" ++ kv.2) <$> kvs) ++ "]".

(** [%v] of a decoded value, [fmt.Sprint].  The keys of a [map[any]any] are
    kept in the order they are given, since fmt's depends on addresses. *)
Fixpoint any_v (v : any) : string :=
  match v with
  | ANull => "<nil>"
  | ABool b => if b then "true" else "false"
  | AInt z => Itoa z
  | ABytes b => strings_v ((fun c => Itoa (byte_val c)) <$> b)
  | AText s => s
  | AArray l => strings_v (List.map any_v l)
  | AMap m => map_v (List.map (fun kv => (any_v (fst kv), any_v (snd kv))) m)
  | AStrMap m => map_v (merge_sort key_le (List.map (fun kv => (fst kv, any_v (snd kv))) m))
  end.

(** [base64.StdEncoding.EncodeToString] *)
Definition b64_digit (z : Z) : string :=
  String.substring (Z.to_nat (z mod 64)) 1 "ABCDEFGHIJKLMNOPQRSTUVWXYZabcdefghijklmnopqrstuvwxyz0123456789+/".
Fixpoint base64 (b : bytes) : string :=
  match b with
  | x :: y :: z :: b' =>
      let v := byte_val x * 65536 + byte_val y * 256 + byte_val z in
      b64_digit (v / 262144) ++ b64_digit (v / 4096) ++ b64_digit (v / 64) ++ b64_digit v ++ base64 b'
  | [x; y] =>
      let v := byte_val x * 65536 + byte_val y * 256 in
      b64_digit (v / 262144) ++ b64_digit (v / 4096) ++ b64_digit (v / 64) ++ "="
  | [x] => let v := byte_val x * 65536 in b64_digit (v / 262144) ++ b64_digit (v / 4096) ++ "=="
  | [] => ""
  end.

Example base64_1 : base64 (bytes_of "Ma") = "TWE=". Proof. reflexivity. Qed.
Example base64_2 : base64 (bytes_of "light work.") = "bGlnaHQgd29yay4=". Proof. reflexivity. Qed.

(** Rounding [n / d] to the nearest integer, ties to even. *)
Definition round_even (n d : Z) : Z :=
  let q := n / d in let r := n mod d in
  if 2 * r <? d then q else if d <? 2 * r then q + 1 else if Z.even q then q else q + 1.

(** [float64(b)] of a nonnegative integer: 53 significant bits. *)
Definition float64 (b : Z) : Z :=
  if b <? 2 ^ 53 then b
  else let e := Z.log2 b - 52 in round_even b (2 ^ e) * 2 ^ e.

(** [fmt.Sprintf("%.1f", float64(b) / float64(d))] for a power of two [d]. *)
Definition tenths (b d : Z) : string :=
  let t := round_even (10 * float64 b) d in Itoa (t / 10) ++ "." ++ Itoa (t mod 10).

(** [humanBytes] (src/cmd/warden/inspect_impl.go) *)
Definition humanBytes (b : Z) : string :=
  if 2 ^ 30 <=? b then tenths b (2 ^ 30) ++ " GB"
  else if 2 ^ 20 <=? b then tenths b (2 ^ 20) ++ " MB"
  else if 2 ^ 10 <=? b then tenths b (2 ^ 10) ++ " KB"
  else Itoa b ++ " B".

Example human_1 : humanBytes 1023 = "1023 B". Proof. reflexivity. Qed.
Example human_2 : humanBytes 1536 = "1.5 KB". Proof. reflexivity. Qed.
Example human_3 : humanBytes (2 ^ 30 - 1) = "1024.0 MB". Proof. vm_compute. reflexivity. Qed.

(** The printed tenths are within half a tenth of the value. *)
Lemma round_even_near n d : 0 < d -> Z.abs (d * round_even n d - n) * 2 <= d.
Proof.
  intros Hd. unfold round_even. pose proof (Z.div_mod n d ltac:(lia)). pose proof (Z.mod_pos_bound n d Hd).
  destruct (Z.ltb_spec (2 * (n mod d)) d); [lia|]. destruct (Z.ltb_spec d (2 * (n mod d))); [lia|].
  destruct (Z.even _); lia.
Qed.
End Fmt.
