(* ===== verification/Failure.v ===== *)
(** * Failures with a remedy (src/driver/fixable.go)

    [Fixable fix e] is a [FixableError] with message [e]; [Plain e] any other
    error. *)
From S2P Require Import Prelude.

Module Failure.
Inductive failure := Fixable (fix_ : string) (e : error) | Plain (e : error).

(** A check that returned no error, or the failure it returned. *)
Abbreviation check := (option failure).

(** [if err := check; err != nil { return err }] *)
Definition and_then (c : check) (k : check) : check := match c with Some f => Some f | None => k end.

Definition attempt {A} (r : result A) : A + failure := match r with Ok a => inl a | Err e => inr (Plain e) end.

Lemma and_then_None c k : and_then c k = None <-> c = None /\ k = None.
Proof. destruct c; naive_solver. Qed.
End Failure.
