(* ===== verification/Gpt.v ===== *)
(** * The GPT reader (src/driver/firecracker/gpt.go)

    It parses the partition table of an untrusted image.  The image is what
    [ReadAt] gives of it, [size] what the file system says its size is;
    slicing is checked, with [None] for Go's run-time panic. *)
From S2P Require Import Prelude Text Dhcp Failure.

#[local] Open Scope Z_scope.
#[local] Open Scope go_scope.

Module Gpt.
Import Dhcp Failure.

(** ** CRC-32 ([crc32.ChecksumIEEE]) *)
Fixpoint crc_bits (n : nat) (c : Z) : Z :=
  match n with
  | O => c
  | S n' => crc_bits n' (if Z.testbit c 0 then Z.lxor (Z.shiftr c 1) 0xEDB88320 else Z.shiftr c 1)
  end.
Definition crc_step (c : Z) (b : byte) : Z := crc_bits 8 (Z.lxor c (byte_val b)).
Definition crc32 (data : bytes) : Z := Z.lxor (foldl crc_step 0xFFFFFFFF data) 0xFFFFFFFF.

Example crc32_check : crc32 (bytes_of "123456789") = 0xCBF43926.
Proof. vm_compute. reflexivity. Qed.

(** ** The table *)
Definition gptSector : Z := 512.
Definition gptMaxEntries : Z := 1024.
Definition gptMaxEntSize : Z := 4096.

Definition gptTypeRootX86_64 : string := "4f68bce3-e8cd-4db1-96e7-fbcaf984b709".
Definition gptTypeLinuxData : string := "0fc63daf-8483-4772-8e79-3d69d8477de4".
Definition nilGUID : string := "00000000-0000-0000-0000-000000000000".

Record gptPartition := mkPartition { Index : Z; TypeGUID : string; PartUUID : string }.

(** [binary.LittleEndian.Uint16/32/64] of [l[i:j]]. *)
Definition le (l : bytes) (i j : Z) : option Z := le_decode <$> sub l i j.

(** [%0nx] of a value below [16^n]. *)
Fixpoint hex_digits (n : nat) (z : Z) : string :=
  match n with
  | O => ""
  | S n' => (hex_digits n' (z / 16) ++ String.substring (Z.to_nat (z mod 16)) 1 "0123456789abcdef")%string
  end.
(** [%x] of bytes. *)
Definition hex_bytes (b : bytes) : string := String.concat "" ((fun x => hex_digits 2 (byte_val x)) <$> b).

(** [guidString]; the digits are lower case already. *)
Definition guidString (b : bytes) : option string :=
  a ← le b 0 4; c ← le b 4 6; d ← le b 6 8; e ← sub b 8 10; f ← sub b 10 16;
  Some (hex_digits 8 a ++ "-" ++ hex_digits 4 c ++ "-" ++ hex_digits 4 d ++ "-" ++ hex_bytes e ++ "-" ++ hex_bytes f)%string.

Section Read.
(** [n] bytes at an offset; a short read is an error. *)
Context (ReadAt : Z -> Z -> result bytes).

(** [readGPTHeader] *)
Definition readGPTHeader (size : Z) : option (result bytes) :=
  if size <? 2 * gptSector then Some (Err (Msg "too small to hold a GPT")) else
  match ReadAt gptSector gptSector with
  | Err e => Some (Err (Wrap "reading the GPT header" e))
  | Ok hdr =>
      magic ← sub hdr 0 8;
      if negb (bool_decide (string_of magic = "EFI PART"%string)) then Some (Err (Msg "no GPT header (not a GPT disk image)")) else
      hdrSize ← le hdr 12 16;
      if (hdrSize <? 92) || (hdrSize >? gptSector)
      then Some (Err (Errorf "GPT header size %d is invalid" [Itoa hdrSize])) else
      want ← le hdr 16 20;
      check ← sub hdr 0 hdrSize;
      check ← copy_to check 16 20 (make 4);
      if negb (crc32 check =? want) then Some (Err (Msg "GPT header checksum mismatch"))
      else Some (Ok hdr)
  end.

(** The entries' loop: [k] entries left, the next being number [i]. *)
Fixpoint read_entries (arr : bytes) (entSize : Z) (k : nat) (i : Z) : option (list gptPartition) :=
  match k with
  | O => Some []
  | S k' =>
      e ← from arr (i * entSize);
      t ← sub e 0 16; typ ← guidString t;
      rest ← (if decide (typ = nilGUID) then Some []
              else u ← sub e 16 32; uuid ← guidString u; Some [mkPartition (i + 1) typ uuid]);
      parts ← read_entries arr entSize k' (i + 1);
      Some (rest ++ parts)
  end.

(** [readGPT] *)
Definition readGPT (size : Z) : option (result (list gptPartition)) :=
  r ← readGPTHeader size;
  match r with
  | Err e => Some (Err e)
  | Ok hdr =>
      entLBA ← le hdr 72 80; n ← le hdr 80 84; entSize ← le hdr 84 88; entCRC ← le hdr 88 92;
      if (n >? gptMaxEntries) || (entSize <? 128) || (entSize >? gptMaxEntSize) || negb (entSize mod 8 =? 0)
      then Some (Err (Errorf "GPT partition array (%d entries of %d bytes) is invalid" [Itoa n; Itoa entSize])) else
      let total := to_int64 (n * entSize) in
      if (entLBA <? 2) || (entLBA >? wrap_u 64 (size / gptSector)) ||
         (to_int64 (to_int64 (to_int64 entLBA * gptSector) + total) >? size)
      then Some (Err (Msg "GPT partition array lies outside the image")) else
      match ReadAt (to_int64 (to_int64 entLBA * gptSector)) total with
      | Err e => Some (Err (Wrap "reading the GPT partition array" e))
      | Ok arr =>
          if negb (crc32 arr =? entCRC) then Some (Err (Msg "GPT partition array checksum mismatch"))
          else Ok <$> read_entries arr entSize (Z.to_nat n) 0
      end
  end.

(** [pickRoot] *)
Fixpoint pick_type (parts : list gptPartition) (types : list string) : result gptPartition :=
  match types with
  | [] => Err (Msg "no x86-64 root or Linux filesystem partition")
  | typ :: types' =>
      match List.filter (fun p => bool_decide (TypeGUID p = typ)) parts with
      | [p] => Ok p
      | [] => pick_type parts types'
      | ms => Err (Errorf "%d partitions of type %s; cannot tell which is root" [Itoa (len ms); typ])
      end
  end.
Definition pickRoot (parts : list gptPartition) : result gptPartition :=
  pick_type parts [gptTypeRootX86_64; gptTypeLinuxData].

Definition rootFix : string :=
  "use a GPT cloud image with one root (or one Linux filesystem) partition, such as ubuntu:24.04, or pass another with --image".

(** [rootPartUUID] of an image that opened; [stat] is its size. *)
Definition rootPartUUID (image : string) (stat : result Z) : option (string + failure) :=
  match stat with
  | Err e => Some (inr (Plain e))
  | Ok size =>
      r ← readGPT size;
      Some match r with
           | Err e => inr (Fixable rootFix (Wrap image e))
           | Ok parts =>
               match pickRoot parts with
               | Err e => inr (Fixable rootFix (Wrap image e))
               | Ok p => inl (PartUUID p)
               end
           end
  end.
End Read.
End Gpt.
