(* ===== verification/GptSpec.v ===== *)
(** * What the GPT reader accepts

    It never panics and never looks outside the image, whatever the image
    holds, and it returns exactly the used entries of a table whose checksums
    match. *)
From S2P Require Import Prelude Text Dhcp Failure Gpt.

#[local] Open Scope Z_scope.

Module GptSpec.
Import Dhcp Failure Gpt.

(** ** Checked slices *)
Lemma slice_slice {A} (l : list A) i j a b :
  0 <= i -> 0 <= a -> a <= b -> b <= j - i -> slice (slice l i j) a b = slice l (i + a) (i + b).
Proof.
  intros. unfold slice. rewrite skipn_firstn_comm, take_take, drop_drop. f_equal; [lia|]. f_equal. lia.
Qed.

Lemma le_some l i j : 0 <= i -> i <= j -> j <= len l -> le l i j = Some (le_decode (slice l i j)).
Proof. intros. unfold le. by rewrite sub_some. Qed.

Lemma guidString_some b : len b = 16 -> is_Some (guidString b).
Proof. intros. unfold guidString. rewrite !le_some by lia. cbn [mbind option_bind]. rewrite !sub_some by lia. cbn. eauto. Qed.

(** The checked header: its checksum field zeroed. *)
Definition zeroed (hdr : bytes) (s : Z) : bytes := slice hdr 0 16 ++ make 4 ++ slice hdr 20 s.

Lemma copy_to_zeroed hdr s : 92 <= s <= len hdr -> copy_to (slice hdr 0 s) 16 20 (make 4) = Some (zeroed hdr s).
Proof.
  intros Hs. unfold copy_to, zeroed. rewrite (proj2 (Z.leb_le 20 (len (slice hdr 0 s)))) by (rewrite len_slice; lia).
  change ((0 <=? 16) && (16 <=? 20) && true) with true. cbv iota zeta.
  change (Z.to_nat ((20 - 16) `min` len (make 4))) with 4%nat. change (16 + (20 - 16) `min` len (make 4)) with 20.
  f_equal. f_equal; [|f_equal].
  - unfold slice. rewrite Z.sub_0_r, !drop_0, take_take. f_equal. lia.
  - unfold slice. rewrite Z.sub_0_r, drop_0, skipn_firstn_comm. f_equal. lia.
Qed.

(** ** No panic, no read outside *)
Section Safe.
Context (ReadAt : Z -> Z -> result bytes).
Context (ReadAt_len : forall off n b, ReadAt off n = Ok b -> len b = n).

Lemma header_some size :
  exists r, readGPTHeader ReadAt size = Some r /\ (forall hdr, r = Ok hdr -> len hdr = 512 /\ 2 * gptSector <= size).
Proof using ReadAt_len.
  unfold readGPTHeader. destruct (Z.ltb_spec size (2 * gptSector)); [by eexists|].
  destruct (ReadAt gptSector gptSector) as [hdr|e] eqn:Er; [|by eexists]. apply ReadAt_len in Er. unfold gptSector in Er.
  rewrite sub_some by lia. cbn [mbind option_bind]. case_match; [by eexists|]. rewrite (le_some hdr 12 16), (le_some hdr 16 20) by lia. cbn [mbind option_bind].
  case_match eqn:Eb; [by eexists|]. apply orb_false_iff in Eb as [H1 H2]. apply Z.ltb_ge in H1. rewrite Z.gtb_ltb in H2. apply Z.ltb_ge in H2.
  unfold gptSector in H2. rewrite sub_some by lia. cbn [mbind option_bind].
  rewrite copy_to_zeroed by lia. cbn [mbind option_bind].
  case_match; (eexists; split; [reflexivity|]); [by intros ? [=]|]. by intros h [= <-].
Qed.

Lemma entries_some arr es k i :
  32 <= es -> 0 <= i -> (i + Z.of_nat k) * es <= len arr -> is_Some (read_entries arr es k i).
Proof using Type.
  intros Hes. revert i. induction k as [|k IH]; intros i Hi Hl; [by eexists|]. cbn [read_entries].
  assert (Hn : i * es + es <= len arr) by nia. unfold from. rewrite sub_some by nia. cbn [mbind option_bind].
  set (e := slice arr _ _). assert (He : es <= len e) by (subst e; rewrite len_slice; nia).
  rewrite !sub_some by lia. cbn [mbind option_bind].
  destruct (guidString_some (slice e 0 16)) as [t ->]; [rewrite len_slice; lia|]. cbn [mbind option_bind].
  destruct (guidString_some (slice e 16 32)) as [u Hu]; [rewrite len_slice; lia|].
  destruct (IH (i + 1)) as [ps Hps]; [lia|nia|]. rewrite Hps. case_decide; cbn [mbind option_bind]; [eauto|]. rewrite Hu. cbn. eauto.
Qed.

Lemma readGPT_some size : int64_ok size -> is_Some (readGPT ReadAt size).
Proof using ReadAt_len.
  intros Hsz. unfold readGPT. destruct (header_some size) as (r & -> & Hr). cbn [mbind option_bind].
  destruct r as [hdr|e]; [|eauto]. destruct (Hr hdr eq_refl) as [Hl Hs]. unfold gptSector in Hs.
  rewrite (le_some hdr 72 80), (le_some hdr 80 84), (le_some hdr 84 88), (le_some hdr 88 92) by lia. cbn [mbind option_bind].
  set (L := le_decode (slice hdr 72 80)). set (n := le_decode (slice hdr 80 84)). set (es := le_decode (slice hdr 84 88)).
  case_match eqn:E1; [eauto|]. case_match eqn:E2; [eauto|]. destruct (ReadAt _ _) as [arr|e] eqn:Er; [|eauto].
  case_match; [eauto|]. rewrite !orb_false_iff in E1. destruct E1 as [ [ [H1 H2] H3] _].
  rewrite Z.gtb_ltb in H1, H3. apply Z.ltb_ge in H1, H2, H3. unfold gptMaxEntries, gptMaxEntSize in *.
  assert (Hn : 0 <= n) by (subst n; apply le_decode_range). apply ReadAt_len in Er.
  rewrite to_int64_id in Er by (unfold int64_ok; nia).
  destruct (entries_some arr es (Z.to_nat n) 0) as [ps ->]; [lia|lia|rewrite Z2Nat.id by lia; lia|]. cbn. eauto.
Qed.
End Safe.

(** The table's extent is inside the image, without overflow. *)
Lemma extent_inside size L n es :
  1024 <= size -> size < 2 ^ 62 -> 0 <= L < 2 ^ 64 -> 0 <= n <= 1024 -> 128 <= es <= 4096 ->
  (L <? 2) || (L >? wrap_u 64 (size / gptSector)) ||
    (to_int64 (to_int64 (to_int64 L * gptSector) + to_int64 (n * es)) >? size) = false <->
  2 <= L /\ L * 512 + n * es <= size.
Proof.
  intros Hs Hsz HL Hn Hes. assert (Hp : 0 <= n * es <= 1024 * 4096) by nia. revert Hp. generalize (n * es) as total. intros total Hp.
  unfold gptSector, wrap_u, int64_ok in *.
  rewrite (Z.mod_small (size / 512)) by div_lia. rewrite (to_int64_id total) by (unfold int64_ok; lia).
  rewrite !orb_false_iff, !Z.gtb_ltb, !Z.ltb_ge. split.
  - intros [ [H1 H2] H3]. split; [done|]. assert (L * 512 <= size) by div_lia.
    rewrite (to_int64_id L), (to_int64_id (L * 512)), (to_int64_id (L * 512 + total)) in H3 by (unfold int64_ok; lia). done.
  - intros [H1 H2]. assert (L <= size / 512) by (apply Z.div_le_lower_bound; lia). split; [done|].
    rewrite (to_int64_id L), (to_int64_id (L * 512)), (to_int64_id (L * 512 + total)) by (unfold int64_ok; lia). done.
Qed.

(** Reads outside the image are never asked for. *)
Lemma header_agree R R' size :
  (forall off n, 0 <= off -> 0 <= n -> off + n <= size -> R off n = R' off n) ->
  readGPTHeader R size = readGPTHeader R' size.
Proof.
  intros Ha. unfold readGPTHeader. destruct (Z.ltb_spec size (2 * gptSector)) as [|H]; [done|].
  unfold gptSector in *. by rewrite (Ha 512 512) by lia.
Qed.

(** Safety on untrusted images.  Whatever the image holds, as long as a
    read returns the bytes asked for or an error, reading its partition table
    does not panic; and it only reads inside the image: two images that agree
    on every range inside the size give the same result.  The size is below
    2^62, where the sum of the bounds check cannot overflow an int64. *)
Theorem gpt_safe R size :
  (forall off n b, R off n = Ok b -> len b = n) -> - 2 ^ 63 <= size < 2 ^ 62 ->
  is_Some (readGPT R size) /\
  forall R', (forall off n b, R' off n = Ok b -> len b = n) ->
    (forall off n, 0 <= off -> 0 <= n -> off + n <= size -> R off n = R' off n) ->
    readGPT R size = readGPT R' size.
Proof.
  intros Hl Hsz. split; [apply readGPT_some; [done|unfold int64_ok; lia]|]. intros R' _ Ha. unfold readGPT. rewrite <- (header_agree R R' size Ha).
  destruct (header_some R Hl size) as (r & -> & Hr). cbn [mbind option_bind]. destruct r as [hdr|e]; [|done].
  destruct (Hr hdr eq_refl) as [Hh Hs]. unfold gptSector in Hs.
  rewrite (le_some hdr 72 80), (le_some hdr 80 84), (le_some hdr 84 88), (le_some hdr 88 92) by lia. cbn [mbind option_bind].
  case_match eqn:E1; [done|]. case_match eqn:E2; [done|].
  rewrite !orb_false_iff in E1. destruct E1 as [ [ [H1 H2] H3] _].
  rewrite Z.gtb_ltb in H1, H3. apply Z.ltb_ge in H1, H2, H3. unfold gptMaxEntries, gptMaxEntSize in *.
  pose proof (le_decode_range (slice hdr 72 80)) as HL. rewrite len_slice in HL by lia.
  pose proof (le_decode_range (slice hdr 80 84)) as Hn.
  apply extent_inside in E2 as [HL2 Hin]; [|lia|lia|lia|lia|lia].
  set (L := le_decode (slice hdr 72 80)) in *. set (n := le_decode (slice hdr 80 84)) in *. set (es := le_decode (slice hdr 84 88)) in *.
  unfold gptSector. rewrite (to_int64_id L), (to_int64_id (L * 512)), (to_int64_id (n * es)) by (unfold int64_ok; nia). by rewrite Ha by nia.
Qed.

(** ** What it accepts *)

(** The image of a file. *)
Definition reader (img : bytes) (off n : Z) : result bytes :=
  if (0 <=? off) && (0 <=? n) && (off + n <=? len img) then Ok (slice img off (off + n)) else Err EOF.

Lemma reader_ok img off n : 0 <= off -> 0 <= n -> off + n <= len img -> reader img off n = Ok (slice img off (off + n)).
Proof. intros. unfold reader. by rewrite (proj2 (Z.leb_le 0 off)), (proj2 (Z.leb_le 0 n)), (proj2 (Z.leb_le _ _)) by lia. Qed.

Lemma reader_len img off n b : reader img off n = Ok b -> len b = n.
Proof.
  unfold reader. case_match eqn:E; [|done]. rewrite !andb_true_iff, !Z.leb_le in E. intros [= <-]. rewrite len_slice; lia.
Qed.

(** A primary table in an image: [n] entries of [es] bytes at block [L]. *)
Record table (img : bytes) (L n es : Z) : Prop := {
  t_size : 1024 <= len img;
  t_magic : slice img 512 520 = bytes_of "EFI PART";
  t_header : exists s, s = le_decode (slice img 524 528) /\ 92 <= s <= 512 /\
    crc32 (slice img 512 528 ++ make 4 ++ slice img 532 (512 + s)) = le_decode (slice img 528 532);
  t_lba : le_decode (slice img 584 592) = L;
  t_n : le_decode (slice img 592 596) = n;
  t_es : le_decode (slice img 596 600) = es;
  t_bounds : n <= 1024 /\ 128 <= es <= 4096 /\ es mod 8 = 0;
  t_inside : 2 <= L /\ L * 512 + n * es <= len img;
  t_crc : crc32 (slice img (L * 512) (L * 512 + n * es)) = le_decode (slice img 600 604) }.

(** The GUID in 16 bytes, and the used entries of a table. *)
Definition guid (b : bytes) : string := default "" (guidString b).

Definition entry (img : bytes) (base es i : Z) : list gptPartition :=
  let e := base + i * es in
  if decide (guid (slice img e (e + 16)) = nilGUID) then []
  else [mkPartition (i + 1) (guid (slice img e (e + 16))) (guid (slice img (e + 16) (e + 32)))].

Definition used_entries (img : bytes) (L n es : Z) : list gptPartition :=
  mjoin (entry img (L * 512) es <$> seqZ 0 n).

Lemma guidString_guid b : len b = 16 -> guidString b = Some (guid b).
Proof. intros H. unfold guid. by destruct (guidString_some b H) as [s ->]. Qed.

Lemma read_entries_spec img base es total k i :
  32 <= es -> 0 <= base -> 0 <= i -> (i + Z.of_nat k) * es <= total -> base + total <= len img ->
  read_entries (slice img base (base + total)) es k i =
  Some (mjoin (entry img base es <$> seqZ i (Z.of_nat k))).
Proof.
  intros Hes Hb. revert i. induction k as [|k IH]; intros i Hi Ht Hl; [done|]. cbn [read_entries].
  assert (Hlen : len (slice img base (base + total)) = total) by (rewrite len_slice; nia).
  assert (Hn : i * es + es <= total) by nia. unfold from. rewrite Hlen, sub_some by (rewrite ?Hlen; nia). cbn [mbind option_bind].
  rewrite slice_slice by nia.
  assert (He : len (slice img (base + i * es) (base + total)) = total - i * es) by (rewrite len_slice; nia).
  rewrite (sub_some _ 0 16), (sub_some _ 16 32) by lia. cbn [mbind option_bind]. rewrite !slice_slice by nia.
  rewrite !Z.add_0_r. rewrite !guidString_guid by (rewrite len_slice; nia). cbn [mbind option_bind].
  rewrite seqZ_cons by lia. replace (Z.pred (Z.of_nat (S k))) with (Z.of_nat k) by lia. change (Z.succ i) with (i + 1).
  rewrite (IH (i + 1)) by nia. rewrite fmap_cons, mjoin_cons. unfold entry at 2.
  case_decide; by cbn [mbind option_bind].
Qed.

Lemma header_exact img hdr :
  readGPTHeader (reader img) (len img) = Some (Ok hdr) <->
  hdr = slice img 512 1024 /\ 1024 <= len img /\ slice img 512 520 = bytes_of "EFI PART" /\
  exists s, s = le_decode (slice img 524 528) /\ 92 <= s <= 512 /\
    crc32 (slice img 512 528 ++ make 4 ++ slice img 532 (512 + s)) = le_decode (slice img 528 532).
Proof.
  unfold readGPTHeader, gptSector. destruct (Z.ltb_spec (len img) (2 * 512)) as [Hs|Hs].
  { split; [done|]. lia. }
  rewrite reader_ok by lia. change (512 + 512) with 1024. set (h := slice img 512 1024).
  assert (Hh : len h = 512) by (subst h; rewrite len_slice; lia).
  rewrite sub_some by lia. cbn [mbind option_bind].
  rewrite (le_some h 12 16), (le_some h 16 20) by lia. cbn [mbind option_bind]. subst h. rewrite !slice_slice by lia.
  change (512 + 0) with 512. change (512 + 8) with 520. change (512 + 12) with 524. change (512 + 16) with 528.
  change (512 + 20) with 532. set (h := slice img 512 1024) in *. set (s := le_decode (slice img 524 528)).
  case_match eqn:Em.
  { split; [done|]. intros (_ & _ & H & _). rewrite H in Em. vm_compute in Em. done. }
  apply negb_false_iff, bool_decide_eq_true in Em.
  assert (Hm : slice img 512 520 = bytes_of "EFI PART") by (rewrite <- Em; by rewrite bytes_of_string_of).
  case_match eqn:Es.
  { split; [done|]. intros (_ & _ & _ & s' & -> & Hb & _). fold s in Hb. rewrite Z.gtb_ltb in Es.
    apply orb_true_iff in Es as [Es|Es]; apply Z.ltb_lt in Es; lia. }
  apply orb_false_iff in Es as [H1 H2]. rewrite Z.gtb_ltb in H2. apply Z.ltb_ge in H1, H2.
  rewrite sub_some by lia. cbn [mbind option_bind]. rewrite copy_to_zeroed by lia. cbn [mbind option_bind].
  assert (Hz : zeroed h s = slice img 512 528 ++ make 4 ++ slice img 532 (512 + s)).
  { unfold zeroed. subst h. by rewrite !slice_slice by lia. }
  rewrite Hz. case_match eqn:Ec.
  - split; [done|]. intros (_ & _ & _ & s' & -> & _ & Hc). fold s in Hc. rewrite Hc, Z.eqb_refl in Ec. done.
  - apply negb_false_iff, Z.eqb_eq in Ec. split; [intros [= <-]|by intros (-> & _)].
    split_and!; [done|lia|done|]. by exists s.
Qed.

(** C32.  The reader's language.  An image's partition table is read as [parts]
    exactly when the image holds a table: the magic, a header size in range
    with a matching checksum, at most 1024 entries of an allowed size lying
    inside the image from block 2 on, with a matching checksum; and [parts]
    are its used entries, in order, numbered from one. *)
Theorem gpt_exact img parts :
  len img < 2 ^ 62 ->
  readGPT (reader img) (len img) = Some (Ok parts) <->
  exists L n es, table img L n es /\ parts = used_entries img L n es.
Proof.
  intros Hsz. unfold readGPT.
  destruct (header_some (reader img) (reader_len img) (len img)) as (r & Hr & _). rewrite Hr. cbn [mbind option_bind].
  destruct r as [hdr|e].
  2: { split; [done|]. intros (L & n & es & [Ht1 Ht2 Ht3 _ _ _ _ _ _] & _). exfalso.
       pose proof (proj2 (header_exact img (slice img 512 1024)) (conj eq_refl (conj Ht1 (conj Ht2 Ht3)))). congruence. }
  apply header_exact in Hr as (-> & H1024 & Hm & Hhdr).
  assert (Hh : len (slice img 512 1024) = 512) by (rewrite len_slice; lia).
  rewrite (le_some _ 72 80), (le_some _ 80 84), (le_some _ 84 88), (le_some _ 88 92) by lia. cbn [mbind option_bind].
  rewrite !slice_slice by lia. change (512 + 72) with 584. change (512 + 80) with 592. change (512 + 84) with 596.
  change (512 + 88) with 600. change (512 + 92) with 604.
  set (L := le_decode (slice img 584 592)). set (n := le_decode (slice img 592 596)). set (es := le_decode (slice img 596 600)).
  assert (HL : 0 <= L < 2 ^ 64).
  { subst L. pose proof (le_decode_range (slice img 584 592)) as H. by rewrite len_slice in H by lia. }
  assert (Hn : 0 <= n) by (subst n; apply le_decode_range).
  assert (Hiff : forall P : Prop, (table img L n es -> P) -> (exists L' n' es', table img L' n' es' /\ parts = used_entries img L' n' es') -> P).
  { intros P HP (L' & n' & es' & Ht & _). destruct (Ht) as [_ _ _ <- <- <- _ _ _]. by apply HP. }
  unfold gptMaxEntries, gptMaxEntSize. case_match eqn:E1.
  { split; [done|]. apply Hiff. intros [_ _ _ _ _ _ (Hb1 & Hb2 & Hb3) _ _]. rewrite !orb_true_iff, !Z.gtb_ltb, !Z.ltb_lt in E1.
    rewrite Hb3 in E1. cbn in E1. destruct E1 as [ [ [?|?]|?]|?]; [lia..|done]. }
  rewrite !orb_false_iff, !Z.gtb_ltb, !Z.ltb_ge, negb_false_iff, Z.eqb_eq in E1. destruct E1 as [ [ [B1 B2] B3] B4].
  pose proof (extent_inside (len img) L n es H1024 Hsz HL ltac:(lia) ltac:(lia)) as Hext.
  case_match eqn:E2.
  { split; [done|]. apply Hiff. intros [_ _ _ _ _ _ _ Hin _]. by apply Hext in Hin. }
  destruct (proj1 Hext eq_refl) as [I1 I2]. unfold gptSector.
  rewrite (to_int64_id L), (to_int64_id (L * 512)), (to_int64_id (n * es)) by (unfold int64_ok; nia).
  rewrite reader_ok by nia. case_match eqn:E3.
  { split; [done|]. apply Hiff. intros [_ _ _ _ _ _ _ _ Hc]. by rewrite Hc, Z.eqb_refl in E3. }
  apply negb_false_iff, Z.eqb_eq in E3.
  rewrite (read_entries_spec img (L * 512) es (n * es) (Z.to_nat n) 0) by (rewrite ?Z2Nat.id; nia).
  rewrite Z2Nat.id by lia. cbn [fmap option_fmap option_map]. fold (used_entries img L n es). split.
  - intros [= <-]. exists L, n, es. split; [|done]. by split.
  - intros (L' & n' & es' & Ht & ->). by destruct Ht as [_ _ _ <- <- <- _ _ _].
Qed.

(** The root partition is the one of the root type, else the one Linux one. *)
Lemma pickRoot_spec parts p :
  pickRoot parts = Ok p <->
  let typed t := List.filter (fun p => bool_decide (TypeGUID p = t)) parts in
  typed gptTypeRootX86_64 = [p] \/ (typed gptTypeRootX86_64 = [] /\ typed gptTypeLinuxData = [p]).
Proof.
  unfold pickRoot. cbn [pick_type]. cbv zeta. destruct (List.filter _ parts) as [|p1 [|p2 l] ]; [|naive_solver..].
  destruct (List.filter _ parts) as [|q1 [|q2 l] ]; naive_solver.
Qed.
End GptSpec.

Module GptExamples.
Import Dhcp Failure Gpt GptSpec.

Definition linux_type : bytes :=
  [Byte.xaf; Byte.x3d; Byte.xc6; Byte.x0f; Byte.x83; Byte.x84; Byte.x72; Byte.x47; Byte.x8e; Byte.x79;
   Byte.x3d; Byte.x69; Byte.xd8; Byte.x47; Byte.x7d; Byte.xe4].
Definition ex_entries : bytes := linux_type ++ replicate 16 Byte.xab ++ make 96 ++ make 128.
Definition ex_prefix (crc : Z) : bytes :=
  bytes_of "EFI PART" ++ make 4 ++ le_encode 4 92 ++ le_encode 4 crc ++ make 52 ++
  le_encode 8 2 ++ le_encode 4 2 ++ le_encode 4 128 ++ le_encode 4 (crc32 ex_entries).
Definition ex_image : bytes := Eval vm_compute in
  make 512 ++ ex_prefix (crc32 (ex_prefix 0)) ++ make 420 ++ ex_entries.

Lemma ex_table : table ex_image 2 2 128.
Proof.
  split; [vm_compute; discriminate|vm_compute; reflexivity| |vm_compute; reflexivity..| | |vm_compute; reflexivity].
  - exists 92. split; [vm_compute; reflexivity|]. split; [lia|vm_compute; reflexivity].
  - split_and!; [lia..|reflexivity].
  - split; [lia|vm_compute; discriminate].
Qed.

Lemma gpt_exact_witness :
  len ex_image < 2 ^ 62 /\
  readGPT (reader ex_image) (len ex_image) =
    Some (Ok [mkPartition 1 gptTypeLinuxData "abababab-abab-abab-abab-abababababab"]).
Proof.
  split; [vm_compute; reflexivity|]. apply (gpt_exact ex_image); [vm_compute; reflexivity|].
  exists 2, 2, 128. split; [exact ex_table|vm_compute; reflexivity].
Defined.

Lemma gpt_safe_witness : is_Some (readGPT (reader (firstn 1100 ex_image)) 1100).
Proof.
  apply (gpt_safe (reader (firstn 1100 ex_image)) 1100); [apply reader_len|]. lia.
Defined.

Example ex_root : rootPartUUID (reader ex_image) "disk.raw" (Ok (len ex_image)) = Some (inl "abababab-abab-abab-abab-abababababab"%string).
Proof. vm_compute. reflexivity. Qed.
End GptExamples.
