(* ===== verification/Slots.v ===== *)
(** * Firecracker's network slots (src/driver/firecracker/slots.go)

    The names and addresses of a slot, and the commands [warden setup] runs as
    root: each is its argument list, so what they install can be read off it. *)
From S2P Require Import Prelude Text Failure.

#[local] Open Scope string_scope.
#[local] Open Scope Z_scope.

Module Slots.
Import Failure.

Definition MaxSlots : Z := 256.
Definition DefaultSlots : Z := 16.
Definition upstreamNet : string := "100.64.88.0/22".
(** [relaycfg.DefaultPort] *)
Definition DefaultPort : Z := 8301.

Definition chainIn : string := "WARDEN-FC-IN".
Definition chainFwd : string := "WARDEN-FC-FWD".
Definition chainOut : string := "WARDEN-FC-OUT".
Definition chainRaw : string := "WARDEN-FC-RAW".
Definition chainNAT : string := "WARDEN-FC-NAT".
Definition chainIPv6 : string := "WARDEN-FC6".
Definition nftTable : string := "warden_fc".

(** ** Names and addresses *)
Definition Bridge (s : Z) : string := "wfc" ++ Itoa s ++ "b".
Definition RelayTap (s : Z) : string := "wfc" ++ Itoa s ++ "r".
Definition GuestTap (s : Z) : string := "wfc" ++ Itoa s ++ "g".
Definition UpstreamTap (s : Z) : string := "wfc" ++ Itoa s ++ "u".

(** Go's [/] and [%] truncate. *)
Definition slotAddr (i off : Z) : string :=
  let n := 4 * i + off in "100.64." ++ Itoa (88 + Z.quot n 256) ++ "." ++ Itoa (Z.rem n 256).
Definition HostAddr (s : Z) : string := slotAddr s 1.
Definition RelayAddr (s : Z) : string := slotAddr s 2.
Definition ClaimAddr (s : Z) : string := RelayAddr s ++ ":" ++ Itoa DefaultPort.
Definition LockName (s : Z) : string := "firecracker-slot-" ++ Itoa s.

Definition ValidateSlotCount (n : Z) : check :=
  if (n <? 1) || (n >? MaxSlots)
  then Some (Fixable ("pass --slots between 1 and " ++ Itoa MaxSlots)
                (Errorf "--slots %d is out of range (1-%d)" [Itoa n; Itoa MaxSlots]))
  else None.

(** ** Steps *)
Record step := mkStep { args : list string; probe : option (list string); ignore_ : bool; untilFail : bool }.

Definition cmd (a : list string) : step := mkStep a None false false.
Definition tolerant (a : list string) : step := mkStep a None true false.
Definition until_fail (a : list string) : step := mkStep a None false true.

Record setupParams := mkParams {
  slots : Z; user : string; uid : Z; uplink : string; uplinkMTU : Z; addrOK : gset Z }.

Definition ipt (a : list string) : list string := "iptables" :: "-w" :: a.
Definition ip6t (a : list string) : list string := "ip6tables" :: "-w" :: a.
Definition sysctl (kv : list string) : step := cmd ("sysctl" :: "-qw" :: kv).

Definition hooks : list string := ["INPUT"; "FORWARD"; "OUTPUT"].

Definition flush_chain (c : string * string * string) : list step :=
  let '(table, hook, chain) := c in
  [until_fail (ipt ["-t"; table; "-D"; hook; "-j"; chain]); tolerant (ipt ["-t"; table; "-F"; chain]);
   tolerant (ipt ["-t"; table; "-X"; chain])].

(** [flushSteps] *)
Definition flushSteps : list step :=
  (flat_map flush_chain
     [("filter", "INPUT", chainIn); ("filter", "FORWARD", chainFwd); ("filter", "OUTPUT", chainOut);
      ("raw", "PREROUTING", chainRaw); ("nat", "POSTROUTING", chainNAT)] ++
   List.map (fun hook => until_fail (ip6t ["-D"; hook; "-j"; chainIPv6])) hooks ++
   [tolerant (ip6t ["-F"; chainIPv6]); tolerant (ip6t ["-X"; chainIPv6]);
    tolerant ["nft"; "delete"; "table"; "bridge"; nftTable]])%list.

(** [slotSteps]: a slot's interfaces and sysctls, then its rules. *)
Definition slot_links (s : Z) (p : setupParams) : list step :=
  let b := Bridge s in let r := RelayTap s in let g := GuestTap s in let u := UpstreamTap s in
  ([mkStep ["ip"; "link"; "add"; b; "type"; "bridge"] (Some ["ip"; "link"; "show"; b]) false false;
    sysctl [("net.ipv6.conf." ++ b ++ ".disable_ipv6=1")%string]] ++
   flat_map (fun tap =>
     [mkStep ["ip"; "tuntap"; "add"; "dev"; tap; "mode"; "tap"; "user"; user p] (Some ["ip"; "link"; "show"; tap]) false false;
      sysctl [("net.ipv6.conf." ++ tap ++ ".disable_ipv6=1")%string]]) [r; g; u] ++
   [cmd ["ip"; "link"; "set"; r; "master"; b]; cmd ["ip"; "link"; "set"; g; "master"; b]] ++
   (if bool_decide (s ∈ addrOK p) then []
    else [cmd ["ip"; "addr"; "flush"; "dev"; u]; cmd ["ip"; "addr"; "add"; (HostAddr s ++ "/30")%string; "dev"; u]]) ++
   [sysctl [("net.ipv4.conf." ++ b ++ ".rp_filter=1")%string; ("net.ipv4.conf." ++ u ++ ".rp_filter=1")%string;
            ("net.ipv4.conf." ++ b ++ ".arp_ignore=8")%string]] ++
   List.map (fun l => cmd ["ip"; "link"; "set"; l; "up"]) [b; r; g; u])%list.

Definition slot_rules (s : Z) (p : setupParams) (uid : string) : list step :=
  let b := Bridge s in let r := RelayTap s in let g := GuestTap s in let u := UpstreamTap s in
  let relay := RelayAddr s in let mss := Itoa (uplinkMTU p - 40) in
  [cmd ["nft"; "add"; "rule"; "bridge"; nftTable; "forward"; "iifname"; r; "oifname"; g; "accept"];
   cmd ["nft"; "add"; "rule"; "bridge"; nftTable; "forward"; "iifname"; g; "oifname"; r; "accept"];
   cmd (ipt ["-A"; chainIn; "-i"; b; "-j"; "DROP"]);
   cmd (ipt ["-A"; chainIn; "-i"; u; "-s"; relay; "-m"; "conntrack"; "--ctstate"; "ESTABLISHED"; "-j"; "ACCEPT"]);
   cmd (ipt ["-A"; chainFwd; "-i"; u; "-s"; relay; "-o"; uplink p; "-p"; "tcp"; "--tcp-flags"; "SYN,RST"; "SYN";
             "-j"; "TCPMSS"; "--clamp-mss-to-pmtu"]);
   cmd (ipt ["-A"; chainFwd; "-i"; uplink p; "-o"; u; "-d"; relay; "-p"; "tcp"; "--tcp-flags"; "SYN,RST"; "SYN";
             "-m"; "tcpmss"; "--mss"; Itoa (uplinkMTU p - 39) ++ ":65535"; "-j"; "TCPMSS"; "--set-mss"; mss]);
   cmd (ipt ["-A"; chainFwd; "-i"; u; "-s"; relay; "-o"; uplink p; "-j"; "ACCEPT"]);
   cmd (ipt ["-A"; chainFwd; "-i"; uplink p; "-o"; u; "-d"; relay; "-m"; "conntrack"; "--ctstate"; "ESTABLISHED,RELATED";
             "-j"; "ACCEPT"]);
   cmd (ipt ["-A"; chainFwd; "-i"; u; "-j"; "DROP"]);
   cmd (ipt ["-A"; chainFwd; "-i"; b; "-o"; b; "-j"; "ACCEPT"]);
   cmd (ipt ["-A"; chainOut; "-o"; u; "-d"; relay; "-p"; "tcp"; "--dport"; Itoa DefaultPort;
             "-m"; "conntrack"; "--ctstate"; "NEW"; "-m"; "owner"; "--uid-owner"; uid; "-j"; "ACCEPT"]);
   cmd (ipt ["-t"; "raw"; "-A"; chainRaw; "-i"; b; "-j"; "CT"; "--zone"; Itoa (s + 1)])].

Definition slotSteps (s : Z) (p : setupParams) (uid : string) : list step :=
  (slot_links s p ++ slot_rules s p uid)%list.

Definition create_chains : list step :=
  [cmd ["nft"; "add"; "table"; "bridge"; nftTable];
   cmd ["nft"; "add"; "chain"; "bridge"; nftTable; "input"; "{"; "type"; "filter"; "hook"; "input"; "priority"; "0"; ";";
        "policy"; "accept"; ";"; "}"];
   cmd ["nft"; "add"; "rule"; "bridge"; nftTable; "input"; "iifname"; "wfc*"; "drop"];
   cmd ["nft"; "add"; "chain"; "bridge"; nftTable; "forward"; "{"; "type"; "filter"; "hook"; "forward"; "priority"; "0"; ";";
        "policy"; "accept"; ";"; "}"];
   cmd (ipt ["-N"; chainIn]); cmd (ipt ["-N"; chainFwd]); cmd (ipt ["-N"; chainOut]);
   cmd (ipt ["-t"; "raw"; "-N"; chainRaw]); cmd (ipt ["-t"; "nat"; "-N"; chainNAT]); cmd (ip6t ["-N"; chainIPv6])].

Definition final_rules (p : setupParams) : list step :=
  [cmd ["nft"; "add"; "rule"; "bridge"; nftTable; "forward"; "iifname"; "wfc*"; "drop"];
   cmd ["nft"; "add"; "rule"; "bridge"; nftTable; "forward"; "oifname"; "wfc*"; "drop"];
   cmd (ipt ["-A"; chainIn; "-i"; "wfc+"; "-j"; "DROP"]);
   cmd (ipt ["-A"; chainFwd; "-i"; "wfc+"; "-j"; "DROP"]);
   cmd (ipt ["-A"; chainFwd; "-o"; "wfc+"; "-j"; "DROP"]);
   cmd (ipt ["-A"; chainOut; "-o"; "wfc+"; "-d"; upstreamNet; "-m"; "conntrack"; "--ctstate"; "ESTABLISHED"; "-j"; "ACCEPT"]);
   cmd (ipt ["-A"; chainOut; "-o"; "wfc+"; "-d"; upstreamNet; "-p"; "icmp"; "-m"; "conntrack"; "--ctstate"; "RELATED";
             "-j"; "ACCEPT"]);
   cmd (ipt ["-A"; chainOut; "-o"; "wfc+"; "-j"; "DROP"]);
   cmd (ipt ["-t"; "nat"; "-A"; chainNAT; "-s"; upstreamNet; "-o"; uplink p; "-j"; "MASQUERADE"]);
   cmd (ip6t ["-A"; chainIPv6; "-i"; "wfc+"; "-j"; "DROP"]);
   cmd (ip6t ["-A"; chainIPv6; "-o"; "wfc+"; "-j"; "DROP"])].

Definition jumps : list step :=
  ([cmd (ipt ["-I"; "INPUT"; "1"; "-j"; chainIn]); cmd (ipt ["-I"; "FORWARD"; "1"; "-j"; chainFwd]);
    cmd (ipt ["-I"; "OUTPUT"; "1"; "-j"; chainOut]); cmd (ipt ["-t"; "raw"; "-I"; "PREROUTING"; "1"; "-j"; chainRaw]);
    cmd (ipt ["-t"; "nat"; "-I"; "POSTROUTING"; "1"; "-j"; chainNAT])] ++
   List.map (fun hook => cmd (ip6t ["-I"; hook; "1"; "-j"; chainIPv6])) hooks)%list.

(** [setupSteps]; the loop counts [i] up to [p.slots]. *)
Definition setupSteps (p : setupParams) : list step :=
  (flushSteps ++ create_chains ++
   flat_map (fun s => slotSteps s p (Itoa (uid p))) (seqZ 0 (slots p)) ++
   final_rules p ++ jumps ++ [sysctl ["net.ipv4.ip_forward=1"]])%list.

(** ** Parsing command output *)

(** The fields that follow an occurrence of [k]. *)
Fixpoint after (k : string) (f : list string) : list string :=
  match f with
  | a :: ((b :: _) as f') => if decide (a = k) then b :: after k f' else after k f'
  | _ => []
  end.

Definition newline_char : ascii := "010".

(** [onlyAddr] *)
Definition onlyAddr (out cidr : string) : bool :=
  bool_decide (flat_map (fun line => after "inet" (Fields line)) (Split out newline_char) = [cidr]).

(** [uplinkFromRoute] *)
Definition uplinkFromRoute (out : string) : string :=
  List.hd "" (flat_map (fun line => after "dev" (Fields line)) (Split out newline_char)).

(** [forwardPolicyAccept] *)
Definition forwardPolicyAccept (iptablesS : string) : bool :=
  existsb (fun line => bool_decide (TrimSpace line = "-P FORWARD ACCEPT")) (Split iptablesS newline_char).
End Slots.
