(* ===== verification/Host.v ===== *)
(** * Firecracker's setup and preflight (src/driver/firecracker/setup.go,
    preflight.go, posture.go)

    [warden setup] checks the host, takes every slot's lock and runs the command
    list of Slots; a build's preflight finds the slots it may use.  The machine
    is what [Host] says of it: commands change its state, files are read. *)
From S2P Require Import Prelude Text Netip BuildLink Session Failure Slots.

#[local] Open Scope string_scope.
#[local] Open Scope Z_scope.

(** The [host] interface.  [run] and [output] run a command, the second for its
    standard output; [lockAs] takes a lock file as a user: true when another
    process holds it, else it is now ours. *)
Class Host (W : Type) := {
  run : W -> list string -> W * option error;
  output : W -> list string -> W * result string;
  readFile : W -> string -> result string;
  exists_ : W -> string -> bool;
  openRW : W -> string -> option error;
  lookPath : W -> string -> option error;
  getenv : W -> string -> string;
  lookupOwner : W -> string -> result (Z * bool);
  userHome : W -> string -> result string;
  lockAs : W -> string -> string -> W * result bool;
  unlock : W -> string -> W;
  euid : W -> Z }.

Module Host.
Import BuildLink Failure Slots.

Definition Join := Session.Join.

Definition fixable {A} (fix_ : string) (e : error) : A + failure := inr (Fixable fix_ e).
Definition plain {A} (e : error) : A + failure := inr (Plain e).

(** [if x, err := m; err != nil { return err }] *)
Definition try {W A B} (m : W * (A + failure)) (k : W -> A -> W * (B + failure)) : W * (B + failure) :=
  match m with
  | (w, inl a) => k w a
  | (w, inr f) => (w, inr f)
  end.

Section Setup.
Context {W : Type} {HW : Host W}.

Record owner := mkOwner { oname : string; ouid : Z }.

Definition kvmFix : string :=
  "enable KVM: load kvm_intel or kvm_amd (under WSL2, set nestedVirtualization=true in .wslconfig)".

(** [setupOwner] *)
Definition setupOwner (w : W) : owner + failure :=
  let name := getenv w "SUDO_USER" in
  if bool_decide (name = "") || bool_decide (name = "root") then
    fixable "run it with sudo as the user builds run as: sudo warden setup --driver firecracker"
      (Msg "warden setup --driver firecracker gives the slots to the user who ran sudo, and there is none")
  else
    match lookupOwner w name with
    | Err e => plain e
    | Ok (u, inKVM) =>
        if negb inKVM then
          fixable ("sudo usermod -aG kvm " ++ name ++ ", then log in again")
            (Errorf "%s is not in the kvm group, so builds cannot open /dev/kvm" [name])
        else inl (mkOwner name u)
    end.

(** *** Posture *)
Definition firewalldFix : string :=
  "put the upstream TAPs in firewalld's trusted zone: firewall-cmd --permanent --zone=trusted --add-interface=wfc+u && firewall-cmd --reload".
Definition forwardPolicyFix : string :=
  "set the filter FORWARD policy to DROP and keep it across reboots: iptables -P FORWARD DROP && ip6tables -P FORWARD DROP".

Record nftChain := mkChain { Family : string; Table : string; Name : string; Hook : string; Policy : string }.

(** [nftForwardDrops] of the parsed chains. *)
Definition blocks_forward (c : nftChain) : bool :=
  if negb (bool_decide (Hook c = "forward")) || negb (bool_decide (Policy c = "drop")) then false
  else
    let iptablesOwn := (bool_decide (Family c = "ip") || bool_decide (Family c = "ip6")) &&
                       bool_decide (Table c = "filter") && bool_decide (Name c = "FORWARD") in
    negb (iptablesOwn || (bool_decide (Family c = "bridge") && bool_decide (Table c = nftTable))).

(** [nftForwardDrops]; [parse_nft] is the JSON decoder, an entry without a chain
    [None]. *)
Definition nftForwardDrops (parse_nft : string -> result (list (option nftChain))) (out : string) : result (list nftChain) :=
  match parse_nft out with
  | Err e => Err (Wrap "parsing nft chains" e)
  | Ok doc => Ok (filter (fun c => blocks_forward c = true) (omap id doc))
  end.

Definition quoted_wfc : string := String "034" ("wfc*u" ++ String "034" "").
Definition nftDropFix (drops : list nftChain) : string :=
  "let the relays' upstream traffic through your nftables forward chain(s): " ++
  Text.Join (flat_map (fun c =>
    let at_ := Family c ++ " " ++ Table c ++ " " ++ Name c in
    [ "nft insert rule " ++ at_ ++ " iifname " ++ quoted_wfc ++ " accept";
      "nft insert rule " ++ at_ ++ " oifname " ++ quoted_wfc ++ " ct state established,related accept" ]) drops) " && ".

Definition requiredTools : list string := ["ip"; "nft"; "iptables"; "ip6tables"; "sysctl"].

Definition check_tools (w : W) : check :=
  match List.find (fun t => negb (bool_decide (lookPath w t = None))) requiredTools with
  | Some t => Some (Fixable "install it (iproute2, nftables, iptables, procps)" (Errorf "%s is missing" [t]))
  | None => None
  end.

Definition firewalld_cmd : list string := ["systemctl"; "is-active"; "-q"; "firewalld"].

Context (parse_nft : string -> result (list (option nftChain))).

(** [checkPosture] *)
Definition checkPosture (w : W) : W * (unit + failure) :=
  match check_tools w with
  | Some f => (w, inr f)
  | None =>
      match run w firewalld_cmd with
      | (w, None) => (w, fixable firewalldFix (Msg "firewalld is running"))
      | (w, Some _) =>
          match output w (ipt ["-S"; "FORWARD"]) with
          | (w, Err e) => (w, plain (Wrap "reading the FORWARD policy" e))
          | (w, Ok fwd) =>
              if forwardPolicyAccept fwd then
                (w, fixable forwardPolicyFix
                      (Msg "the filter FORWARD policy is ACCEPT, so enabling ip_forward would route between this host's other interfaces"))
              else
                match output w ["nft"; "-j"; "list"; "chains"] with
                | (w, Err _) => (w, inl tt)
                | (w, Ok out) =>
                    match nftForwardDrops parse_nft out with
                    | Err e => (w, plain e)
                    | Ok [] => (w, inl tt)
                    | Ok ((d :: _) as drops) =>
                        (w, fixable (nftDropFix drops)
                              (Errorf "an nftables forward chain drops by default and would drop the relays' traffic: %s %s %s"
                                 [Family d; Table d; Name d]))
                    end
                end
          end
      end
  end.

(** [uplinkParams]; [Atoi]'s error is a number error. *)
Definition ErrSyntax : error := Sentinel "strconv.NumError".
Definition uplinkParams (w : W) : W * ((string * Z) + failure) :=
  match output w ["ip"; "route"; "show"; "default"] with
  | (w, Err e) => (w, plain (Wrap "reading the default route" e))
  | (w, Ok route) =>
      let up := uplinkFromRoute route in
      if decide (up = "") then
        (w, fixable "give the host a default route to the network builds fetch from" (Msg "the host has no default route"))
      else
        match readFile w ("/sys/class/net/" ++ up ++ "/mtu") with
        | Err e => (w, plain (Wrap ("reading " ++ up ++ "'s MTU") e))
        | Ok b =>
            match Atoi (TrimSpace b) with
            | Some mtu => (w, inl (up, mtu))
            | None => (w, plain (Wrap ("parsing " ++ up ++ "'s MTU") ErrSyntax))
            end
        end
  end.

(** *** Quiescing the slots *)

(** [tapAttached] *)
Definition tapAttached (w : W) (s : Z) : bool :=
  existsb (fun tap =>
    match readFile w ("/sys/class/net/" ++ tap ++ "/carrier") with
    | Ok b => bool_decide (TrimSpace b = "1")
    | Err _ => false
    end) [RelayTap s; GuestTap s; UpstreamTap s].

(** [ownerLockDir] *)
Definition ownerLockDir (w : W) (name : string) : string + failure :=
  match userHome w name with
  | Err e => plain e
  | Ok home =>
      let cache := Join home ".cache" in
      let x := getenv w "XDG_CACHE_HOME" in
      let cache := if negb (bool_decide (x = "")) && bool_decide (getenv w "HOME" = home) then x else cache in
      inl (Join (Join cache "buildwarden") "locks")
  end.

Definition slotsBusyFix : string :=
  "wait for the builds on them to finish, or stop VMs left by --keep-vms (warden clean --driver firecracker, as the build user), then re-run sudo warden setup --driver firecracker".

(** [release] *)
Definition release (w : W) (paths : list string) : W := foldl unlock w paths.

Definition lock_path (dir : string) (s : Z) : string := Join dir (LockName s ++ ".lock").

(** The loop over the slots: [paths] are the locks taken, [busy] the slots in
    use. *)
Fixpoint quiesce_loop (o : owner) (dir : string) (n : Z) (todo : list Z) (w : W) (paths : list string) (busy : list Z) :
    W * ((list string * list Z) + failure) :=
  match todo with
  | [] => (w, inl (paths, busy))
  | i :: todo =>
      let made := exists_ w ("/sys/class/net/" ++ UpstreamTap i) in
      if negb made && (n <=? i) then quiesce_loop o dir n todo w paths busy
      else if made && tapAttached w i then quiesce_loop o dir n todo w paths (busy ++ [i])%list
      else
        let p := lock_path dir i in
        match lockAs w p (oname o) with
        | (w, Err e) => (release w paths, plain e)
        | (w, Ok true) => quiesce_loop o dir n todo w paths (busy ++ [i])%list
        | (w, Ok false) => quiesce_loop o dir n todo w (paths ++ [p])%list busy
        end
  end.

(** [quiesceSlots]; the locks to release. *)
Definition quiesceSlots (w : W) (o : owner) (n : Z) : W * (list string + failure) :=
  match ownerLockDir w (oname o) with
  | inr f => (w, inr f)
  | inl dir =>
      match quiesce_loop o dir n (seqZ 0 MaxSlots) w [] [] with
      | (w, inr f) => (w, inr f)
      | (w, inl (paths, [])) => (w, inl paths)
      | (w, inl (paths, busy)) =>
          (release w paths, fixable slotsBusyFix
             (Errorf "firecracker slot(s) %s are in use, and re-running setup now would drop their isolation rules while it reloads them"
                [Text.Join (List.map Itoa busy) ", "]))
      end
  end.

(** [upstreamAddrsOK] *)
Fixpoint addrs_ok (todo : list Z) (w : W) (acc : gset Z) : W * gset Z :=
  match todo with
  | [] => (w, acc)
  | i :: todo =>
      match output w ["ip"; "-o"; "-4"; "addr"; "show"; "dev"; UpstreamTap i] with
      | (w, Ok out) => addrs_ok todo w (if onlyAddr out (HostAddr i ++ "/30") then {[i]} ∪ acc else acc)
      | (w, Err _) => addrs_ok todo w acc
      end
  end.
Definition upstreamAddrsOK (w : W) (n : Z) : W * gset Z := addrs_ok (seqZ 0 n) w ∅.

(** *** Running the steps *)

(** The deletion loop: at most 64 times, until it fails. *)
Fixpoint until_failure (k : nat) (w : W) (a : list string) : W :=
  match k with
  | O => w
  | S k => match run w a with (w, None) => until_failure k w a | (w, Some _) => w end
  end.

Definition last_word (a : list string) : string := default "" (last a).

(** A step past its probe. *)
Definition run_step (w : W) (s : step) : W * option error :=
  if untilFail s then (until_failure 64 w (args s), None)
  else match run w (args s) with
       | (w, Some e) => (w, if ignore_ s then None else Some (Wrap ("setup: " ++ Text.Join (args s) " ") e))
       | (w, None) => (w, None)
       end.

(** [runSteps] *)
Fixpoint runSteps (w : W) (l : list step) (created verified : list string) : W * ((list string * list string) + failure) :=
  match l with
  | [] => (w, inl (created, verified))
  | s :: l =>
      let go w created :=
        match run_step w s with
        | (w, Some e) => (w, plain e)
        | (w, None) => runSteps w l created verified
        end in
      match probe s with
      | None => go w created
      | Some p =>
          match run w p with
          | (w, None) => runSteps w l created (verified ++ [last_word p])%list
          | (w, Some _) => go w (created ++ [last_word p])%list
          end
      end
  end.

(** What setup prints. *)
Definition setup_report (n : Z) (o : owner) (up : string) (mtu : Z) (created verified : list string) : list string :=
  [ "firecracker: " ++ Itoa n ++ " slot(s) for " ++ oname o ++ " (uid " ++ Itoa (ouid o) ++ "), uplink " ++ up ++ " (mtu " ++ Itoa mtu ++ ")";
    "  interfaces created: " ++ Itoa (len created) ++ ", verified: " ++ Itoa (len verified);
    "  bridge table " ++ nftTable ++ " and the WARDEN-FC chains (re)loaded; net.ipv4.ip_forward=1";
    "  this is runtime state: re-run setup after a reboot (see the drivers guide)" ].

(** The part of setup that holds the slots' locks. *)
Definition setup_locked (w : W) (n : Z) (o : owner) (up : string) (mtu : Z) : W * (list string + failure) :=
  let '(w, ok) := upstreamAddrsOK w n in
  match runSteps w (setupSteps (mkParams n (oname o) (ouid o) up mtu ok)) [] [] with
  | (w, inr f) => (w, inr f)
  | (w, inl (created, verified)) => (w, inl (setup_report n o up mtu created verified))
  end.

(** [setup] *)
Definition setup (w : W) (Slots_ : Z) : W * (list string + failure) :=
  let n := if Slots_ =? 0 then DefaultSlots else Slots_ in
  match ValidateSlotCount n with
  | Some f => (w, inr f)
  | None =>
      if negb (euid w =? 0) then
        (w, fixable "sudo warden setup --driver firecracker"
              (Msg "warden setup --driver firecracker changes host networking and must run as root"))
      else if negb (exists_ w "/dev/kvm") then (w, fixable kvmFix (Msg "/dev/kvm is not present"))
      else
        match setupOwner w with
        | inr f => (w, inr f)
        | inl o =>
            try (checkPosture w) (fun w _ =>
            try (uplinkParams w) (fun w '(up, mtu) =>
            try (quiesceSlots w o n) (fun w paths =>
              let '(w, r) := setup_locked w n o up mtu in (release w paths, r))))
        end
  end.
End Setup.
End Host.
