(* ===== verification/Preflight.v ===== *)
(** * A build's preflight on firecracker (src/driver/firecracker/preflight.go,
    posture.go)

    The checks a build makes up front, the slots it may take, and the resolvers
    its relay is given.  A fixable error made from another's text ([%v]) keeps
    it as its cause. *)
From S2P Require Import Prelude Text Netip BuildLink Failure Slots Host.

#[local] Open Scope string_scope.
#[local] Open Scope Z_scope.

Module Preflight.
Import Netip BuildLink Failure Slots Host.

(** ** The VMM's version *)
Abbreviation version := (Z * Z * Z)%type.
Definition minVersion : version := (1, 17, 0).

(** [strings.SplitN(s, sep, 3)] with three parts, and the part of [SplitN(p,
    "-", 2)] before the dash. *)
Definition split3 (s : string) : option (string * string * string) :=
  match Split s "." with
  | a :: b :: (_ :: _) as rest => Some (a, b, Text.Join rest ".")
  | _ => None
  end.
Definition before_dash (p : string) : string := List.hd "" (Split p "-").

Definition parse_field (f : string) : option version :=
  if negb (HasPrefix f "v") then None else
  '(a, b, c) ← split3 (TrimPrefix f "v");
  a ← Atoi (before_dash a); b ← Atoi (before_dash b); c ← Atoi (before_dash c);
  Some (a, b, c).

(** [parseVersion]: the first field that is one. *)
Definition parseVersion (out : string) : option version := head (omap parse_field (Fields out)).

(** [versionAtLeast] *)
Definition versionAtLeast (v min : version) : bool :=
  let '(a, b, c) := v in let '(a', b', c') := min in
  if negb (a =? a') then a >? a' else if negb (b =? b') then b >? b' else if negb (c =? c') then c >? c' else true.

Definition firecrackerFix : string :=
  "install Firecracker v1.17.0 or later from https://github.com/firecracker-microvm/firecracker/releases and put `firecracker` on PATH".
Definition setupFix : string := "sudo warden setup --driver firecracker (re-run it after a reboot)".
Definition qemuImgFix : string := "install it: apt install qemu-utils (or your distro's equivalent)".

Section Checks.
Context {W : Type} {HW : Host W}.

Definition checkKVM (w : W) : check :=
  if negb (exists_ w "/dev/kvm") then Some (Fixable kvmFix (Msg "/dev/kvm is not present"))
  else match openRW w "/dev/kvm" with
       | Some e => Some (Fixable "sudo usermod -aG kvm $USER, then log in again"
                           (Wrap "cannot open /dev/kvm for reading and writing" e))
       | None => None
       end.

Definition numbers (v : version) : list string := let '(a, b, c) := v in [Itoa a; Itoa b; Itoa c].

Definition checkFirecracker (w : W) : W * (unit + failure) :=
  match lookPath w "firecracker" with
  | Some _ => (w, fixable firecrackerFix (Msg "firecracker is not on PATH"))
  | None =>
      match output w ["firecracker"; "--version"] with
      | (w, Err e) => (w, fixable firecrackerFix (Wrap "firecracker --version failed" e))
      | (w, Ok out) =>
          match parseVersion out with
          | None => (w, fixable firecrackerFix (Errorf "cannot read the version from %q" [TrimSpace out]))
          | Some v =>
              if negb (versionAtLeast v minVersion)
              then (w, fixable firecrackerFix (Errorf "firecracker v%d.%d.%d is older than v%d.%d.%d" (numbers v ++ numbers minVersion)%list))
              else (w, inl tt)
          end
      end
  end.

(** ** Slots *)
Definition tap_owner (w : W) (tap : string) (uid : Z) : bool :=
  match readFile w ("/sys/class/net/" ++ tap ++ "/owner") with
  | Ok b => bool_decide (TrimSpace b = Itoa uid)
  | Err _ => false
  end.
Definition slot_owned (w : W) (uid s : Z) : bool :=
  forallb (fun tap => tap_owner w tap uid) [RelayTap s; GuestTap s; UpstreamTap s].

(** [ownedSlots]: the loop over the slots. *)
Fixpoint owned_from (w : W) (uid : Z) (todo : list Z) : list Z :=
  match todo with
  | [] => []
  | s :: todo =>
      if negb (exists_ w ("/sys/class/net/" ++ UpstreamTap s)) then []
      else (if slot_owned w uid s then [s] else []) ++ owned_from w uid todo
  end%list.
Definition ownedSlots (w : W) (uid : Z) : list Z := owned_from w uid (seqZ 0 MaxSlots).

Definition sudoUser (w : W) : string * bool :=
  let name := getenv w "SUDO_USER" in
  (name, (euid w =? 0) && negb (bool_decide (name = "")) && negb (bool_decide (name = "root"))).

Definition slotUID (w : W) : Z :=
  let '(name, ok) := sudoUser w in
  if ok then match lookupOwner w name with Ok (uid, _) => uid | Err _ => euid w end else euid w.

Definition checkSlots (w : W) : list Z + failure :=
  let uid := slotUID w in
  match ownedSlots w uid with
  | [] => fixable setupFix (Errorf "no firecracker network slots owned by this user (uid %d)" [Itoa uid])
  | slots => inl slots
  end.

Definition fmtSlots (slots : list Z) : string :=
  match last slots with
  | None => "none"
  | Some s => Itoa (len slots) ++ " (wfc0 to wfc" ++ Itoa s ++ ")"
  end.

Definition checkDiskTools (w : W) : check :=
  match lookPath w "qemu-img" with
  | Some _ => Some (Fixable qemuImgFix (Msg "a disk-image build converts its image with qemu-img, which is not on PATH"))
  | None =>
      if negb (bool_decide (lookPath w "genisoimage" = None)) && negb (bool_decide (lookPath w "mkisofs" = None))
      then Some (Fixable "install it: apt install genisoimage (or your distro's equivalent)"
                   (Msg "a disk-image build writes its cloud-init seed with genisoimage or mkisofs, and neither is on PATH"))
      else None
  end.

(** ** Resolvers *)

(** [net.ParseIP], [IP.IsLoopback]: the sixteen-byte form of an IPv4 address is
    taken for the address. *)
Definition ParseIP (s : string) : option Addr :=
  match ParseAddr s with
  | Ok (A6 v "") => Some (A6 v "")
  | Ok (A4 v) => Some (A4 v)
  | _ => None
  end.
Definition IsLoopback (a : Addr) : bool :=
  match Unmap a with A4 v => v / 2 ^ 24 =? 127 | A6 v _ => v =? 1 end.

Definition nameserver_line (line : string) : list string :=
  match Fields line with
  | f :: ns :: _ =>
      if negb (bool_decide (f = "nameserver")) then [] else
      match ParseIP ns with
      | Some a => if Is4 (Unmap a) then [Addr_String (Unmap a)] else []
      | None => []
      end
  | _ => []
  end.
Definition parseNameservers (conf : string) : list string := flat_map nameserver_line (Split conf newline_char).

(** [local] is whether an address is one of the host's own. *)
Context (local : Addr -> bool) (link : Link).

Definition inLink (a : Addr) : bool := Contains (Net link) (Unmap a).

Definition unusable (s : string) : bool :=
  match ParseIP s with
  | None => true
  | Some a => IsLoopback a || local a || inLink a
  end.
(** [selectResolvers]: the ones to use and the ones left out. *)
Definition selectResolvers (servers : list string) : list string * list string :=
  (List.filter (fun s => negb (unusable s)) servers, List.filter unusable servers).

Definition resolvConf : string := "/etc/resolv.conf".
Definition resolvedUpstream : string := "/run/systemd/resolve/resolv.conf".
Definition resolvedStubServer : string := "127.0.0.53".
Definition wslTunnelResolver : string := "10.255.255.254".

(** [inLink(link, net.ParseIP(s))]: a nil address is in no link. *)
Definition in_link_text (s : string) : bool := match ParseIP s with Some a => inLink a | None => false end.

Definition offHostFix : string :=
  "point the host's resolver at an off-host DNS server: list one as a nameserver in " ++ resolvConf ++
  " (under systemd-resolved, set DNS= in /etc/systemd/resolved.conf)".
Definition linkFix : string :=
  "the relay's link to the build VM is " ++ Link_String link ++
  ", so it cannot reach a resolver there: list an off-host DNS server outside it as a nameserver in " ++ resolvConf ++
  " (under systemd-resolved, set DNS= in /etc/systemd/resolved.conf), or set [vm] build_link in warden.toml (or --build-link) to a /30 that holds none of the host's resolvers".
Definition wslFix : string :=
  "WSL's only resolver is its DNS-tunnelling address " ++ wslTunnelResolver ++
  " on the host itself: set generateResolvConf=false under [network] in /etc/wsl.conf and list the Windows host's DNS servers as nameservers in " ++
  resolvConf ++ " (or set dnsTunneling=false in .wslconfig)".

(** The remedy for the resolvers left out: the last one that has its own
    decides. *)
Definition resolver_fix (excluded : list string) : string :=
  foldl (fun fix_ s =>
    let fix_ := if in_link_text s then linkFix else fix_ in
    if bool_decide (s = wslTunnelResolver) then wslFix else fix_) offHostFix excluded.

Definition upstreamResolvers (w : W) : list string + failure :=
  match readFile w resolvConf with
  | Err e => fixable ("list an off-host DNS server as a nameserver in " ++ resolvConf) (Wrap ("reading " ++ resolvConf) e)
  | Ok b =>
      let servers := parseNameservers b in
      let servers := if bool_decide (servers = [resolvedStubServer])
                     then match readFile w resolvedUpstream with Ok up => parseNameservers up | Err _ => servers end
                     else servers in
      match selectResolvers servers with
      | (u :: use, _) => inl (u :: use)
      | ([], excluded) =>
          fixable (resolver_fix excluded)
            (Errorf "the relay needs an off-host upstream DNS server, and the host has %s"
               [match excluded with [] => "none listed" | _ => "only resolvers it cannot reach: " ++ Text.Join excluded ", " end])
      end
  end.

(** ** The preflight *)
Record preflighted := mkPreflighted { pAssets : string * string * string; pSlots : list Z; pResolvers : list string }.

Definition assetsFix : string :=
  "build them from the source tree: tools/firecracker-vm/build-kernel.sh, ARCH=x86_64 NO_MODULES=1 tools/relay-vm/build-initramfs.sh and tools/firecracker-vm/build-initramfs.sh".

(** [findAssets]; [find] is [relayvm.Find]. *)
Definition findAssets (find : option (string * string * string)) : (string * string * string) + failure :=
  match find with
  | Some a => inl a
  | None => fixable assetsFix (Msg "firecracker boot assets (vmlinux, relay and direct-boot initramfs) not found")
  end.

Definition unsupportedHost (goos goarch : string) : failure :=
  Fixable "run warden on an x86_64 Linux host with KVM, or pick another driver (--driver qemu works on every host)"
    (Errorf "--driver firecracker needs an x86_64 Linux host with /dev/kvm (this is %s/%s)" [goos; goarch]).

Definition preflight (hostCheck : check) (find : option (string * string * string)) (w : W) : W * (preflighted + failure) :=
  match hostCheck with
  | Some f => (w, inr f)
  | None =>
      match checkKVM w with
      | Some f => (w, inr f)
      | None =>
          try (checkFirecracker w) (fun w _ =>
          try (w, findAssets find) (fun w a =>
          try (w, checkSlots w) (fun w slots =>
          try (w, upstreamResolvers w) (fun w dns => (w, inl (mkPreflighted a slots dns))))))
      end
  end.
End Checks.

(** ** What a passed preflight says *)
Section Spec.
Context {W : Type} {HW : Host W}.
Context (local : Addr -> bool) (link : Link).

Lemma versionAtLeast_lex a b c a' b' c' :
  versionAtLeast (a, b, c) (a', b', c') = true <-> a' < a \/ (a = a' /\ (b' < b \/ (b = b' /\ c' <= c))).
Proof using Type.
  unfold versionAtLeast. destruct (Z.eqb_spec a a'), (Z.eqb_spec b b'), (Z.eqb_spec c c'); cbn [negb];
    rewrite ?Z.gtb_lt; split; intros; try done; lia.
Qed.

(** The slots up to the first one missing. *)
Lemma owned_from_spec w uid todo s :
  NoDup todo ->
  s ∈ owned_from w uid todo <->
  exists before after_, todo = (before ++ s :: after_)%list /\ slot_owned w uid s = true /\
    forall j, j ∈ (before ++ [s])%list -> exists_ w ("/sys/class/net/" ++ UpstreamTap j) = true.
Proof using Type.
  induction todo as [|i todo IH]; intros Hn; cbn [owned_from].
  - rewrite elem_of_nil. split; [done|]. by intros ([|? ?] & ? & [=] & _).
  - apply NoDup_cons in Hn as [Hi Hn]. destruct (exists_ w _) eqn:E; cbn [negb].
    2:{ rewrite elem_of_nil. split; [done|]. intros (bef & aft & Heq & _ & Hall). exfalso.
        assert (Hin : i ∈ (bef ++ [s])%list) by (destruct bef; injection Heq; intros; subst; set_solver).
        apply Hall in Hin. congruence. }
    rewrite elem_of_app, (IH Hn). split.
    + intros [Hs|(bef & aft & -> & Ho & Hall)].
      * destruct (slot_owned w uid i) eqn:Ho; [|by apply elem_of_nil in Hs]. apply list_elem_of_singleton in Hs as ->.
        exists [], todo. split_and!; [done|done|]. by intros j ->%list_elem_of_singleton.
      * exists (i :: bef), aft. split_and!; [done|done|]. intros j [->|Hj]%elem_of_cons; [done|by apply Hall].
    + intros ([|i' bef] & aft & Heq & Ho & Hall); injection Heq as -> ->.
      * left. rewrite Ho. by left.
      * right. exists bef, aft. split_and!; [done|done|]. intros j Hj. apply Hall. by right.
Qed.

Lemma ownedSlots_exact w uid s :
  s ∈ ownedSlots w uid <->
  0 <= s < MaxSlots /\ slot_owned w uid s = true /\
  forall j, 0 <= j <= s -> exists_ w ("/sys/class/net/" ++ UpstreamTap j) = true.
Proof using Type.
  unfold ownedSlots. rewrite owned_from_spec by apply NoDup_seqZ. split.
  - intros (bef & aft & Heq & Ho & Hall).
    assert (Hs : s ∈ seqZ 0 MaxSlots) by (rewrite Heq; set_solver). apply elem_of_seqZ in Hs. split_and!; [lia|lia|done|].
    intros j Hj. apply Hall. assert (Hl : seqZ 0 MaxSlots !! length bef = Some s) by (rewrite Heq; by apply list_lookup_middle).
    apply lookup_seqZ in Hl as [Hl1 Hl2]. assert (Hlj : seqZ 0 MaxSlots !! Z.to_nat j = Some j) by (apply lookup_seqZ; lia).
    rewrite Heq, cons_middle, app_assoc, lookup_app_l in Hlj by (rewrite length_app; cbn; lia).
    by eapply list_elem_of_lookup_2.
  - intros (Hs & Ho & Hall). exists (seqZ 0 s), (seqZ (s + 1) (MaxSlots - s - 1)). split_and!; [|done|].
    + replace MaxSlots with (s + (1 + (MaxSlots - s - 1))) at 1 by lia. rewrite seqZ_app by lia. f_equal.
      by rewrite seqZ_app by lia.
    + intros j [Hj%elem_of_seqZ| ->%list_elem_of_singleton]%elem_of_app; apply Hall; lia.
Qed.

(** An address a relay can be told to ask. *)
Definition off_host (v : Z) : Prop :=
  v / 2 ^ 24 <> 127 /\ local (A4 v) = false /\ Contains (Net link) (A4 v) = false.

Lemma nameserver_four line s : s ∈ nameserver_line line -> exists v, 0 <= v < 2 ^ 32 /\ s = String4 v.
Proof using Type.
  unfold nameserver_line. destruct (Fields line) as [|f [|ns rest] ]; [by intros ?%elem_of_nil..|].
  destruct (negb _); [by intros ?%elem_of_nil|]. unfold ParseIP. destruct (ParseAddr ns) as [a|] eqn:E; [|by intros ?%elem_of_nil].
  destruct a as [v|v zone].
  - cbn [Unmap Is4 Addr_String]. intros ->%list_elem_of_singleton. exists v. split; [by eapply ParseAddr_v4|done].
  - destruct zone; [|by intros ?%elem_of_nil]. cbn [Unmap]. destruct (v / 2 ^ 32 =? 0xffff); cbn [Is4]; [|by intros ?%elem_of_nil].
    cbn [Addr_String]. intros ->%list_elem_of_singleton. exists (v mod 2 ^ 32). split; [apply Z.mod_pos_bound; lia|done].
Qed.

Lemma unusable_four v : 0 <= v < 2 ^ 32 -> unusable local link (String4 v) = false <-> off_host v.
Proof using Type.
  intros Hv. unfold unusable, ParseIP. rewrite parse_String4 by done. unfold IsLoopback, inLink, off_host. cbn [Unmap].
  rewrite !orb_false_iff, Z.eqb_neq. tauto.
Qed.

(** The nameservers the host lists, through systemd-resolved's stub. *)
Definition listed (w : W) (s : string) : Prop :=
  exists b, readFile w resolvConf = Ok b /\
    (s ∈ parseNameservers b \/
     (parseNameservers b = [resolvedStubServer] /\
      exists up, readFile w resolvedUpstream = Ok up /\ s ∈ parseNameservers up)).

Lemma upstreamResolvers_spec w l :
  upstreamResolvers local link w = inl l ->
  l <> [] /\ forall s, s ∈ l -> listed w s /\ exists v, 0 <= v < 2 ^ 32 /\ s = String4 v /\ off_host v.
Proof using Type.
  unfold upstreamResolvers. destruct (readFile w resolvConf) as [b|] eqn:Eb; [|done]. cbv zeta.
  set (servers := if bool_decide _ then _ else _). unfold selectResolvers.
  destruct (List.filter _ servers) as [|u use] eqn:Ef; [done|]. intros [= <-]. split; [done|]. intros s Hs.
  assert (Hin : s ∈ List.filter (fun s => negb (unusable local link s)) servers) by by rewrite Ef.
  apply list_elem_of_In, filter_In in Hin as [Hin%list_elem_of_In Hu%negb_true_iff].
  assert (Hl : listed w s).
  { exists b. split; [done|]. subst servers. case_bool_decide as Hstub; [|by left].
    destruct (readFile w resolvedUpstream) as [up|] eqn:Eu; [|by left]. right. split; [done|]. by exists up. }
  split; [done|].
  assert (Hfour : exists v, 0 <= v < 2 ^ 32 /\ s = String4 v).
  { destruct Hl as (b' & _ & [H|(_ & up & _ & H)]);
      unfold parseNameservers in H; apply list_elem_of_In, in_flat_map in H as (line & _ & H%list_elem_of_In); by eapply nameserver_four. }
  destruct Hfour as (v & Hv & ->). exists v. split_and!; [lia|lia|done|]. by apply unusable_four.
Qed.

(** A preflight that passes has found a host a build can run on: KVM opens,
    Firecracker is at least the pinned release, every slot it offers is one of
    the user's, with all slots below it made, and there is one, and every
    resolver it gives the relay is an IPv4 nameserver the host lists that is
    neither a loopback address, nor the host's own, nor inside the build link. *)
Theorem preflight_sound hostCheck find w w' pf :
  preflight local link hostCheck find w = (w', inl pf) ->
  exists_ w "/dev/kvm" = true /\ openRW w "/dev/kvm" = None /\
  (exists out a b c, (output w ["firecracker"; "--version"]).2 = Ok out /\ parseVersion out = Some (a, b, c) /\
     (1 < a \/ (a = 1 /\ (17 < b \/ (b = 17 /\ 0 <= c))))) /\
  pSlots pf <> [] /\
  (forall s, s ∈ pSlots pf <->
     0 <= s < MaxSlots /\ slot_owned w' (slotUID w') s = true /\
     forall j, 0 <= j <= s -> exists_ w' ("/sys/class/net/" ++ UpstreamTap j) = true) /\
  pResolvers pf <> [] /\
  (forall r, r ∈ pResolvers pf -> listed w' r /\ exists v, 0 <= v < 2 ^ 32 /\ r = String4 v /\ off_host v).
Proof using Type.
  unfold preflight. destruct hostCheck; [done|]. destruct (checkKVM w) eqn:Ek; [done|].
  unfold checkKVM in Ek. destruct (exists_ w "/dev/kvm"); [|done]. destruct (openRW w "/dev/kvm"); [done|]. cbn [negb] in Ek. clear Ek.
  unfold checkFirecracker. destruct (lookPath w "firecracker"); [done|].
  destruct (output w ["firecracker"; "--version"]) as [w1 [out|e] ]; [|done].
  destruct (parseVersion out) as [[[a b] c]|] eqn:Ev; [|done]. destruct (versionAtLeast _ minVersion) eqn:Evl; [|done].
  cbn [negb try]. unfold findAssets. destruct find as [fs|]; [|done]. cbn [try]. unfold checkSlots.
  destruct (ownedSlots w1 (slotUID w1)) as [|s0 slots] eqn:Es; [done|]. cbn [try].
  destruct (upstreamResolvers local link w1) as [dns|] eqn:Er; [|done]. cbn [try]. intros [= <- <-]. cbn [pSlots pResolvers].
  apply versionAtLeast_lex in Evl. destruct (upstreamResolvers_spec w1 dns Er) as [Hne Hall].
  split_and!; [done|done|by exists out, a, b, c|done| |done|done]. intros s. rewrite <- Es. apply ownedSlots_exact.
Qed.
End Spec.
End Preflight.

(** A host with one slot of user 1000. *)
Module PreflightExamples.
Import Netip BuildLink Failure Slots Host Preflight.

Definition ex_file (path : string) : result string :=
  if String.eqb path "/etc/resolv.conf" then Ok "nameserver 127.0.0.53"
  else if String.eqb path "/run/systemd/resolve/resolv.conf" then Ok "nameserver 9.9.9.9"
  else if HasSuffix path "/owner" then Ok "1000"
  else Err (Sentinel "file does not exist").

#[local] Instance ex_host : Host unit := {|
  run w _ := (w, Some (Sentinel "exit status 1"));
  output w a := (w, if String.eqb (List.hd "" a) "firecracker" then Ok "Firecracker v1.17.2" else Err (Sentinel "exit status 1"));
  readFile _ := ex_file;
  exists_ _ p := bool_decide (p ∈ ["/dev/kvm"; "/sys/class/net/wfc0u"]);
  openRW _ _ := None;
  lookPath _ _ := None;
  getenv _ _ := "";
  lookupOwner _ _ := Err (Sentinel "unknown user");
  userHome _ _ := Ok "/home/ci";
  lockAs w _ _ := (w, Ok false);
  unlock w _ := w;
  euid _ := 1000 |}.

Definition ex_link : Link := mkLink (mkPrefix (A4 (AddrFrom4 10 0 2 0)) 30) (A4 (AddrFrom4 10 0 2 1)) (A4 (AddrFrom4 10 0 2 2)).

Example preflight_sound_witness :
  exists pf, preflight (fun _ => false) ex_link None (Some ("vmlinux", "relay.img", "build.img")) tt = (tt, inl pf) /\
    pSlots pf <> [] /\ pResolvers pf <> [].
Proof.
  eassert (H : preflight (fun _ => false) ex_link None (Some ("vmlinux", "relay.img", "build.img")) tt = (tt, inl _)).
  { vm_compute. reflexivity. }
  destruct (preflight_sound _ _ _ _ _ _ _ H) as (_ & _ & _ & Hs & _ & Hr & _).
  eexists. split; [exact H|]. by split.
Defined.
End PreflightExamples.
