(* ===== verification/Pids.v ===== *)
(** * Pid files of a slot's VMMs (src/driver/firecracker/pids.go)

    A slot's pid file names the firecracker processes a build started on it, so
    that one which outlives its warden is found and killed before the slot is
    used again. *)
From S2P Require Import Prelude Text BuildLink.

#[local] Open Scope string_scope.
#[local] Open Scope Z_scope.

Module Pids.
Import BuildLink.

Record vmmRecord := mkVmm { pid : Z; start : Z; exe : string; keep : bool }.

#[export] Instance vmmRecord_eq_dec : EqDecision vmmRecord.
Proof. solve_decision. Defined.

Definition nl : ascii := "010".
Definition flag (r : vmmRecord) : string := if keep r then "keep" else "-".

Definition pid_line (r : vmmRecord) : string :=
  Itoa (pid r) ++ " " ++ Itoa (start r) ++ " " ++ flag r ++ " " ++ exe r.

(** [formatPidFile] *)
Fixpoint formatPidFile (recs : list vmmRecord) : string :=
  match recs with
  | [] => ""
  | r :: recs => pid_line r ++ String nl (formatPidFile recs)
  end.

(** One line of [parsePidFile]: [None] for a line the loop skips. *)
Definition parse_pid_line (line : string) : option vmmRecord :=
  match SplitN line " " 4 with
  | [f0; f1; f2; f3] =>
      if bool_decide (f3 = "") || (negb (bool_decide (f2 = "keep")) && negb (bool_decide (f2 = "-"))) then None
      else
        match Atoi f0, ParseUint f1 with
        | Some pid, Some start => if pid <=? 1 then None else Some (mkVmm pid start f3 (bool_decide (f2 = "keep")))
        | _, _ => None
        end
  | _ => None
  end.

(** [parsePidFile] *)
Definition parsePidFile (s : string) : list vmmRecord := omap parse_pid_line (Split s nl).

(** [strings.LastIndexByte]: what follows the last [c]. *)
Fixpoint after_last (c : ascii) (s : string) : option string :=
  match s with
  | "" => None
  | String a s' => match after_last c s' with Some r => Some r | None => if decide (a = c) then Some s' else None end
  end.

Definition ErrNum : error := Sentinel "strconv.NumError".

(** [procStartTime] *)
Definition procStartTime (stat : string) : result Z :=
  match after_last ")" stat with
  | None => Err (Msg "malformed stat line")
  | Some rest =>
      let f := Fields rest in
      if len f <? 20 then Err (Errorf "stat line has %d fields after the name" [Itoa (len f)])
      else match ParseUint (nth 19 f "") with Some n => Ok n | None => Err ErrNum end
  end.

Definition proc (p : Z) : string := "/proc/" ++ Itoa p.

Section Live.
Context (readFile : string -> result string) (readlink : string -> result string).

(** The recorded process is running: its pid exists, started when the record
    says and runs the recorded executable. *)
Definition is_live (r : vmmRecord) : bool :=
  match readFile (proc (pid r) ++ "/stat") with
  | Err _ => false
  | Ok stat =>
      match procStartTime stat with
      | Err _ => false
      | Ok st =>
          if negb (st =? start r) then false
          else match readlink (proc (pid r) ++ "/exe") with
               | Err _ => false
               | Ok e => bool_decide (TrimSuffix e " (deleted)" = exe r)
               end
      end
  end.

(** [liveVMMs] *)
Definition liveVMMs (recs : list vmmRecord) : list vmmRecord := filter (fun r => is_live r = true) recs.

(** [processRecord]: a started VMM's entry. *)
Definition processRecord (p : Z) (keep : bool) : result vmmRecord :=
  match readFile (proc p ++ "/stat") with
  | Err e => Err e
  | Ok stat =>
      match procStartTime stat with
      | Err e => Err (Wrap (proc p ++ "/stat") e)
      | Ok st =>
          match readlink (proc p ++ "/exe") with
          | Err e => Err e
          | Ok e =>
              if Contains e (String nl "")
              then Err (Errorf "the firecracker path %q holds a newline" [e])
              else Ok (mkVmm p st e keep)
          end
      end
  end.
End Live.

(** ** What a pid file can hold *)
Definition recordable (r : vmmRecord) : Prop :=
  1 < pid r < 2 ^ 63 /\ 0 <= start r < 2 ^ 64 /\ exe r <> "" /\ no_char nl (exe r).

#[export] Instance recordable_dec r : Decision (recordable r).
Proof. unfold recordable, no_char. apply _. Defined.

Lemma Itoa_no_char c z : is_digit c = false -> 0 <= z -> no_char c (Itoa z).
Proof.
  intros Hc Hz. eapply str_forallb_impl, Itoa_digits, Hz. intros d Hd.
  apply negb_true_iff, bool_decide_eq_false. congruence.
Qed.

Lemma Atoi_Itoa z : 0 <= z < 2 ^ 63 -> Atoi (Itoa z) = Some z.
Proof.
  intros Hz. unfold Atoi. pose proof (Itoa_digits z ltac:(lia)) as Hd.
  assert (Hm : match Itoa z with
      | String "-" s' => Z.opp <$> parse_dec s'
      | String "+" s' => parse_dec s'
      | _ => parse_dec (Itoa z) end = Some z).
  { rewrite parse_dec_Itoa by lia. destruct (Itoa z) as [|c s]; [done|]. cbn in Hd.
    apply andb_true_iff in Hd as [Hd _]. destruct c as [ [] [] [] [] [] [] [] [] ]; done. }
  rewrite Hm. cbn [mbind option_bind].
  by rewrite (proj2 (Z.leb_le _ _)), (proj2 (Z.ltb_lt _ _)) by lia.
Qed.

Lemma flag_no_char c r : c <> "-"%char -> is_lower c = false -> no_char c (flag r).
Proof.
  intros Hc Hl. unfold flag. assert (forall s, str_forallb is_lower s = true -> no_char c s) as H.
  { intros s. apply str_forallb_impl. intros d Hd. apply negb_true_iff, bool_decide_eq_false. congruence. }
  destruct (keep r); [by apply H|]. unfold no_char. cbn. rewrite bool_decide_eq_false_2 by congruence. done.
Qed.

Lemma pid_line_fields r x :
  recordable r ->
  SplitN (Itoa (pid r) ++ " " ++ Itoa (start r) ++ " " ++ flag r ++ " " ++ x) " " 4 =
    [Itoa (pid r); Itoa (start r); flag r; x].
Proof.
  intros ((? & _) & (? & _) & _). apply SplitN_4; [apply Itoa_no_char; [done|lia]..|by apply flag_no_char].
Qed.

(** A line whose executable is [x], which a cut line may have. *)
Lemma parse_pid_line_exe r x :
  recordable r -> x <> "" ->
  parse_pid_line (Itoa (pid r) ++ " " ++ Itoa (start r) ++ " " ++ flag r ++ " " ++ x) =
    Some (mkVmm (pid r) (start r) x (keep r)).
Proof.
  intros Hr Hx. unfold parse_pid_line. rewrite pid_line_fields by done. destruct Hr as (Hp & Hs & _).
  rewrite (bool_decide_eq_false_2 (x = "")) by done. cbn [orb].
  rewrite Atoi_Itoa, ParseUint_Itoa by lia. rewrite (proj2 (Z.leb_gt _ _)) by lia.
  unfold flag. by destruct (keep r).
Qed.

Lemma pid_line_no_nl r : recordable r -> no_char nl (pid_line r).
Proof.
  intros ((? & _) & (? & _) & _ & Hx). unfold pid_line.
  rewrite !no_char_app. split_and!; try done; try (apply Itoa_no_char; [done|lia]). by apply flag_no_char.
Qed.

Lemma parse_pid_line_none s : (length (Split s " ") < 4)%nat -> parse_pid_line s = None.
Proof.
  intros H. unfold parse_pid_line. rewrite SplitN_short by lia.
  by destruct (Split s " ") as [|? [|? [|? [|? ?] ] ] ]; cbn in H; try lia.
Qed.

(** ** Whole and torn files *)
Lemma str_app_split (a b p q : string) :
  a ++ b = p ++ q -> (exists y, a = p ++ y /\ q = y ++ b) \/ (exists y, p = a ++ y /\ b = y ++ q).
Proof.
  revert p. induction a as [|c a IH]; intros p H; cbn in H.
  - right. by exists p.
  - destruct p as [|d p]; cbn in H; [left; by exists (String c a)|]. injection H as -> H.
    destruct (IH p H) as [(y & -> & ->)|(y & -> & ->)]; [left|right]; by exists y.
Qed.

(** A prefix of [f sep rest] ends in [f] or goes past the separator. *)
Lemma prefix_field f rest p y sep :
  no_char sep f -> f ++ String sep rest = p ++ y ->
  no_char sep p \/ exists p', p = f ++ String sep p' /\ rest = p' ++ y.
Proof.
  intros Hf [(z & -> & _)|([|c z] & -> & H)]%str_app_split.
  - left. by apply no_char_app in Hf as [? _].
  - left. by rewrite str_app_nil_r.
  - right. cbn in H. injection H as <- ->. by exists z.
Qed.

Lemma Split_app_length a b sep : no_char sep a -> length (Split (a ++ String sep b) sep) = S (length (Split b sep)).
Proof. intros. by rewrite Split_app. Qed.

(** What is read of a line cut short. *)
Lemma torn_line r p y :
  recordable r -> pid_line r = p ++ y ->
  parse_pid_line p = None \/
  exists x z, x <> "" /\ exe r = x ++ z /\ parse_pid_line p = Some (mkVmm (pid r) (start r) x (keep r)).
Proof.
  intros Hr H. pose proof Hr as ((? & _) & (? & _) & _).
  pose proof (Itoa_no_char " " (pid r) eq_refl ltac:(lia)) as N0.
  pose proof (Itoa_no_char " " (start r) eq_refl ltac:(lia)) as N1.
  pose proof (flag_no_char " " r ltac:(done) eq_refl) as N2.
  unfold pid_line in H. apply prefix_field in H as [Hn|(p0 & -> & H)]; [|apply prefix_field in H as [Hn|(p1 & -> & H)];
    [|apply prefix_field in H as [Hn|(p2 & -> & H)]; [| |done]|done]|done];
    [left; apply parse_pid_line_none; rewrite ?Split_app_length by done; rewrite Split_none by done; cbn; lia..|].
  destruct p2 as [|c p2].
  - left. pose proof (pid_line_fields r "" Hr) as Hs. cbn [append] in Hs. unfold parse_pid_line. by rewrite Hs.
  - right. exists (String c p2), y. split_and!; [done..|]. by apply parse_pid_line_exe.
Qed.

Lemma parse_cons l s : no_char nl l -> parsePidFile (l ++ String nl s) = (option_list (parse_pid_line l) ++ parsePidFile s)%list.
Proof. intros. unfold parsePidFile. rewrite Split_app by done. cbn [omap list_omap]. by destruct (parse_pid_line l). Qed.

Lemma parse_one l : no_char nl l -> parsePidFile l = option_list (parse_pid_line l).
Proof. intros. unfold parsePidFile. rewrite Split_none by done. cbn [omap list_omap]. by destruct (parse_pid_line l). Qed.

Lemma parse_pid_line_line r : recordable r -> parse_pid_line (pid_line r) = Some r.
Proof. intros Hr. unfold pid_line. rewrite parse_pid_line_exe by (done || apply Hr). by destruct r. Qed.

Lemma parse_format recs : Forall recordable recs -> parsePidFile (formatPidFile recs) = recs.
Proof.
  induction 1 as [|r recs Hr _ IH]; [done|]. cbn [formatPidFile].
  rewrite parse_cons, IH, parse_pid_line_line by (done || by apply pid_line_no_nl). done.
Qed.

(** What is read of a file holding the first bytes of what was written. *)
Definition torn_of (recs read : list vmmRecord) : Prop :=
  exists k cut, read = (take k recs ++ cut)%list /\
    (cut = [] \/ exists r x z, recs !! k = Some r /\ x <> "" /\ exe r = x ++ z /\ cut = [mkVmm (pid r) (start r) x (keep r)]).

Lemma torn_cons r recs l : torn_of recs l -> torn_of (r :: recs) (r :: l).
Proof. intros (k & cut & -> & H). by exists (S k), cut. Qed.

Lemma parse_torn recs p q :
  Forall recordable recs -> formatPidFile recs = p ++ q -> torn_of recs (parsePidFile p).
Proof.
  intros Hf. revert p. induction Hf as [|r recs Hr _ IH]; intros p H; cbn [formatPidFile] in H.
  { destruct p; [|done]. exists 0%nat, []. split; [done|by left]. }
  pose proof (pid_line_no_nl r Hr) as Hn. apply str_app_split in H as [(y & H & _)|([|c y] & -> & H)].
  - rewrite parse_one by (rewrite H in Hn; by apply no_char_app in Hn as [? _]).
    destruct (torn_line r p y Hr H) as [->|(x & z & ? & ? & ->)]; exists 0%nat.
    + exists []. split; [done|by left].
    + eexists. split; [done|]. right. by exists r, x, z.
  - rewrite str_app_nil_r, parse_one, parse_pid_line_line by done. exists 1%nat, []. cbn. split; [by rewrite take_0|by left].
  - cbn in H. injection H as <- H. rewrite parse_cons, parse_pid_line_line by done. by apply torn_cons, IH.
Qed.

(** A pid file reads back as the records written to it; one cut anywhere
    reads back as the first of them, and at most one more with the pid, the
    start time and a part of the executable of the next. *)
Theorem pid_file_exact (recs : list vmmRecord) (p q : string) :
  Forall recordable recs -> formatPidFile recs = p ++ q ->
  torn_of recs (parsePidFile p) /\ parsePidFile (formatPidFile recs) = recs.
Proof. intros Hf H. split; [by eapply parse_torn|by apply parse_format]. Qed.

(** ** Recording a process *)
Section Record_.
Context (readFile : string -> result string) (readlink : string -> result string).

Lemma ParseUint_range s v : ParseUint s = Some v -> 0 <= v < 2 ^ 64.
Proof.
  unfold ParseUint. destruct (parse_dec s) as [n|] eqn:E; cbn [mbind option_bind]; [|done].
  destruct (Z.ltb_spec n (2 ^ 64)); [|done]. intros [= <-]. split; [|done].
  unfold parse_dec in E. destruct s; [done|]. by eapply (digits_val_nonneg _ 0 _), E.
Qed.

Lemma procStartTime_range stat v : procStartTime stat = Ok v -> 0 <= v < 2 ^ 64.
Proof.
  unfold procStartTime. destruct (after_last _ _); [|done]. destruct (_ <? _); [done|].
  destruct (ParseUint _) eqn:E; [|done]. intros [= <-]. by eapply ParseUint_range.
Qed.

Lemma no_newline s : Contains s (String nl "") = false -> no_char nl s.
Proof.
  intros H. induction s as [|c s IH]; [done|]. cbn in H. apply orb_false_iff in H as [H1 H2].
  apply no_char_cons. split; [|by apply IH]. intros ->.
  unfold HasPrefix in H1. apply bool_decide_eq_false in H1. apply H1. exists s. by apply CutPrefix_Some.
Qed.

Lemma trim_same e p : p <> "" -> bool_decide (TrimSuffix e p = e) = negb (HasSuffix e p).
Proof.
  intros Hp. unfold TrimSuffix, HasSuffix. destruct (CutSuffix e p) as [r|] eqn:E; cbn [default].
  - rewrite (bool_decide_eq_true_2 (is_Some _)) by done. apply bool_decide_eq_false. cbn. intros Hr.
    apply CutSuffix_Some in E. rewrite Hr in E. rewrite <- (str_app_nil_r e) in E at 1. apply str_app_inj_l in E. congruence.
  - rewrite (bool_decide_eq_false_2 (is_Some _)) by (by intros []). by apply bool_decide_eq_true.
Qed.

(** A process [processRecord] accepts, of a pid over 1 and with a readable
    name, is an entry the pid file can hold, and [liveVMMs] finds it again as
    long as the process reads the same, unless its executable's name ends in
    the kernel's mark of a deleted file: that one is never found. *)
Theorem processRecord_found (p : Z) (k : bool) (r : vmmRecord) :
  1 < p < 2 ^ 63 -> processRecord readFile readlink p k = Ok r -> exe r <> "" ->
  recordable r /\ pid r = p /\ keep r = k /\
  liveVMMs readFile readlink [r] = (if HasSuffix (exe r) " (deleted)" then [] else [r]).
Proof.
  intros Hp H Hx. unfold processRecord in H. destruct (readFile _) as [stat|] eqn:Er; [|done].
  destruct (procStartTime stat) as [st|] eqn:Es; [|done]. destruct (readlink _) as [e|] eqn:El; [|done].
  destruct (Contains _ _) eqn:Ec; [done|]. injection H as <-. cbn [exe pid keep] in *.
  pose proof (procStartTime_range _ _ Es). split_and!; try done.
  - split_and!; cbn [pid start exe]; try lia; [done|]. by apply no_newline.
  - assert (Hl : is_live readFile readlink (mkVmm p st e k) = negb (HasSuffix e " (deleted)")).
    { unfold is_live. cbn [pid start exe]. rewrite Er, Es, Z.eqb_refl, El. cbn [negb]. by apply trim_same. }
    unfold liveVMMs. destruct (HasSuffix e _).
    + rewrite filter_cons_False, filter_nil; [done|]. by rewrite Hl.
    + by rewrite filter_cons_True, filter_nil.
Qed.
End Record_.
End Pids.
