(* ===== verification/Vmms.v ===== *)
(** * Taking a slot, and cleaning up (src/driver/firecracker/slots_linux.go,
    clean.go)

    A build takes the first free slot under its host lock, killing VMs a dead
    warden left on it; [warden clean] kills and removes what no running build
    holds.  The machine is behind [VMHost]; time is in nanoseconds. *)
From S2P Require Import Prelude Text BuildLink Session Failure Slots LayerCache Pids.

#[local] Open Scope string_scope.
#[local] Open Scope Z_scope.

(** What these files ask of the operating system and of [driver.TryHostLock],
    whose result is true when the lock was taken. *)
Class VMHost (W : Type) := {
  TryHostLock : W -> string -> W * result bool;
  Unlock : W -> string -> W;
  ReadFile : W -> string -> result string;
  Readlink : W -> string -> result string;
  Remove : W -> string -> W * option error;
  RemoveAll : W -> string -> W * option error;
  Kill : W -> Z -> W * option error;
  Now : W -> Z;
  Sleep : W -> Z -> W;
  Glob : W -> string -> list string;
  ReadDir : W -> string -> result (list (string * bool)) }.

Module Vmms.
Import BuildLink Failure Slots Pids.

Definition Join := Session.Join.
Definition Base := LayerCache.Base.

Section Vmms.
Context {W : Type} {VH : VMHost W} (LockDir ImageDir WorkRoot TempDir : string).

Definition pidFilePath (s : Z) : string := Join LockDir (LockName s ++ ".pids").

Definition live (w : W) (recs : list vmmRecord) : list vmmRecord := liveVMMs (ReadFile w) (Readlink w) recs.

(** [slotVMMs] *)
Definition slotVMMs (w : W) (s : Z) : list vmmRecord :=
  match ReadFile w (pidFilePath s) with
  | Ok b => live w (parsePidFile b)
  | Err _ => []
  end.

Definition anyKept (recs : list vmmRecord) : bool := existsb keep recs.

(** ** killVMMs *)
Definition ESRCH : error := Sentinel "no such process".

Fixpoint send_kills (w : W) (recs : list vmmRecord) : W * option error :=
  match recs with
  | [] => (w, None)
  | r :: recs =>
      match Kill w (pid r) with
      | (w, Some e) =>
          if errors_Is e ESRCH then send_kills w recs
          else (w, Some (Wrap ("killing stale VMM " ++ Itoa (pid r)) e))
      | (w, None) => send_kills w recs
      end
  end.

Definition stuck (recs : list vmmRecord) : error :=
  Errorf "stale VMMs %v did not exit after SIGKILL" ((fun r => Itoa (pid r)) <$> recs).

(** The loop until [deadline]; each pass sleeps 50 ms. *)
Fixpoint await_exit (fuel : nat) (w : W) (recs : list vmmRecord) (deadline : Z) : W * option error :=
  match fuel with
  | O => (w, Some (stuck recs))
  | S fuel =>
      if Now w <? deadline then
        match live w recs with
        | [] => (w, None)
        | _ => await_exit fuel (Sleep w 50000000) recs deadline
        end
      else (w, Some (stuck recs))
  end.

(** Five seconds hold a hundred sleeps. *)
Definition kill_passes : nat := 101.

(** [killVMMs] *)
Definition killVMMs (w : W) (recs : list vmmRecord) : W * option error :=
  match send_kills w recs with
  | (w, Some e) => (w, Some e)
  | (w, None) => await_exit kill_passes w recs (Now w + 5000000000)
  end.

(** ** acquireSlot *)
Definition busyFix : string :=
  "wait for a running build to finish, stop VMs left by --keep-vms (warden clean --driver firecracker), or add slots: sudo warden setup --driver firecracker --slots N".

Fixpoint acquire_loop (w : W) (todo : list Z) (n : Z) : W * (Z + failure) :=
  match todo with
  | [] => (w, inr (Fixable busyFix (Errorf "all %d firecracker slots are in use" [Itoa n])))
  | s :: todo =>
      match TryHostLock w (LockName s) with
      | (w, Err e) => (w, inr (Plain e))
      | (w, Ok false) => acquire_loop w todo n
      | (w, Ok true) =>
          let l := slotVMMs w s in
          if anyKept l then acquire_loop (Unlock w (LockName s)) todo n
          else
            match (match l with [] => (w, None) | _ => killVMMs w l end) with
            | (w, Some e) => (Unlock w (LockName s), inr (Plain e))
            | (w, None) => let '(w, _) := Remove w (pidFilePath s) in (w, inl s)
            end
      end
  end.

(** [acquireSlot]; the lock of the slot it returns is the caller's to release. *)
Definition acquireSlot (w : W) (slots : list Z) : W * (Z + failure) := acquire_loop w slots (len slots).

(** ** Clean *)
Definition convertLockName (prefix : string) : string := "firecracker-convert-" ++ prefix.
Definition buildLockName (buildID : string) : string := "firecracker-build-" ++ buildID.

Definition is_lower_hex (c : ascii) : bool := is_digit c || ((97 <=? code c) && (code c <=? 102)).

(** [convertLockOf]; [strings.Trim] by a set leaves "" exactly when every byte
    is in it. *)
Definition convertLockOf (name : string) : option string :=
  match CutSuffix name ".raw.tmp" with
  | None => None
  | Some stem =>
      let n := String.length stem in
      if (slen stem <? 13) || negb (bool_decide (String.get (n - 13) stem = Some "-"%char)) then None
      else
        let prefix := substring (n - 12) 12 stem in
        if negb (str_forallb is_lower_hex prefix) then None else Some (convertLockName prefix)
  end.

(** [buildIDOf]; the id [None] is "". *)
Definition buildIDOf (name : string) : option string :=
  match CutPrefix name "warden-firecracker-" with
  | Some rest => let id := List.hd "" (Split rest "-") in if bool_decide (id = "") then None else Some id
  | None =>
      if (slen name =? 8) && str_forallb (fun c => negb (bool_decide (c ∈ ["-"%char; "."%char; " "%char]))) name
      then Some name else None
  end.

(** [if err := act(); err == nil { print line; removed++ }] under [lock]: what
    the three loops do with one candidate. *)
Definition under_lock (w : W) (lock : string) (act : W -> W * (Z * list string)) : W * (Z * list string) :=
  match TryHostLock w lock with
  | (w, Ok true) => let '(w, out) := act w in (Unlock w lock, out)
  | (w, _) => (w, (0, []))
  end.

Fixpoint each {A} (f : W -> A -> W * (Z * list string)) (w : W) (l : list A) : W * (Z * list string) :=
  match l with
  | [] => (w, (0, []))
  | a :: l =>
      let '(w, (n, out)) := f w a in
      let '(w, (m, out')) := each f w l in
      (w, (n + m, out ++ out')%list)
  end.

(** [reapConversions] *)
Definition reap_conversion (w : W) (tmp : string) : W * (Z * list string) :=
  match convertLockOf (Base tmp) with
  | None => (w, (0, []))
  | Some lock =>
      under_lock w lock (fun w =>
        match Remove w tmp with
        | (w, None) => (w, (1, ["Removed partial firecracker image: " ++ tmp]))
        | (w, Some _) => (w, (0, []))
        end)
  end.
Definition reapConversions (w : W) : W * (Z * list string) :=
  each reap_conversion w (Glob w (Join ImageDir "*.raw.tmp")).

(** [reapVMMs]: the slot a pid file's name says. *)
Definition slot_of_pids (p : string) : option Z :=
  Atoi (TrimSuffix (TrimPrefix (Base p) "firecracker-slot-") ".pids").

Definition text_of (r : result string) : string := match r with Ok b => b | Err _ => "" end.

Definition reap_slot (w : W) (p : string) : W * (Z * list string) :=
  match slot_of_pids p with
  | None => (w, (0, []))
  | Some s =>
      under_lock w (LockName s) (fun w =>
        let l := live w (parsePidFile (text_of (ReadFile w p))) in
        match l with
        | [] => let '(w, _) := Remove w p in (w, (0, []))
        | _ =>
            match killVMMs w l with
            | (w, Some e) => (w, (0, ["Killing VMMs on slot " ++ Itoa s]))
            | (w, None) =>
                let '(w, _) := Remove w p in
                (w, (len l, ["Killed " ++ Itoa (len l) ++ " VMM(s) on firecracker slot " ++ Itoa s]))
            end
        end)
  end.
Definition reapVMMs (w : W) : W * (Z * list string) :=
  each reap_slot w (Glob w (Join LockDir "firecracker-slot-*.pids")).

(** [reapWorkDirs] *)
Definition reap_dir (w : W) (dir : string) : W * (Z * list string) :=
  match buildIDOf (Base dir) with
  | None => (w, (0, []))
  | Some id =>
      under_lock w (buildLockName id) (fun w =>
        match RemoveAll w dir with
        | (w, None) => (w, (1, ["Removed firecracker work dir: " ++ dir]))
        | (w, Some _) => (w, (0, []))
        end)
  end.
Definition work_dirs (w : W) : list string :=
  match ReadDir w WorkRoot with
  | Ok ents => (fun e => Join WorkRoot e.1) <$> filter (fun e => e.2 = true) ents
  | Err _ => []
  end.
Definition reapWorkDirs (w : W) (tempDir : string) : W * (Z * list string) :=
  let tempDir := if bool_decide (tempDir = "") then TempDir else tempDir in
  each reap_dir w (work_dirs w ++ Glob w (Join tempDir "warden-firecracker-*"))%list.

(** [Clean]: Go evaluates the operands left to right. *)
Definition Clean (w : W) (tempDir : string) : W * (Z * list string) :=
  let '(w, (a, o1)) := reapVMMs w in
  let '(w, (b, o2)) := reapWorkDirs w tempDir in
  let '(w, (c, o3)) := reapConversions w in
  (w, (a + b + c, o1 ++ o2 ++ o3)%list).
End Vmms.
End Vmms.
