(* ===== verification/VmmsSpec.v ===== *)
(** * What taking a slot and cleaning up guarantee

    A build gets the first slot nobody holds and no kept VM is on, after the
    processes a dead warden left on it are gone; every kill and removal of
    [Clean] happens under the lock of the build it would disturb. *)
From S2P Require Import Prelude Text Failure Slots Pids Vmms.

#[local] Open Scope string_scope.
#[local] Open Scope Z_scope.

(** The locks this process holds, and the signals it sent and the paths it
    removed, each with the locks held then. *)
Class VMView (W : Type) := {
  held : W -> gset string;
  killed : W -> list (Z * gset string);
  removed : W -> list (string * gset string) }.

(** Nothing a pid file or a log says has changed. *)
Definition quiet {W} `{VMHost W, VMView W} (w w' : W) : Prop :=
  (forall p, ReadFile w' p = ReadFile w p) /\ (forall p, Readlink w' p = Readlink w p) /\
  killed w' = killed w /\ removed w' = removed w.

(** The processes and pid files after a signal, a sleep or a removal: a
    recorded process that is gone does not come back, and a slot's pid file
    changes only under its lock. *)
Definition only_exits {W} `{VMHost W, VMView W} (w w' : W) : Prop :=
  held w' = held w /\
  (forall r, Pids.is_live (ReadFile w) (Readlink w) r = false -> Pids.is_live (ReadFile w') (Readlink w') r = false).

Class VMLaws (W : Type) (LockDir : string) `{VMHost W, VMView W} := {
  lock_held w n : held (TryHostLock w n).1 =
    match (TryHostLock w n).2 with Ok true => {[n]} ∪ held w | _ => held w end;
  lock_free w n : (TryHostLock w n).2 = Ok true -> n ∉ held w;
  lock_quiet w n : quiet w (TryHostLock w n).1;
  lock_failed w n m : (TryHostLock w n).2 = Ok false -> (TryHostLock (TryHostLock w n).1 m).2 = (TryHostLock w m).2;
  lock_undone w n m : (TryHostLock w n).2 = Ok true ->
    (TryHostLock (Unlock (TryHostLock w n).1 n) m).2 = (TryHostLock w m).2;
  unlock_held w n : held (Unlock w n) = held w ∖ {[n]};
  unlock_quiet w n : quiet w (Unlock w n);
  kill_exits w p : only_exits w (Kill w p).1;
  kill_killed w p : killed (Kill w p).1 = (killed w ++ [(p, held w)])%list;
  kill_removed w p : removed (Kill w p).1 = removed w;
  kill_pids w p s : Slots.LockName s ∈ held w ->
    ReadFile (Kill w p).1 (Vmms.pidFilePath LockDir s) = ReadFile w (Vmms.pidFilePath LockDir s);
  sleep_exits w d : only_exits w (Sleep w d);
  sleep_killed w d : killed (Sleep w d) = killed w;
  sleep_removed w d : removed (Sleep w d) = removed w;
  sleep_pids w d s : Slots.LockName s ∈ held w ->
    ReadFile (Sleep w d) (Vmms.pidFilePath LockDir s) = ReadFile w (Vmms.pidFilePath LockDir s);
  sleep_time w d : 0 <= d -> Now w + d <= Now (Sleep w d);
  remove_exits w p : only_exits w (Remove w p).1;
  remove_killed w p : killed (Remove w p).1 = killed w;
  remove_removed w p : removed (Remove w p).1 = (removed w ++ [(p, held w)])%list;
  remove_file w p : ReadFile (Remove w p).1 p = ReadFile w p \/ exists e, ReadFile (Remove w p).1 p = Err e;
  remove_all_held w p : held (RemoveAll w p).1 = held w;
  remove_all_killed w p : killed (RemoveAll w p).1 = killed w;
  remove_all_removed w p : removed (RemoveAll w p).1 = (removed w ++ [(p, held w)])%list }.

Module VmmsSpec.
Import Failure Slots Pids Vmms.

Section Spec.
Context {W : Type} {LockDir : string} {VH : VMHost W} {VV : VMView W} {VL : VMLaws W LockDir}.

#[local] Abbreviation slotVMMs := (Vmms.slotVMMs LockDir).
#[local] Abbreviation pidFilePath := (Vmms.pidFilePath LockDir).

Lemma live_nil w w' recs :
  only_exits w w' -> live w recs = [] -> live w' recs = [].
Proof using Type.
  intros [_ Hm] Hl. unfold live, liveVMMs in *. induction recs as [|r recs IH]; [done|].
  rewrite filter_cons in Hl |- *. destruct (decide _) as [|Hn] in Hl; [done|].
  rewrite decide_False; [by apply IH|]. rewrite Hm; [done|]. by apply not_true_is_false.
Qed.

Lemma live_live w recs : live w (live w recs) = live w recs.
Proof using Type. unfold live, liveVMMs. rewrite list_filter_filter. apply list_filter_iff. tauto. Qed.

(** Processes that all exited leave nothing of the records they were found
    among. *)
Lemma live_among w w' recs :
  (forall r, is_live (ReadFile w) (Readlink w) r = false -> is_live (ReadFile w') (Readlink w') r = false) ->
  live w' (live w recs) = [] -> live w' recs = [].
Proof using Type.
  intros Hm. unfold live, liveVMMs. induction recs as [|r recs IH]; [done|]. rewrite !filter_cons.
  destruct (is_live (ReadFile w) (Readlink w) r) eqn:E.
  - rewrite decide_True, filter_cons by done. destruct (decide _); [done|]. done.
  - rewrite decide_False by done. rewrite (decide_False (P := is_live _ _ r = true)) by (rewrite Hm; done). done.
Qed.

(** ** Killing *)

(** How a step that kills, sleeps and removes takes [w] to [w'] while this
    process holds [n]: signals [ks] were sent. *)
Definition kills (s : Z) (w w' : W) (ks : list Z) : Prop :=
  only_exits w w' /\ killed w' = (killed w ++ ((fun p => (p, held w)) <$> ks))%list /\ removed w' = removed w /\
  (LockName s ∈ held w -> ReadFile w' (pidFilePath s) = ReadFile w (pidFilePath s)).

Lemma kills_refl s w : kills s w w [].
Proof using Type. split_and!; [done|by rewrite app_nil_r|done..]. Qed.

Lemma kills_trans s w1 w2 w3 k1 k2 : kills s w1 w2 k1 -> kills s w2 w3 k2 -> kills s w1 w3 (k1 ++ k2)%list.
Proof using Type.
  intros ([Hh1 Hm1] & Hk1 & Hr1 & Hp1) ([Hh2 Hm2] & Hk2 & Hr2 & Hp2). rewrite Hh1 in *. split_and!.
  - split; [congruence|auto].
  - by rewrite Hk2, Hk1, fmap_app, app_assoc.
  - congruence.
  - intros Hs. rewrite Hp2, Hp1; done.
Qed.

Lemma kill_kills s w p : kills s w (Kill w p).1 [p].
Proof using VL.
  split_and!; [apply kill_exits|apply kill_killed|apply (kill_removed (LockDir := LockDir))|apply kill_pids].
Qed.

Lemma sleep_kills s w d : kills s w (Sleep w d) [].
Proof using VL.
  split_and!; [apply sleep_exits|rewrite app_nil_r; apply (sleep_killed (LockDir := LockDir))|
    apply (sleep_removed (LockDir := LockDir))|apply sleep_pids].
Qed.

Lemma send_kills_spec s recs : forall w w' e,
  send_kills w recs = (w', e) ->
  exists ks, ks `prefix_of` (pid <$> recs) /\ kills s w w' ks /\ (e = None -> ks = pid <$> recs).
Proof using VL.
  induction recs as [|r recs IH]; intros w w' e H; cbn [send_kills] in H.
  { simplify_eq. exists []. split_and!; [done|apply kills_refl|done]. }
  pose proof (kill_kills s w (pid r)) as Hk. destruct (Kill w (pid r)) as [w1 e1]. cbn [fst] in Hk.
  assert (Hgo : send_kills w1 recs = (w', e) -> exists ks, ks `prefix_of` (pid <$> r :: recs) /\ kills s w w' ks /\
      (e = None -> ks = pid <$> r :: recs)).
  { intros H1. destruct (IH _ _ _ H1) as (ks & Hp & Hks & He). exists (pid r :: ks). cbn [fmap list_fmap].
    split_and!; [by apply prefix_cons|by apply (kills_trans _ _ _ _ [_] ks Hk)|intros ->; f_equal; auto]. }
  destruct e1 as [e1|]; [destruct (errors_Is e1 ESRCH)|]; auto. simplify_eq.
  exists [pid r]. split_and!; [|done|done]. exists (pid <$> recs). done.
Qed.

(** The loop that waits: its fuel never runs out before its deadline. *)
Lemma await_exit_spec s recs d fuel : forall w w' e,
  await_exit fuel w recs d = (w', e) -> kills s w w' [] /\ (e = None -> live w' recs = []).
Proof using VL.
  induction fuel as [|fuel IH]; intros w w' e H; cbn [await_exit] in H.
  { simplify_eq. split; [apply kills_refl|done]. }
  destruct (Now w <? d); [|simplify_eq; split; [apply kills_refl|done]].
  destruct (live w recs) eqn:El; [simplify_eq; split; [apply kills_refl|done]|].
  destruct (IH _ _ _ H) as [Hk He]. split; [|done]. by apply (kills_trans _ _ _ _ [] [] (sleep_kills s w 50000000)).
Qed.

Lemma await_exit_fuel recs d (n m : nat) : forall w,
  d - Now w <= 50000000 * (Z.of_nat n - 1) -> d - Now w <= 50000000 * (Z.of_nat m - 1) ->
  await_exit n w recs d = await_exit m w recs d.
Proof using VL.
  revert m. induction n as [|n IH]; intros m w Hn Hm.
  - destruct m; [done|]. cbn [await_exit]. by rewrite (proj2 (Z.ltb_ge _ _)) by lia.
  - destruct m as [|m]; cbn [await_exit]; [by rewrite (proj2 (Z.ltb_ge _ _)) by lia|].
    destruct (Z.ltb_spec (Now w) d); [|done]. destruct (live w recs); [done|].
    pose proof (sleep_time (LockDir := LockDir) w 50000000 ltac:(lia)). apply IH; lia.
Qed.

(** The hundred and one passes of [killVMMs] are as good as any larger number:
    its answer is the deadline's, not the fuel's. *)
Lemma kill_passes_enough recs w n :
  (kill_passes <= n)%nat -> await_exit n w recs (Now w + 5000000000) = await_exit kill_passes w recs (Now w + 5000000000).
Proof using VL. intros Hn. apply await_exit_fuel; unfold kill_passes in *; lia. Qed.

Lemma killVMMs_spec s recs w w' e :
  killVMMs w recs = (w', e) ->
  exists ks, ks `prefix_of` (pid <$> recs) /\ kills s w w' ks /\ (e = None -> ks = pid <$> recs /\ live w' recs = []).
Proof using VL.
  unfold killVMMs. destruct (send_kills w recs) as [w1 [e1|] ] eqn:E1; intros H.
  - simplify_eq. destruct (send_kills_spec s _ _ _ _ E1) as (ks & ? & ? & ?). by exists ks.
  - destruct (send_kills_spec s _ _ _ _ E1) as (ks & Hp & Hk & He).
    destruct (await_exit_spec s _ _ _ _ _ _ H) as [Hk2 Hl]. exists ks. split_and!; [done| |auto].
    pose proof (kills_trans _ _ _ _ _ _ Hk Hk2) as Hks. by rewrite app_nil_r in Hks.
Qed.

(** ** Taking a slot *)
Definition lockable (w : W) (s : Z) : result bool := (TryHostLock w (LockName s)).2.

(** The slot at which the search ends: one whose lock cannot be asked for, or
    one nobody holds and no kept VM is on. *)
Definition decides (w : W) (s : Z) : bool :=
  match lockable w s with Err _ => true | Ok b => b && negb (anyKept (slotVMMs w s)) end.

Lemma slotVMMs_quiet w w' s : quiet w w' -> slotVMMs w' s = slotVMMs w s.
Proof using Type.
  intros (Hf & Hl & _). unfold Vmms.slotVMMs. rewrite Hf. destruct (ReadFile w _); [|done].
  unfold live, liveVMMs. apply list_filter_iff. intros r. unfold is_live. by rewrite !Hf, Hl.
Qed.

Lemma quiet_trans w1 w2 w3 : quiet w1 w2 -> quiet w2 w3 -> quiet w1 w3.
Proof using Type.
  intros (A1 & A2 & A3 & A4) (B1 & B2 & B3 & B4). split_and!; intros; by rewrite ?B1, ?B2, ?B3, ?B4.
Qed.

(** A slot the search passes over leaves the locks and the slots as they were. *)
Definition same_slots (w w' : W) : Prop :=
  held w' = held w /\ quiet w w' /\ forall m, (TryHostLock w' m).2 = (TryHostLock w m).2.

Lemma same_decides w w' s : same_slots w w' -> decides w' s = decides w s.
Proof using Type. intros (_ & Hq & Hl). unfold decides, lockable. by rewrite Hl, (slotVMMs_quiet w w') by done. Qed.

Lemma passed_over w s :
  lockable w s = Ok false -> same_slots w (TryHostLock w (LockName s)).1.
Proof using VL.
  unfold lockable. intros H. split_and!; [by rewrite lock_held, H|apply lock_quiet|]. intros m. by apply lock_failed.
Qed.

Lemma given_back w s :
  lockable w s = Ok true -> same_slots w (Unlock (TryHostLock w (LockName s)).1 (LockName s)).
Proof using VL.
  unfold lockable. intros H. split_and!; [|eapply quiet_trans; [apply lock_quiet|apply unlock_quiet]|].
  - rewrite unlock_held, lock_held, H. pose proof (lock_free _ _ H). set_solver.
  - intros m. by apply lock_undone.
Qed.

(** Where the search stops, in the world [w] it began in. *)
Definition found_at (w w' : W) (s : Z) (r : Z + failure) : Prop :=
  match lockable w s with
  | Err e => r = inr (Plain e) /\ held w' = held w /\ killed w' = killed w
  | Ok _ =>
      exists ks, ks `prefix_of` (pid <$> slotVMMs w s) /\
        killed w' = (killed w ++ ((fun p => (p, {[LockName s]} ∪ held w)) <$> ks))%list /\
        ((r = inl s /\ ks = pid <$> slotVMMs w s /\ held w' = {[LockName s]} ∪ held w /\ slotVMMs w' s = []) \/
         (exists e, r = inr (Plain e) /\ held w' = held w))
  end.

Lemma remove_clears w s :
  live w (match ReadFile w (pidFilePath s) with Ok b => parsePidFile b | Err _ => [] end) = [] ->
  slotVMMs (Remove w (pidFilePath s)).1 s = [].
Proof using VL.
  intros Hl. unfold Vmms.slotVMMs. destruct (remove_file (LockDir := LockDir) w (pidFilePath s)) as [->|[e ->] ]; [|done].
  destruct (ReadFile w _); [|done]. eapply live_nil, Hl. apply remove_exits.
Qed.

(** Locking, killing what is there and removing the pid file. *)
Lemma take_slot w s w' r :
  lockable w s = Ok true -> anyKept (slotVMMs w s) = false ->
  (let w1 := (TryHostLock w (LockName s)).1 in
   match (match slotVMMs w s with [] => (w1, None) | _ => killVMMs w1 (slotVMMs w s) end) with
   | (w, Some e) => (Unlock w (LockName s), inr (Plain e))
   | (w, None) => let '(w, _) := Remove w (pidFilePath s) in (w, inl s)
   end) = (w', r) -> found_at w w' s r.
Proof using VL.
  intros Hl Hk H. unfold found_at. rewrite Hl. pose proof (lock_quiet w (LockName s)) as Hq.
  pose proof (lock_held w (LockName s)) as Hh. unfold lockable in Hl. rewrite Hl in Hh.
  pose proof (lock_free _ _ Hl) as Hf. cbn zeta in H.
  destruct (TryHostLock w (LockName s)) as [w1 b]. cbn [fst snd] in *. subst b.
  pose proof (slotVMMs_quiet _ _ s Hq) as Hv. destruct Hq as (Hrf & Hrl & Hkd & Hrm).
  assert (exists ks e w2, (match slotVMMs w s with [] => (w1, None) | _ => killVMMs w1 (slotVMMs w s) end) = (w2, e) /\
    ks `prefix_of` (pid <$> slotVMMs w s) /\ kills s w1 w2 ks /\
    (e = None -> ks = pid <$> slotVMMs w s /\ live w2 (slotVMMs w s) = [])) as (ks & e & w2 & E & Hp & Hks & He).
  { destruct (slotVMMs w s) as [|v l] eqn:Es.
    - exists [], None, w1. split_and!; [done|done|apply kills_refl|done].
    - destruct (killVMMs w1 (v :: l)) as [w2 e] eqn:E. destruct (killVMMs_spec s _ _ _ _ E) as (ks & ? & ? & ?).
      by exists ks, e, w2. }
  rewrite E in H. exists ks. destruct Hks as ([Hh2 Hm2] & Hk2 & Hr2 & Hf2). destruct e as [e|].
  - simplify_eq. pose proof (unlock_quiet w2 (LockName s)) as (_ & _ & Hku & _).
    split_and!; [done|by rewrite Hku, Hk2, Hkd, Hh|]. right. exists e. split; [done|]. rewrite unlock_held, Hh2, Hh. set_solver.
  - destruct (He eq_refl) as [-> Hl2]. pose proof (remove_exits w2 (pidFilePath s)) as [Hh3 _].
    pose proof (remove_killed (LockDir := LockDir) w2 (pidFilePath s)) as Hk3.
    assert (Hclear : slotVMMs (Remove w2 (pidFilePath s)).1 s = []).
    { apply remove_clears. rewrite Hf2 by (rewrite Hh; set_solver). rewrite <- Hv in Hl2. unfold Vmms.slotVMMs in Hl2.
      destruct (ReadFile w1 _); [|done]. by eapply live_among. }
    destruct (Remove w2 (pidFilePath s)) as [w3 ?]. cbn [fst] in *. simplify_eq.
    split_and!; [done|by rewrite Hk3, Hk2, Hkd, Hh|]. left. split_and!; [done..|congruence|done].
Qed.

Lemma found_at_same w0 w w' s r : same_slots w0 w -> found_at w w' s r -> found_at w0 w' s r.
Proof using Type.
  intros (Hh & Hq & Hl) H. unfold found_at, lockable in *. rewrite Hl, (slotVMMs_quiet w0 w s Hq), Hh in H.
  destruct Hq as (_ & _ & Hk & _). by rewrite Hk in H.
Qed.

Lemma find_same w0 w l : same_slots w0 w -> List.find (decides w) l = List.find (decides w0) l.
Proof using Type. intros H. induction l as [|s l IH]; [done|]. cbn. by rewrite (same_decides w0 w), IH. Qed.

(** How the search ends. *)
Definition ends_at (w w' : W) (n : Z) (r : Z + failure) (o : option Z) : Prop :=
  match o with
  | None => r = inr (Fixable busyFix (Errorf "all %d firecracker slots are in use" [Itoa n])) /\
            held w' = held w /\ killed w' = killed w
  | Some s => found_at w w' s r
  end.

Lemma ends_at_same w0 w w' n r o : same_slots w0 w -> ends_at w w' n r o -> ends_at w0 w' n r o.
Proof using Type.
  intros H. destruct o as [s|]; cbn [ends_at]; [by apply found_at_same|].
  destruct H as (Hh & (_ & _ & Hk & _) & _). rewrite Hh, Hk. done.
Qed.

Lemma acquire_loop_spec n l : forall w w' r,
  acquire_loop LockDir w l n = (w', r) -> ends_at w w' n r (List.find (decides w) l).
Proof using VL.
  induction l as [|s l IH]; intros w w' r H; cbn [acquire_loop] in H; [by simplify_eq|].
  pose proof (lock_held w (LockName s)) as Hh. pose proof (lock_quiet w (LockName s)) as Hq.
  pose proof (passed_over w s) as Hpass. pose proof (given_back w s) as Hback. pose proof (take_slot w s w' r) as Htake.
  pose proof (slotVMMs_quiet _ _ s Hq) as Hv.
  cbn [List.find]. unfold lockable in *. destruct (decides w s) eqn:Hd; unfold decides, lockable in Hd;
    destruct (TryHostLock w (LockName s)) as [w1 [ [|]|e] ] eqn:El; cbn [fst snd] in *; try done.
  - cbn [andb] in Hd. apply negb_true_iff in Hd. rewrite Hv, Hd in H. by apply Htake.
  - simplify_eq. cbn [ends_at]. unfold found_at, lockable. rewrite El. cbn [snd].
    destruct Hq as (_ & _ & Hk & _). done.
  - cbn [andb] in Hd. apply negb_false_iff in Hd. rewrite Hv, Hd in H. rewrite <- (find_same w _ l (Hback eq_refl)).
    eapply ends_at_same; [by apply Hback|]. by apply IH.
  - rewrite <- (find_same w _ l (Hpass eq_refl)). eapply ends_at_same; [by apply Hpass|]. by apply IH.
Qed.

(** A build is given the first of its slots that nobody holds and no kept VM
    is on; every process a dead warden left on it, and no other, is sent SIGKILL,
    under the slot's lock, and when it is given the slot none of them runs any
    more.  If there is no such slot nothing is killed or held; a failure after
    that gives the lock back. *)
Theorem acquire_first_fit (w w' : W) (slots : list Z) (r : Z + failure) :
  acquireSlot LockDir w slots = (w', r) -> ends_at w w' (len slots) r (List.find (decides w) slots).
Proof using VL. apply acquire_loop_spec. Qed.

(** ** Cleaning *)

(** The lock a removal or a kill must be made under. *)
Definition lock_of (path : string) (lock : string) : Prop :=
  (exists s, slot_of_pids path = Some s /\ lock = LockName s) \/
  (exists id, buildIDOf (Base path) = Some id /\ lock = buildLockName id) \/
  convertLockOf (Base path) = Some lock.

(** The locks are what they were; each kill and removal was made while this
    process held a lock it did not hold before. *)
Definition under_locks (w w' : W) : Prop :=
  held w' = held w /\
  exists ks rs, killed w' = (killed w ++ ks)%list /\ removed w' = (removed w ++ rs)%list /\
    Forall (fun k => exists s, LockName s ∉ held w /\ k.2 = {[LockName s]} ∪ held w) ks /\
    Forall (fun r => exists lock, lock_of r.1 lock /\ lock ∉ held w /\ r.2 = {[lock]} ∪ held w) rs.

Lemma under_locks_refl w : under_locks w w.
Proof using Type. split; [done|]. exists [], []. split_and!; by rewrite ?app_nil_r. Qed.

Lemma under_locks_trans w1 w2 w3 : under_locks w1 w2 -> under_locks w2 w3 -> under_locks w1 w3.
Proof using Type.
  intros (Hh1 & k1 & r1 & Hk1 & Hr1 & F1 & G1) (Hh2 & k2 & r2 & Hk2 & Hr2 & F2 & G2). rewrite Hh1 in *.
  split; [congruence|]. exists (k1 ++ k2)%list, (r1 ++ r2)%list.
  rewrite Hk2, Hk1, Hr2, Hr1, !app_assoc. split_and!; [done..|by apply Forall_app|by apply Forall_app].
Qed.

(** What an action may do while it holds [lock]: kill under it when it is a
    slot's, and remove what it covers. *)
Definition acts_under (lock : string) (w w' : W) : Prop :=
  held w' = held w /\
  exists ks rs, killed w' = (killed w ++ ((fun p => (p, held w)) <$> ks))%list /\
    removed w' = (removed w ++ ((fun p => (p, held w)) <$> rs))%list /\
    (ks <> [] -> exists s, lock = LockName s) /\ Forall (fun p => lock_of p lock) rs.

Lemma under_lock_spec w lock act w' out :
  (forall w0 w1 o, act w0 = (w1, o) -> acts_under lock w0 w1) ->
  under_lock w lock act = (w', out) -> under_locks w w'.
Proof using VL.
  intros Hact. unfold under_lock. pose proof (lock_held w lock) as Hh. pose proof (lock_quiet w lock) as (_ & _ & Hk & Hr).
  pose proof (lock_free w lock) as Hf.
  destruct (TryHostLock w lock) as [w1 [ [|]|e] ]; cbn [fst snd] in *; intros H.
  2-3: simplify_eq; split; [done|]; exists [], []; split_and!; by rewrite ?app_nil_r.
  destruct (act w1) as [w2 o] eqn:E. simplify_eq. destruct (Hact _ _ _ E) as (Hh2 & ks & rs & Hk2 & Hr2 & Hs & HF).
  pose proof (unlock_quiet w2 lock) as (_ & _ & Hk3 & Hr3). pose proof (Hf eq_refl) as Hn.
  split; [rewrite unlock_held, Hh2, Hh; set_solver|]. eexists _, _.
  rewrite Hk3, Hk2, Hk, Hr3, Hr2, Hr, Hh. split_and!; [done..| |]; apply Forall_fmap, Forall_forall; cbn.
  - intros p Hp. destruct Hs as [s ->]; [by intros ->; apply not_elem_of_nil in Hp|]. by exists s.
  - intros p Hp. rewrite Forall_forall in HF. exists lock. auto.
Qed.

Lemma each_spec {A} (f : W -> A -> W * (Z * list string)) l : forall w w' out,
  (forall w w' a out, f w a = (w', out) -> under_locks w w') ->
  each f w l = (w', out) -> under_locks w w'.
Proof using Type.
  induction l as [|a l IH]; intros w w' out Hf H; cbn [each] in H; [simplify_eq; apply under_locks_refl|].
  destruct (f w a) as [w1 [n o] ] eqn:E1, (each f w1 l) as [w2 [m o'] ] eqn:E2. simplify_eq.
  eapply under_locks_trans; [by eapply Hf|by eapply IH].
Qed.

Lemma acts_refl lock w : acts_under lock w w.
Proof using Type. split; [done|]. exists [], []. split_and!; by rewrite ?app_nil_r. Qed.

Lemma remove_acts lock w p : lock_of p lock -> acts_under lock w (Remove w p).1.
Proof using VL.
  intros Hl. split; [apply remove_exits|]. exists [], [p]. cbn [fmap list_fmap].
  rewrite (remove_killed (LockDir := LockDir)), (remove_removed (LockDir := LockDir)), app_nil_r. split_and!; [done..|by constructor].
Qed.

Lemma remove_all_acts lock w p : lock_of p lock -> acts_under lock w (RemoveAll w p).1.
Proof using VL.
  intros Hl. split; [apply (remove_all_held (LockDir := LockDir))|]. exists [], [p]. cbn [fmap list_fmap].
  rewrite (remove_all_killed (LockDir := LockDir)), (remove_all_removed (LockDir := LockDir)), app_nil_r.
  split_and!; [done..|by constructor].
Qed.

Lemma kills_then_acts s w w1 w2 ks :
  kills s w w1 ks -> acts_under (LockName s) w1 w2 -> acts_under (LockName s) w w2.
Proof using Type.
  intros ([Hh _] & Hk & Hr & _) (Hh2 & k2 & r2 & Hk2 & Hr2 & _ & HF). rewrite Hh in *. split; [congruence|].
  exists (ks ++ k2)%list, r2. rewrite Hk2, Hk, Hr2, Hr, fmap_app, app_assoc. split_and!; [done..|by exists s|done].
Qed.

Lemma reap_slot_locks w p w' out : reap_slot w p = (w', out) -> under_locks w w'.
Proof using VL.
  unfold reap_slot. destruct (slot_of_pids p) as [s|] eqn:Es; [|intros; simplify_eq; apply under_locks_refl].
  apply under_lock_spec. intros w0 w1 o. assert (Hp : lock_of p (LockName s)) by (left; by exists s).
  destruct (live w0 _) as [|v l].
  - pose proof (remove_acts (LockName s) w0 p Hp) as Ha. destruct (Remove w0 p). intros; by simplify_eq.
  - destruct (killVMMs w0 (v :: l)) as [w2 [e|] ] eqn:Ek; destruct (killVMMs_spec s _ _ _ _ Ek) as (ks & _ & Hks & _).
    + intros; simplify_eq. eapply kills_then_acts; [done|apply acts_refl].
    + pose proof (remove_acts (LockName s) w2 p Hp) as Ha. destruct (Remove w2 p). intros; simplify_eq.
      by eapply kills_then_acts.
Qed.

Lemma reap_dir_locks w d w' out : reap_dir w d = (w', out) -> under_locks w w'.
Proof using VL.
  unfold reap_dir. destruct (buildIDOf _) as [id|] eqn:Es; [|intros; simplify_eq; apply under_locks_refl].
  apply under_lock_spec. intros w0 w1 o. pose proof (remove_all_acts (buildLockName id) w0 d) as Ha.
  destruct (RemoveAll w0 d) as [w2 [e|] ]; intros; simplify_eq; apply Ha; right; left; by exists id.
Qed.

Lemma reap_conversion_locks w t w' out : reap_conversion w t = (w', out) -> under_locks w w'.
Proof using VL.
  unfold reap_conversion. destruct (convertLockOf _) as [lock|] eqn:Es; [|intros; simplify_eq; apply under_locks_refl].
  apply under_lock_spec. intros w0 w1 o. pose proof (remove_acts lock w0 t) as Ha.
  destruct (Remove w0 t) as [w2 [e|] ]; intros; simplify_eq; apply Ha; by right; right.
Qed.

(** [Clean] ends with the locks it began with, and kills and removes only
    under a lock it took: a process under a slot's, a pid file, a work dir or a
    partial image under the one of the build, slot or conversion its name says. *)
Theorem clean_under_locks (ImageDir WorkRoot TempDir tempDir : string) (w w' : W) (n : Z) (out : list string) :
  Clean LockDir ImageDir WorkRoot TempDir w tempDir = (w', (n, out)) -> under_locks w w'.
Proof using VL.
  unfold Clean, reapVMMs, reapWorkDirs, reapConversions.
  destruct (each reap_slot _ _) as [w1 [a o1] ] eqn:E1, (each reap_dir _ _) as [w2 [b o2] ] eqn:E2,
    (each reap_conversion _ _) as [w3 [c o3] ] eqn:E3. intros; simplify_eq.
  eapply under_locks_trans; [eapply each_spec, E1; intros; by eapply reap_slot_locks|].
  eapply under_locks_trans; [eapply each_spec, E2; intros; by eapply reap_dir_locks|].
  eapply each_spec, E3; intros; by eapply reap_conversion_locks.
Qed.
End Spec.
End VmmsSpec.

(** ** A host *)
Module VmmsExamples.
Import Failure Slots Pids Vmms VmmsSpec.

Record world := mkWorld {
  files : gmap string string; stats : gmap string string; links : gmap string string;
  mine : gset string; others : gset string;
  sent : list (Z * gset string); gone : list (string * gset string); clock : Z }.

Definition with_locks (w : world) (l : gset string) : world :=
  mkWorld (files w) (stats w) (links w) l (others w) (sent w) (gone w) (clock w).

Definition lookup_file (m : gmap string string) (p : string) : result string :=
  match m !! p with Some b => Ok b | None => Err (Sentinel "ENOENT") end.

Definition kill_proc (w : world) (p : Z) : world * option error :=
  (mkWorld (files w) (delete (proc p ++ "/stat") (stats w)) (links w) (mine w) (others w)
     (sent w ++ [(p, mine w)])%list (gone w) (clock w), None).

Definition remove_file_ (w : world) (p : string) : world * option error :=
  (mkWorld (delete p (files w)) (stats w) (links w) (mine w) (others w) (sent w) (gone w ++ [(p, mine w)])%list (clock w), None).

#[export] Instance ex_host : VMHost world := {
  TryHostLock w n := if decide (n ∈ others w \/ n ∈ mine w) then (w, Ok false) else (with_locks w ({[n]} ∪ mine w), Ok true);
  Unlock w n := with_locks w (mine w ∖ {[n]});
  ReadFile w p := lookup_file (if HasPrefix p "/proc/" then stats w else files w) p;
  Readlink w p := lookup_file (links w) p;
  Remove := remove_file_;
  RemoveAll := remove_file_;
  Kill := kill_proc;
  Now := clock;
  Sleep w d := mkWorld (files w) (stats w) (links w) (mine w) (others w) (sent w) (gone w) (clock w + d);
  Glob w p := filter (fun f => HasSuffix f (TrimPrefix p "/l/firecracker-slot-*") = true) (fst <$> map_to_list (files w));
  ReadDir w p := Ok [] }.
#[export] Instance ex_view : VMView world := { held := mine; killed := sent; removed := gone }.

Lemma lock_path s : Vmms.pidFilePath "/l" s = "/l/" ++ LockName s ++ ".pids".
Proof.
  unfold Vmms.pidFilePath, Vmms.Join, Session.Session.Join, Translate.Translate.path_Clean.
  assert (Hn : no_char "/" (LockName s ++ ".pids")).
  { unfold LockName. rewrite !no_char_app. split_and!; [done| |done]. destruct (decide (0 <= s)).
    - by apply Itoa_no_char.
    - unfold Itoa. destruct s as [|p|p]; [lia..|]. change (no_char "/" ("-" ++ Itoa (Z.pos p))).
      apply no_char_app. split; [done|]. by apply Itoa_no_char. }
  cbn [append]. change ("/"%char) with ("/"%char). rewrite decide_True by done.
  change (String "l" (String "/" ?x)) with ("l" ++ String "/" x).
  rewrite Split_app by done. rewrite Split_none by done. reflexivity.
Qed.

Lemma proc_files s : HasPrefix (Vmms.pidFilePath "/l" s) "/proc/" = false.
Proof. by rewrite lock_path. Qed.

Lemma fewer_live (w w' : world) r :
  (forall p b, lookup_file (if HasPrefix p "/proc/" then stats w' else files w') p = Ok b ->
               lookup_file (if HasPrefix p "/proc/" then stats w else files w) p = Ok b) ->
  links w' = links w ->
  is_live (ReadFile w) (Readlink w) r = false -> is_live (ReadFile w') (Readlink w') r = false.
Proof.
  intros Hf Hl. unfold is_live. cbn [ReadFile Readlink ex_host]. rewrite Hl. intros Hn.
  match goal with |- match ?x with _ => _ end = _ => destruct x as [b|] eqn:E end; [|done].
  by rewrite (Hf _ _ E) in Hn.
Qed.

Lemma lookup_delete_Ok (m : gmap string string) p q b : lookup_file (delete p m) q = Ok b -> lookup_file m q = Ok b.
Proof.
  unfold lookup_file. destruct (decide (p = q)) as [->|].
  - by rewrite lookup_delete_eq.
  - by rewrite lookup_delete_ne.
Qed.

#[export] Instance ex_laws : VMLaws world "/l".
Proof.
  constructor; intros; cbn [TryHostLock Unlock Kill Remove RemoveAll Sleep Now ReadFile Readlink ex_host held killed removed ex_view] in *;
    unfold quiet, only_exits; cbn [ReadFile Readlink ex_host held killed removed ex_view].
  - by destruct (decide _).
  - destruct (decide _) as [|Hn]; [done|]. intros Hm. apply Hn. by right.
  - by destruct (decide _).
  - by destruct (decide (n ∈ _ \/ _)).
  - destruct (decide (n ∈ _ \/ _)) as [|Hn]; [done|]. cbn [fst with_locks mine others].
    assert (({[n]} ∪ mine w) ∖ {[n]} = mine w) as -> by set_solver.
    by repeat destruct (decide _).
  - done.
  - done.
  - split; [done|]. intros r. apply fewer_live; [|done]. intros q b. cbn. destruct (HasPrefix q _); [|done].
    by apply lookup_delete_Ok.
  - done.
  - done.
  - by rewrite proc_files.
  - split; [done|]. intros r. by apply fewer_live.
  - done.
  - done.
  - by rewrite proc_files.
  - cbn. lia.
  - split; [done|]. intros r. apply fewer_live; [|done]. intros q b. cbn. destruct (HasPrefix q _); [done|].
    by apply lookup_delete_Ok.
  - done.
  - done.
  - cbn. destruct (HasPrefix p _); [by left|]. right. unfold lookup_file. rewrite lookup_delete_eq. by eexists.
  - done.
  - done.
  - done.
Qed.

Definition stat_line (p : Z) (start : Z) : string :=
  Itoa p ++ " (fire) cracker) S 1 2 3 4 5 6 7 8 9 10 11 12 13 14 15 16 17 18 " ++ Itoa start ++ " 0 0" ++ String "010" "".

(** Slot 0 is taken, a kept VM runs on slot 1, and slot 2 has one stale VM
    and a record of a process that has exited. *)
Definition kept : vmmRecord := mkVmm 100 7 "/usr/bin/firecracker" true.
Definition stale : vmmRecord := mkVmm 200 8 "/opt/fire cracker" false.
Definition dead : vmmRecord := mkVmm 300 9 "/opt/fire cracker" false.
Definition w0 : world :=
  mkWorld (list_to_map [(Vmms.pidFilePath "/l" 1, formatPidFile [kept]); (Vmms.pidFilePath "/l" 2, formatPidFile [stale; dead])])
    (list_to_map [("/proc/100/stat", stat_line 100 7); ("/proc/200/stat", stat_line 200 8); ("/proc/300/stat", stat_line 300 90)])
    (list_to_map [("/proc/100/exe", "/usr/bin/firecracker"); ("/proc/200/exe", "/opt/fire cracker (deleted)");
                  ("/proc/300/exe", "/opt/fire cracker")])
    ∅ {[LockName 0]} [] [] 0.

Example acquired : let '(w, r) := acquireSlot "/l" w0 [0; 1; 2; 3] in
  r = inl 2 /\ sent w = [(200, {[LockName 2]})] /\ elements (mine w) = [LockName 2] /\
  gone w = [(Vmms.pidFilePath "/l" 2, {[LockName 2]})].
Proof. vm_compute. done. Qed.

Example all_taken : (acquireSlot "/l" w0 [0; 1]).2 = inr (Fixable busyFix (Errorf "all %d firecracker slots are in use" ["2"])).
Proof. vm_compute. done. Qed.

Lemma acquire_first_fit_witness : exists w,
  acquireSlot "/l" w0 [0; 1; 2; 3] = (w, inl 2) /\
  ends_at (LockDir := "/l") w0 w 4 (inl 2) (List.find (decides (LockDir := "/l") w0) [0; 1; 2; 3]).
Proof.
  eexists. split; [vm_compute; reflexivity|].
  apply (acquire_first_fit (LockDir := "/l") w0 _ [0; 1; 2; 3] (inl 2)). vm_compute. reflexivity.
Defined.

Example cleaned : let '(w, (n, out)) := Clean "/l" "/i" "/w" "/tmp" w0 "" in
  n = 2 /\ gone w = [(Vmms.pidFilePath "/l" 1, {[LockName 1]}); (Vmms.pidFilePath "/l" 2, {[LockName 2]})] /\
  List.map fst (sent w) = [100; 200] /\ elements (mine w) = [].
Proof. vm_compute. done. Qed.

Lemma clean_under_locks_witness : exists w n out,
  Clean "/l" "/i" "/w" "/tmp" w0 "" = (w, (n, out)) /\ under_locks w0 w.
Proof.
  eexists _, _, _. split; [vm_compute; reflexivity|].
  eapply (clean_under_locks (LockDir := "/l") "/i" "/w" "/tmp" "" w0). vm_compute. reflexivity.
Defined.
End VmmsExamples.
