(* ===== verification/Cpio.v ===== *)
(** * The relay's and the build VM's initrd (src/driver/relayvm/initrd.go)

    A boot file is the base initramfs with one file appended as a second,
    gzip'd newc cpio archive.  [unpack] is the format as the kernel reads it
    (buffer-format.rst); gzip is a parameter. *)
From S2P Require Import Prelude Text.

#[local] Open Scope string_scope.
#[local] Open Scope Z_scope.

(** [compress/gzip] on a whole stream, and its inverse. *)
Class Gzip := { gzip : bytes -> bytes; gunzip : bytes -> option bytes }.
Class GzipLaws `{Gzip} := { gunzip_gzip b : gunzip (gzip b) = Some b }.

Module Cpio.

(** ** Writing *)

(** The [k] low hexadecimal digits of [n]. *)
Fixpoint hex_digits (k : nat) (n : Z) : bytes :=
  match k with
  | O => []
  | S k => hex_digits k (n / 16) ++ [byte_of_Z (code (upper_hex (n mod 16)))]
  end%list.

Fixpoint strip_zeros (extra : nat) (l : bytes) : bytes :=
  match extra, l with
  | S extra', b :: l' => if decide (b = Byte.x30) then strip_zeros extra' l' else l
  | _, _ => l
  end.

(** [fmt.Sprintf("%08X", n)] of a nonnegative 64-bit integer: at least eight
    digits. *)
Definition hex08 (n : Z) : bytes := strip_zeros 8 (hex_digits 16 n).

Definition zeros (n : Z) : bytes := repeat Byte.x00 (Z.to_nat n).

(** [pad4] *)
Definition pad4 (b : bytes) : bytes := (b ++ zeros ((- len b) mod 4))%list.

Definition trailer : string := "TRAILER!!!".
Definition magic : bytes := bytes_of "070701".

(** The thirteen fields of a header. *)
Definition header (mode nlink size namesize : Z) : bytes :=
  (magic ++ hex08 0 ++ hex08 mode ++ hex08 0 ++ hex08 0 ++ hex08 nlink ++ hex08 0 ++ hex08 size ++
   hex08 0 ++ hex08 0 ++ hex08 0 ++ hex08 0 ++ hex08 namesize ++ hex08 0)%list.

(** [writeNewc]: the writes it makes, in order. *)
Definition writeNewc (name : string) (mode : Z) (data : bytes) : list bytes :=
  let nlink := if decide (name = trailer) then 0 else 1 in
  let hdr := header mode nlink (len data) (slen name + 1) in
  pad4 (hdr ++ bytes_of name ++ [Byte.x00]) ::
  (if bool_decide (data = []) then [] else [data; zeros ((4 - len data mod 4) mod 4)]).

Section Append.
Context {GZ : Gzip}.

(** The errors a system call meets, by operation and path. *)
Context (fault : string -> string -> option error).

Definition ENOENT : error := Sentinel "file does not exist".

Definition ReadFile (fs : gmap string bytes) (path : string) : result bytes :=
  match fault "read" path with
  | Some e => Err e
  | None => match fs !! path with Some b => Ok b | None => Err ENOENT end
  end.

(** A write of [b] at the end of [path]. *)
Definition append (fs : gmap string bytes) (path : string) (b : bytes) : gmap string bytes * option error :=
  match fault "write" path with
  | Some e => (fs, Some e)
  | None => (<[path := (default [] (fs !! path) ++ b)%list]> fs, None)
  end.

Definition archive (path : string) (data : bytes) : bytes :=
  mjoin (writeNewc path 33261 data ++ writeNewc trailer 0 [])%list.

(** [AppendFileCPIO]: the output is created, so emptied, before its inputs are
    read.  The gzip writer's bytes are written when it is closed. *)
Definition AppendFileCPIO (fs : gmap string bytes) (base out src path : string) : gmap string bytes * option error :=
  match fault "create" out with
  | Some e => (fs, Some e)
  | None =>
      let fs := <[out := []]> fs in
      match ReadFile fs base with
      | Err e => (fs, Some e)
      | Ok b =>
          match append fs out b with
          | (fs, Some e) => (fs, Some e)
          | (fs, None) =>
              match ReadFile fs src with
              | Err e => (fs, Some e)
              | Ok data =>
                  match append fs out (gzip (archive path data)) with
                  | (fs, Some e) => (fs, Some e)
                  | (fs, None) => (fs, fault "close" out)
                  end
              end
          end
      end
  end.
End Append.

(** ** Reading *)

Fixpoint hex_value (acc : Z) (b : bytes) : option Z :=
  match b with
  | [] => Some acc
  | c :: b' => d ← hex_val (ascii_of_Z (byte_val c)); hex_value (acc * 16 + d) b'
  end.

Record entry := mkEntry { ename : string; emode : Z; econtent : bytes }.

Definition field (b : bytes) (i : Z) : option Z := hex_value 0 (slice b (6 + 8 * i) (14 + 8 * i)).

Definition align4 (n : Z) : Z := n + (- n) mod 4.

(** One entry: a 110-byte header, the name and its NUL padded to four bytes,
    the data padded to four bytes. *)
Definition read_entry (b : bytes) : option (entry * bytes) :=
  if (len b <? 110) || negb (bool_decide (slice b 0 6 = magic)) then None else
  mode ← field b 1; size ← field b 6; namesize ← field b 11;
  let data_at := align4 (110 + namesize) in
  let next := data_at + align4 size in
  if (namesize <? 1) || (len b <? next) || negb (bool_decide (slice b (109 + namesize) (110 + namesize) = [Byte.x00])) then None
  else
    Some (mkEntry (string_of (slice b 110 (109 + namesize))) mode (slice b data_at (data_at + size)), drop (Z.to_nat next) b).

(** The entries up to the trailer. *)
Fixpoint unpack (fuel : nat) (b : bytes) : option (list entry) :=
  match fuel with
  | O => None
  | S fuel =>
      '(e, rest) ← read_entry b;
      if decide (ename e = trailer) then Some [] else (e ::.) <$> unpack fuel rest
  end.

Example hex_ok : hex08 33261 = bytes_of "000081ED". Proof. vm_compute. reflexivity. Qed.
Example hex_wide : hex08 (2 ^ 32) = bytes_of "100000000". Proof. vm_compute. reflexivity. Qed.
Example one_file : unpack 3 (archive "sbin/relay" (bytes_of "hello")) = Some [mkEntry "sbin/relay" 33261 (bytes_of "hello")].
Proof. vm_compute. reflexivity. Qed.
End Cpio.
