(* ===== verification/CpioSpec.v ===== *)
(** * What the kernel unpacks is what was appended *)
From S2P Require Import Prelude Text Cpio.

#[local] Open Scope string_scope.
#[local] Open Scope Z_scope.

Module CpioSpec.
Import Cpio.

(** ** Hexadecimal fields *)
Lemma len_hex_digits k n : len (hex_digits k n) = Z.of_nat k.
Proof. revert n. induction k as [|k IH]; intros n; cbn [hex_digits]; [done|]. rewrite len_app, IH. len_lia. Qed.
#[local] Hint Rewrite len_hex_digits : golen.

Lemma hex_value_app a b acc : hex_value acc (a ++ b) = (v ← hex_value acc a; hex_value v b).
Proof.
  revert acc. induction a as [|c a IH]; intros acc; [done|]. cbn [app hex_value].
  destruct (hex_val _); cbn [mbind option_bind]; [apply IH|done].
Qed.

Lemma hex_value_digits k n acc : hex_value acc (hex_digits k n) = Some (acc * 16 ^ Z.of_nat k + n mod 16 ^ Z.of_nat k).
Proof.
  revert n acc. induction k as [|k IH]; intros n acc; cbn [hex_digits].
  - cbn. f_equal. rewrite Z.mod_1_r. lia.
  - rewrite hex_value_app, IH. cbn [mbind option_bind hex_value].
    rewrite byte_val_of_Z, (Z.mod_small (code _)) by apply code_range. rewrite ascii_of_Z_code, hex_val_upper by div_lia.
    cbn [mbind option_bind]. f_equal. replace (Z.of_nat (S k)) with (1 + Z.of_nat k) by lia.
    rewrite Z.pow_add_r by lia. change (16 ^ 1) with 16.
    rewrite (Z.rem_mul_r n 16) by lia. lia.
Qed.

Lemma hex_digits_app j k n : hex_digits (j + k) n = (hex_digits j (n / 16 ^ Z.of_nat k) ++ hex_digits k n)%list.
Proof.
  revert n. induction k as [|k IH]; intros n.
  - rewrite Nat.add_0_r, Z.div_1_r. cbn. by rewrite app_nil_r.
  - rewrite <- plus_n_Sm. cbn [hex_digits]. rewrite IH, app_assoc. do 3 f_equal.
    rewrite Z.div_div by lia. f_equal. rewrite Nat2Z.inj_succ, Z.pow_succ_r by lia. done.
Qed.

(** A 32-bit value is eight digits. *)
Lemma hex08_small n : 0 <= n < 2 ^ 32 -> hex08 n = hex_digits 8 n.
Proof.
  intros Hn. unfold hex08. rewrite (hex_digits_app 8 8). change (16 ^ Z.of_nat 8) with (2 ^ 32).
  rewrite Z.div_small by done. reflexivity.
Qed.

Lemma hex_field n : 0 <= n < 2 ^ 32 -> len (hex08 n) = 8 /\ hex_value 0 (hex08 n) = Some n.
Proof.
  intros Hn. rewrite hex08_small, len_hex_digits, hex_value_digits by done. split; [done|].
  change (16 ^ Z.of_nat 8) with (2 ^ 32). by rewrite Z.mod_small.
Qed.

(** ** Entries *)
Definition packable (e : entry) : Prop :=
  ename e <> trailer /\ 0 <= emode e < 2 ^ 32 /\ slen (ename e) + 1 < 2 ^ 32 /\ len (econtent e) < 2 ^ 32.

Lemma len_zeros n : 0 <= n -> len (zeros n) = n.
Proof. intros. unfold len, zeros. rewrite repeat_length. lia. Qed.

#[local] Hint Rewrite len_bytes_of : golen.

Lemma len_magic : len magic = 6.
Proof. done. Qed.

Lemma header_fields mode nlink size namesize rest :
  0 <= mode < 2 ^ 32 -> 0 <= nlink < 2 ^ 32 -> 0 <= size < 2 ^ 32 -> 0 <= namesize < 2 ^ 32 ->
  let b := (header mode nlink size namesize ++ rest)%list in
  len (header mode nlink size namesize) = 110 /\ slice b 0 6 = magic /\
  field b 1 = Some mode /\ field b 6 = Some size /\ field b 11 = Some namesize.
Proof.
  intros Hm Hl Hs Hn. cbn zeta. pose proof (hex_field 0 ltac:(lia)) as [L0 _].
  destruct (hex_field _ Hm) as [Lm Vm], (hex_field _ Hl) as [Ll _], (hex_field _ Hs) as [Ls Vs], (hex_field _ Hn) as [Ln Vn].
  unfold field, header. rewrite <- !app_assoc. pose proof len_magic.
  split_and!; [len_lia|by slice_app| | |];
    (eapply eq_trans; [|eassumption]); f_equal; slice_app; done.
Qed.

Lemma written_parts name mode data :
  mjoin (writeNewc name mode data) =
    (header mode (if decide (name = trailer) then 0 else 1) (len data) (slen name + 1) ++ bytes_of name ++ [Byte.x00] ++
     zeros ((- (110 + (slen name + 1))) mod 4) ++ data ++ zeros ((- len data) mod 4))%list
  \/ len (header mode (if decide (name = trailer) then 0 else 1) (len data) (slen name + 1)) <> 110.
Proof.
  destruct (decide (len (header mode (if decide (name = trailer) then 0 else 1) (len data) (slen name + 1)) = 110)) as [Hl|];
    [left|by right]. unfold writeNewc, pad4. rewrite !mjoin_cons. rewrite !len_app, Hl, len_bytes_of.
  change (len [Byte.x00]) with 1. replace (110 + (slen name + 1)) with (110 + (slen name + 1)) by done.
  rewrite <- !app_assoc. do 4 f_equal. destruct (bool_decide (data = [])) eqn:E; bool_to_prop.
  - subst. reflexivity.
  - cbn. rewrite app_nil_r. do 2 f_equal. div_lia.
Qed.

Lemma read_written name mode data rest :
  0 <= mode < 2 ^ 32 -> slen name + 1 < 2 ^ 32 -> len data < 2 ^ 32 ->
  read_entry (mjoin (writeNewc name mode data) ++ rest) = Some (mkEntry name mode data, rest).
Proof.
  intros Hm Hn Hd. pose proof (slen_nonneg name) as Hs0. pose proof (len_nonneg data) as Hd0.
  set (nl := if decide (name = trailer) then 0 else 1).
  assert (Hnl : 0 <= nl < 2 ^ 32) by (subst nl; destruct (decide _); lia).
  pose proof (header_fields mode nl (len data) (slen name + 1)) as HF.
  destruct (written_parts name mode data) as [->|Hbad].
  2:{ exfalso. apply Hbad. by destruct (HF [] Hm Hnl ltac:(lia) ltac:(lia)). }
  fold nl. set (p := zeros ((- (110 + (slen name + 1))) mod 4)). set (q := zeros ((- len data) mod 4)).
  rewrite <- app_assoc. destruct (HF ((bytes_of name ++ [Byte.x00] ++ p ++ data ++ q) ++ rest)%list Hm Hnl ltac:(lia) ltac:(lia))
    as (Hh & Hmag & F1 & F6 & F11).
  set (h := header _ _ _ _) in *. unfold read_entry. rewrite F1, F6, F11, Hmag. cbn [mbind option_bind].
  assert (Lp : len p = (- (110 + (slen name + 1))) mod 4) by (apply len_zeros; div_lia).
  assert (Lq : len q = (- len data) mod 4) by (apply len_zeros; div_lia).
  assert (Hda : align4 (110 + (slen name + 1)) = 110 + slen name + 1 + len p) by (unfold align4; lia).
  assert (Hal : align4 (len data) = len data + len q) by (unfold align4; lia).
  rewrite Hda, Hal, (bool_decide_eq_true_2 (magic = magic)) by done. cbn [negb]. clearbody h p q.
  rewrite <- !app_assoc.
  rewrite (proj2 (Z.ltb_ge _ 110)) by len_lia. cbn [orb].
  rewrite (proj2 (Z.ltb_ge _ 1)) by lia. rewrite (proj2 (Z.ltb_ge _ (_ + _ + _))) by len_lia. cbn [orb].
  assert (Hz : slice (h ++ bytes_of name ++ [Byte.x00] ++ p ++ data ++ q ++ rest)%list
      (109 + (slen name + 1)) (110 + (slen name + 1)) = [Byte.x00]) by by slice_app.
  rewrite Hz, (bool_decide_eq_true_2 ([Byte.x00] = _)) by done. cbn [negb]. apply (f_equal Some), f_equal2.
  - f_equal; [|by slice_app]. transitivity (string_of (bytes_of name)); [f_equal; by slice_app|apply string_of_bytes_of].
  - rewrite !app_assoc. rewrite drop_app_length'; [done|]. apply Nat2Z.inj. fold (len (((((h ++ bytes_of name) ++ [Byte.x00]) ++ p) ++ data) ++ q)%list).
    rewrite Z2Nat.id by len_lia. len_lia.
Qed.

Definition written (e : entry) : bytes := mjoin (writeNewc (ename e) (emode e) (econtent e)).
Definition the_trailer : bytes := mjoin (writeNewc trailer 0 []).

Lemma unpack_step fuel b e rest :
  read_entry b = Some (e, rest) ->
  unpack (S fuel) b = if decide (ename e = trailer) then Some [] else (e ::.) <$> unpack fuel rest.
Proof. intros H. cbn [unpack]. by rewrite H. Qed.

Lemma unpack_written es rest :
  Forall packable es ->
  unpack (S (length es)) (mjoin (written <$> es) ++ the_trailer ++ rest) = Some es.
Proof.
  induction 1 as [|e es (Ht & Hm & Hn & Hd) _ IH]; cbn [fmap list_fmap length].
  - rewrite (unpack_step _ _ (mkEntry trailer 0 []) rest); [by rewrite decide_True|]. by apply read_written.
  - rewrite mjoin_cons, <- app_assoc.
    rewrite (unpack_step _ _ (mkEntry (ename e) (emode e) (econtent e)) (mjoin (written <$> es) ++ the_trailer ++ rest)%list)
      by by apply read_written.
    rewrite decide_False, IH by done. by destruct e.
Qed.

Section Append.
Context {GZ : Gzip} {GL : GzipLaws}.

(** What a successful [AppendFileCPIO] leaves: the base, then an archive that
    unpacks to the one file, executable, whatever trails it in the image. *)
Definition appended (fs fs' : gmap string bytes) (base out src path : string) : Prop :=
  exists b data z, fs !! base = Some b /\ fs !! src = Some data /\ fs' = <[out := (b ++ z)%list]> fs /\
    exists a, gunzip z = Some a /\ forall rest, unpack 2 (a ++ rest) = Some [mkEntry path 33261 data].

(** C33.  The file [AppendFileCPIO] writes is the base followed by an archive from
    which the kernel unpacks exactly the given file, and nothing else changes;
    it succeeds when its inputs are readable files other than the output and no
    system call fails, and otherwise at most the output has changed. *)
Theorem AppendFileCPIO_exact (fault : string -> string -> option error) (fs fs' : gmap string bytes)
    (base out src path : string) (e : option error) :
  base <> out -> src <> out -> path <> trailer -> slen path + 1 < 2 ^ 32 ->
  (forall data, fs !! src = Some data -> len data < 2 ^ 32) ->
  AppendFileCPIO fault fs base out src path = (fs', e) ->
  (e = None -> appended fs fs' base out src path) /\
  (e = None <-> fault "create" out = None /\ fault "read" base = None /\ fault "write" out = None /\
     fault "read" src = None /\ fault "close" out = None /\ is_Some (fs !! base) /\ is_Some (fs !! src)) /\
  (forall p, p <> out -> fs' !! p = fs !! p).
Proof using GL.
  intros Hb Hs Hp Hpl Hd. unfold AppendFileCPIO, append, ReadFile.
  destruct (fault "create" out); [intros; simplify_eq; naive_solver|].
  rewrite (lookup_insert_ne fs out base) by done.
  destruct (fault "read" base); [intros; simplify_eq; split_and!; [done|naive_solver|]; intros; by rewrite lookup_insert_ne|].
  destruct (fs !! base) as [b|] eqn:Eb; [|intros; simplify_eq; split_and!; [done| |intros; by rewrite lookup_insert_ne]; split; [done|]; by intros (_ & _ & _ & _ & _ & [] & _)].
  destruct (fault "write" out); [intros; simplify_eq; split_and!; [done|naive_solver|]; intros; by rewrite lookup_insert_ne|].
  rewrite insert_insert_eq, lookup_insert_eq. cbn [default app]. rewrite (lookup_insert_ne _ out src) by done.
  destruct (fault "read" src); [intros; simplify_eq; split_and!; [done|naive_solver|]; intros; by rewrite lookup_insert_ne|].
  destruct (fs !! src) as [data|] eqn:Es; [|intros; simplify_eq; split_and!; [done| |intros; by rewrite lookup_insert_ne]; split; [done|]; by intros (_ & _ & _ & _ & _ & _ & [])].
  rewrite insert_insert_eq, lookup_insert_eq. cbn [default]. intros; simplify_eq.
  split_and!; [|naive_solver|intros; by rewrite lookup_insert_ne].
  intros _. exists b, data, (gzip (archive path data)). split_and!; [done..|]. exists (archive path data). split; [apply gunzip_gzip|].
  intros rest. unfold archive. rewrite join_app, <- app_assoc.
  pose proof (unpack_written [mkEntry path 33261 data] rest) as H. cbn [fmap list_fmap mjoin list_join length] in H.
  rewrite app_nil_r in H. apply H. constructor; [|done]. split_and!; cbn [ename emode econtent]; auto; lia.
Qed.
End Append.

End CpioSpec.

Module CpioExamples.
Import Cpio CpioSpec.

#[export] Instance ex_gzip : Gzip := {
  gzip b := Byte.x1f :: b;
  gunzip b := match b with c :: b' => if decide (c = Byte.x1f) then Some b' else None | [] => None end }.
#[export] Instance ex_gzip_laws : GzipLaws.
Proof. constructor. done. Qed.

Definition ex_fs : gmap string bytes := {["base" := bytes_of "B"; "warden-io" := bytes_of "elf"]}.
Definition no_fault (op path : string) : option error := None.

Lemma AppendFileCPIO_exact_witness : exists fs,
  AppendFileCPIO no_fault ex_fs "base" "initrd" "warden-io" "bin/warden-io" = (fs, None) /\
  appended ex_fs fs "base" "initrd" "warden-io" "bin/warden-io".
Proof.
  eexists. split; [reflexivity|].
  apply (AppendFileCPIO_exact no_fault ex_fs _ "base" "initrd" "warden-io" "bin/warden-io" None); [discriminate..|reflexivity| |reflexivity|reflexivity].
  intros data [= <-]. reflexivity.
Defined.

(** An output that is one of the inputs is emptied before it is read. *)
Example base_lost : (AppendFileCPIO no_fault ex_fs "base" "base" "warden-io" "bin/warden-io").1 !! "base" =
  Some (gzip (archive "bin/warden-io" (bytes_of "elf"))).
Proof. vm_compute. reflexivity. Qed.

(** A file of 4 GiB or more would widen its size field and break the format. *)
Example wide_header : len (header 33261 1 (2 ^ 32) 11) = 111.
Proof. vm_compute. reflexivity. Qed.
End CpioExamples.
