(* ===== verification/Iso.v ===== *)
(** * The built-in seed ISO (src/driver/linuxguest/seediso.go)

    The ISO 9660 writer used when the host has no tool for it.  A Go slice that
    is too short panics, which is [None]; a slice of the image may be extended
    up to the image's end, as [buf[i:j]] allows. *)
From S2P Require Import Prelude Text.

#[local] Open Scope string_scope.
#[local] Open Scope Z_scope.

Module Iso.

Record fileEntry := mkFile { name : string; data : bytes }.

(** The local time [now], [zone] its offset in seconds. *)
Record stamp := mkStamp { year : Z; month : Z; day : Z; hour : Z; minute : Z; second : Z; zone : Z }.

Definition sectorSize : Z := 2048.
Definition u32 (z : Z) : Z := wrap_u 32 z.

(** [copy(buf[i:], d)] where it fits. *)
Definition put (buf : bytes) (i : Z) (d : bytes) : bytes :=
  (take (Z.to_nat i) buf ++ d ++ drop (Z.to_nat (i + len d)) buf)%list.
Definition put_all (buf : bytes) (at_ : Z) (l : list (Z * bytes)) : bytes :=
  foldl (fun b p => put b (at_ + p.1) p.2) buf l.

(** ** Fields *)
Definition bothEndian16 (v : Z) : bytes := (le_encode 2 v ++ be_encode 2 v)%list.
Definition bothEndian32 (v : Z) : bytes := (le_encode 4 v ++ be_encode 4 v)%list.

Definition zoneByte (t : stamp) : byte := byte_of_Z (Z.quot (zone t) (15 * 60)).

(** [writeRecDateTime] *)
Definition recDateTime (t : stamp) : bytes :=
  [byte_of_Z (year t - 1900); byte_of_Z (month t); byte_of_Z (day t); byte_of_Z (hour t); byte_of_Z (minute t);
   byte_of_Z (second t); zoneByte t].

Fixpoint pad0 (w : nat) (s : string) : string :=
  match w with O => s | S w' => if (String.length s <? w)%nat then pad0 w' (String "0" s) else s end.
Definition dec (w : nat) (n : Z) : string := pad0 w (Itoa n).

(** [writeDecDateTime]: what [t.Format] prints, cut to the 17 bytes, and the
    zone's byte. *)
Definition decDateTime (t : stamp) : bytes :=
  (take 16 (bytes_of (dec 4 (year t) ++ dec 2 (month t) ++ dec 2 (day t) ++ dec 2 (hour t) ++ dec 2 (minute t) ++
                      dec 2 (second t) ++ "00")) ++ [zoneByte t])%list.

(** [padRight(buf, s, 32)] on a buffer of 32 bytes. *)
Definition padRight (s : string) : bytes := take 32 (bytes_of s ++ repeat Byte.x20 32)%list.

(** [toISOName] *)
Definition isoChar (c : ascii) : ascii :=
  if is_lower c then ascii_of_Z (code c - 32)
  else if is_upper c || is_digit c || bool_decide (c = "."%char) || bool_decide (c = "_"%char) then c
  else "_"%char.
Definition toISOName (n : string) : string := str_map isoChar n ++ ";1".

(** ** Directory records *)

Definition recLen (n : string) : Z := let l := 33 + slen n in if Z.odd l then l + 1 else l.

(** [putDirEntry(dirBuf[offset:], ...)] for the directory sector at [dir]; the
    highest byte indexed is the 32nd, and the name's slice may reach past the
    sector. *)
Definition putDirEntry (buf : bytes) (dir offset sector size flags : Z) (n : string) (t : stamp) : option (bytes * Z) :=
  if (offset + 33 >? sectorSize) || (dir + offset + 33 + slen n >? len buf) then None
  else
    Some (put_all buf (dir + offset)
            [(0, [byte_of_Z (recLen n); Byte.x00]); (2, bothEndian32 sector); (10, bothEndian32 (u32 size));
             (18, recDateTime t); (25, [byte_of_Z flags]); (28, bothEndian16 1); (32, [byte_of_Z (slen n)]);
             (33, bytes_of n)],
          offset + recLen n).

(** [writeDirectoryRecord]: the root's record in the volume descriptor. *)
Definition writeDirectoryRecord (buf : bytes) (at_ sector size flags : Z) (t : stamp) : bytes :=
  put_all buf at_
    [(0, [Byte.x22]); (2, bothEndian32 sector); (10, bothEndian32 (u32 size)); (18, recDateTime t);
     (25, [byte_of_Z flags]); (28, bothEndian16 1); (32, [Byte.x01; Byte.x00])].

(** ** The image *)

(** Each file's first sector and size, and the sectors in all. *)
Fixpoint layout (cur : Z) (files : list fileEntry) : list (Z * Z) * Z :=
  match files with
  | [] => ([], cur)
  | f :: files =>
      let size := u32 (len (data f)) in
      let sectors := u32 (size + sectorSize - 1) / sectorSize in
      let sectors := if sectors =? 0 then 1 else sectors in
      let '(locs, total) := layout (u32 (cur + sectors)) files in
      ((cur, size) :: locs, total)
  end.

Definition rootDirSector : Z := 18.
Definition dataSector : Z := 19.
Definition dirAt : Z := rootDirSector * sectorSize.

(** The primary volume descriptor, sector 16. *)
Definition primaryDescriptor (buf : bytes) (volumeID : string) (totalSectors : Z) (t : stamp) : bytes :=
  let at_ := 16 * sectorSize in
  let buf := put_all buf at_
    [(0, [Byte.x01]); (1, bytes_of "CD001"); (6, [Byte.x01]); (8, padRight " "); (40, padRight volumeID);
     (80, bothEndian32 totalSectors); (120, bothEndian16 1); (124, bothEndian16 1); (128, bothEndian16 sectorSize);
     (132, bothEndian32 10); (140, le_encode 4 rootDirSector); (148, be_encode 4 rootDirSector)] in
  let buf := writeDirectoryRecord buf (at_ + 156) rootDirSector sectorSize 2 t in
  put_all buf at_ [(813, decDateTime t); (830, decDateTime t); (881, [Byte.x01])].

(** The terminator, sector 17. *)
Definition terminator (buf : bytes) : bytes :=
  put_all buf (17 * sectorSize) [(0, [Byte.xff]); (1, bytes_of "CD001"); (6, [Byte.x01])].

Fixpoint file_entries (buf : bytes) (offset : Z) (t : stamp) (files : list (fileEntry * (Z * Z))) : option (bytes * Z) :=
  match files with
  | [] => Some (buf, offset)
  | (f, (sector, size)) :: files =>
      '(buf, offset) ← putDirEntry buf dirAt offset sector size 0 (toISOName (name f)) t;
      file_entries buf offset t files
  end.

(** [copy(buf[start:], f.data)]: cut at the image's end. *)
Fixpoint file_data (buf : bytes) (files : list (fileEntry * (Z * Z))) : option bytes :=
  match files with
  | [] => Some buf
  | (f, (sector, _)) :: files =>
      let start := sector * sectorSize in
      if start >? len buf then None
      else file_data (put buf start (take (Z.to_nat (len buf - start)) (data f))) files
  end.

(** [buildISO9660] *)
Definition buildISO9660 (files : list fileEntry) (volumeID : string) (now : stamp) : option bytes :=
  let '(locs, totalSectors) := layout dataSector files in
  let n := totalSectors * sectorSize in
  if n <? 19 * sectorSize then None else
  let buf := repeat Byte.x00 (Z.to_nat n) in
  let buf := terminator (primaryDescriptor buf volumeID totalSectors now) in
  '(buf, o) ← putDirEntry buf dirAt 0 rootDirSector sectorSize 2 (String "000" "") now;
  '(buf, o) ← putDirEntry buf dirAt o rootDirSector sectorSize 2 (String "001" "") now;
  '(buf, _) ← file_entries buf o now (zip files locs);
  file_data buf (zip files locs).

(** ** Reading an image, as ECMA-119 says *)
Definition le32 (b : bytes) (at_ : Z) : Z := le_decode (slice b at_ (at_ + 4)).
Definition byte_at (b : bytes) (at_ : Z) : Z := be_decode (slice b at_ (at_ + 1)).

(** The records of a directory extent, up to a zero length byte; each file's
    name and contents. *)
Fixpoint read_dir (fuel : nat) (b : bytes) (at_ size o : Z) : option (list (string * bytes)) :=
  match fuel with
  | O => None
  | S fuel =>
      if o >=? size then Some [] else
      let r := at_ + o in
      let l := byte_at b r in
      if l =? 0 then Some [] else
      rest ← read_dir fuel b at_ size (o + l);
      if Z.testbit (byte_at b (r + 25)) 1 then Some rest
      else
        let n := byte_at b (r + 32) in
        let e := le32 b (r + 2) * sectorSize in
        Some ((string_of (slice b (r + 33) (r + 33 + n)), slice b e (e + le32 b (r + 10))) :: rest)
  end.

(** The volume's identifier and its root directory's files. *)
Definition read_iso (fuel : nat) (b : bytes) : option (string * list (string * bytes)) :=
  let d := 16 * sectorSize in
  if negb (byte_at b d =? 1) || negb (bool_decide (slice b (d + 1) (d + 6) = bytes_of "CD001")) then None
  else
    files ← read_dir fuel b (le32 b (d + 156 + 2) * sectorSize) (le32 b (d + 156 + 10)) 0;
    Some (string_of (slice b (d + 40) (d + 72)), files).
End Iso.
