(* ===== verification/IsoSpec.v ===== *)
(** * What a reader finds in the built-in seed ISO

    When the directory fits its one sector, a reader of the image finds the
    files, under their ISO names, and the volume's identifier. *)
From S2P Require Import Prelude Text Iso.

#[local] Open Scope string_scope.
#[local] Open Scope Z_scope.

Module IsoSpec.
Import Iso.

(** ** Writing into a buffer *)
Definition inside (buf : bytes) (at_ : Z) (p : Z * bytes) : Prop := 0 <= at_ + p.1 /\ at_ + p.1 + len p.2 <= len buf.
Definition apart (at_ a b : Z) (p : Z * bytes) : Prop := b <= at_ + p.1 \/ at_ + p.1 + len p.2 <= a.

Lemma len_put buf i d : 0 <= i -> i + len d <= len buf -> len (put buf i d) = len buf.
Proof. intros. unfold put, len in *. rewrite !length_app, length_take, length_drop. lia. Qed.

Lemma slice_put_out buf i d a b :
  0 <= i -> i + len d <= len buf -> 0 <= a -> b <= i \/ i + len d <= a -> slice (put buf i d) a b = slice buf a b.
Proof.
  intros Hi Hl Ha H. unfold put. pose proof (len_nonneg d).
  assert (Ht : len (take (Z.to_nat i) buf) = i) by (unfold len in *; rewrite length_take; lia).
  destruct H as [H|H].
  - rewrite slice_prefix by lia. rewrite <- (take_drop (Z.to_nat i) buf) at 2. by rewrite slice_prefix by lia.
  - rewrite slice_skip, slice_skip by lia. rewrite slice_drop by lia. rewrite Ht. apply slice_eq; lia.
Qed.

Lemma slice_put_in buf i d a b :
  0 <= i -> i + len d <= len buf -> i <= a -> b <= i + len d -> slice (put buf i d) a b = slice d (a - i) (b - i).
Proof.
  intros Hi Hl Ha Hb. unfold put.
  assert (Ht : len (take (Z.to_nat i) buf) = i) by (unfold len in *; rewrite length_take; lia).
  rewrite slice_skip by lia. rewrite Ht. by rewrite slice_prefix by lia.
Qed.

Lemma inside_put buf at_ i d l :
  0 <= i -> i + len d <= len buf -> Forall (inside buf at_) l -> Forall (inside (put buf i d) at_) l.
Proof. intros ? ? Hin. eapply Forall_impl; [exact Hin|]. unfold inside. intros p. by rewrite len_put. Qed.

Lemma len_put_all buf at_ l : Forall (inside buf at_) l -> len (put_all buf at_ l) = len buf.
Proof.
  revert buf. induction l as [|p l IH]; intros buf Hf; [done|]. apply Forall_cons in Hf as [ [? ?] Hf].
  cbn [put_all foldl]. fold (put_all (put buf (at_ + p.1) p.2) at_ l). rewrite IH by by apply inside_put. by apply len_put.
Qed.

Lemma slice_put_all_out buf at_ l a b :
  Forall (inside buf at_) l -> 0 <= a -> Forall (apart at_ a b) l -> slice (put_all buf at_ l) a b = slice buf a b.
Proof.
  revert buf. induction l as [|p l IH]; intros buf Hf Ha Hap; [done|].
  apply Forall_cons in Hf as [ [? ?] Hf]. apply Forall_cons in Hap as [Hp Hap].
  cbn [put_all foldl]. fold (put_all (put buf (at_ + p.1) p.2) at_ l). rewrite IH; [|by apply inside_put|done..].
  by apply slice_put_out.
Qed.

(** What the [k]-th write left, where no later one wrote. *)
Lemma slice_put_all_nth k buf at_ l i d a b :
  l !! k = Some (i, d) -> Forall (inside buf at_) l -> Forall (apart at_ a b) (drop (S k) l) ->
  0 <= at_ + i <= a -> b <= at_ + i + len d -> slice (put_all buf at_ l) a b = slice d (a - (at_ + i)) (b - (at_ + i)).
Proof.
  revert k buf. induction l as [|p l IH]; intros k buf Hk Hf Hap Ha Hb; [done|].
  apply Forall_cons in Hf as [ [? ?] Hf]. cbn [put_all foldl]. fold (put_all (put buf (at_ + p.1) p.2) at_ l).
  destruct k as [|k]; cbn in Hk, Hap.
  - simplify_eq. cbn [fst snd] in *. rewrite slice_put_all_out; [|by apply inside_put|lia|done]. apply slice_put_in; lia.
  - apply (IH k); [done|by apply inside_put|done..].
Qed.

(** ** Directory records *)
Lemma len_16 v : len (bothEndian16 v) = 4. Proof. unfold bothEndian16. len_lia. Qed.
Lemma len_32 v : len (bothEndian32 v) = 8. Proof. unfold bothEndian32. len_lia. Qed.
Lemma len_rdt t : len (recDateTime t) = 7. Proof. done. Qed.
#[local] Hint Rewrite len_16 len_32 len_rdt len_bytes_of : golen.

Lemma recLen_bounds n : 33 + slen n <= recLen n <= 34 + slen n.
Proof. unfold recLen. destruct (Z.odd _); lia. Qed.

(** A record of [n] at [at_], as [read_dir] reads it. *)
Definition has_record (b : bytes) (at_ sector size flags : Z) (n : string) : Prop :=
  byte_at b at_ = recLen n /\ le32 b (at_ + 2) = sector /\ le32 b (at_ + 10) = size /\ byte_at b (at_ + 25) = flags /\
  byte_at b (at_ + 32) = slen n /\ slice b (at_ + 33) (at_ + 33 + slen n) = bytes_of n.

Definition same_on (b b' : bytes) (lo hi : Z) : Prop := forall i j, lo <= i -> j <= hi -> slice b' i j = slice b i j.

Lemma has_record_same b b' at_ sector size flags n lo hi :
  same_on b b' lo hi -> lo <= at_ -> at_ + 33 + slen n <= hi ->
  has_record b at_ sector size flags n -> has_record b' at_ sector size flags n.
Proof.
  intros H Hlo Hhi (R1 & R2 & R3 & R4 & R5 & R6). pose proof (slen_nonneg n).
  unfold has_record, byte_at, le32 in *. rewrite !H by lia. done.
Qed.

Lemma slice_hd {A} (x : A) l : slice (x :: l) 0 1 = [x].
Proof. reflexivity. Qed.

Lemma byte_one z : 0 <= z < 256 -> be_decode [byte_of_Z z] = z.
Proof. intros. unfold be_decode. cbn [foldl]. rewrite byte_val_of_Z, Z.mod_small by done. lia. Qed.

Lemma both32_le v : 0 <= v < 2 ^ 32 -> le_decode (slice (bothEndian32 v) 0 4) = v.
Proof. intros. unfold bothEndian32. rewrite slice_take by len_lia. by apply (le_decode_small 4). Qed.

Ltac all_puts :=
  repeat match goal with |- Forall _ (_ :: _) => apply Forall_cons_2 | |- Forall _ [] => apply Forall_nil_2 end;
  unfold inside, apart; cbn [fst snd]; len_lia.
Ltac field_side := first [lia | len_lia | match goal with |- Forall _ (drop _ ?l) => unfold l end; cbn [drop]; all_puts].

Lemma putDirEntry_spec buf dir off sector size flags n t :
  0 <= dir -> 0 <= off -> off + recLen n <= sectorSize -> dir + sectorSize <= len buf -> recLen n < 256 ->
  0 <= sector < 2 ^ 32 -> 0 <= size < 2 ^ 32 -> 0 <= flags < 256 ->
  exists buf', putDirEntry buf dir off sector size flags n t = Some (buf', off + recLen n) /\ len buf' = len buf /\
    same_on buf buf' 0 (dir + off) /\ same_on buf buf' (dir + off + recLen n) (len buf) /\
    has_record buf' (dir + off) sector size flags n.
Proof.
  intros Hd Ho Hr Hb Hrl Hs Hz Hf. pose proof (recLen_bounds n) as Hrn. pose proof (slen_nonneg n) as Hn. unfold sectorSize in *.
  unfold putDirEntry, sectorSize. rewrite !(Z.gtb_ltb). rewrite !(proj2 (Z.ltb_ge _ _)) by lia. cbn [orb].
  eexists. split; [done|]. set (l := (0, _) :: _).
  assert (Hin : Forall (inside buf (dir + off)) l) by (subst l; all_puts).
  assert (Hap : forall a b, b <= dir + off \/ dir + off + recLen n <= a -> Forall (apart (dir + off) a b) l)
    by (intros a b ?; subst l; all_puts).
  split; [by apply len_put_all|]. split_and!.
  - intros i j ? ?. apply slice_put_all_out; [done|lia|]. apply Hap. lia.
  - intros i j ? ?. apply slice_put_all_out; [done|lia|]. apply Hap. lia.
  - unfold has_record, byte_at, le32.
    assert (F : forall k i d a b c e, l !! k = Some (i, d) -> Forall (apart (dir + off) a b) (drop (S k) l) ->
        0 <= i -> a = dir + off + i + c -> b = dir + off + i + e -> 0 <= c -> e <= len d ->
        slice (put_all buf (dir + off) l) a b = slice d c e).
    { intros k i d a b c e Hk Hk' Hi -> -> Hc He. rewrite (slice_put_all_nth k _ _ _ i d) by (done || lia).
      apply slice_eq; lia. }
    split_and!.
    + rewrite (F 0%nat _ _ _ _ 0 1 eq_refl) by field_side. rewrite slice_hd. apply byte_one. lia.
    + rewrite (F 1%nat _ _ _ _ 0 4 eq_refl) by field_side. by apply both32_le.
    + rewrite (F 2%nat _ _ _ _ 0 4 eq_refl) by field_side. unfold u32, wrap_u. rewrite Z.mod_small by done. by apply both32_le.
    + rewrite (F 4%nat _ _ _ _ 0 1 eq_refl) by field_side. rewrite slice_hd. apply byte_one. lia.
    + rewrite (F 6%nat _ _ _ _ 0 1 eq_refl) by field_side. rewrite slice_hd. apply byte_one. lia.
    + rewrite (F 7%nat _ _ _ _ 0 (slen n) eq_refl) by field_side. rewrite <- len_bytes_of. apply slice_full.
Qed.

(** ** The files' places *)
Definition sectors (f : fileEntry) : Z := Z.max 1 ((len (data f) + 2047) / 2048).
Definition total (files : list fileEntry) : Z := foldr (fun f n => sectors f + n) 0 files.
Definition dir_len (files : list fileEntry) : Z := foldr (fun f n => recLen (toISOName (name f)) + n) 0 files.

Fixpoint places (cur : Z) (files : list fileEntry) : list (fileEntry * (Z * Z)) :=
  match files with
  | [] => []
  | f :: files => (f, (cur, len (data f))) :: places (cur + sectors f) files
  end.

(** A file the format can name and describe. *)
Definition describable (f : fileEntry) : Prop := slen (name f) <= 219 /\ len (data f) < 2 ^ 32 - 2048.

Lemma sectors_pos f : 1 <= sectors f /\ len (data f) <= 2048 * sectors f.
Proof. unfold sectors. split; [lia|]. div_lia. Qed.

Lemma total_cons f files : total (f :: files) = sectors f + total files.
Proof. done. Qed.
Lemma dir_len_cons f files : dir_len (f :: files) = recLen (toISOName (name f)) + dir_len files.
Proof. done. Qed.

Lemma total_nonneg files : 0 <= total files.
Proof. induction files as [|f files IH]; [done|]. rewrite total_cons. pose proof (sectors_pos f). lia. Qed.

Lemma dir_len_nonneg files : 0 <= dir_len files.
Proof.
  induction files as [|f files IH]; [done|]. rewrite dir_len_cons. pose proof (recLen_bounds (toISOName (name f))).
  pose proof (slen_nonneg (toISOName (name f))). lia.
Qed.

Lemma layout_places cur files :
  Forall describable files -> 0 <= cur -> cur + total files < 2 ^ 32 ->
  zip files (layout cur files).1 = places cur files /\ (layout cur files).2 = cur + total files.
Proof.
  intros Hf. revert cur. induction Hf as [|f files [_ Hd] _ IH]; intros cur Hc Ht; [split; [done|cbn; lia]|].
  rewrite total_cons in *. cbn [layout places]. pose proof (sectors_pos f) as [Hs _].
  pose proof (total_nonneg files). pose proof (len_nonneg (data f)) as Hd0. unfold u32, wrap_u, sectorSize in *.
  assert (E : (let size := len (data f) mod 2 ^ 32 in let n := (size + 2048 - 1) mod 2 ^ 32 / 2048 in if n =? 0 then 1 else n) = sectors f).
  { cbn zeta. rewrite (Z.mod_small (len (data f))), Z.mod_small by lia. unfold sectors.
    replace (len (data f) + 2048 - 1) with (len (data f) + 2047) by lia.
    destruct (Z.eqb_spec ((len (data f) + 2047) / 2048) 0); div_lia. }
  cbn zeta in E. rewrite E. rewrite (Z.mod_small (len (data f))) by lia. rewrite (Z.mod_small (cur + sectors f)) by lia.
  destruct (IH (cur + sectors f) ltac:(lia) ltac:(lia)) as [IH1 IH2]. destruct (layout (cur + sectors f) files) as [locs t].
  cbn [fst snd zip] in *. split; [by f_equal|lia].
Qed.

(** ** The directory *)
Lemma slen_iso n : slen (toISOName n) = slen n + 2.
Proof. unfold toISOName. rewrite slen_app, slen_map. done. Qed.

Lemma recLen_iso f : describable f -> 0 < recLen (toISOName (name f)) < 256.
Proof.
  intros [Hn _]. pose proof (slen_nonneg (name f)). unfold recLen. rewrite slen_iso.
  destruct (Z.odd (33 + (slen (name f) + 2))) eqn:E; [|lia].
  destruct (decide (slen (name f) = 219)) as [->|]; [|lia]. cbn in E. lia.
Qed.

Lemma same_on_trans b1 b2 b3 lo hi : same_on b1 b2 lo hi -> same_on b2 b3 lo hi -> same_on b1 b3 lo hi.
Proof. intros H1 H2 i j ? ?. by rewrite H2, H1. Qed.

Lemma same_on_sub b b' lo hi lo' hi' : same_on b b' lo hi -> lo <= lo' -> hi' <= hi -> same_on b b' lo' hi'.
Proof. intros H ? ? i j ? ?. apply H; lia. Qed.

Fixpoint records (b : bytes) (o : Z) (l : list (fileEntry * (Z * Z))) : Prop :=
  match l with
  | [] => True
  | (f, (sector, size)) :: l =>
      has_record b (dirAt + o) sector size 0 (toISOName (name f)) /\ records b (o + recLen (toISOName (name f))) l
  end.

Lemma file_entries_spec t files : forall buf o cur,
  Forall describable files -> 0 <= o -> o + dir_len files <= sectorSize -> dirAt + sectorSize <= len buf ->
  0 <= cur -> cur + total files < 2 ^ 32 ->
  exists buf', file_entries buf o t (places cur files) = Some (buf', o + dir_len files) /\ len buf' = len buf /\
    same_on buf buf' 0 (dirAt + o) /\ same_on buf buf' (dirAt + o + dir_len files) (len buf) /\ records buf' o (places cur files).
Proof.
  induction files as [|f files IH]; intros buf o cur Hf Ho Hd Hb Hc Ht; rewrite ?dir_len_cons, ?total_cons in *; cbn [places file_entries] in *.
  { cbn [dir_len foldr]. exists buf. rewrite Z.add_0_r. split_and!; done || (intros i j ? ?; done). }
  apply Forall_cons in Hf as [Hf Hfs].
  pose proof (recLen_iso f Hf) as Hr. pose proof (sectors_pos f). pose proof (dir_len_nonneg files). pose proof (total_nonneg files).
  pose proof (recLen_bounds (toISOName (name f))) as Hrb.
  destruct (putDirEntry_spec buf dirAt o cur (len (data f)) 0 (toISOName (name f)) t) as (b1 & E1 & L1 & S1 & S1' & R1);
    [done|done|lia|lia|lia|lia|pose proof (len_nonneg (data f)); destruct Hf; lia|lia|].
  rewrite E1. cbn [mbind option_bind].
  destruct (IH b1 (o + recLen (toISOName (name f))) (cur + sectors f)) as (b2 & E2 & L2 & S2 & S2' & R2); [done|lia..|].
  rewrite E2. exists b2. split_and!.
  - do 2 f_equal. lia.
  - congruence.
  - eapply same_on_trans; [exact S1|]. eapply same_on_sub; [exact S2|lia..].
  - eapply same_on_trans; [eapply same_on_sub; [exact S1'|lia..]|]. eapply same_on_sub; [exact S2'|lia..].
  - split; [|done]. eapply has_record_same; [exact S2|unfold dirAt, rootDirSector, sectorSize; lia|lia|done].
Qed.

(** ** The contents *)
Fixpoint contents (b : bytes) (l : list (fileEntry * (Z * Z))) : Prop :=
  match l with
  | [] => True
  | (f, (sector, size)) :: l => slice b (sector * sectorSize) (sector * sectorSize + size) = data f /\ contents b l
  end.

Lemma file_data_spec files : forall buf cur,
  0 <= cur -> (cur + total files) * sectorSize <= len buf ->
  exists buf', file_data buf (places cur files) = Some buf' /\ len buf' = len buf /\
    same_on buf buf' 0 (cur * sectorSize) /\ contents buf' (places cur files).
Proof.
  induction files as [|f files IH]; intros buf cur Hc Ht; rewrite ?total_cons in *; cbn [places file_data] in *.
  { exists buf. split_and!; done || (intros i j ? ?; done). }
  pose proof (sectors_pos f) as [Hs Hl]. pose proof (total_nonneg files). unfold sectorSize in *.
  rewrite Z.gtb_ltb, (proj2 (Z.ltb_ge _ _)) by lia. pose proof (len_nonneg (data f)).
  rewrite (take_ge (data f)) by (unfold len in *; lia).
  pose proof (len_put buf (cur * 2048) (data f) ltac:(lia) ltac:(lia)) as Lp.
  destruct (IH (put buf (cur * 2048) (data f)) (cur + sectors f)) as (b2 & E2 & L2 & S2 & C2); [lia|rewrite Lp; lia|].
  rewrite E2. exists b2. split_and!; [done|congruence| |].
  - intros i j ? ?. rewrite S2 by lia. apply slice_put_out; lia.
  - split; [|done]. unfold sectorSize. rewrite S2 by lia. rewrite slice_put_in by lia.
    transitivity (slice (data f) 0 (len (data f))); [apply slice_eq; lia|apply slice_full].
Qed.

(** ** The volume descriptor *)
Definition nul : byte := Byte.x00.

Lemma len_padRight s : len (padRight s) = 32.
Proof.
  unfold padRight, len. rewrite length_take, length_app, repeat_length. lia.
Qed.
Lemma len_decDateTime t : len (decDateTime t) <= 17.
Proof. unfold decDateTime. rewrite len_app, len_cons, len_nil. unfold len. rewrite length_take. lia. Qed.
#[local] Hint Rewrite len_padRight : golen.

(** What [read_iso] asks of the descriptor. *)
Definition has_volume (b : bytes) (volumeID : string) : Prop :=
  byte_at b 32768 = 1 /\ slice b 32769 32774 = bytes_of "CD001" /\ slice b 32808 32840 = padRight volumeID /\
  le32 b 32926 = 18 /\ le32 b 32934 = 2048.

Lemma descriptor_spec buf volumeID totalSectors t :
  len buf >= 19 * sectorSize ->
  let b := terminator (primaryDescriptor buf volumeID totalSectors t) in
  len b = len buf /\ same_on buf b dirAt (len buf) /\ has_volume b volumeID.
Proof.
  intros Hb. unfold terminator, primaryDescriptor, writeDirectoryRecord, dirAt, rootDirSector, sectorSize in *. cbn [Z.mul Pos.mul Pos.add Z.add].
  assert (Hcd : slen "CD001" = 5) by done. pose proof (len_decDateTime t) as Hdt. pose proof (len_nonneg (decDateTime t)).
  set (l1 := (0, [Byte.x01]) :: _). set (l2 := (0, [Byte.x22]) :: _). set (l3 := (813, _) :: _). set (l4 := (0, [Byte.xff]) :: _).
  assert (I1 : forall b, len b = len buf -> Forall (inside b 32768) l1) by (intros b Hl; subst l1; all_puts).
  assert (I2 : forall b, len b = len buf -> Forall (inside b 32924) l2) by (intros b Hl; subst l2; all_puts).
  assert (I3 : forall b, len b = len buf -> Forall (inside b 32768) l3) by (intros b Hl; subst l3; all_puts).
  assert (I4 : forall b, len b = len buf -> Forall (inside b 34816) l4) by (intros b Hl; subst l4; all_puts).
  set (b1 := put_all buf 32768 l1). assert (L1 : len b1 = len buf) by (apply len_put_all, I1; done).
  set (b2 := put_all b1 32924 l2). assert (L2 : len b2 = len buf) by (rewrite <- L1; apply len_put_all, I2; done).
  set (b3 := put_all b2 32768 l3). assert (L3 : len b3 = len buf) by (rewrite <- L2; apply len_put_all, I3; done).
  set (b4 := put_all b3 34816 l4). assert (L4 : len b4 = len buf) by (rewrite <- L3; apply len_put_all, I4; done).
  assert (O4 : forall i j, 0 <= i -> j <= 33581 -> slice b4 i j = slice b2 i j).
  { intros i j ? ?. subst b4 b3. rewrite slice_put_all_out; [|by apply I4|done|subst l4; all_puts].
    apply slice_put_all_out; [by apply I3|done|subst l3; all_puts]. }
  assert (O2 : forall i j, 0 <= i -> j <= 32924 -> slice b2 i j = slice b1 i j).
  { intros i j ? ?. subst b2. apply slice_put_all_out; [by apply I2|done|subst l2; all_puts]. }
  split; [done|]. split.
  - intros i j ? ?. subst b4 b3 b2 b1. rewrite slice_put_all_out; [|by apply I4|lia|subst l4; all_puts].
    rewrite slice_put_all_out; [|by apply I3|lia|subst l3; all_puts].
    rewrite slice_put_all_out; [|by apply I2|lia|subst l2; all_puts].
    apply slice_put_all_out; [by apply I1|lia|subst l1; all_puts].
  - unfold has_volume, byte_at, le32. rewrite !O4 by lia. rewrite (O2 32768), (O2 32769), (O2 32808) by lia. subst b2 b1.
    rewrite (slice_put_all_nth 0 _ _ l1 0 [Byte.x01]); [|done|by apply I1|subst l1; cbn [drop]; all_puts|lia|len_lia].
    rewrite (slice_put_all_nth 1 _ _ l1 1 (bytes_of "CD001")); [|done|by apply I1|subst l1; cbn [drop]; all_puts|lia|len_lia].
    rewrite (slice_put_all_nth 4 _ _ l1 40 (padRight volumeID)); [|done|by apply I1|subst l1; cbn [drop]; all_puts|lia|len_lia].
    rewrite (slice_put_all_nth 1 _ _ l2 2 (bothEndian32 18)); [|done|by apply I2|subst l2; cbn [drop]; all_puts|lia|len_lia].
    rewrite (slice_put_all_nth 2 _ _ l2 10 (bothEndian32 (u32 2048))); [|done|by apply I2|subst l2; cbn [drop]; all_puts|lia|len_lia].
    split_and!; [reflexivity..| |vm_compute; reflexivity|vm_compute; reflexivity].
    transitivity (slice (padRight volumeID) 0 (len (padRight volumeID))); [by rewrite len_padRight|apply slice_full].
Qed.

(** ** Reading it back *)
Definition as_read (b : bytes) (p : fileEntry * (Z * Z)) : string * bytes :=
  (toISOName (name p.1), slice b (p.2.1 * sectorSize) (p.2.1 * sectorSize + p.2.2)).

Lemma read_dir_step fuel b at_ size o sector n flags nm :
  o < size -> 0 < recLen nm -> has_record b (at_ + o) sector n flags nm ->
  read_dir (S fuel) b at_ size o =
    (rest ← read_dir fuel b at_ size (o + recLen nm);
     if Z.testbit flags 1 then Some rest
     else Some ((nm, slice b (sector * sectorSize) (sector * sectorSize + n)) :: rest)).
Proof.
  intros Ho Hl (R1 & R2 & R3 & R4 & R5 & R6). cbn [read_dir].
  rewrite Z.geb_leb, (proj2 (Z.leb_gt _ _)) by lia. rewrite R1, (proj2 (Z.eqb_neq _ 0)) by lia.
  rewrite R4, R5, R2, R3. destruct (read_dir fuel b at_ size _); cbn [mbind option_bind]; [|done].
  by rewrite R6, string_of_bytes_of.
Qed.

Lemma read_dir_records b size l : forall fuel o,
  Forall (fun p => describable p.1) l -> (length l < fuel)%nat -> records b o l ->
  o + dir_len (l.*1) <= size ->
  (o + dir_len (l.*1) = size \/ byte_at b (dirAt + (o + dir_len (l.*1))) = 0) ->
  read_dir fuel b dirAt size o = Some (as_read b <$> l).
Proof.
  induction l as [| [f [sector n] ] l IH]; intros fuel o Hd Hf Hr Ho He; destruct fuel as [|fuel]; [cbn in Hf; lia| |cbn in Hf; lia|].
  - cbn [fmap list_fmap dir_len foldr] in *. rewrite Z.add_0_r in *. cbn [read_dir]. destruct (Z.geb_spec o size); [done|].
    destruct He as [|He]; [lia|]. by rewrite He.
  - apply Forall_cons in Hd as [Hd Hds]. destruct Hr as [R Hr]. cbn [fmap list_fmap fst] in *. rewrite dir_len_cons in *.
    pose proof (recLen_iso f Hd). pose proof (dir_len_nonneg (l.*1)).
    rewrite (read_dir_step fuel b dirAt size o sector n 0 (toISOName (name f))) by (lia || exact R).
    rewrite IH; [done|done|cbn in Hf; lia|done|lia|]. destruct He as [He|He]; [left; lia|right].
    replace (dirAt + (o + recLen (toISOName (name f)) + dir_len l.*1)) with (dirAt + (o + (recLen (toISOName (name f)) + dir_len l.*1))) by lia.
    done.
Qed.

Lemma zero_byte n i : 0 <= i < n -> byte_at (repeat Byte.x00 (Z.to_nat n)) i = 0.
Proof.
  intros Hi. unfold byte_at. rewrite (slice_one _ _ _ Byte.x00) by (unfold len; rewrite ?repeat_length; lia).
  by rewrite nth_repeat.
Qed.

Lemma byte_at_same b b' lo hi i : same_on b b' lo hi -> lo <= i < hi -> byte_at b' i = byte_at b i.
Proof. intros H Hi. unfold byte_at. by rewrite H by lia. Qed.

Lemma places_files cur files : (places cur files).*1 = files.
Proof. revert cur. induction files as [|f files IH]; intros cur; [done|]. cbn. by rewrite IH. Qed.

Lemma places_describable cur files : Forall describable files -> Forall (fun p => describable p.1) (places cur files).
Proof. intros Hf. rewrite <- (places_files cur files) in Hf. by rewrite Forall_fmap in Hf. Qed.

Lemma records_same b b' lo hi l : forall o,
  same_on b b' lo hi -> Forall (fun p => describable p.1) l -> lo <= dirAt + o -> dirAt + o + dir_len (l.*1) <= hi ->
  records b o l -> records b' o l.
Proof.
  induction l as [| [f [sector n] ] l IH]; intros o H Hd Hlo Hhi; [done|]. intros [R Hr].
  apply Forall_cons in Hd as [Hd Hds]. cbn [fmap list_fmap fst] in Hhi. rewrite dir_len_cons in Hhi.
  pose proof (recLen_iso f Hd). pose proof (dir_len_nonneg (l.*1)). pose proof (recLen_bounds (toISOName (name f))).
  split; [eapply has_record_same; [exact H|lia|lia|done]|]. apply IH; [done|done|lia|lia|done].
Qed.

Lemma as_read_contents b l : contents b l -> as_read b <$> l = (fun p : fileEntry * (Z * Z) => (toISOName (name p.1), data p.1)) <$> l.
Proof.
  induction l as [| [f [sector n] ] l IH]; [done|]. intros [H Hc]. cbn [fmap list_fmap]. f_equal; [|by apply IH].
  unfold as_read. cbn [fst snd]. by rewrite H.
Qed.

Lemma has_volume_same b b' v : same_on b b' 0 36864 -> has_volume b v -> has_volume b' v.
Proof. intros H. unfold has_volume, byte_at, le32. rewrite !H by lia. done. Qed.

Definition dot_record : string := String "000" "".
Definition dotdot_record : string := String "001" "".

(** The parts of the image a reader follows. *)
Definition readable (img : bytes) (volumeID : string) (files : list fileEntry) : Prop :=
  has_volume img volumeID /\ has_record img (dirAt + 0) 18 2048 2 dot_record /\
  has_record img (dirAt + 34) 18 2048 2 dotdot_record /\ records img 68 (places 19 files) /\
  (68 + dir_len files = 2048 \/ byte_at img (dirAt + (68 + dir_len files)) = 0) /\ contents img (places 19 files).

Lemma image_readable (files : list fileEntry) (volumeID : string) (now : stamp) :
  Forall describable files -> 68 + dir_len files <= sectorSize -> 19 + total files < 2 ^ 32 ->
  exists img, buildISO9660 files volumeID now = Some img /\ readable img volumeID files.
Proof.
  intros Hf Hd Ht. pose proof (total_nonneg files). pose proof (dir_len_nonneg files). unfold buildISO9660.
  destruct (layout_places 19 files Hf ltac:(lia) Ht) as [Hz Htot].
  change dataSector with 19. destruct (layout 19 files) as [locs tot]. cbn [fst snd] in Hz, Htot. subst tot.
  rewrite (proj2 (Z.ltb_ge _ _)) by (unfold sectorSize in *; lia). rewrite Hz.
  set (n := (19 + total files) * sectorSize). set (buf := repeat _ _).
  assert (Ln : len buf = n) by (unfold buf, len; rewrite repeat_length; unfold n, sectorSize; lia).
  assert (Hn : n >= 19 * 2048) by (unfold n, sectorSize; lia).
  destruct (descriptor_spec buf volumeID (19 + total files) now ltac:(unfold sectorSize; lia)) as (L0 & S0 & V0).
  set (b0 := terminator _) in *. clearbody b0. assert (HdirAt : dirAt = 36864) by done. unfold sectorSize in Hd.
  destruct (putDirEntry_spec b0 dirAt 0 rootDirSector sectorSize 2 dot_record now) as (b1 & E1 & L1 & S1 & S1' & R1);
    [done|done|done|unfold sectorSize; lia|done|done|done|done|].
  destruct (putDirEntry_spec b1 dirAt 34 rootDirSector sectorSize 2 dotdot_record now) as (b2 & E2 & L2 & S2 & S2' & R2);
    [done|done|done|unfold sectorSize; lia|done|done|done|done|].
  destruct (file_entries_spec now files b2 68 19) as (b3 & E3 & L3 & S3 & S3' & R3);
    [done|done|unfold sectorSize; lia|unfold sectorSize; lia|done|done|].
  destruct (file_data_spec files b3 19) as (b4 & E4 & L4 & S4 & C4); [done|unfold n, sectorSize in *; lia|].
  exists b4. fold dot_record dotdot_record.
  rewrite E1. cbn [mbind option_bind]. change (0 + recLen dot_record) with 34. rewrite E2. cbn [mbind option_bind].
  change (34 + recLen dotdot_record) with 68. rewrite E3. cbn [mbind option_bind]. rewrite E4. split; [done|].
  change (recLen dot_record) with 34 in *. change (recLen dotdot_record) with 34 in *. unfold sectorSize in S4.
  unfold readable. split_and!; [| | | | |done].
  - eapply has_volume_same, V0. intros i j ? ?. rewrite S4, S3, S2, S1 by lia. done.
  - eapply (has_record_same b1 b4 _ _ _ _ _ 0 (dirAt + 34)); [|lia|change (slen dot_record) with 1; lia|exact R1]. intros i j ? ?.
    rewrite S4, S3, S2 by lia. done.
  - eapply (has_record_same b2 b4 _ _ _ _ _ 0 (dirAt + 68)); [|lia|change (slen dotdot_record) with 1; lia|exact R2]. intros i j ? ?.
    rewrite S4, S3 by lia. done.
  - eapply records_same; [exact S4|by apply places_describable|lia| |done]. rewrite places_files. lia.
  - destruct (decide (68 + dir_len files = 2048)) as [|Hlt]; [by left|right].
    rewrite (byte_at_same _ _ _ _ _ S4), (byte_at_same _ _ _ _ _ S3'), (byte_at_same _ _ _ _ _ S2'),
      (byte_at_same _ _ _ _ _ S1'), (byte_at_same _ _ _ _ _ S0) by lia. apply zero_byte. lia.
Qed.

(** C34.  When every file can be described, the directory fits its sector and the
    image's sectors a 32-bit count, the image is made, and a reader finds the
    volume's identifier and exactly the files, in order, with their contents,
    each under its name as [toISOName] writes it. *)
Theorem iso_roundtrip (files : list fileEntry) (volumeID : string) (now : stamp) :
  Forall describable files -> 68 + dir_len files <= sectorSize -> 19 + total files < 2 ^ 32 ->
  exists img, buildISO9660 files volumeID now = Some img /\
    read_iso (length files + 4) img =
      Some (string_of (padRight volumeID), (fun f => (toISOName (name f), data f)) <$> files).
Proof.
  intros Hf Hd Ht. destruct (image_readable files volumeID now Hf Hd Ht) as (img & Hb & V4 & D1 & D2 & R4 & Z4 & C4).
  exists img. split; [done|]. unfold sectorSize in Hd. pose proof (dir_len_nonneg files).
  assert (RD : read_dir (length files + 4) img dirAt 2048 0 = Some ((fun f => (toISOName (name f), data f)) <$> files)).
  { replace (length files + 4)%nat with (S (S (length files + 2))) by lia.
    rewrite (read_dir_step _ img dirAt 2048 0 18 2048 2 dot_record) by (done || exact D1). change (0 + recLen dot_record) with 34.
    rewrite (read_dir_step _ img dirAt 2048 34 18 2048 2 dotdot_record) by (done || exact D2). change (34 + recLen dotdot_record) with 68.
    rewrite (read_dir_records img 2048 (places 19 files)); [|by apply places_describable| |done|by rewrite places_files; lia|by rewrite places_files].
    - cbn [mbind option_bind]. change (Z.testbit 2 1) with true. cbn iota. rewrite as_read_contents by done. f_equal.
      rewrite <- (places_files 19 files) at 2. by rewrite <- list_fmap_compose.
    - rewrite <- (places_files 19 files) at 2. rewrite length_fmap. lia. }
  destruct V4 as (V1 & V2 & V3 & V5 & V6). unfold read_iso. cbn zeta.
  change (16 * sectorSize) with 32768. change (32768 + 156 + 2) with 32926. change (32768 + 156 + 10) with 32934.
  change (32768 + 1) with 32769. change (32768 + 6) with 32774. change (32768 + 40) with 32808. change (32768 + 72) with 32840.
  rewrite V1, V2, V3, V5, V6, bool_decide_eq_true_2 by done. cbn [Z.eqb Pos.eqb negb orb].
  change (18 * sectorSize) with dirAt. by rewrite RD.
Qed.

Lemma length_layout cur files : length (layout cur files).1 = length files.
Proof.
  revert cur. induction files as [|f files IH]; intros cur; cbn [layout]; [done|].
  destruct (layout _ files) as [locs t] eqn:E. cbn [fst length]. f_equal. rewrite <- (IH (u32 (cur +
    (if u32 (u32 (len (data f)) + sectorSize - 1) / sectorSize =? 0 then 1 else u32 (u32 (len (data f)) + sectorSize - 1) / sectorSize)))).
  by rewrite E.
Qed.

Lemma putDirEntry_offset buf dir o sector size flags n t b o' :
  putDirEntry buf dir o sector size flags n t = Some (b, o') -> o' = o + recLen n /\ o + 33 <= sectorSize.
Proof.
  unfold putDirEntry. destruct (Z.gtb_spec (o + 33) sectorSize); [done|]. destruct (_ >? len buf); [done|]. cbn [orb].
  intros [= _ <-]. done.
Qed.

Lemma file_entries_full t pre f post : forall buf o locs,
  length locs = length (pre ++ f :: post) -> o + dir_len pre + 33 > sectorSize ->
  file_entries buf o t (zip (pre ++ f :: post) locs) = None.
Proof.
  induction pre as [|g pre IH]; intros buf o locs Hl Ho; destruct locs as [| [s n] locs]; try done; cbn [app zip file_entries] in *.
  - destruct (putDirEntry _ _ _ _ _ _ _ _) as [ [b o']|] eqn:E; [|done]. apply putDirEntry_offset in E. cbn in Ho. lia.
  - destruct (putDirEntry _ _ _ _ _ _ _ _) as [ [b o']|] eqn:E; [|done]. apply putDirEntry_offset in E as [-> _].
    cbn [mbind option_bind]. apply IH; [by injection Hl|]. rewrite dir_len_cons in Ho. lia.
Qed.

(** A directory whose last record would begin too near its sector's end
    makes the writer panic, whatever the files hold: at most some fifty files
    fit. *)
Theorem iso_directory_full (pre post : list fileEntry) (f : fileEntry) (volumeID : string) (now : stamp) :
  68 + dir_len pre + 33 > sectorSize -> buildISO9660 (pre ++ f :: post) volumeID now = None.
Proof.
  intros Hd. unfold buildISO9660. pose proof (length_layout dataSector (pre ++ f :: post)) as Hl.
  destruct (layout _ _) as [locs tot]. cbn [fst] in Hl. destruct (_ <? _); [done|].
  destruct (putDirEntry _ _ 0 _ _ _ _ _) as [ [b1 o1]|] eqn:E1; [|done]. apply putDirEntry_offset in E1 as [-> _].
  cbn [mbind option_bind]. destruct (putDirEntry b1 _ _ _ _ _ _ _) as [ [b2 o2]|] eqn:E2; [|done].
  apply putDirEntry_offset in E2 as [-> _]. cbn [mbind option_bind]. rewrite file_entries_full; [done|done|].
  change (recLen (String "000" "")) with 34. change (recLen (String "001" "")) with 34. lia.
Qed.
End IsoSpec.

Module IsoExamples.
Import Iso IsoSpec.

Definition ex_now : stamp := mkStamp 2024 5 6 7 8 9 3600.
Definition seed : list fileEntry := [mkFile "user-data" (bytes_of "#cloud-config"); mkFile "meta-data" []].

Lemma iso_roundtrip_witness : exists img, buildISO9660 seed "CIDATA" ex_now = Some img /\
  read_iso 6 img = Some (string_of (padRight "CIDATA"), [("USER_DATA;1", bytes_of "#cloud-config"); ("META_DATA;1", [])]).
Proof. apply (iso_roundtrip seed "CIDATA" ex_now);
    [repeat (apply Forall_cons_2 || apply Forall_nil_2); split; vm_compute; (discriminate || reflexivity)|vm_compute; discriminate|reflexivity]. Defined.

Lemma iso_directory_full_witness : buildISO9660 (repeat (mkFile "user-data" []) 50) "CIDATA" ex_now = None.
Proof. apply (iso_directory_full (repeat (mkFile "user-data" []) 45) (repeat (mkFile "user-data" []) 4)). reflexivity. Defined.

(** The names cloud-init looks for, user-data and meta-data, are not among the
    image's names, and different names may become one. *)
Example seed_names : toISOName <$> ["user-data"; "user_data"; "USER.DATA"] = ["USER_DATA;1"; "USER_DATA;1"; "USER.DATA;1"].
Proof. reflexivity. Qed.

(** A last record that straddles the sector's end keeps its length but loses
    the part of its name that the first file's data overwrites. *)
Definition long : fileEntry := mkFile (string_of (repeat Byte.x61 198)) [].
Definition tail_ : fileEntry := mkFile (string_of (repeat Byte.x61 100)) [].
Definition first_ : fileEntry := mkFile "a" (repeat Byte.x7a 2048).
Example straddles :
  match buildISO9660 (first_ :: repeat long 8 ++ [tail_]) "CIDATA" ex_now with
  | Some img => (68 + dir_len (first_ :: repeat long 8), 68 + dir_len (first_ :: repeat long 8 ++ [tail_]),
                 slice img (dirAt + 2046) (dirAt + 2050)) = (1976, 2112, [Byte.x41; Byte.x41; Byte.x7a; Byte.x7a])
  | None => False
  end.
Proof. vm_compute. reflexivity. Qed.
End IsoExamples.
