(* ===== verification/FcBuild.v ===== *)
(** * A build on firecracker (src/driver/firecracker/vm.go, wait.go, vm_linux.go,
    deliver_linux.go, driver_linux.go)

    The two VMs' configurations, the wait that watches them, and StartBuild
    with every deferred cleanup.  What a build asks of the machine and of the
    components other files model is a [call]; a run is the trace of its calls,
    whose answers are arbitrary. *)
From S2P Require Import Prelude Text BuildLink Session Slots Preflight Pids Vmms.

#[local] Open Scope string_scope.
#[local] Open Scope Z_scope.

(** ** VM configurations (vm.go) *)
Module FcVm.
Import BuildLink Slots.

Definition relayVCPUs : Z := 2.
Definition relayMemoryMB : Z := 256.
Definition buildVCPUs : Z := 4.
Definition buildMemoryMB : Z := 4096.

Record bootSource := mkBoot { Kernel : string; Initrd : string; BootArgs_ : string }.
Record drive := mkDrive { driveID : string; drivePath : string; Root : bool; PartUUID : string; ReadOnly : bool }.
Record nic := mkNic { nicID : string; HostIf : string }.
Record vmConfig := mkConfig {
  BootSource : bootSource; Drives : list drive; VCPUs : Z; MemoryMB : Z; NICs : list nic; Entropy : bool }.

Definition baseArgs : string := "console=ttyS0 reboot=k panic=1 pci=off".

Definition relayArgs (s : Z) (dns : list string) (token : string) : string :=
  baseArgs ++ " warden.net=static warden.nat_ip=" ++ RelayAddr s ++ " warden.nat_prefix=30 warden.nat_gw=" ++ HostAddr s ++
  " warden.dns=" ++ Text.Join dns "," ++ " warden.claim_token=" ++ token.

Definition relayConfig (s : Z) (kernel initrd args : string) : vmConfig :=
  mkConfig (mkBoot kernel initrd args) [] relayVCPUs relayMemoryMB
    [mkNic "eth0" (RelayTap s); mkNic "eth1" (UpstreamTap s)] true.

Record buildBoot := mkBuildBoot {
  bKernel : string; Rootfs : string; bPartUUID : string; Seed : string; bInitrd : string; LinkArgs : string }.

Definition buildConfig (s : Z) (b : buildBoot) (cpus memMB : Z) : vmConfig :=
  let args := if bool_decide (LinkArgs b = "") then baseArgs else baseArgs ++ " " ++ LinkArgs b in
  mkConfig (mkBoot (bKernel b) (bInitrd b) args)
    (if bool_decide (Rootfs b = "") then []
     else [mkDrive "rootfs" (Rootfs b) true (bPartUUID b) false; mkDrive "seed" (Seed b) false "" true])
    cpus memMB [mkNic "eth0" (GuestTap s)] false.

Definition drive_args (d : drive) : string :=
  if Root d then
    (if bool_decide (PartUUID d = "") then " root=/dev/vda" else " root=PARTUUID=" ++ PartUUID d) ++
    (if ReadOnly d then " ro" else " rw")
  else "".
Definition effectiveArgs (c : vmConfig) : string :=
  foldl (fun args d => args ++ drive_args d) (BootArgs_ (BootSource c)) (Drives c).
End FcVm.

(** ** Waiting for the build (wait.go) *)
Module WaitBuild.
Import Session.Session.

Definition errBuildVMExited : error := Msg "the build VM stopped before the build completed".
Definition errRelayVMExited : error := Msg "the relay VM stopped before the build completed".

(** What the select receives: the wait's result (with whether the build's own
    context had ended by then), a VM's exit, the end of the grace. *)
Inductive event := Done (o : outcome) (ended : bool) | BuildExited | GraceEnd | RelayExited.

(** A channel variable is false when it is nil; [cancelled] is whether the
    wait's context has been cancelled. *)
Record state := mkState { buildExited : bool; graceEnd : bool; relayExited : bool; cause : option error; cancelled : bool }.
Definition init : state := mkState true false true None false.

(** One pass of the loop; [None] when the event's channel is nil. *)
Definition step (s : state) (e : event) : option (state + outcome) :=
  match e with
  | Done o ended =>
      match o, cause s with
      | Success, _ | ExitError _ _, _ | _, None => Some (inr o)
      | _, Some c => Some (inr (if ended then o else Failure c))
      end
  | BuildExited => if buildExited s then Some (inl (mkState false true (relayExited s) (cause s) (cancelled s))) else None
  | GraceEnd =>
      if graceEnd s then Some (inl (mkState (buildExited s) false (relayExited s) (Some errBuildVMExited) true)) else None
  | RelayExited =>
      if relayExited s then
        Some (inl (mkState (buildExited s) (graceEnd s) false
                     (Some match cause s with None => errRelayVMExited | Some c => c end) true))
      else None
  end.

(** [waitBuild] on what its select receives, in order: the result and what it
    did not receive. *)
Fixpoint waitBuild (s : state) (evs : list event) : option outcome :=
  match evs with
  | [] => None
  | e :: evs =>
      match step s e with
      | None => None
      | Some (inr o) => Some o
      | Some (inl s) => waitBuild s evs
      end
  end.
End WaitBuild.

(** ** StartBuild (driver_linux.go, deliver_linux.go, vm_linux.go) *)
Module FcBuild.
Import Session.Session BuildLink Slots Pids Vmms FcVm.

#[local] Abbreviation outcome := Session.Session.outcome.

Record request := mkRequest {
  GuestOS : string; KeepVMs : bool; OutputDir : string; TempDir : string; CPUs : Z; Memory : Z; link : Link }.

Record preflighted := mkPre { kernel : string; relayInitramfs : string; buildInitramfs : string; slots : list Z; resolvers : list string }.

(** What a build asks for, by the type of what it gets.  [CDescribe] is
    [describeBuild]; [CWriteConfig] writes a VM's configuration, [CStart] starts
    firecracker on it with its console captured, and [CProcessRecord] reads the
    started VMM's entry. *)
Inductive call : Type -> Type :=
  | CPreflight : call preflighted
  | CCheckHostLink : call unit
  | CRandAlphaNum (n : Z) : call string
  | CHostLock (name : string) : call unit
  | CUnlock (name : string) : call unit
  | CAcquireSlot (slots : list Z) : call Z
  | CReleaseSlot (s : Z) : call unit
  | CMkdirAll (dir : string) (mode : Z) : call unit
  | CMkdirTemp (dir prefix : string) : call string
  | CRemoveAll (path : string) : call unit
  | CStageBuildScript (work : string) : call string
  | CRecordInputs (out script : string) : call unit
  | CContainerfileImage : call string
  | CCheckDiskTools : call unit
  | CLauncherCheck : call unit
  | CEnsureRaw (image : string) : call string
  | CRootPartUUID (raw : string) : call string
  | CCopy (src dst : string) : call unit
  | CSeed (work : string) : call string
  | CSeedISO (dir iso : string) : call unit
  | CGuestBinary (name : string) : call string
  | CAppendFileCPIO (base out src path : string) : call unit
  | CWriteFile (path content : string) : call unit
  | CDescribe (boot : buildBoot) (cmdline : string) : call string
  | CRelayInitrd (base work : string) : call string
  | CStartSession (out script : string) : call unit
  | CCloseSession : call unit
  | CRandomToken : call string
  | CWriteConfig (path : string) (config : vmConfig) : call unit
  | CLookPath (name : string) : call string
  | COpenConsole (path : string) : call unit
  | CStart (vm bin config : string) (keep : bool) : call Z
  | CProcessRecord (pid : Z) (keep : bool) : call vmmRecord
  | CStop (pid : Z) : call unit
  | CExited (pid : Z) : call bool
  | CConsoleTail (vm : string) : call string
  | CWritePidFile (s : Z) (recs : list vmmRecord) : call unit
  | CRemovePidFile (s : Z) : call unit
  | CClaimRelay (addr token env : string) : call unit
  | CWait (build relay : Z) : call outcome
  | CFinalizeOutput (out : string) : call unit.

Inductive ev : Type := | Ev (A : Type) (c : call A) (r : A + outcome).
Arguments Ev {A} c r.
Abbreviation trace := (list ev).

(** ** Running *)
Definition M (A : Type) : Type := trace -> trace * A.
Abbreviation R A := (A + outcome)%type.

Section Build.
Context (answer : forall A, trace -> call A -> A + outcome) (WorkRoot : string).

Definition ret {A} (a : A) : M A := fun t => (t, a).
Definition bind {A B} (m : M A) (k : A -> M B) : M B := fun t => let '(t, a) := m t in k a t.
Definition do_ {A} (c : call A) : M (R A) := fun t => let r := answer A t c in ((t ++ [Ev c r])%list, r).

(** [x, err := m; if err != nil { return err }] *)
Definition andThen {A B} (m : M (R A)) (k : A -> M (R B)) : M (R B) :=
  bind m (fun r => match r with inl a => k a | inr f => ret (inr f) end).

(** [defer fin()] before [body]. *)
Definition deferred {A} (fin : M unit) (body : M A) : M A := bind body (fun a => bind fin (fun _ => ret a)).

(** A call whose error is dropped. *)
Definition ignore {A} (c : call A) : M unit := bind (do_ c) (fun _ => ret tt).
Definition when_ (b : bool) (m : M unit) : M unit := if b then m else ret tt.
Definition wrapped {A} (ctx : string) (m : M (R A)) : M (R A) :=
  bind m (fun r => ret match r with inl a => inl a | inr (Failure e) => inr (Failure (Wrap ctx e)) | inr (Fixable f e) => inr (Fixable f (Wrap ctx e)) | inr o => inr o end).

#[local] Notation "'let!' x := m 'in' k" := (andThen m (fun x => k))
  (at level 10, x name, m at level 100, k at level 200).

(** *** Delivery *)
Record delivery := mkDelivery { boot : buildBoot; cmdline : string; rootfsDir : option string }.

(** [delivery.remove] *)
Definition remove_rootfs (d : option string) : M unit :=
  match d with Some dir => ignore (CRemoveAll dir) | None => ret tt end.

(** [diskPath], from the creation of the rootfs directory on. *)
Definition diskPath_in (dir raw partUUID kern work : string) : M (R buildBoot) :=
  let! _ := do_ (CMkdirAll dir 448) in
  let! _ := wrapped "copying the build rootfs" (do_ (CCopy raw (Join dir "rootfs.raw"))) in
  let! seedDir := wrapped "generating cloud-init" (do_ (CSeed work)) in
  let! _ := wrapped "generating seed ISO" (do_ (CSeedISO seedDir (Join work "seed.iso"))) in
  ret (inl (mkBuildBoot kern (Join dir "rootfs.raw") partUUID (Join work "seed.iso") "" "")).

Definition directBoot (pre : preflighted) (work : string) (l : Link) : M (R buildBoot) :=
  let! agent := do_ (CGuestBinary "warden-io") in
  let! _ := wrapped "composing the build initrd" (do_ (CAppendFileCPIO (buildInitramfs pre) (Join work "build-initrd") agent "bin/warden-io")) in
  ret (inl (mkBuildBoot (kernel pre) "" "" "" (Join work "build-initrd") (BuildLink.BootArgs l))).

(** The command line the record holds, written to the work dir. *)
Definition write_cmdline (work : string) (b : buildBoot) (d : option string) : M (R delivery) :=
  let path := Join work "kernel-cmdline" in
  bind (do_ (CWriteFile path (effectiveArgs (buildConfig 0 b 1 1) ++ String "010" "")))
    (fun r => match r with
       | inl _ => ret (inl (mkDelivery b path d))
       | inr f => bind (remove_rootfs d) (fun _ => ret (inr f))
       end).

(** [deliver] *)
Definition deliver (pre : preflighted) (image work buildID : string) (l : Link) : M (R delivery) :=
  if decide (image = "") then
    let! b := directBoot pre work l in write_cmdline work b None
  else
    let! raw := do_ (CEnsureRaw image) in
    let! uuid := do_ (CRootPartUUID raw) in
    let dir := Join WorkRoot buildID in
    bind (diskPath_in dir raw uuid (kernel pre) work)
      (fun r => match r with
         | inl b => write_cmdline work b (Some dir)
         | inr f => bind (remove_rootfs (Some dir)) (fun _ => ret (inr f))
         end).

Record staged := mkStaged { script : string; dlv : delivery; env : string; relayInitrd : string }.

(** A step of [stage] after the delivery, whose failure removes it. *)
Definition or_remove {A B} (d : delivery) (m : M (R A)) (k : A -> M (R B)) : M (R B) :=
  bind m (fun r => match r with inl a => k a | inr f => bind (remove_rootfs (rootfsDir d)) (fun _ => ret (inr f)) end).

(** [stage] *)
Definition stage (req : request) (pre : preflighted) (work out buildID : string) : M (R staged) :=
  let! scr := wrapped "staging build script" (do_ (CStageBuildScript work)) in
  let! _ := wrapped "recording inputs" (do_ (CRecordInputs out scr)) in
  let! image := do_ CContainerfileImage in
  let! _ := (if decide (image = "") then do_ CLauncherCheck else do_ CCheckDiskTools) in
  let! d := deliver pre image work buildID (link req) in
  or_remove d (wrapped "describing build environment" (do_ (CDescribe (boot d) (cmdline d)))) (fun e =>
  or_remove d (wrapped "composing relay initrd" (do_ (CRelayInitrd (relayInitramfs pre) work))) (fun initrd =>
  ret (inl (mkStaged scr d e initrd)))).

(** *** The VMs *)
Definition vmFailure {A} (e : error) (vm : string) : M (R A) :=
  bind (do_ (CConsoleTail vm)) (fun _ => ret (inr (Failure (Wrap "build failed" e)))).

(** [startVMM]: a VMM whose process cannot be recorded is stopped. *)
Definition startVMM (work vm : string) (cfg : vmConfig) (keep : bool) : M (R vmmRecord) :=
  let configPath := Join work (vm ++ ".json") in
  let! _ := do_ (CWriteConfig configPath cfg) in
  let! bin := do_ (CLookPath "firecracker") in
  let! _ := do_ (COpenConsole (Join work (vm ++ ".console"))) in
  let! pid := wrapped ("starting the " ++ vm ++ " VM") (do_ (CStart vm bin configPath keep)) in
  bind (wrapped ("starting the " ++ vm ++ " VM: recording its process") (do_ (CProcessRecord pid keep))) (fun r =>
    match r with
    | inl rec => ret (inl (mkVmm pid (start rec) (exe rec) keep))
    | inr f =>
        bind (ignore (CStop pid)) (fun _ =>
        bind (do_ (CConsoleTail vm)) (fun _ => ret (inr f)))
    end).

(** The VMMs of a run, as [run]'s fields. *)
Record vms := mkVms { relay : option vmmRecord; build : option vmmRecord }.

(** [startRelay]; the VMM it leaves in the run. *)
Definition startRelay (req : request) (work : string) (s : Z) (pre : preflighted) (initrd env : string) : M (option vmmRecord * R unit) :=
  bind (do_ CRandomToken) (fun r => match r with inr f => ret (None, inr f) | inl token =>
  bind (startVMM work "relay" (relayConfig s (kernel pre) initrd (relayArgs s (resolvers pre) token)) (KeepVMs req)) (fun r =>
  match r with inr f => ret (None, inr f) | inl v =>
  bind (bind (do_ (CWritePidFile s [v])) (fun r => match r with
    | inr f => ret (inr f)
    | inl _ =>
        bind (do_ (CClaimRelay (ClaimAddr s) token env)) (fun r => match r with
          | inl _ => ret (inl tt)
          | inr f => bind (do_ (CExited (pid v))) (fun x =>
              match x with inl true => vmFailure WaitBuild.errRelayVMExited "relay" | _ => ret (inr f) end)
          end)
    end)) (fun r => ret (Some v, r))
  end) end).

Definition orDefault (v d : Z) : Z := if v =? 0 then d else v.

(** [startBuild] *)
Definition startBuild (req : request) (work : string) (s : Z) (b : buildBoot) (rel : vmmRecord) : M (option vmmRecord * R unit) :=
  let cfg := buildConfig s b (orDefault (CPUs req) buildVCPUs) (orDefault (Memory req) buildMemoryMB) in
  bind (startVMM work "build" cfg (KeepVMs req)) (fun r =>
  match r with
  | inr f => ret (None, inr f)
  | inl v => bind (do_ (CWritePidFile s [rel; v])) (fun r => ret (Some v, r))
  end).

(** [run.wait] *)
Definition outcome_failure (o : outcome) : R unit := match o with Success => inl tt | _ => inr o end.
Definition wait (b r : vmmRecord) : M (R unit) :=
  let! o := do_ (CWait (pid b) (pid r)) in
  match o with
  | Failure e =>
      if errors_Is e WaitBuild.errBuildVMExited then vmFailure e "build"
      else if errors_Is e WaitBuild.errRelayVMExited then vmFailure e "relay"
      else ret (inr (Failure e))
  | _ => ret (outcome_failure o)
  end.

(** [teardown] *)
Definition stop_vm (v : option vmmRecord) : M unit := match v with Some v => ignore (CStop (pid v)) | None => ret tt end.
Definition teardown (req : request) (s : Z) (v : vms) : M unit :=
  if KeepVMs req then ret tt
  else bind (stop_vm (build v)) (fun _ => bind (stop_vm (relay v)) (fun _ => ignore (CRemovePidFile s))).

(** [bootInOrder], the wait, and the deferred teardown. *)
Definition run_vms (req : request) (work : string) (s : Z) (pre : preflighted) (st : staged) : M (R unit) :=
  bind (startRelay req work s pre (relayInitrd st) (env st)) (fun '(rel, r) =>
  match r, rel with
  | inl _, Some v =>
      bind (startBuild req work s (boot (dlv st)) v) (fun '(bld, r) =>
      bind (match r, bld with
            | inl _, Some b => wait b v
            | inr f, _ => ret (inr f)
            | inl _, None => ret (inl tt)
            end) (fun res => bind (teardown req s (mkVms rel bld)) (fun _ => ret res)))
  | inr f, _ => bind (teardown req s (mkVms rel None)) (fun _ => ret (inr f))
  | inl _, None => ret (inl tt)
  end).

(** *** StartBuild *)
Definition build_lock (id : string) : string := buildLockName id.

Definition in_session (req : request) (s : Z) (pre : preflighted) (out work : string) (st : staged) : M (R string) :=
  let! _ := do_ (CStartSession out (script st)) in
  deferred (ignore CCloseSession)
    (let! _ := run_vms req work s pre st in
     let! _ := do_ (CFinalizeOutput out) in
     ret (inl out)).

Definition in_workdir (req : request) (s : Z) (pre : preflighted) (out work id : string) : M (R string) :=
  let! st := stage req pre work out id in
  deferred (when_ (negb (KeepVMs req)) (remove_rootfs (rootfsDir (dlv st)))) (in_session req s pre out work st).

Definition on_slot (req : request) (s : Z) (pre : preflighted) (id : string) : M (R string) :=
  let out := if decide (OutputDir req = "") then "warden-output" else OutputDir req in
  let! _ := wrapped "creating output dir" (do_ (CMkdirAll out 493)) in
  let! _ := (if decide (TempDir req = "") then ret (inl tt) else wrapped "creating temp dir" (do_ (CMkdirAll (TempDir req) 493))) in
  let! work := wrapped "creating work dir" (do_ (CMkdirTemp (TempDir req) ("warden-firecracker-" ++ id ++ "-"))) in
  deferred (when_ (negb (KeepVMs req)) (ignore (CRemoveAll work))) (in_workdir req s pre out work id).

Definition guestFix : string := "drop --guest-os, or use --driver qemu or hyperv for Windows".

(** [StartBuild]: the output directory, or why the build failed. *)
Definition StartBuild (req : request) : M (R string) :=
  if negb (bool_decide (GuestOS req = "")) && negb (bool_decide (GuestOS req = "linux"))
  then ret (inr (Fixable guestFix (Msg "--driver firecracker runs Linux guests only")))
  else
    let! pre := do_ CPreflight in
    let! _ := do_ CCheckHostLink in
    let! id := do_ (CRandAlphaNum 8) in
    let! _ := do_ (CHostLock (build_lock id)) in
    deferred (ignore (CUnlock (build_lock id)))
      (let! s := do_ (CAcquireSlot (slots pre)) in
       deferred (ignore (CReleaseSlot s)) (on_slot req s pre id)).
End Build.
End FcBuild.
