(* ===== verification/FcBuildSpec.v ===== *)
(** * What a firecracker build leaves behind

    Whatever the machine answers, a build closes what it opened, in the reverse
    order, and boots no build VM before the relay is claimed; its wait reports
    a VM's exit only when that is what ended it. *)
From S2P Require Import Prelude Text Session Pids Slots FcBuild.

#[local] Open Scope string_scope.
#[local] Open Scope Z_scope.

Module FcBuildSpec.
Import Session.Session Pids FcVm FcBuild.

(** ** A monitor of a build's calls *)

(** What must be undone. *)
Inductive closing := KUnlock (name : string) | KRelease (s : Z) | KRemove (path : string) | KSession | KStop (pid : Z).

(** What an answered call leaves to undo: with --keep-vms, VMs and directories
    stay. *)
Definition opens (keep : bool) (e : ev) : option closing :=
  match e with
  | Ev c r =>
      match c in call A return A + outcome -> option closing with
      | CHostLock n => fun r => match r with inl _ => Some (KUnlock n) | inr _ => None end
      | CAcquireSlot _ => fun r => match r with inl s => Some (KRelease s) | inr _ => None end
      | CMkdirTemp _ _ => fun r => match r with inl d => if keep then None else Some (KRemove d) | inr _ => None end
      | CMkdirAll d mode => fun r =>
          match r with inl _ => if keep || negb (mode =? 448) then None else Some (KRemove d) | inr _ => None end
      | CStartSession _ _ => fun r => match r with inl _ => Some KSession | inr _ => None end
      | CStart _ _ _ _ => fun r => match r with inl p => if keep then None else Some (KStop p) | inr _ => None end
      | _ => fun _ => None
      end r
  end.

Definition closes (e : ev) : option closing :=
  match e with
  | Ev c _ =>
      match c with
      | CUnlock n => Some (KUnlock n)
      | CReleaseSlot s => Some (KRelease s)
      | CRemoveAll d => Some (KRemove d)
      | CCloseSession => Some KSession
      | CStop p => Some (KStop p)
      | _ => None
      end
  end.

Definition claims (e : ev) : bool :=
  match e with
  | Ev c r => match c in call A return A + outcome -> bool with
              | CClaimRelay _ _ _ => fun r => match r with inl _ => true | inr _ => false end
              | _ => fun _ => false
              end r
  end.

Definition boots_build (e : ev) : bool :=
  match e with Ev c _ => match c with CStart vm _ _ _ => bool_decide (vm = "build") | _ => false end end.

(** The monitor's state: what is open, innermost first, and whether the relay
    has been claimed. *)
Abbreviation mstate := (list closing * bool)%type.

Inductive mstep (keep : bool) : mstate -> ev -> mstate -> Prop :=
  | m_plain ks b e : opens keep e = None -> (boots_build e = true -> b = true) -> mstep keep (ks, b) e (ks, b || claims e)
  | m_open ks b e k : opens keep e = Some k -> (boots_build e = true -> b = true) -> mstep keep (ks, b) e (k :: ks, b || claims e)
  | m_close ks b e k : closes e = Some k -> mstep keep (k :: ks, b) e (ks, b).

Lemma step_plain keep ks b e :
  opens keep e = None -> (boots_build e = true -> b = true) -> claims e = false -> mstep keep (ks, b) e (ks, b).
Proof. intros Ho Hb Hc. pose proof (m_plain keep ks b e Ho Hb) as H. by rewrite Hc, orb_false_r in H. Qed.

Lemma mstep_open keep ks b e k :
  opens keep e = Some k -> (boots_build e = true -> b = true) -> claims e = false -> mstep keep (ks, b) e (k :: ks, b).
Proof. intros Ho Hb Hc. pose proof (m_open keep ks b e k Ho Hb) as H. by rewrite Hc, orb_false_r in H. Qed.

Inductive monitored (keep : bool) : mstate -> list ev -> mstate -> Prop :=
  | mon_nil s : monitored keep s [] s
  | mon_cons s e s' l s'' : mstep keep s e s' -> monitored keep s' l s'' -> monitored keep s (e :: l) s''.

Lemma monitored_app keep s l s' l' s'' :
  monitored keep s l s' -> monitored keep s' l' s'' -> monitored keep s (l ++ l')%list s''.
Proof. induction 1; [done|]. intros. econstructor; eauto. Qed.

(** What was open is still open, or was closed. *)
Lemma monitored_kept keep s l s' : monitored keep s l s' ->
  forall k, k ∈ s.1 -> k ∈ s'.1 \/ exists e, e ∈ l /\ closes e = Some k.
Proof.
  induction 1 as [|s e s1 l s2 Hs _ IH]; intros k Hk; [by left|].
  assert (Hk1 : k ∈ s1.1 \/ closes e = Some k).
  { destruct Hs; cbn in *; [by left|left; by right|]. apply elem_of_cons in Hk as [->|]; [by right|by left]. }
  destruct Hk1 as [Hk1|]; [|right; exists e; split; [by left|done]].
  destruct (IH k Hk1) as [|(e' & ? & ?)]; [by left|right]. exists e'. split; [by right|done].
Qed.

(** What a call opened is closed by a later one. *)
Lemma monitored_closed keep s l l1 e l2 b k :
  monitored keep s l ([], b) -> l = (l1 ++ e :: l2)%list -> opens keep e = Some k -> closes e = None ->
  exists e', e' ∈ l2 /\ closes e' = Some k.
Proof.
  intros H. remember ([], b) as s' eqn:Es. revert l1. induction H as [s|s e1 s1 l s2 Hs Hm IH]; intros l1 Hl Ho Hc.
  - by destruct l1.
  - destruct l1 as [|e0 l1]; injection Hl as -> ->; [|by eapply IH]. subst s2.
    destruct Hs as [ks b' e Hn|ks b' e k' Hk'|ks b' e k' Hk']; [congruence| |congruence].
    assert (k' = k) as -> by congruence.
    destruct (monitored_kept _ _ _ _ Hm k) as [Hin|]; [by left|by apply elem_of_nil in Hin|done].
Qed.

(** ** Programs under the monitor *)
Section Programs.
Context (answer : forall A, trace -> call A -> A + outcome) (WorkRoot : string) (keep : bool).

Definition triple {A} (s : mstate) (m : M A) (Q : A -> mstate -> Prop) : Prop :=
  forall t, exists l s', (m t).1 = (t ++ l)%list /\ monitored keep s l s' /\ Q (m t).2 s'.

Lemma t_ret {A} s (a : A) (Q : A -> mstate -> Prop) : Q a s -> triple s (ret a) Q.
Proof using Type. intros H t. exists [], s. split_and!; [by rewrite app_nil_r|constructor|done]. Qed.

Lemma t_bind {A B} s (m : M A) (k : A -> M B) P (Q : B -> mstate -> Prop) :
  triple s m P -> (forall a s', P a s' -> triple s' (k a) Q) -> triple s (bind m k) Q.
Proof using Type.
  intros Hm Hk t. unfold bind. destruct (Hm t) as (l & s1 & Ht & Hl & HP). destruct (m t) as [t1 a]. cbn in *.
  destruct (Hk a s1 HP t1) as (l' & s2 & Ht' & Hl' & HQ). exists (l ++ l')%list, s2.
  split_and!; [by rewrite Ht', Ht, app_assoc|by eapply monitored_app|done].
Qed.

Lemma t_mono {A} s (m : M A) (P Q : A -> mstate -> Prop) : triple s m P -> (forall a s', P a s' -> Q a s') -> triple s m Q.
Proof using Type. intros H HPQ t. destruct (H t) as (l & s' & ? & ? & ?). exists l, s'. auto. Qed.

(** One call: it may be a plain one, open something or close the innermost. *)
Lemma t_do {A} s (c : call A) (Q : A + outcome -> mstate -> Prop) :
  (forall r, exists s', mstep keep s (Ev c r) s' /\ Q r s') -> triple s (do_ answer c) Q.
Proof using Type.
  intros H t. unfold do_. destruct (H (answer A t c)) as (s' & Hs & HQ). exists [Ev c (answer A t c)], s'.
  split_and!; [done| |done]. econstructor; [done|constructor].
Qed.

Definition plain_call {A} (c : call A) : Prop :=
  forall r, opens keep (Ev c r) = None /\ boots_build (Ev c r) = false /\ claims (Ev c r) = false.

Lemma t_plain {A} ks b (c : call A) : plain_call c -> triple (ks, b) (do_ answer c) (fun _ s => s = (ks, b)).
Proof using Type.
  intros H. apply t_do. intros r. destruct (H r) as (Ho & Hb & Hc). exists (ks, b). split; [|done].
  apply step_plain; [done| |done]. by rewrite Hb.
Qed.

Lemma t_close {A} k ks b (c : call A) :
  (forall r, closes (Ev c r) = Some k) -> triple (k :: ks, b) (ignore answer c) (fun _ s => s = (ks, b)).
Proof using Type.
  intros H. eapply t_bind; [apply t_do; intros r; exists (ks, b); split; [by apply m_close|exact (eq_refl : (fun (_ : A + outcome) s => s = (ks, b)) r _)]|].
  intros r s' ->. by apply t_ret.
Qed.

Lemma t_ignore {A} ks b (c : call A) : plain_call c -> triple (ks, b) (ignore answer c) (fun _ s => s = (ks, b)).
Proof using Type. intros H. eapply t_bind; [by apply t_plain|]. intros r s' ->. by apply t_ret. Qed.

Lemma t_andThen {A B} s (m : M (R A)) (k : A -> M (R B)) P (Q : R B -> mstate -> Prop) :
  triple s m P -> (forall a s', P (inl a) s' -> triple s' (k a) Q) -> (forall f s', P (inr f) s' -> Q (inr f) s') ->
  triple s (andThen m k) Q.
Proof using Type.
  intros Hm Hk Hf. eapply t_bind; [exact Hm|]. intros [a|f] s' HP; [by apply Hk|]. apply t_ret. by apply Hf.
Qed.

Lemma t_wrapped {A} ctx s (m : M (R A)) (Q : R A -> mstate -> Prop) :
  triple s m Q -> (forall f f' s', Q (inr f) s' -> Q (inr f') s') -> triple s (wrapped ctx m) Q.
Proof using Type.
  intros Hm HQ. eapply t_bind; [exact Hm|]. intros r s' HP. apply t_ret. destruct r as [a|[]]; eauto.
Qed.

(** *** The programs *)
#[local] Abbreviation do_ := (FcBuild.do_ answer).

Ltac plain := let r := fresh in intros r; destruct r; by split_and!.

(** Runs a plain call and goes on with its answer. *)
Lemma t_step {A B} ks b (c : call A) (k : A -> M (R B)) (Q : R B -> mstate -> Prop) :
  plain_call c -> (forall a, triple (ks, b) (k a) Q) -> (forall f, Q (inr f) (ks, b)) ->
  triple (ks, b) (andThen (do_ c) k) Q.
Proof using Type.
  intros Hc Hk Hf. eapply t_andThen; [by apply t_plain|by intros a s' ->|by intros f s' ->].
Qed.

Lemma t_wstep {A B} ctx ks b (c : call A) (k : A -> M (R B)) (Q : R B -> mstate -> Prop) :
  plain_call c -> (forall a, triple (ks, b) (k a) Q) -> (forall f, Q (inr f) (ks, b)) ->
  triple (ks, b) (andThen (wrapped ctx (do_ c)) k) Q.
Proof using Type.
  intros Hc Hk Hf. eapply t_andThen; [apply t_wrapped; [by apply t_plain|done]|by intros a s' ->|by intros f s' ->].
Qed.

Definition opt_remove (d : option string) : list closing :=
  match d with Some dir => if keep then [] else [KRemove dir] | None => [] end.

Lemma t_remove d ks b : triple ((opt_remove d ++ ks)%list, b) (remove_rootfs answer d) (fun _ s => s = (ks, b)).
Proof using Type.
  destruct d as [dir|]; cbn [opt_remove remove_rootfs app]; [|by apply t_ret].
  destruct keep; cbn [app]; [apply t_ignore; plain|by apply t_close].
Qed.

(** After a failed delivery step: the directory may not have been made. *)
Definition maybe_made (dir : string) (ks : list closing) (b : bool) (s : mstate) : Prop :=
  s = ((opt_remove (Some dir) ++ ks)%list, b) \/ s = (ks, b).

Lemma t_remove_maybe dir ks b s : maybe_made dir ks b s -> triple s (remove_rootfs answer (Some dir)) (fun _ s => s = (ks, b)).
Proof using Type. intros [->| ->]; [apply t_remove|apply t_ignore; plain]. Qed.

Lemma t_write_cmdline work bt d ks b :
  triple ((opt_remove d ++ ks)%list, b) (write_cmdline answer work bt d)
    (fun r s => match r with inl dl => rootfsDir dl = d /\ s = ((opt_remove d ++ ks)%list, b) | inr _ => s = (ks, b) end).
Proof using Type.
  eapply t_bind; [apply t_plain; plain|]. intros [u|f] s' ->; [by apply t_ret|].
  eapply t_bind; [apply t_remove|]. intros _ s' ->. by apply t_ret.
Qed.

Lemma t_diskPath_in dir raw u kern work ks b :
  triple (ks, b) (diskPath_in answer dir raw u kern work)
    (fun r s => match r with inl _ => s = ((opt_remove (Some dir) ++ ks)%list, b) | inr _ => maybe_made dir ks b s end).
Proof using Type.
  unfold diskPath_in. eapply (t_andThen _ _ _ (fun r s => s = (match r with inl _ => (opt_remove (Some dir) ++ ks)%list | inr _ => ks end, b))).
  - apply t_do. intros [x|f].
    + eexists. split; [|done]. cbn [opt_remove]. destruct keep; cbn [app]; [by apply step_plain|by apply mstep_open].
    + eexists. split; [|done]. by apply step_plain.
  - intros _ s' ->. repeat (apply t_wstep; [plain|intros ?|intros ?; by left]). by apply t_ret.
  - intros f s' ->. by right.
Qed.

Lemma t_deliver pre image work id l ks b :
  triple (ks, b) (deliver answer WorkRoot pre image work id l)
    (fun r s => match r with inl dl => s = ((opt_remove (rootfsDir dl) ++ ks)%list, b) | inr _ => s = (ks, b) end).
Proof using Type.
  unfold deliver. destruct (decide (image = "")).
  - eapply (t_andThen _ _ _ (fun _ s => s = (ks, b))); [|intros bt s' ->|done].
    + unfold directBoot. apply t_step; [plain|intros agent|done]. apply t_wstep; [plain|intros ?|done]. by apply t_ret.
    + eapply t_mono; [apply (t_write_cmdline _ _ None)|]. intros [dl|f] s' H; [|done]. by destruct H as [-> ->].
  - apply t_step; [plain|intros raw|done]. apply t_step; [plain|intros u|done].
    eapply t_bind; [apply t_diskPath_in|]. intros [bt|f] s' H.
    + subst s'. eapply t_mono; [apply t_write_cmdline|]. intros [dl|f] s' H; [|done]. by destruct H as [-> ->].
    + eapply t_bind; [by apply t_remove_maybe|]. intros _ s'' ->. by apply t_ret.
Qed.

Lemma t_or_remove {A B} d ctx (c : call A) (k : A -> M (R B)) ks b (Q : R B -> mstate -> Prop) :
  plain_call c -> (forall a, triple ((opt_remove (rootfsDir d) ++ ks)%list, b) (k a) Q) -> (forall f, Q (inr f) (ks, b)) ->
  triple ((opt_remove (rootfsDir d) ++ ks)%list, b) (or_remove answer d (wrapped ctx (do_ c)) k) Q.
Proof using Type.
  intros Hc Hk Hf. eapply t_bind; [apply t_wrapped; [by apply t_plain|done]|]. intros [a|f] s' ->; [apply Hk|].
  eapply t_bind; [apply t_remove|]. intros _ s' ->. by apply t_ret.
Qed.

Lemma t_stage req pre work out id ks b :
  triple (ks, b) (stage answer WorkRoot req pre work out id)
    (fun r s => match r with inl st => s = ((opt_remove (rootfsDir (dlv st)) ++ ks)%list, b) | inr _ => s = (ks, b) end).
Proof using Type.
  unfold stage. apply t_wstep; [plain|intros scr|done]. apply t_wstep; [plain|intros ?|done].
  apply t_step; [plain|intros image|done].
  eapply (t_andThen _ _ _ (fun _ s => s = (ks, b))); [destruct (decide _); apply t_plain; plain|intros ? s' ->|done].
  eapply t_andThen; [apply t_deliver|intros d s' ->|done].
  apply t_or_remove; [plain|intros e|done]. apply t_or_remove; [plain|intros initrd|done]. by apply t_ret.
Qed.

(** *** The VMs *)
Definition vm_open (v : option vmmRecord) : list closing :=
  match v with Some v => if keep then [] else [KStop (pid v)] | None => [] end.

Lemma t_vmFailure {A} e vm ks b : triple (ks, b) (vmFailure (A := A) answer e vm) (fun r s => s = (ks, b) /\ exists f, r = inr f).
Proof using Type.
  eapply t_bind; [apply t_plain; plain|]. intros r s' ->. apply t_ret. split; [done|]. by eexists.
Qed.

(** The build VM may only be started on a claimed relay. *)
Lemma t_startVMM work vm cfg ks b : (vm = "build" -> b = true) ->
  triple (ks, b) (startVMM answer work vm cfg keep)
    (fun r s => s = ((vm_open (match r with inl v => Some v | inr _ => None end) ++ ks)%list, b)).
Proof using Type.
  intros Hb. unfold startVMM. cbn zeta. apply t_step; [plain|intros u1|done]. apply t_step; [plain|intros bin|done].
  apply t_step; [plain|intros u2|done]. eapply (t_andThen _ _ _
    (fun r s => s = (match r with inl p => if keep then ks else KStop p :: ks | inr _ => ks end, b))).
  - apply t_wrapped; [|done]. apply t_do. intros r. eexists. split; [|done].
    assert (Hv : boots_build (Ev (CStart vm bin (Join work (vm ++ ".json")) keep) r) = true -> b = true) by (cbn; rewrite bool_decide_eq_true; done).
    destruct r as [p|f]; [destruct keep|]; [by apply step_plain|by apply mstep_open|by apply step_plain].
  - intros p s' ->. eapply t_bind; [apply t_wrapped; [apply t_plain; plain|done]|]. intros [r|f] s' ->.
    + apply t_ret. cbn [vm_open pid]. by destruct keep.
    + eapply (t_bind _ _ _ (fun _ s => s = (ks, b))).
      * destruct keep; [apply t_ignore; plain|by apply t_close].
      * intros _ s' ->. eapply t_bind; [apply t_plain; plain|]. intros ? s' ->. by apply t_ret.
  - intros f s' ->. done.
Qed.

Lemma t_stop v ks b : triple ((vm_open v ++ ks)%list, b) (stop_vm answer v) (fun _ s => s = (ks, b)).
Proof using Type.
  destruct v as [v|]; cbn [vm_open stop_vm app]; [|by apply t_ret].
  destruct keep; cbn [app]; [apply t_ignore; plain|by apply t_close].
Qed.

Lemma t_startRelay req work sl pre initrd e ks : KeepVMs req = keep ->
  triple (ks, false) (startRelay answer req work sl pre initrd e)
    (fun r s => exists b, s = ((vm_open r.1 ++ ks)%list, b) /\ (forall u, r.2 = inl u -> b = true /\ is_Some r.1)).
Proof using Type.
  intros Hk. unfold startRelay. eapply t_bind; [apply t_plain; plain|]. intros [tok|f] s' ->.
  2:{ apply t_ret. by exists false. }
  eapply t_bind; [rewrite Hk; by apply t_startVMM|]. intros [v|f] s' ->; [|apply t_ret; by exists false].
  set (ks' := (vm_open (Some v) ++ ks)%list).
  eapply (t_bind _ _ _ (fun r s => exists b, s = (ks', b) /\ forall u, r = inl u -> b = true)).
  - eapply t_bind; [apply t_plain; plain|]. intros [u|f] s' ->; [|apply t_ret; by exists false].
    eapply (t_bind _ _ _ (fun r s => s = (ks', match r with inl _ => true | inr _ => false end))).
    + apply t_do. intros r. eexists. split; [|done].
      pose proof (m_plain keep ks' false (Ev (CClaimRelay (Slots.ClaimAddr sl) tok e) r) eq_refl ltac:(done)) as H.
      by destruct r.
    + intros [u'|f] s' ->; [apply t_ret; by exists true|].
      eapply t_bind; [apply t_plain; plain|]. intros x s' ->.
      assert (Hr : triple (ks', false) (ret (inr f)) (fun (r : R unit) s => exists b, s = (ks', b) /\ forall u, r = inl u -> b = true))
        by (apply t_ret; by exists false).
      destruct x as [ [|]|g]; [|exact Hr|exact Hr]. eapply t_mono; [apply t_vmFailure|].
      intros r s' [-> [g ->] ]. by exists false.
  - intros r s' (b & -> & Hb). apply t_ret. exists b. split; [done|]. intros u Hu. split; [by eapply Hb|done].
Qed.

Lemma t_startBuild req work sl bt rel ks : KeepVMs req = keep ->
  triple (ks, true) (startBuild answer req work sl bt rel) (fun r s => s = ((vm_open r.1 ++ ks)%list, true)).
Proof using Type.
  intros Hk. eapply t_bind; [rewrite Hk; by apply t_startVMM|]. intros [v|f] s' ->; [|by apply t_ret].
  eapply t_bind; [apply t_plain; plain|]. intros r s' ->. by apply t_ret.
Qed.

Lemma t_wait bv rv ks b : triple (ks, b) (wait answer bv rv) (fun _ s => s = (ks, b)).
Proof using Type.
  unfold wait. apply t_step; [plain|intros o|done]. destruct o as [| | |e]; try by apply t_ret.
  destruct (errors_Is e _); [|destruct (errors_Is e _); [|by apply t_ret] ];
    (eapply t_mono; [apply t_vmFailure|by intros ? ? [-> _]]).
Qed.

Lemma t_teardown req sl rel bld ks b : KeepVMs req = keep ->
  triple ((vm_open bld ++ vm_open rel ++ ks)%list, b) (teardown answer req sl (mkVms rel bld)) (fun _ s => s = (ks, b)).
Proof using Type.
  intros Hk. unfold teardown. rewrite Hk.
  pose proof (t_stop bld (vm_open rel ++ ks)%list b) as Hb. pose proof (t_stop rel ks b) as Hr.
  assert (Hkept : keep = true -> ((vm_open bld ++ vm_open rel ++ ks)%list, b) = (ks, b)).
  { unfold vm_open. intros ->. by destruct bld, rel. }
  destruct keep; [apply t_ret; auto|].
  cbn [relay build]. eapply t_bind; [exact Hb|]. intros _ s' ->. eapply t_bind; [exact Hr|]. intros _ s' ->.
  apply t_ignore; plain.
Qed.

Definition back_to (ks : list closing) {A} (_ : A) (s : mstate) : Prop := exists b, s = (ks, b).

Lemma t_run_vms req work sl pre st ks : KeepVMs req = keep ->
  triple (ks, false) (run_vms answer req work sl pre st) (back_to ks).
Proof using Type.
  intros Hk. eapply t_bind; [by apply t_startRelay|]. intros [rel r] s' (b & -> & Hr). cbn [fst snd] in *.
  destruct r as [u|f].
  - destruct (Hr u eq_refl) as [-> [v ->] ]. eapply t_bind; [by apply t_startBuild|]. intros [bld r] s' ->. cbn [fst].
    eapply (t_bind _ _ _ (fun _ s => s = ((vm_open bld ++ vm_open (Some v) ++ ks)%list, true))).
    + destruct r as [u'|f]; [destruct bld as [bv|]|]; [apply t_wait|by apply t_ret|by apply t_ret].
    + intros res s' ->. eapply t_bind; [by apply t_teardown|]. intros _ s' ->. apply t_ret. by exists true.
  - eapply t_bind; [by apply (t_teardown req sl rel None ks b)|]. intros _ s' ->. apply t_ret. by exists b.
Qed.

(** A deferred removal, which --keep-vms leaves out. *)
Lemma t_cleanup {A} s o ks (fin : M unit) (body : M A) :
  triple s body (back_to (o ++ ks)%list) -> (forall b, triple ((o ++ ks)%list, b) fin (fun _ s => s = (ks, b))) ->
  triple s (deferred fin body) (back_to ks).
Proof using Type.
  intros Hb Hf. eapply t_bind; [exact Hb|]. intros a s' [b ->]. eapply t_bind; [apply Hf|].
  intros _ s' ->. apply t_ret. by exists b.
Qed.

(** *** StartBuild *)
Lemma t_in_session req sl pre out work st ks : KeepVMs req = keep ->
  triple (ks, false) (in_session answer req sl pre out work st) (back_to ks).
Proof using Type.
  intros Hk. unfold in_session. eapply (t_andThen _ _ _ (fun r s => s = (match r with inl _ => KSession :: ks | inr _ => ks end, false))).
  - apply t_do. intros [u|f]; (eexists; split; [|done]); [by apply mstep_open|by apply step_plain].
  - intros _ s' ->. eapply (t_cleanup _ [KSession]); [|intros b; by apply t_close].
    eapply (t_andThen _ _ _ (back_to (KSession :: ks))); [by apply t_run_vms|intros ? s' [b ->]|intros f s' [b ->] ].
    + apply t_step; [plain|intros ?; apply t_ret; by exists b|intros ?; by exists b].
    + by exists b.
  - intros f s' ->. by exists false.
Qed.

Lemma t_in_workdir req sl pre out work id ks : KeepVMs req = keep ->
  triple (ks, false) (in_workdir answer WorkRoot req sl pre out work id) (back_to ks).
Proof using Type.
  intros Hk. unfold in_workdir. eapply t_andThen; [apply t_stage|intros st s' ->|intros f s' ->; by exists false].
  eapply t_cleanup; [by apply t_in_session|]. intros b. rewrite Hk.
  pose proof (t_remove (rootfsDir (dlv st)) ks b) as H.
  assert (Hkept : keep = true -> ((opt_remove (rootfsDir (dlv st)) ++ ks)%list, b) = (ks, b)).
  { unfold opt_remove. intros ->. by destruct (rootfsDir _). }
  destruct keep; [apply t_ret; auto|exact H].
Qed.

Lemma t_on_slot req sl pre id ks : KeepVMs req = keep ->
  triple (ks, false) (on_slot answer WorkRoot req sl pre id) (back_to ks).
Proof using Type.
  intros Hk. unfold on_slot.
  assert (Hd : forall d, plain_call (CMkdirAll d 493)) by (intros d [|]; split_and!; try done; cbn; by rewrite orb_true_r).
  assert (Hf : forall f : outcome, back_to ks (inr f : R string) (ks, false)) by (intros f; by exists false).
  apply t_wstep; [apply Hd|intros u|apply Hf].
  eapply (t_andThen _ _ _ (fun _ s => s = (ks, false))); [|intros u' s' ->|by intros f s' ->].
  { destruct (decide _); [by apply t_ret|]. eapply t_wrapped; [by apply t_plain|done]. }
  eapply (t_andThen _ _ _ (fun r s => s = (match r with inl d => ((if keep then [] else [KRemove d]) ++ ks)%list | inr _ => ks end, false)));
    [|intros d s' ->|by intros f s' ->].
  - apply t_wrapped; [|done]. apply t_do. intros [d|f]; (eexists; split; [|done]); [|by apply step_plain].
    destruct keep; [by apply step_plain|by apply mstep_open].
  - eapply t_cleanup; [by apply t_in_workdir|]. intros b. rewrite Hk. destruct keep; cbn [negb when_ app]; [by apply t_ret|by apply t_close].
Qed.

Lemma t_StartBuild req : KeepVMs req = keep -> triple ([], false) (StartBuild answer WorkRoot req) (back_to []).
Proof using Type.
  intros Hk. unfold StartBuild. destruct (_ && _); [apply t_ret; by exists false|].
  assert (Hf : forall f : outcome, back_to [] (inr f : R string) ([], false)) by (intros f; by exists false).
  apply t_step; [plain|intros pre|done]. apply t_step; [plain|intros u|done]. apply t_step; [plain|intros id|done].
  eapply (t_andThen _ _ _ (fun r s => s = (match r with inl _ => [KUnlock (build_lock id)] | inr _ => [] end, false)));
    [|intros u' s' ->|by intros f s' ->].
  { apply t_do. intros [x|f]; (eexists; split; [|done]); [by apply mstep_open|by apply step_plain]. }
  eapply (t_cleanup _ [KUnlock (build_lock id)]); [|intros b; by apply t_close].
  eapply (t_andThen _ _ _ (fun r s => s = (match r with inl sl => [KRelease sl; KUnlock (build_lock id)] | inr _ => [KUnlock (build_lock id)] end, false)));
    [|intros sl s' ->|intros f s' ->; by exists false].
  { apply t_do. intros [x|f]; (eexists; split; [|done]); [by apply mstep_open|by apply step_plain]. }
  eapply (t_cleanup _ [KRelease sl]); [by apply t_on_slot|intros b; by apply t_close].
Qed.
End Programs.

(** ** The theorems *)

(** C30.  Whatever every call answers, a build's calls close what they open in the
    reverse order: its locks, its slot, its session and, unless --keep-vms
    keeps them, its VMs, work dir and rootfs copy, so the slot is released only
    after the VMs on it were stopped; and no build VM is started before the
    relay has been claimed. *)
Theorem build_leaves_nothing (answer : forall A, trace -> call A -> A + outcome) (WorkRoot : string) (req : request) (t : trace) :
  exists l b, (StartBuild answer WorkRoot req t).1 = (t ++ l)%list /\ monitored (KeepVMs req) ([], false) l ([], b) /\
    forall l1 e l2 k, l = (l1 ++ e :: l2)%list -> opens (KeepVMs req) e = Some k -> exists e', e' ∈ l2 /\ closes e' = Some k.
Proof.
  destruct (t_StartBuild answer WorkRoot (KeepVMs req) req eq_refl t) as (l & s & Ht & Hm & [b ->]).
  exists l, b. split_and!; [done..|]. intros l1 e l2 k Hl Ho. eapply monitored_closed; [done..|].
  destruct e as [A c r]. by destruct c, r.
Qed.
End FcBuildSpec.

(** ** Waiting *)
Module WaitSpec.
Import Session.Session WaitBuild.

Definition is_exit (o : outcome) : bool := match o with Success | ExitError _ _ => true | _ => false end.

(** Why the wait was stopped by what was received before its result. *)
Definition stopped_by (evs : list event) : option error :=
  if existsb (fun e => match e with GraceEnd => true | _ => false end) evs then Some errBuildVMExited
  else if existsb (fun e => match e with RelayExited => true | _ => false end) evs then Some errRelayVMExited
  else None.

Definition not_done (e : event) : Prop := match e with Done _ _ => False | _ => True end.

Definition cause_after (c : option error) (evs : list event) : option error :=
  if existsb (fun e => match e with GraceEnd => true | _ => false end) evs then Some errBuildVMExited
  else match c with
       | Some c => Some c
       | None => if existsb (fun e => match e with RelayExited => true | _ => false end) evs then Some errRelayVMExited else None
       end.

(** The channels that can still be received from, and what follows them. *)
Definition left (s : state) : nat :=
  (if buildExited s then 2 else 0) + (if graceEnd s then 1 else 0) + (if relayExited s then 1 else 0).

Lemma wait_step_other s e s' : step s e = Some (inl s') -> not_done e ->
  (forall evs, cause_after (cause s') evs = cause_after (cause s) (e :: evs)) /\ (left s' < left s)%nat /\
  (e = GraceEnd -> graceEnd s = true) /\ (graceEnd s' = true -> graceEnd s = true \/ e = BuildExited).
Proof.
  destruct e as [o d| | |]; cbn [step]; [done|..]; destruct s as [ [] [] [] c cl]; cbn; intros H _; simplify_eq;
    (split_and!; [intros evs; unfold cause_after; cbn; by repeat (destruct (existsb _ evs); try destruct c)|cbn; lia|done|auto]).
Qed.

Lemma waitBuild_cons s e evs r : waitBuild s (e :: evs) = Some r -> not_done e ->
  exists s', step s e = Some (inl s') /\ waitBuild s' evs = Some r.
Proof.
  intros H Hn. cbn [waitBuild] in H. destruct (step s e) as [ [s'|o]|] eqn:E; [by exists s'| |done].
  destruct e as [o' d| | |]; [done|..]; cbn [step] in E; by destruct (_ s).
Qed.

Lemma waitBuild_result o ended : forall evs s r,
  Forall not_done evs -> waitBuild s (evs ++ [Done o ended]) = Some r ->
  r = (if is_exit o || ended then o else match cause_after (cause s) evs with Some c => Failure c | None => o end) /\
  (length evs <= left s)%nat.
Proof.
  induction evs as [|e evs IH]; intros s r Hn H.
  - cbn [app waitBuild step] in H. unfold cause_after. cbn [existsb length].
    split; [|lia]. destruct o, (cause s), ended; cbn in H |- *; congruence.
  - apply Forall_cons in Hn as [He Hn]. destruct (waitBuild_cons _ _ _ _ H He) as (s' & Hs & H').
    destruct (wait_step_other _ _ _ Hs He) as (Hc & Hl & _). destruct (IH _ _ Hn H') as [-> Hlen]. rewrite Hc.
    split; [done|]. cbn [length]. lia.
Qed.

Lemma grace_after_exit : forall a s b r,
  Forall not_done a -> graceEnd s = false -> waitBuild s (a ++ GraceEnd :: b) = Some r -> BuildExited ∈ a.
Proof.
  induction a as [|e a IH]; intros s b r Hn Hg H; cbn [app] in H.
  - cbn [waitBuild step] in H. by rewrite Hg in H.
  - apply Forall_cons in Hn as [He Hn]. destruct (waitBuild_cons _ _ _ _ H He) as (s' & Hs & H').
    destruct (wait_step_other _ _ _ Hs He) as (_ & _ & _ & Hg'). destruct (graceEnd s') eqn:E.
    + destruct (Hg' eq_refl) as [| ->]; [congruence|by left].
    + right. by eapply IH.
Qed.

(** Whatever the select receives and in whatever order, the loop makes at
    most four passes before the wait's result decides: a completion and a nonzero
    exit are returned as they are, as is anything after the build's own context
    ended; else the build fails for the VM whose exit stopped the wait, the
    build VM's only after its exit and the grace, and the relay's only if the
    build VM's grace did not run out; and for the wait's own error when neither did. *)
Theorem waitBuild_exact (evs : list event) (o : outcome) (ended : bool) (r : outcome) :
  Forall not_done evs -> waitBuild init (evs ++ [Done o ended]) = Some r ->
  r = (if is_exit o || ended then o else match stopped_by evs with Some c => Failure c | None => o end) /\
  (length evs <= 3)%nat /\ (forall a b, evs = (a ++ GraceEnd :: b)%list -> BuildExited ∈ a).
Proof.
  intros Hn H. destruct (waitBuild_result _ _ _ _ _ Hn H) as [Hr Hl]. split_and!; [exact Hr|exact Hl|].
  intros a b ->. rewrite <- app_assoc in H. apply Forall_app in Hn as [Hn _]. by eapply grace_after_exit in H.
Qed.
End WaitSpec.

Module FcBuildExamples.
Import Session.Session WaitBuild WaitSpec Pids FcVm FcBuild FcBuildSpec.

(** A completion that lands within the grace wins, and one that never comes is
    the build VM's failure. *)
Lemma waitBuild_exact_witness :
  waitBuild init [BuildExited; GraceEnd; Done (Failure (Msg "context canceled")) false] = Some (Failure errBuildVMExited) /\
  Failure errBuildVMExited = match stopped_by [BuildExited; GraceEnd] with Some c => Failure c | None => Success end.
Proof.
  split; [reflexivity|].
  apply (proj1 (waitBuild_exact [BuildExited; GraceEnd] (Failure (Msg "context canceled")) false (Failure errBuildVMExited)
    ltac:(repeat constructor) eq_refl)).
Defined.

Example raced : waitBuild init [BuildExited; GraceEnd; Done (ExitError 3 "x") false] = Some (ExitError 3 "x").
Proof. reflexivity. Qed.
Example relay_first : waitBuild init [RelayExited; BuildExited; Done (Failure (Msg "canceled")) false] = Some (Failure errRelayVMExited).
Proof. reflexivity. Qed.

(** A machine on which everything works, but the build VM cannot be recorded
    when [bad] says so. *)
Definition ex_answer (bad : string) : forall A, FcBuild.trace -> call A -> A + outcome :=
  fun A _ c =>
    match c in call A return A + outcome with
    | CPreflight => inl (mkPre "vmlinux" "relay.img" "init.img" [0; 1] ["9.9.9.9"])
    | CRandAlphaNum _ => inl "abcd1234" | CMkdirTemp d p => inl (d ++ "/" ++ p ++ "1")
    | CStageBuildScript _ => inl "s" | CContainerfileImage => inl "disk.qcow2" | CEnsureRaw _ => inl "raw" | CRootPartUUID _ => inl "u"
    | CSeed _ => inl "seed" | CGuestBinary n => inl n | CDescribe _ _ => inl "env" | CRelayInitrd _ _ => inl "initrd"
    | CRandomToken => inl "tok" | CConsoleTail _ => inl "" | CWriteConfig _ _ => inl tt | CLookPath n => inl n | COpenConsole _ => inl tt | CAcquireSlot _ => inl 1
    | CStart vm _ _ _ => inl (if decide (vm = "relay") then 101 else 102)
    | CProcessRecord p k => if (p =? 102) && negb (bool_decide (bad = "")) then inr (Failure (Msg bad)) else inl (mkVmm p 7 "fc" k)
    | CExited _ => inl false | CWait _ _ => inl Success
    | CCheckHostLink => inl tt | CHostLock _ => inl tt | CUnlock _ => inl tt | CReleaseSlot _ => inl tt
    | CMkdirAll _ _ => inl tt | CRemoveAll _ => inl tt | CRecordInputs _ _ => inl tt | CCheckDiskTools => inl tt
    | CLauncherCheck => inl tt | CCopy _ _ => inl tt | CSeedISO _ _ => inl tt | CAppendFileCPIO _ _ _ _ => inl tt
    | CWriteFile _ _ => inl tt | CStartSession _ _ => inl tt | CCloseSession => inl tt | CStop _ => inl tt
    | CWritePidFile _ _ => inl tt | CRemovePidFile _ => inl tt | CClaimRelay _ _ _ => inl tt | CFinalizeOutput _ => inl tt
    end.

Definition ex_req : request := mkRequest "" false "" "/t" 0 0 BuildLink.BuildLink.Default.
Definition undo (t : FcBuild.trace) : list closing := omap closes t.

Example built : let '(t, r) := StartBuild (ex_answer "") "/w" ex_req [] in
  r = inl "warden-output" /\
  undo t = [KStop 102; KStop 101; KSession; KRemove "/w/abcd1234"; KRemove "/t/warden-firecracker-abcd1234-1"; KRelease 1;
            KUnlock "firecracker-build-abcd1234"].
Proof. vm_compute. done. Qed.

Example not_recorded : let '(t, r) := StartBuild (ex_answer "no /proc") "/w" ex_req [] in
  r = inr (Failure (Wrap "starting the build VM: recording its process" (Msg "no /proc"))) /\
  undo t = [KStop 102; KStop 101; KSession; KRemove "/w/abcd1234"; KRemove "/t/warden-firecracker-abcd1234-1"; KRelease 1;
            KUnlock "firecracker-build-abcd1234"].
Proof. vm_compute. done. Qed.
End FcBuildExamples.
