(* ===== verification/Creds.v ===== *)
(** * Locking as another user (src/driver/firecracker/slots_linux.go)

    Setup, which runs as root, takes the slots' locks as their owner: a thread
    takes the owner's filesystem identity, opens the lock and takes its own
    identity back before anything else may run on it. *)
From S2P Require Import Prelude Text.

#[local] Open Scope string_scope.
#[local] Open Scope Z_scope.

(** The calls that change a thread's filesystem identity.  [setfsuid] and
    [setfsgid] return the id the thread had. *)
Class Thread (T : Type) := {
  Geteuid : T -> Z;
  Getegid : T -> Z;
  Getgroups : T -> result (list Z);
  Setgroups : T -> list Z -> T * option error;
  SetfsuidRetUid : T -> Z -> T * Z;
  SetfsgidRetGid : T -> Z -> T * Z;
  (** [openLockAs]: the lock file, true when another process holds it. *)
  openLockAs : T -> string -> T * result bool;
  closeLock : T -> string -> T }.

(** The identity a thread has for files. *)
Record identity := mkIdentity { fsuid : Z; fsgid : Z; fsgroups : list Z }.

Class ThreadView (T : Type) := { ident : T -> identity; opened_as : T -> list identity }.

(** setfsuid(2): it returns the previous id, and fails only by not changing
    it; nothing else changes an identity, and an open is made under the one the
    thread has. *)
Class ThreadLaws (T : Type) `{Thread T, ThreadView T} := {
  getgroups_ok t g : Getgroups t = Ok g -> g = fsgroups (ident t);
  setgroups_ident t g : ident (Setgroups t g).1 =
    match (Setgroups t g).2 with None => mkIdentity (fsuid (ident t)) (fsgid (ident t)) g | Some _ => ident t end;
  setfsuid_prev t i : (SetfsuidRetUid t i).2 = fsuid (ident t);
  setfsuid_ident t i : ident (SetfsuidRetUid t i).1 = ident t \/
    ident (SetfsuidRetUid t i).1 = mkIdentity i (fsgid (ident t)) (fsgroups (ident t));
  setfsgid_prev t i : (SetfsgidRetGid t i).2 = fsgid (ident t);
  setfsgid_ident t i : ident (SetfsgidRetGid t i).1 = ident t \/
    ident (SetfsgidRetGid t i).1 = mkIdentity (fsuid (ident t)) i (fsgroups (ident t));
  open_ident t p : ident (openLockAs t p).1 = ident t;
  close_ident t p : ident (closeLock t p) = ident t;
  opened_open t p : opened_as (openLockAs t p).1 = (opened_as t ++ [ident t])%list;
  opened_close t p : opened_as (closeLock t p) = opened_as t;
  opened_setgroups t g : opened_as (Setgroups t g).1 = opened_as t;
  opened_setfsuid t i : opened_as (SetfsuidRetUid t i).1 = opened_as t;
  opened_setfsgid t i : opened_as (SetfsgidRetGid t i).1 = opened_as t }.

Module Creds.
Record cred := mkCred { uid : Z; gid : Z; groups : list Z }.

Section Creds.
Context {T : Type} {TH : Thread T}.

(** [setFsuid], [setFsgid]: set, then read back by a second call. *)
Definition setFsuid (t : T) (id : Z) : T * option error :=
  let '(t, _) := SetfsuidRetUid t id in
  let '(t, prev) := SetfsuidRetUid t id in
  (t, if prev =? id then None else Some (Errorf "fsuid is %d" [Itoa prev])).
Definition setFsgid (t : T) (id : Z) : T * option error :=
  let '(t, _) := SetfsgidRetGid t id in
  let '(t, prev) := SetfsgidRetGid t id in
  (t, if prev =? id then None else Some (Errorf "fsgid is %d" [Itoa prev])).

Definition wrap_opt (ctx : string) (e : option error) : option error := Wrap ctx <$> e.

(** [if err := m; err != nil { return err }; k] *)
Definition seq (m : T * option error) (ctx : string) (k : T -> T * option error) : T * option error :=
  match m with
  | (t, Some e) => (t, Some (Wrap ctx e))
  | (t, None) => k t
  end.

(** What the closure [restore] does: nothing, or gives back the ids and groups
    the thread had. *)
Inductive restorer := RestoreNothing | RestoreTo (fsuid fsgid : Z) (groups : list Z).

Definition restore (t : T) (r : restorer) : T * option error :=
  match r with
  | RestoreNothing => (t, None)
  | RestoreTo u g gs =>
      seq (setFsuid t u) "restoring uid" (fun t =>
      seq (setFsgid t g) "restoring gid" (fun t =>
      seq (Setgroups t gs) "restoring groups" (fun t =>
      match Getgroups t with
      | Err e => (t, Some (Wrap "reading groups back" e))
      | Ok got => if decide (got = gs) then (t, None) else (t, Some (Msg "restoring groups"))
      end)))
  end.

(** [switchCreds] *)
Definition switchCreds (t : T) (c : cred) : T * (restorer * option error) :=
  if Geteuid t =? uid c then (t, (RestoreNothing, None))
  else
    match Getgroups t with
    | Err e => (t, (RestoreNothing, Some (Wrap "reading groups" e)))
    | Ok gs =>
        let r := RestoreTo (Geteuid t) (Getegid t) gs in
        let '(t, e) :=
          seq (Setgroups t (groups c)) "taking groups" (fun t =>
          seq (setFsgid t (gid c)) "taking gid" (fun t =>
          seq (setFsuid t (uid c)) "taking uid" (fun t => (t, None)))) in
        (t, (r, e))
    end.

(** The goroutine of [lockAs], on a locked OS thread: its result, and whether
    it unlocks the thread for other goroutines to run on. *)
Definition lockAs (t : T) (c : cred) (path : string) : T * result bool * bool :=
  let '(t, (r, e)) := switchCreds t c in
  let '(t, res) := match e with None => openLockAs t path | Some e => (t, Err e) end in
  match restore t r with
  | (t, Some e) =>
      let t := match res with Ok false => closeLock t path | _ => t end in
      (t, Err (match res with Err e' => Wrap2 "join" e' e | Ok _ => e end), false)
  | (t, None) => (t, res, true)
  end.
End Creds.

(** ** What it guarantees *)
Section Spec.
Context {T : Type} {TH : Thread T} {TV : ThreadView T} {TL : ThreadLaws T}.

(** A set and its read-back, on either id. *)
Ltac set_twice prev ids opened set :=
  match goal with |- context [set ?t ?i] =>
    let H1 := fresh in let O1 := fresh in let P2 := fresh in let H2 := fresh in let O2 := fresh in let He := fresh in
    let t1 := fresh "t1" in let t2 := fresh "t2" in let p2 := fresh "p" in let E := fresh in
    pose proof (ids t i) as H1; pose proof (opened t i) as O1; destruct (set t i) as [t1 ?]; cbn [fst snd] in *;
    pose proof (prev t1 i) as P2; pose proof (ids t1 i) as H2; pose proof (opened t1 i) as O2;
    destruct (set t1 i) as [t2 p2]; cbn [fst snd] in *; destruct (Z.eqb_spec p2 i) as [He|]; [|done]; intros [= <-];
    split; [|congruence]; rewrite He in P2;
    destruct H1 as [H1|H1], H2 as [H2|H2]; rewrite H2, ?H1 in *; cbn [fsuid fsgid fsgroups] in *; rewrite ?P2; by destruct (ident t)
  end.

Lemma setFsuid_ok t i t' : setFsuid t i = (t', None) ->
  ident t' = mkIdentity i (fsgid (ident t)) (fsgroups (ident t)) /\ opened_as t' = opened_as t.
Proof using TL. unfold setFsuid. set_twice setfsuid_prev setfsuid_ident opened_setfsuid (@SetfsuidRetUid T TH). Qed.

Lemma setFsgid_ok t i t' : setFsgid t i = (t', None) ->
  ident t' = mkIdentity (fsuid (ident t)) i (fsgroups (ident t)) /\ opened_as t' = opened_as t.
Proof using TL. unfold setFsgid. set_twice setfsgid_prev setfsgid_ident opened_setfsgid (@SetfsgidRetGid T TH). Qed.

Lemma opened_setFsuid t i : opened_as (setFsuid t i).1 = opened_as t.
Proof using TL.
  unfold setFsuid. pose proof (opened_setfsuid t i). destruct (SetfsuidRetUid t i) as [t1 ?]. pose proof (opened_setfsuid t1 i).
  destruct (SetfsuidRetUid t1 i). cbn in *. congruence.
Qed.
Lemma opened_setFsgid t i : opened_as (setFsgid t i).1 = opened_as t.
Proof using TL.
  unfold setFsgid. pose proof (opened_setfsgid t i). destruct (SetfsgidRetGid t i) as [t1 ?]. pose proof (opened_setfsgid t1 i).
  destruct (SetfsgidRetGid t1 i). cbn in *. congruence.
Qed.

Lemma seq_None (m : T * option error) ctx k t : seq m ctx k = (t, None) -> exists t1, m = (t1, None) /\ k t1 = (t, None).
Proof using Type. destruct m as [t1 [e|] ]; cbn; [done|eauto]. Qed.

Lemma setgroups_ok t g t' : Setgroups t g = (t', None) ->
  ident t' = mkIdentity (fsuid (ident t)) (fsgid (ident t)) g /\ opened_as t' = opened_as t.
Proof using TL.
  intros H. pose proof (setgroups_ident t g) as Hi. pose proof (opened_setgroups t g) as Ho. rewrite H in Hi, Ho. done.
Qed.

(** A chain of settings, opening nothing. *)
Definition opens_nothing (t : T) (m : T * option error) : Prop := opened_as m.1 = opened_as t.

Lemma seq_opens t (m : T * option error) ctx k : opens_nothing t m -> (forall t1, opened_as t1 = opened_as t -> opens_nothing t1 (k t1)) ->
  opens_nothing t (seq m ctx k).
Proof using Type.
  unfold opens_nothing. destruct m as [t1 [e|] ]; cbn; [done|]. intros H1 Hk. rewrite (Hk t1 H1). done.
Qed.

Lemma restore_ok t r t' : restore t r = (t', None) ->
  match r with RestoreNothing => t' = t | RestoreTo u g gs => ident t' = mkIdentity u g gs end.
Proof using TL.
  destruct r as [|u g gs]; cbn [restore]; [by intros [= <-]|]. intros H.
  apply seq_None in H as (t1 & H1%setFsuid_ok & H). apply seq_None in H as (t2 & H2%setFsgid_ok & H).
  apply seq_None in H as (t3 & H3%setgroups_ok & H). destruct (Getgroups t3) as [got|] eqn:Eg; [|done].
  destruct (decide (got = gs)) as [_|]; [|done]. injection H as <-.
  destruct H1 as [I1 _], H2 as [I2 _], H3 as [I3 _]. by rewrite I3, I2, I1.
Qed.

Lemma restore_opens t r : opened_as (restore t r).1 = opened_as t.
Proof using TL.
  destruct r as [|u g gs]; cbn [restore]; [done|].
  apply seq_opens; [apply opened_setFsuid|intros t1 _]. apply seq_opens; [apply opened_setFsgid|intros t2 _].
  apply seq_opens; [apply opened_setgroups|intros t3 _]. unfold opens_nothing.
  destruct (Getgroups t3); [destruct (decide _)|]; done.
Qed.

(** The identity a successful switch gives, and what its closure restores. *)
Lemma switchCreds_spec t c t' r e : switchCreds t c = (t', (r, e)) ->
  opened_as t' = opened_as t /\
  (r = RestoreNothing /\ ident t' = ident t /\ (e = None -> Geteuid t = uid c) \/
   Geteuid t <> uid c /\ r = RestoreTo (Geteuid t) (Getegid t) (fsgroups (ident t)) /\ (e = None -> ident t' = mkIdentity (uid c) (gid c) (groups c))).
Proof using TL.
  unfold switchCreds. destruct (Z.eqb_spec (Geteuid t) (uid c)); [intros; simplify_eq; split; [done|by left]|].
  destruct (Getgroups t) as [gs|e0] eqn:Eg; [|intros; simplify_eq; split; [done|by left]].
  rewrite <- (getgroups_ok _ _ Eg).
  match goal with |- context [let '(_, _) := ?m in _] => destruct m as [t1 e1] eqn:E end. intros; simplify_eq. split.
  - change (opened_as (t', e).1 = opened_as t). rewrite <- E.
    apply seq_opens; [apply opened_setgroups|intros t2 _]. apply seq_opens; [apply opened_setFsgid|intros t3 _].
    by apply seq_opens; [apply opened_setFsuid|].
  - right. split_and!; [done|done|]. intros ->. apply seq_None in E as (t2 & H1%setgroups_ok & E).
    apply seq_None in E as (t3 & H2%setFsgid_ok & E). apply seq_None in E as (t4 & H3%setFsuid_ok & E). injection E as <-.
    destruct H1 as [I1 _], H2 as [I2 _], H3 as [I3 _]. by rewrite I3, I2, I1.
Qed.

(** A thread that holds its own identity and locks a file as a user opens it,
    if at all, once and under that user's uid, gid and groups (or its own, when
    it runs as the user); it is given back to other goroutines only with the
    identity it had, and a lock it could not restore after is not kept. *)
Theorem lockAs_identity (t t' : T) (c : cred) (path : string) (res : result bool) (unlocked : bool) :
  fsuid (ident t) = Geteuid t -> fsgid (ident t) = Getegid t ->
  lockAs t c path = (t', res, unlocked) ->
  (unlocked = true -> ident t' = ident t) /\ (unlocked = false -> is_ok res = false) /\
  (opened_as t' = opened_as t \/
   opened_as t' = (opened_as t ++ [if Geteuid t =? uid c then ident t else mkIdentity (uid c) (gid c) (groups c)])%list).
Proof using TL.
  intros Hu Hg. unfold lockAs. destruct (switchCreds t c) as [t1 [r e] ] eqn:Es. apply switchCreds_spec in Es as (Ho & Hs).
  set (m := match e with None => openLockAs t1 path | Some e => (t1, Err e) end).
  assert (Hm : ident m.1 = ident t1 /\ (opened_as m.1 = opened_as t \/ opened_as m.1 = (opened_as t ++
      [if Geteuid t =? uid c then ident t else mkIdentity (uid c) (gid c) (groups c)])%list)).
  { subst m. destruct e as [e|]; [split; [done|by left]|]. split; [apply open_ident|right]. rewrite opened_open, Ho. do 2 f_equal.
    destruct Hs as [(_ & -> & Heq)|(Hne & _ & Heq)]; [by rewrite (Heq eq_refl), Z.eqb_refl|].
    rewrite (Heq eq_refl). by destruct (Z.eqb_spec (Geteuid t) (uid c)). }
  destruct m as [t2 res0]. cbn [fst] in Hm. destruct Hm as [Hi Hop].
  pose proof (restore_opens t2 r) as Hro. destruct (restore t2 r) as [t3 [e3|] ] eqn:Er; cbn [fst] in Hro; intros; simplify_eq.
  - split_and!; [done|done|]. destruct res0 as [ [|]|]; rewrite ?opened_close, Hro; exact Hop.
  - split_and!; [|done|by rewrite Hro]. intros _. apply restore_ok in Er.
    destruct Hs as [(-> & Hi1 & _)|(_ & -> & _)]; [by rewrite Er, Hi|]. rewrite Er, <- Hu, <- Hg. by destruct (ident t).
Qed.
End Spec.
End Creds.

Module CredsExamples.
Import Creds.

Record thread := mkThread { tid : identity; topened : list identity; stuck : bool }.

(** A root thread; [stuck] makes the uid impossible to give back. *)
#[export] Instance ex_thread : Thread thread := {
  Geteuid _ := 0; Getegid _ := 0;
  Getgroups t := Ok (fsgroups (tid t));
  Setgroups t g := (mkThread (mkIdentity (fsuid (tid t)) (fsgid (tid t)) g) (topened t) (stuck t), None);
  SetfsuidRetUid t i :=
    (if stuck t && (i =? 0) then t else mkThread (mkIdentity i (fsgid (tid t)) (fsgroups (tid t))) (topened t) (stuck t), fsuid (tid t));
  SetfsgidRetGid t i := (mkThread (mkIdentity (fsuid (tid t)) i (fsgroups (tid t))) (topened t) (stuck t), fsgid (tid t));
  openLockAs t _ := (mkThread (tid t) (topened t ++ [tid t])%list (stuck t), Ok false);
  closeLock t _ := t }.
#[export] Instance ex_view : ThreadView thread := { ident := tid; opened_as := topened }.
#[export] Instance ex_laws : ThreadLaws thread.
Proof.
  constructor; try done.
  - intros t g. cbn. by intros [= <-].
  - intros t i. cbn. destruct (stuck t && _); [by left|by right].
  - intros t i. cbn. by right.
  - intros t i. cbn. by destruct (stuck t && _).
Qed.

Definition root : identity := mkIdentity 0 0 [0; 4].
Definition alice : cred := mkCred 1000 100 [100; 36].

Definition locked : thread := (lockAs (mkThread root [] false) alice "/l").1.1.
Lemma lockAs_identity_witness : ident locked = root /\ opened_as locked = [mkIdentity 1000 100 [100; 36]].
Proof.
  split; [|vm_compute; reflexivity].
  refine (proj1 (lockAs_identity (mkThread root [] false) locked alice "/l" (Ok false) true _ _ _) _); vm_compute; reflexivity.
Defined.

(** An identity that cannot be given back keeps the thread locked and the file
    closed. *)
Example not_restored : (lockAs (mkThread root [] true) alice "/l").2 = false.
Proof. reflexivity. Qed.
End CredsExamples.
