(* ===== verification/FcImages.v ===== *)
(** * Raw images (src/driver/firecracker/images.go)

    Which images may be converted, what a converted image is called, and that
    the names of images, work dirs and pid files lead [Clean] to the locks
    their makers hold. *)
From S2P Require Import Prelude Text BuildLink Session Failure Slots LayerCache Pids Vmms.

#[local] Open Scope string_scope.
#[local] Open Scope Z_scope.

Module FcImages.
Import Failure Slots Vmms Pids.

(** ** The conversion gate *)
Record qemuImgInfo := mkInfo { Format : string; BackingFilename : string; DataFile : string }.

Definition imageFix : string :=
  "use a self-contained qcow2 or raw image: qemu-img convert -O qcow2 <image> <flattened.qcow2>, then pass that with --image".

(** [checkImageInfo]; [unmarshal] is the JSON decoder. *)
Definition checkImageInfo (unmarshal : string -> result qemuImgInfo) (image infoJSON : string) : string + failure :=
  match unmarshal infoJSON with
  | Err e => inr (Plain (Wrap ("parsing qemu-img info for " ++ image) e))
  | Ok info =>
      if negb (bool_decide (BackingFilename info = "")) then
        inr (Fixable imageFix (Errorf "%s has a backing file (%s); refusing to convert it" [image; BackingFilename info]))
      else if negb (bool_decide (DataFile info = "")) then
        inr (Fixable imageFix (Errorf "%s has an external data file (%s); refusing to convert it" [image; DataFile info]))
      else if negb (bool_decide (Format info = "qcow2")) && negb (bool_decide (Format info = "raw")) then
        inr (Fixable imageFix (Errorf "%s is a %q image; only qcow2 and raw are converted" [image; Format info]))
      else inl (Format info)
  end.

(** ** Names *)

(** The bytes after the first of the rune that [s] starts with: UTF-8, an
    invalid byte being a rune of its own. *)
Definition in_range (lo hi : Z) (c : ascii) : bool := (lo <=? code c) && (code c <=? hi).
Definition cont : ascii -> bool := in_range 128 191.
Definition rune_tail (c : ascii) (s : string) : nat :=
  match s with
  | String c1 s1 =>
      if in_range 194 223 c then if cont c1 then 1%nat else 0%nat
      else
        match s1 with
        | String c2 s2 =>
            let second := if code c =? 224 then in_range 160 191 c1 else if code c =? 237 then in_range 128 159 c1 else cont c1 in
            if in_range 224 239 c then if second && cont c2 then 2%nat else 0%nat
            else
              match s2 with
              | String c3 _ =>
                  let second := if code c =? 240 then in_range 144 191 c1 else if code c =? 244 then in_range 128 143 c1 else cont c1 in
                  if in_range 240 244 c && second && cont c2 && cont c3 then 3%nat else 0%nat
              | "" => 0%nat
              end
        | "" => 0%nat
        end
  | "" => 0%nat
  end.

Definition stemChar (c : ascii) : ascii :=
  if is_lower c || is_upper c || is_digit c || bool_decide (c = "-"%char) || bool_decide (c = "_"%char) then c else "_"%char.

(** [strings.Map] by the name's rule: [skip] bytes belong to a rune already
    mapped. *)
Fixpoint stem_map (skip : nat) (s : string) : string :=
  match s with
  | "" => ""
  | String c s' =>
      match skip with
      | S k => stem_map k s'
      | O => String (stemChar c) (stem_map (rune_tail c s') s')
      end
  end.

(** [rawName]; Go panics on a hash under twelve digits. *)
Definition rawName (source sha256Hex : string) : option string :=
  if slen sha256Hex <? 12 then None
  else
    let stem := TrimSuffix (Base source) (Session.Session.Ext source) in
    Some (stem_map 0 stem ++ "-" ++ substring 0 12 sha256Hex ++ ".raw").

Example raw_1 : rawName "/img/jammy server.v2.qcow2" "0123456789abcdef" = Some "jammy_server_v2-0123456789ab.raw".
Proof. vm_compute. reflexivity. Qed.
(** Runes, not bytes: one underscore for an accented letter. *)
Example raw_2 : rawName (String "195" (String "169" "a.img")) "0123456789abcdef" = Some "_a-0123456789ab.raw".
Proof. vm_compute. reflexivity. Qed.

(** ** What they guarantee *)

(** Exactly the qcow2 and raw images that name no backing and no data file
    are converted, so no image can pull another file of the host into a build. *)
Theorem image_gate (unmarshal : string -> result qemuImgInfo) (image infoJSON format : string) :
  checkImageInfo unmarshal image infoJSON = inl format <->
  exists info, unmarshal infoJSON = Ok info /\ BackingFilename info = "" /\ DataFile info = "" /\ Format info = format /\
    (format = "qcow2" \/ format = "raw").
Proof.
  unfold checkImageInfo. destruct (unmarshal infoJSON) as [info|e]; [|naive_solver].
  destruct (bool_decide (BackingFilename info = "")) eqn:E1, (bool_decide (DataFile info = "")) eqn:E2,
    (bool_decide (Format info = "qcow2")) eqn:E3, (bool_decide (Format info = "raw")) eqn:E4; bool_to_prop; cbn; naive_solver.
Qed.

Lemma str_length_substring n : forall s, (n <= String.length s)%nat -> String.length (substring 0 n s) = n.
Proof. induction n as [|n IH]; intros [|c s] H; cbn in *; try lia. rewrite IH; lia. Qed.

Lemma str_forallb_substring f n : forall s, str_forallb f s = true -> str_forallb f (substring 0 n s) = true.
Proof.
  induction n as [|n IH]; intros [|c s] H; cbn in *; try done. apply andb_true_iff in H as [-> H]. by apply IH.
Qed.

Lemma substring_skip a : forall b n, substring (String.length a) n (a ++ b) = substring 0 n b.
Proof. induction a as [|c a IH]; intros b n; cbn; [done|]. by destruct n; rewrite IH. Qed.

Lemma get_skip a c b : String.get (String.length a) (a ++ String c b) = Some c.
Proof. induction a; cbn; [done|]. done. Qed.

(** A partial image leads to the lock of its conversion. *)
Lemma convertLockOf_raw stem prefix :
  String.length prefix = 12%nat -> str_forallb is_lower_hex prefix = true ->
  convertLockOf (stem ++ "-" ++ prefix ++ ".raw" ++ ".tmp") = Some (convertLockName prefix).
Proof.
  intros Hl Hx. unfold convertLockOf.
  assert (CutSuffix (stem ++ "-" ++ prefix ++ ".raw" ++ ".tmp") ".raw.tmp" = Some (stem ++ "-" ++ prefix)) as ->.
  { apply CutSuffix_Some. rewrite !str_app_assoc. done. }
  assert (Hn : String.length (stem ++ "-" ++ prefix) = (String.length stem + 13)%nat) by (rewrite !str_length_app; cbn; lia).
  unfold slen. rewrite Hn. rewrite (proj2 (Z.ltb_ge _ 13)) by lia. cbn [orb].
  replace (String.length stem + 13 - 13)%nat with (String.length stem) by lia.
  replace (String.length stem + 13 - 12)%nat with (String.length (stem ++ "-")) by (rewrite str_length_app; cbn; lia).
  change ("-" ++ prefix) with (String "-" prefix). rewrite get_skip, bool_decide_eq_true_2 by done. cbn [negb].
  change (String "-" prefix) with ("-" ++ prefix). rewrite <- str_app_assoc, substring_skip, <- Hl, substring_all.
  by rewrite Hx.
Qed.

Lemma no_char_rev c s : no_char c (str_rev s) <-> no_char c s.
Proof.
  induction s as [|a s IH]; [done|]. rewrite str_rev_cons, no_char_app, IH, !no_char_cons. split.
  - intros [? [? _] ]. done.
  - intros [? ?]. by split.
Qed.

Lemma Split_app_two d f sep : (2 <= length (Split (d ++ String sep f) sep))%nat.
Proof.
  induction d as [|c d IH]; cbn [append Split].
  - rewrite decide_True by done. pose proof (Split_nonnil f sep). destruct (Split f sep); [done|cbn; lia].
  - destruct (decide (c = sep)); [cbn; lia|]. destruct (Split _ _) as [|x l]; [cbn in IH; lia|exact IH].
Qed.

Lemma Base_last dir f : f <> "" -> no_char "/" f -> Base (dir ++ "/" ++ f) = f.
Proof.
  intros Hf Hn. unfold Base, LayerCache.LayerCache.Base. rewrite bool_decide_eq_false_2 by by destruct dir.
  assert (Ht : TrimRightByte (dir ++ "/" ++ f) "/" = dir ++ "/" ++ f).
  { unfold TrimRightByte. apply no_char_rev in Hn. rewrite !str_rev_app.
    destruct (str_rev f) as [|c r] eqn:E.
    - exfalso. apply Hf. by rewrite <- (str_rev_involutive f), E.
    - apply no_char_cons in Hn as [Hc _]. cbn [append TrimLeftByte]. rewrite decide_False by done.
      change (String c ((r ++ str_rev "/") ++ str_rev dir)) with ((String c r ++ str_rev "/") ++ str_rev dir).
      rewrite <- E, <- !str_rev_app, str_rev_involutive. done. }
  rewrite Ht. clear Ht.
  assert (Hs : last (Split (dir ++ "/" ++ f) "/") = Some f).
  { change ("/" ++ f) with (String "/" f). revert Hn Hf. clear. intros Hn Hf. induction dir as [|c dir IH]; cbn [append].
    - cbn [Split]. rewrite decide_True, (Split_none f) by done. done.
    - cbn [Split]. destruct (decide (c = "/"%char)).
      + pose proof (Split_nonnil (dir ++ String "/" f) "/"). destruct (Split _ _); [done|exact IH].
      + pose proof (Split_app_two dir f "/") as Hl. destruct (Split _ _) as [|x [|y l] ]; [done|cbn in Hl; lia|exact IH]. }
  rewrite Hs. by rewrite bool_decide_eq_false_2.
Qed.

Lemma stem_no_slash n s : no_char "/" (stem_map n s).
Proof.
  revert n. induction s as [|c s IH]; intros [|n]; cbn [stem_map]; try done.
  apply no_char_cons. split; [|apply IH]. unfold stemChar. destruct (_ || _) eqn:E; [|done]. by intros ->.
Qed.

Definition is_id (id : string) : Prop := String.length id = 8%nat /\ str_forallb is_alnum id = true.

Lemma alnum_no_char c s : is_alnum c = false -> str_forallb is_alnum s = true -> no_char c s.
Proof.
  intros Hc. apply str_forallb_impl. intros d Hd. apply negb_true_iff, bool_decide_eq_false. congruence.
Qed.

Lemma buildIDOf_id id : is_id id -> buildIDOf id = Some id.
Proof.
  intros [Hl Ha]. unfold buildIDOf. destruct (CutPrefix id "warden-firecracker-") as [r|] eqn:E.
  - apply CutPrefix_Some in E. rewrite E, str_length_app in Hl. cbn in Hl. lia.
  - unfold slen. rewrite Hl. cbn [Z.of_nat Z.eqb]. change (8 =? 8) with true. cbn [andb].
    assert (str_forallb (fun c => negb (bool_decide (c ∈ ["-"%char; "."%char; " "%char]))) id = true) as ->; [|done].
    eapply str_forallb_impl, Ha. intros c Hc. apply negb_true_iff, bool_decide_eq_false. intros Hin.
    repeat (apply elem_of_cons in Hin as [-> |Hin]; [discriminate Hc|]). by apply elem_of_nil in Hin.
Qed.

Lemma buildIDOf_work id x : is_id id -> buildIDOf ("warden-firecracker-" ++ id ++ "-" ++ x) = Some id.
Proof.
  intros [Hl Ha]. unfold buildIDOf. rewrite (proj2 (CutPrefix_Some _ _ _) eq_refl).
  change ("-" ++ x) with (String "-" x). rewrite Split_app by by apply alnum_no_char. cbn [List.hd].
  rewrite bool_decide_eq_false_2; [done|]. intros ->. done.
Qed.

Lemma slot_of_pids_path dir s : 0 <= s < 2 ^ 63 -> slot_of_pids (dir ++ "/" ++ LockName s ++ ".pids") = Some s.
Proof.
  intros Hs. unfold slot_of_pids. rewrite Base_last.
  - unfold LockName. rewrite str_app_assoc, TrimPrefix_app. unfold TrimSuffix.
    rewrite (proj2 (CutSuffix_Some _ _ (Itoa s)) eq_refl). cbn [default]. by apply Atoi_Itoa.
  - by destruct (LockName s).
  - unfold LockName. rewrite !no_char_app. split_and!; [done| |done]. apply Itoa_no_char; [done|lia].
Qed.

(** The names a build gives its files lead [Clean] to the lock the build
    holds while it uses them: its rootfs directory and its work dir to its own
    lock, the partial image of a conversion to the conversion's, a slot's pid
    file to the slot's. *)
Theorem clean_finds_locks (dir id x source sum raw : string) (s : Z) :
  is_id id -> no_char "/" x -> str_forallb is_lower_hex sum = true -> rawName source sum = Some raw -> 0 <= s < 2 ^ 63 ->
  buildIDOf (Base (dir ++ "/" ++ id)) = Some id /\
  buildIDOf (Base (dir ++ "/" ++ "warden-firecracker-" ++ id ++ "-" ++ x)) = Some id /\
  convertLockOf (Base (dir ++ "/" ++ raw ++ ".tmp")) = Some (convertLockName (substring 0 12 sum)) /\
  slot_of_pids (dir ++ "/" ++ LockName s ++ ".pids") = Some s.
Proof.
  intros Hi Hx Hh Hr Hs. pose proof Hi as [Hl Ha]. pose proof (alnum_no_char "/" id eq_refl Ha) as Hn.
  split_and!; [| | |by apply slot_of_pids_path].
  - rewrite Base_last; [by apply buildIDOf_id|by intros ->|done].
  - rewrite Base_last; [by apply buildIDOf_work|done|]. rewrite !no_char_app. by split_and!.
  - unfold rawName in Hr. destruct (Z.ltb_spec (slen sum) 12); [done|]. injection Hr as <-. unfold slen in *.
    assert (Hraw : forall a b c d : string, (a ++ String "-" (b ++ c)) ++ d = a ++ "-" ++ b ++ c ++ d).
    { intros a b c d. rewrite str_app_assoc. f_equal. cbn [append]. by rewrite str_app_assoc. }
    rewrite Hraw, Base_last.
    + apply convertLockOf_raw; [apply str_length_substring; lia|by apply str_forallb_substring].
    + by destruct (stem_map _ _).
    + rewrite !no_char_app. split_and!; try done; [apply stem_no_slash|].
      eapply (str_forallb_impl is_lower_hex); [|by apply str_forallb_substring]. intros c Hc.
      apply negb_true_iff, bool_decide_eq_false. intros ->. done.
Qed.

Lemma clean_finds_locks_witness : exists raw, rawName "/img/jammy.qcow2" "0123456789abcdef" = Some raw /\
  convertLockOf (Base ("/c" ++ "/" ++ raw ++ ".tmp")) = Some "firecracker-convert-0123456789ab".
Proof.
  eexists. split; [vm_compute; reflexivity|].
  apply (clean_finds_locks "/c" "abcd1234" "77" "/img/jammy.qcow2" "0123456789abcdef" _ 3); [split|..|split]; vm_compute; done.
Defined.
End FcImages.
