(* ===== verification/Firewall.v ===== *)
(** * What the slots' rules let through

    The rules [setupSteps] appends, read against the documented meaning of
    iptables and nft rules: [Netfilter] is an interface to them, so the
    theorems hold for every packet filter that behaves as its manual says. *)
From S2P Require Import Prelude Text Slots.

#[local] Open Scope Z_scope.

(** A packet filter over packets [P].  An address argument is a host or a
    network; a comma separates conntrack states. *)
Class Netfilter (P : Type) := {
  in_if : P -> string; out_if : P -> string;
  src : P -> string; dst : P -> string; proto : P -> string; dport : P -> string;
  ctstate : P -> string; uid_owner : P -> string;
  within : string -> string -> bool;
  rule_match : list string -> P -> bool;
  nft_eval : list string -> P -> option bool }.

(** An interface name, or a prefix of one before the wildcard. *)
Definition iface (wild : string) (pattern name : string) : bool :=
  match CutSuffix pattern wild with Some pre => HasPrefix name pre | None => bool_decide (name = pattern) end.

Class NetfilterLaws (P : Type) `{Netfilter P} := {
  match_nil p : rule_match [] p = true;
  match_in n r p : rule_match ("-i"%string :: n :: r) p = iface "+" n (in_if p) && rule_match r p;
  match_out n r p : rule_match ("-o"%string :: n :: r) p = iface "+" n (out_if p) && rule_match r p;
  match_src a r p : rule_match ("-s"%string :: a :: r) p = within a (src p) && rule_match r p;
  match_dst a r p : rule_match ("-d"%string :: a :: r) p = within a (dst p) && rule_match r p;
  match_proto x r p : rule_match ("-p"%string :: x :: r) p = bool_decide (proto p = x) && rule_match r p;
  match_dport x r p : rule_match ("--dport"%string :: x :: r) p = bool_decide (dport p = x) && rule_match r p;
  match_module m r p : rule_match ("-m"%string :: m :: r) p = rule_match r p;
  match_state x r p : rule_match ("--ctstate"%string :: x :: r) p = bool_decide (ctstate p ∈ Split x ",") && rule_match r p;
  match_owner x r p : rule_match ("--uid-owner"%string :: x :: r) p = bool_decide (uid_owner p = x) && rule_match r p;
  within_host s a : within (Slots.RelayAddr s) a = bool_decide (a = Slots.RelayAddr s);
  nft_accept p : nft_eval ["accept"%string] p = Some true;
  nft_drop p : nft_eval ["drop"%string] p = Some false;
  nft_in n r p : nft_eval ("iifname"%string :: n :: r) p = if iface "*" n (in_if p) then nft_eval r p else None;
  nft_out n r p : nft_eval ("oifname"%string :: n :: r) p = if iface "*" n (out_if p) then nft_eval r p else None }.

Module Firewall.
Import Slots.

(** ** The rules a command list leaves *)

(** What a step appends to an iptables chain of the filter table, to an
    ip6tables chain, or to a chain of the bridge table. *)
Definition appended (chain : string) (s : step) : option (list string) :=
  match args s with
  | t :: w :: a :: c :: spec => if decide (t = "iptables" /\ w = "-w" /\ a = "-A" /\ c = chain)%string then Some spec else None
  | _ => None
  end.
Definition appended6 (chain : string) (s : step) : option (list string) :=
  match args s with
  | t :: w :: a :: c :: spec => if decide (t = "ip6tables" /\ w = "-w" /\ a = "-A" /\ c = chain)%string then Some spec else None
  | _ => None
  end.
Definition appended_nft (chain : string) (s : step) : option (list string) :=
  match args s with
  | t :: a :: r :: f :: n :: c :: spec =>
      if decide (t = "nft" /\ a = "add" /\ r = "rule" /\ f = "bridge" /\ n = nftTable /\ c = chain)%string then Some spec else None
  | _ => None
  end.

Definition rules (chain : string) (l : list step) : list (list string) := omap (appended chain) l.
Definition rules6 (chain : string) (l : list step) : list (list string) := omap (appended6 chain) l.
Definition rules_nft (chain : string) (l : list step) : list (list string) := omap (appended_nft chain) l.

(** ** Evaluation *)

(** A rule's matches and its target: the options used take one argument, except
    [--tcp-flags]. *)
Fixpoint split_j (r : list string) : list string * string :=
  match r with
  | k :: v :: r' =>
      if String.eqb k "-j" then ([], v)
      else if String.eqb k "--tcp-flags" then
        match r' with
        | v' :: r'' => let m := split_j r'' in (k :: v :: v' :: m.1, m.2)
        | [] => ([], ""%string)
        end
      else let m := split_j r' in (k :: v :: m.1, m.2)
  | _ => ([], ""%string)
  end.

Section Eval.
Context {P : Type} {NF : Netfilter P}.

(** A chain decides by its first matching rule that accepts or drops; other
    targets go on to the next rule.  [None] returns to the caller. *)
Fixpoint verdict (rs : list (list string)) (p : P) : option bool :=
  match rs with
  | [] => None
  | r :: rs' =>
      let '(m, t) := split_j r in
      if decide (t = "ACCEPT"%string) then if rule_match m p then Some true else verdict rs' p
      else if decide (t = "DROP"%string) then if rule_match m p then Some false else verdict rs' p
      else verdict rs' p
  end.

Fixpoint nft_verdict (rs : list (list string)) (p : P) : option bool :=
  match rs with
  | [] => None
  | r :: rs' => match nft_eval r p with Some v => Some v | None => nft_verdict rs' p end
  end.
End Eval.

(** ** Names *)
Lemma snoc_inj (s t : string) c d : (s ++ String c "" = t ++ String d "")%string -> s = t /\ c = d.
Proof.
  intros H. apply (f_equal str_rev) in H. rewrite !str_rev_app in H. cbn in H. injection H as -> H.
  split; [|done]. apply (f_equal str_rev) in H. by rewrite !str_rev_involutive in H.
Qed.

Lemma name_inj s s' c c' :
  ("wfc" ++ Itoa s ++ String c "" = "wfc" ++ Itoa s' ++ String c' "")%string -> s = s' /\ c = c'.
Proof. intros H. apply str_app_inj_l in H. apply snoc_inj in H as [H ->]. by apply Itoa_inj in H. Qed.

Lemma tap_inj s s' : UpstreamTap s = UpstreamTap s' <-> s = s'.
Proof. split; [intros H; by apply name_inj in H as [? _]|by intros ->]. Qed.
Lemma bridge_inj s s' : Bridge s = Bridge s' <-> s = s'.
Proof. split; [intros H; by apply name_inj in H as [? _]|by intros ->]. Qed.
Lemma tap_bridge s s' : UpstreamTap s <> Bridge s'.
Proof. intros H. by apply name_inj in H as [_ [=] ]. Qed.
Lemma relay_guest s s' : RelayTap s <> GuestTap s'.
Proof. intros H. by apply name_inj in H as [_ [=] ]. Qed.

Lemma wfc_prefix s c : HasPrefix ("wfc" ++ Itoa s ++ c) "wfc" = true.
Proof. unfold HasPrefix. apply bool_decide_eq_true. eexists. by apply CutPrefix_Some. Qed.

(** A slot's name is no wildcard. *)
Lemma CutSuffix_snoc s c d : c <> d -> CutSuffix (s ++ String c "") (String d "") = None.
Proof.
  intros Hne. destruct (CutSuffix _ _) as [r|] eqn:E; [|done]. apply CutSuffix_Some in E. by apply snoc_inj in E as [_ ?].
Qed.

Lemma iface_name wild s c n :
  wild <> c -> iface (String wild "") ("wfc" ++ Itoa s ++ String c "") n = bool_decide (n = "wfc" ++ Itoa s ++ String c "")%string.
Proof. intros Hne. unfold iface. rewrite <- !str_app_assoc, CutSuffix_snoc by done. done. Qed.

Lemma iface_wild n : iface "+" "wfc+" n = HasPrefix n "wfc".
Proof. reflexivity. Qed.
Lemma iface_star n : iface "*" "wfc*" n = HasPrefix n "wfc".
Proof. reflexivity. Qed.

(** ** The rule lists *)
Lemma omap_flat_map {A B C} (f : B -> option C) (g : A -> list B) l : omap f (flat_map g l) = flat_map (fun a => omap f (g a)) l.
Proof. induction l as [|a l IH]; [done|]. cbn [flat_map]. by rewrite omap_app, IH. Qed.

Lemma flat_map_nil {A B} (f : A -> list B) l : (forall a, f a = []) -> flat_map f l = [].
Proof. intros H. induction l as [|a l IH]; [done|]. cbn. by rewrite H. Qed.

Definition slot_fwd (p : setupParams) (s : Z) : list (list string) :=
  [ ["-i"; UpstreamTap s; "-s"; RelayAddr s; "-o"; uplink p; "-p"; "tcp"; "--tcp-flags"; "SYN,RST"; "SYN"; "-j"; "TCPMSS"; "--clamp-mss-to-pmtu"];
    ["-i"; uplink p; "-o"; UpstreamTap s; "-d"; RelayAddr s; "-p"; "tcp"; "--tcp-flags"; "SYN,RST"; "SYN"; "-m"; "tcpmss"; "--mss";
     (Itoa (uplinkMTU p - 39) ++ ":65535")%string; "-j"; "TCPMSS"; "--set-mss"; Itoa (uplinkMTU p - 40)];
    ["-i"; UpstreamTap s; "-s"; RelayAddr s; "-o"; uplink p; "-j"; "ACCEPT"];
    ["-i"; uplink p; "-o"; UpstreamTap s; "-d"; RelayAddr s; "-m"; "conntrack"; "--ctstate"; "ESTABLISHED,RELATED"; "-j"; "ACCEPT"];
    ["-i"; UpstreamTap s; "-j"; "DROP"];
    ["-i"; Bridge s; "-o"; Bridge s; "-j"; "ACCEPT"] ]%string.
Definition slot_in (s : Z) : list (list string) :=
  [ ["-i"; Bridge s; "-j"; "DROP"];
    ["-i"; UpstreamTap s; "-s"; RelayAddr s; "-m"; "conntrack"; "--ctstate"; "ESTABLISHED"; "-j"; "ACCEPT"] ]%string.
Definition slot_out (uid : string) (s : Z) : list (list string) :=
  [ ["-o"; UpstreamTap s; "-d"; RelayAddr s; "-p"; "tcp"; "--dport"; Itoa DefaultPort; "-m"; "conntrack"; "--ctstate"; "NEW";
     "-m"; "owner"; "--uid-owner"; uid; "-j"; "ACCEPT"] ]%string.
Definition slot_bridge (s : Z) : list (list string) :=
  [ ["iifname"; RelayTap s; "oifname"; GuestTap s; "accept"]; ["iifname"; GuestTap s; "oifname"; RelayTap s; "accept"] ]%string.

Ltac rule_list :=
  unfold setupSteps, rules, rules6, rules_nft; rewrite !omap_app, omap_flat_map;
  match goal with |- ?a ++ ?b ++ _ = _ => change a with (@nil (list string)); change b with (@nil (list string)) end;
  rewrite !app_nil_l; apply (f_equal2 app);
  [ apply flat_map_ext; intros s; unfold slotSteps, slot_links; rewrite !omap_app; case_bool_decide; reflexivity | reflexivity ].

Lemma fwd_rules p :
  rules chainFwd (setupSteps p) =
  flat_map (slot_fwd p) (seqZ 0 (slots p)) ++ [ ["-i"; "wfc+"; "-j"; "DROP"]; ["-o"; "wfc+"; "-j"; "DROP"] ]%string.
Proof. rule_list. Qed.

Lemma in_rules p :
  rules chainIn (setupSteps p) = flat_map slot_in (seqZ 0 (slots p)) ++ [ ["-i"; "wfc+"; "-j"; "DROP"] ]%string.
Proof. rule_list. Qed.

Lemma out_rules p :
  rules chainOut (setupSteps p) =
  flat_map (slot_out (Itoa (uid p))) (seqZ 0 (slots p)) ++
  [ ["-o"; "wfc+"; "-d"; upstreamNet; "-m"; "conntrack"; "--ctstate"; "ESTABLISHED"; "-j"; "ACCEPT"];
    ["-o"; "wfc+"; "-d"; upstreamNet; "-p"; "icmp"; "-m"; "conntrack"; "--ctstate"; "RELATED"; "-j"; "ACCEPT"];
    ["-o"; "wfc+"; "-j"; "DROP"] ]%string.
Proof. rule_list. Qed.

Lemma bridge_rules p :
  rules_nft "forward" (setupSteps p) =
  flat_map slot_bridge (seqZ 0 (slots p)) ++ [ ["iifname"; "wfc*"; "drop"]; ["oifname"; "wfc*"; "drop"] ]%string.
Proof. rule_list. Qed.

(** ** Verdicts *)
Section Verdicts.
Context {P : Type} {NF : Netfilter P} {NL : NetfilterLaws P}.
Context (p : setupParams).
Context (Huplink : HasPrefix (uplink p) "wfc" = false) (Hplain : CutSuffix (uplink p) "+" = None).

Lemma iface_uplink n : iface "+" (uplink p) n = bool_decide (n = uplink p).
Proof using Hplain. unfold iface. by rewrite Hplain. Qed.
Lemma iface_tap s n : iface "+" (UpstreamTap s) n = bool_decide (n = UpstreamTap s).
Proof using Type. by apply iface_name. Qed.
Lemma iface_bridge s n : iface "+" (Bridge s) n = bool_decide (n = Bridge s).
Proof using Type. by apply iface_name. Qed.
Lemma tap_uplink s : UpstreamTap s <> uplink p.
Proof using Huplink. intros H. pose proof (wfc_prefix s "u") as Hw. unfold UpstreamTap in H. by rewrite H, Huplink in Hw. Qed.
Lemma bridge_uplink s : Bridge s <> uplink p.
Proof using Huplink. intros H. pose proof (wfc_prefix s "b") as Hw. unfold Bridge in H. by rewrite H, Huplink in Hw. Qed.

(** The first slot that decides, else what follows. *)
Fixpoint first_slot (f : Z -> option bool) (l : list Z) (fin : option bool) : option bool :=
  match l with [] => fin | s :: l' => match f s with Some v => Some v | None => first_slot f l' fin end end.

Lemma first_slot_spec f l fin :
  (forall s s' v v', f s = Some v -> f s' = Some v' -> v = v') ->
  (forall v, (exists s, s ∈ l /\ f s = Some v) -> first_slot f l fin = Some v) /\
  ((forall s, s ∈ l -> f s = None) -> first_slot f l fin = fin).
Proof using Type.
  intros Hc. induction l as [|s l [IH1 IH2] ]; cbn [first_slot].
  - split; [by intros v (s & Hs%elem_of_nil & _)|done].
  - split.
    + intros v (s' & Hs' & Hv). destruct (f s) as [v'|] eqn:E; [by rewrite (Hc _ _ _ _ Hv E)|].
      apply elem_of_cons in Hs' as [->|Hs']; [congruence|]. apply IH1. eauto.
    + intros Hn. rewrite (Hn s) by (by left). apply IH2. intros s' Hs'. apply Hn. by right.
Qed.

Lemma verdict_slots g f pkt fin l :
  (forall s rest, verdict (g s ++ rest) pkt = match f s with Some v => Some v | None => verdict rest pkt end) ->
  verdict (flat_map g l ++ fin) pkt = first_slot f l (verdict fin pkt).
Proof using Type.
  intros Hg. induction l as [|s l IH]; [done|]. cbn [flat_map first_slot]. by rewrite <- app_assoc, Hg, IH.
Qed.

(** *** Forwarding *)
Definition out_of_slot (pkt : P) (s : Z) : Prop :=
  in_if pkt = UpstreamTap s /\ src pkt = RelayAddr s /\ out_if pkt = uplink p.
Definition into_slot (pkt : P) (s : Z) : Prop :=
  in_if pkt = uplink p /\ out_if pkt = UpstreamTap s /\ dst pkt = RelayAddr s /\ ctstate pkt ∈ ["ESTABLISHED"; "RELATED"]%string.
Definition within_slot (pkt : P) (s : Z) : Prop := in_if pkt = Bridge s /\ out_if pkt = Bridge s.

#[local] Instance out_of_slot_dec pkt s : Decision (out_of_slot pkt s).
Proof. unfold out_of_slot. apply _. Defined.
#[local] Instance into_slot_dec pkt s : Decision (into_slot pkt s).
Proof. unfold into_slot. apply _. Defined.
#[local] Instance within_slot_dec pkt s : Decision (within_slot pkt s).
Proof. unfold within_slot. apply _. Defined.

Definition fwd_of (pkt : P) (s : Z) : option bool :=
  if decide (out_of_slot pkt s) then Some true
  else if decide (into_slot pkt s) then Some true
  else if decide (in_if pkt = UpstreamTap s) then Some false
  else if decide (within_slot pkt s) then Some true
  else None.

Lemma verdict_accept r rs pkt m :
  split_j r = (m, "ACCEPT"%string) -> verdict (r :: rs) pkt = if rule_match m pkt then Some true else verdict rs pkt.
Proof using Type. intros H. cbn [verdict]. by rewrite H. Qed.
Lemma verdict_drop r rs pkt m :
  split_j r = (m, "DROP"%string) -> verdict (r :: rs) pkt = if rule_match m pkt then Some false else verdict rs pkt.
Proof using Type. intros H. cbn [verdict]. by rewrite H. Qed.
Lemma verdict_mss r rs pkt m : split_j r = (m, "TCPMSS"%string) -> verdict (r :: rs) pkt = verdict rs pkt.
Proof using Type. intros H. cbn [verdict]. by rewrite H. Qed.

Ltac matches := repeat first
  [ rewrite match_in | rewrite match_out | rewrite match_src | rewrite match_dst | rewrite match_proto | rewrite match_dport
  | rewrite match_module | rewrite match_state | rewrite match_owner | rewrite match_nil | rewrite within_host
  | rewrite iface_tap | rewrite iface_bridge | rewrite iface_uplink | rewrite iface_wild | rewrite andb_true_r ].
(** Settles a chain of rules by cases on what they compare. *)
Ltac by_cases := repeat case_bool_decide; cbn [andb]; repeat case_decide; try done; exfalso; naive_solver.

Lemma slot_fwd_verdict pkt s rest :
  verdict (slot_fwd p s ++ rest) pkt = match fwd_of pkt s with Some v => Some v | None => verdict rest pkt end.
Proof using NL Hplain.
  unfold slot_fwd. cbn [app].
  erewrite verdict_mss by reflexivity. erewrite verdict_mss by reflexivity.
  erewrite verdict_accept by reflexivity. erewrite verdict_accept by reflexivity.
  erewrite verdict_drop by reflexivity. erewrite verdict_accept by reflexivity.
  cbn [fst snd split_j String.eqb Ascii.eqb Bool.eqb]. matches.
  unfold fwd_of, out_of_slot, into_slot, within_slot. change (Split "ESTABLISHED,RELATED" ",") with ["ESTABLISHED"; "RELATED"]%string.
  by_cases.
Qed.

Lemma fwd_of_consistent pkt s s' v v' : fwd_of pkt s = Some v -> fwd_of pkt s' = Some v' -> v = v'.
Proof using Huplink.
  unfold fwd_of, out_of_slot, into_slot, within_slot. pose proof (tap_uplink s). pose proof (tap_uplink s').
  pose proof (bridge_uplink s). pose proof (bridge_uplink s'). pose proof (tap_bridge s s'). pose proof (tap_bridge s' s).
  pose proof (proj1 (tap_inj s s')). repeat case_decide; intros [= <-] [= <-]; try done; exfalso; naive_solver congruence.
Qed.

(** What the forward chain lets through. *)
Definition slot_traffic (pkt : P) : Prop :=
  exists s, 0 <= s < slots p /\ (out_of_slot pkt s \/ into_slot pkt s \/ within_slot pkt s).

Lemma name_wfc_in s pkt : in_if pkt = UpstreamTap s \/ in_if pkt = Bridge s -> HasPrefix (in_if pkt) "wfc" = true.
Proof using Type. intros [->| ->]; apply wfc_prefix. Qed.

Lemma forward_verdict pkt :
  (verdict (rules chainFwd (setupSteps p)) pkt = Some true <-> slot_traffic pkt) /\
  (verdict (rules chainFwd (setupSteps p)) pkt = None <->
     HasPrefix (in_if pkt) "wfc" = false /\ HasPrefix (out_if pkt) "wfc" = false).
Proof using NL Huplink Hplain.
  rewrite fwd_rules, (verdict_slots _ (fwd_of pkt)) by (intros; apply slot_fwd_verdict).
  set (l := seqZ 0 (slots p)).
  destruct (first_slot_spec (fwd_of pkt) l (verdict [ ["-i"; "wfc+"; "-j"; "DROP"]; ["-o"; "wfc+"; "-j"; "DROP"] ]%string pkt)
    (fwd_of_consistent pkt)) as [Hsome Hnone].
  assert (Hl : forall s, s ∈ l <-> 0 <= s < slots p) by (intros s; subst l; rewrite elem_of_seqZ; lia).
  assert (Hfin : verdict [ ["-i"; "wfc+"; "-j"; "DROP"]; ["-o"; "wfc+"; "-j"; "DROP"] ]%string pkt =
    if HasPrefix (in_if pkt) "wfc" || HasPrefix (out_if pkt) "wfc" then Some false else None).
  { erewrite verdict_drop by reflexivity. erewrite verdict_drop by reflexivity.
    cbn [fst snd split_j String.eqb Ascii.eqb Bool.eqb]. matches. by destruct (HasPrefix (in_if pkt) "wfc"). }
  rewrite Hfin in *. clear Hfin.
  destruct (decide (Exists (fun s => fwd_of pkt s <> None) l)) as [He|Hn].
  - apply Exists_exists in He as (s & Hs & Hne). destruct (fwd_of pkt s) as [v|] eqn:Ev; [|done]. clear Hne.
    rewrite (Hsome v) by eauto. assert (Hv : v = true <-> slot_traffic pkt).
    { split.
      - intros ->. exists s. split; [by apply Hl|]. revert Ev. unfold fwd_of. repeat case_decide; auto; done.
      - intros (s' & Hs' & Ht). assert (Ht' : fwd_of pkt s' = Some true).
        { unfold fwd_of. case_decide; [done|]. case_decide; [done|]. destruct Ht as [?|[?|Hw] ]; [done..|].
          pose proof (tap_bridge s' s'). rewrite decide_False by (destruct Hw as [-> _]; congruence). by rewrite decide_True. }
        by rewrite (fwd_of_consistent pkt s s' v true Ev Ht'). }
    split; [rewrite <- Hv; naive_solver|]. split; [done|]. intros [Hi Ho]. exfalso.
    revert Ev. unfold fwd_of, out_of_slot, into_slot, within_slot. pose proof (name_wfc_in s pkt) as Hw.
    pose proof (wfc_prefix s "u") as Hu. fold (UpstreamTap s) in Hu.
    repeat case_decide; try done; naive_solver congruence.
  - assert (Hall : forall s, s ∈ l -> fwd_of pkt s = None).
    { intros s Hs. destruct (fwd_of pkt s) eqn:E; [|done]. exfalso. apply Hn, Exists_exists. exists s. by rewrite E. }
    rewrite (Hnone Hall). split.
    + split; [by destruct (_ || _)|]. intros (s & Hs & Ht). apply Hl, Hall in Hs. revert Hs. unfold fwd_of.
      repeat case_decide; try done. destruct Ht as [?|[?|?] ]; done.
    + destruct (HasPrefix (in_if pkt) "wfc"), (HasPrefix (out_if pkt) "wfc"); cbn [orb]; naive_solver.
Qed.

(** A chain of slot rules and catch-all drops: what it accepts, drops and
    leaves to its caller. *)
Lemma first_slot_exact f l fin (acc : Z -> Prop) :
  (forall s s' v v', f s = Some v -> f s' = Some v' -> v = v') -> (forall s, f s = Some true <-> acc s) ->
  (first_slot f l fin = Some true <-> (exists s, s ∈ l /\ acc s) \/ (Forall (fun s => f s = None) l /\ fin = Some true)) /\
  (first_slot f l fin = None <-> Forall (fun s => f s = None) l /\ fin = None).
Proof using Type.
  intros Hc Hacc. destruct (first_slot_spec f l fin Hc) as [Hsome Hnone].
  destruct (decide (Exists (fun s => f s <> None) l)) as [He|Hn].
  - apply Exists_exists in He as (s & Hs & Hne). destruct (f s) as [v|] eqn:Ev; [|done]. rewrite (Hsome v) by eauto.
    assert (Hnf : ~ Forall (fun s => f s = None) l) by (rewrite Forall_forall; intros H; by rewrite (H s Hs) in Ev).
    split; [|naive_solver]. split.
    + intros [= ->]. left. exists s. split; [done|]. by apply Hacc.
    + intros [(s' & Hs' & Ha)|[? _] ]; [|done]. apply Hacc in Ha. by rewrite (Hc _ _ _ _ Ev Ha).
  - assert (Hall : forall s, s ∈ l -> f s = None).
    { intros s Hs. destruct (f s) eqn:E; [|done]. exfalso. apply Hn, Exists_exists. exists s. by rewrite E. }
    rewrite (Hnone Hall). assert (Forall (fun s => f s = None) l) by by apply Forall_forall.
    split; [|naive_solver]. split; [by right|]. intros [(s & Hs & Ha)|[_ ?] ]; [|done]. apply Hacc in Ha. by rewrite Hall in Ha.
Qed.

(** *** Input: packets to the host itself *)
Definition in_of (pkt : P) (s : Z) : option bool :=
  if decide (in_if pkt = Bridge s) then Some false
  else if decide (in_if pkt = UpstreamTap s /\ src pkt = RelayAddr s /\ ctstate pkt = "ESTABLISHED"%string) then Some true
  else None.

Lemma slot_in_verdict pkt s rest :
  verdict (slot_in s ++ rest) pkt = match in_of pkt s with Some v => Some v | None => verdict rest pkt end.
Proof using NL Hplain.
  unfold slot_in. cbn [app]. erewrite verdict_drop by reflexivity. erewrite verdict_accept by reflexivity.
  cbn [fst snd split_j String.eqb Ascii.eqb Bool.eqb]. matches. unfold in_of.
  change (Split "ESTABLISHED" ",") with ["ESTABLISHED"]%string. rewrite (bool_decide_ext _ _ (list_elem_of_singleton _ _)). by_cases.
Qed.

Lemma input_verdict pkt :
  (verdict (rules chainIn (setupSteps p)) pkt = Some true <->
     exists s, 0 <= s < slots p /\ in_if pkt = UpstreamTap s /\ src pkt = RelayAddr s /\ ctstate pkt = "ESTABLISHED"%string) /\
  (verdict (rules chainIn (setupSteps p)) pkt = None <-> HasPrefix (in_if pkt) "wfc" = false).
Proof using NL Hplain.
  rewrite in_rules, (verdict_slots _ (in_of pkt)) by (intros; apply slot_in_verdict).
  erewrite verdict_drop by reflexivity. cbn [fst snd split_j String.eqb Ascii.eqb Bool.eqb verdict]. matches.
  destruct (first_slot_exact (in_of pkt) (seqZ 0 (slots p)) (if HasPrefix (in_if pkt) "wfc" then Some false else None)
    (fun s => in_if pkt = UpstreamTap s /\ src pkt = RelayAddr s /\ ctstate pkt = "ESTABLISHED"%string)) as [-> ->].
  - intros s s' v v'. unfold in_of. pose proof (tap_bridge s s'). pose proof (tap_bridge s' s).
    repeat case_decide; intros [= <-] [= <-]; try done; naive_solver congruence.
  - intros s. unfold in_of. pose proof (tap_bridge s s). repeat case_decide; naive_solver congruence.
  - split.
    + setoid_rewrite elem_of_seqZ. split; [|intros (s & ? & ?); left; exists s; split; [lia|done] ].
      intros [(s & ? & ?)|[_ H] ]; [exists s; split; [lia|done]|by destruct (HasPrefix (in_if pkt) "wfc")].
    + split; [intros [_ H]; by destruct (HasPrefix (in_if pkt) "wfc")|]. intros H. rewrite H. split; [|done]. apply Forall_forall. intros s _.
      unfold in_of. pose proof (wfc_prefix s "b") as Hb. pose proof (wfc_prefix s "u") as Hu. fold (Bridge s) in Hb. fold (UpstreamTap s) in Hu.
      repeat case_decide; naive_solver congruence.
Qed.

(** *** Output: packets from the host itself *)
Definition claim (pkt : P) (s : Z) : Prop :=
  out_if pkt = UpstreamTap s /\ dst pkt = RelayAddr s /\ proto pkt = "tcp"%string /\ dport pkt = Itoa DefaultPort /\
  ctstate pkt = "NEW"%string /\ uid_owner pkt = Itoa (uid p).
#[local] Instance claim_dec pkt s : Decision (claim pkt s).
Proof. unfold claim. apply _. Defined.
Definition out_of (pkt : P) (s : Z) : option bool := if decide (claim pkt s) then Some true else None.

Lemma slot_out_verdict pkt s rest :
  verdict (slot_out (Itoa (uid p)) s ++ rest) pkt = match out_of pkt s with Some v => Some v | None => verdict rest pkt end.
Proof using NL.
  unfold slot_out. cbn [app]. erewrite verdict_accept by reflexivity. cbn [fst snd split_j String.eqb Ascii.eqb Bool.eqb].
  matches. unfold out_of, claim. change (Split "NEW" ",") with ["NEW"]%string. rewrite (bool_decide_ext _ _ (list_elem_of_singleton _ _)).
  by_cases.
Qed.

Lemma output_verdict pkt :
  (verdict (rules chainOut (setupSteps p)) pkt = Some true <->
     (exists s, 0 <= s < slots p /\ claim pkt s) \/
     (HasPrefix (out_if pkt) "wfc" = true /\ within upstreamNet (dst pkt) = true /\
      (ctstate pkt = "ESTABLISHED"%string \/ (proto pkt = "icmp"%string /\ ctstate pkt = "RELATED"%string)))) /\
  (verdict (rules chainOut (setupSteps p)) pkt = None <-> HasPrefix (out_if pkt) "wfc" = false).
Proof using NL.
  rewrite out_rules, (verdict_slots _ (out_of pkt)) by (intros; apply slot_out_verdict).
  erewrite verdict_accept by reflexivity. erewrite verdict_accept by reflexivity. erewrite verdict_drop by reflexivity.
  cbn [fst snd split_j String.eqb Ascii.eqb Bool.eqb verdict]. matches.
  change (Split "ESTABLISHED" ",") with ["ESTABLISHED"]%string. change (Split "RELATED" ",") with ["RELATED"]%string.
  rewrite !(bool_decide_ext _ _ (list_elem_of_singleton _ _)).
  set (fin := if HasPrefix _ _ && _ then _ else _).
  assert (Hfin : (fin = Some true <-> HasPrefix (out_if pkt) "wfc" = true /\ within upstreamNet (dst pkt) = true /\
      (ctstate pkt = "ESTABLISHED"%string \/ (proto pkt = "icmp"%string /\ ctstate pkt = "RELATED"%string))) /\
    (fin = None <-> HasPrefix (out_if pkt) "wfc" = false)).
  { subst fin. destruct (HasPrefix (out_if pkt) "wfc"), (within upstreamNet (dst pkt)); cbn [andb]; repeat case_bool_decide; naive_solver. }
  clearbody fin. destruct Hfin as [Hf1 Hf2].
  destruct (first_slot_exact (out_of pkt) (seqZ 0 (slots p)) fin (claim pkt)) as [-> ->].
  - intros s s' v v'. unfold out_of. repeat case_decide; naive_solver.
  - intros s. unfold out_of. case_decide; naive_solver.
  - setoid_rewrite elem_of_seqZ. rewrite Hf1, Hf2. split.
    + split; [intros [(s & ? & ?)|[_ ?] ]; [left; exists s; split; [lia|done]|by right]|].
      intros [(s & ? & ?)|?]; [left; exists s; split; [lia|done]|].
      destruct (decide (Forall (fun s => out_of pkt s = None) (seqZ 0 (slots p)))) as [?|Hn]; [by right|left].
      apply not_Forall_Exists in Hn; [|apply _]. apply Exists_exists in Hn as (s & Hs & Hne). apply elem_of_seqZ in Hs.
      exists s. split; [lia|]. destruct (decide (claim pkt s)) as [|Hc]; [done|]. destruct Hne. unfold out_of. by rewrite decide_False.
    + split; [by intros [_ ?]|]. intros H. split; [|done]. apply Forall_forall. intros s _. unfold out_of, claim.
      pose proof (wfc_prefix s "u") as Hu. fold (UpstreamTap s) in Hu. case_decide; naive_solver congruence.
Qed.

(** *** Bridging: frames between ports of a bridge *)
Definition crosses (pkt : P) (s : Z) : Prop :=
  (in_if pkt = RelayTap s /\ out_if pkt = GuestTap s) \/ (in_if pkt = GuestTap s /\ out_if pkt = RelayTap s).
#[local] Instance crosses_dec pkt s : Decision (crosses pkt s).
Proof. unfold crosses. apply _. Defined.
Definition bridge_of (pkt : P) (s : Z) : option bool := if decide (crosses pkt s) then Some true else None.

Lemma nft_slots g f pkt fin l :
  (forall s rest, nft_verdict (g s ++ rest) pkt = match f s with Some v => Some v | None => nft_verdict rest pkt end) ->
  nft_verdict (flat_map g l ++ fin) pkt = first_slot f l (nft_verdict fin pkt).
Proof using Type.
  intros Hg. induction l as [|s l IH]; [done|]. cbn [flat_map first_slot]. by rewrite <- app_assoc, Hg, IH.
Qed.

Lemma iface_relay s n : iface "*" (RelayTap s) n = bool_decide (n = RelayTap s).
Proof using Type. by apply iface_name. Qed.
Lemma iface_guest s n : iface "*" (GuestTap s) n = bool_decide (n = GuestTap s).
Proof using Type. by apply iface_name. Qed.

Lemma slot_bridge_verdict pkt s rest :
  nft_verdict (slot_bridge s ++ rest) pkt = match bridge_of pkt s with Some v => Some v | None => nft_verdict rest pkt end.
Proof using NL.
  unfold slot_bridge. cbn [app nft_verdict]. rewrite !nft_in, !nft_out, !nft_accept, !iface_relay, !iface_guest.
  unfold bridge_of, crosses. repeat case_bool_decide; case_decide; try done; exfalso; naive_solver.
Qed.

Lemma bridge_verdict pkt :
  (nft_verdict (rules_nft "forward" (setupSteps p)) pkt = Some true <-> exists s, 0 <= s < slots p /\ crosses pkt s) /\
  (nft_verdict (rules_nft "forward" (setupSteps p)) pkt = None <->
     HasPrefix (in_if pkt) "wfc" = false /\ HasPrefix (out_if pkt) "wfc" = false).
Proof using NL.
  rewrite bridge_rules, (nft_slots _ (bridge_of pkt)) by (intros; apply slot_bridge_verdict).
  cbn [nft_verdict]. rewrite nft_in, nft_out, !nft_drop, !iface_star.
  destruct (first_slot_exact (bridge_of pkt) (seqZ 0 (slots p))
    (if HasPrefix (in_if pkt) "wfc" then Some false else if HasPrefix (out_if pkt) "wfc" then Some false else None) (crosses pkt)) as [H1 H2].
  - intros s s' v v'. unfold bridge_of. repeat case_decide; naive_solver.
  - intros s. unfold bridge_of. case_decide; naive_solver.
  - assert (Hf : forall x : option bool, match (if HasPrefix (in_if pkt) "wfc" then Some false else None) with Some v => Some v
      | None => match (if HasPrefix (out_if pkt) "wfc" then Some false else None) with Some v => Some v | None => None end end =
      if HasPrefix (in_if pkt) "wfc" then Some false else if HasPrefix (out_if pkt) "wfc" then Some false else None)
      by (intros _; by destruct (HasPrefix (in_if pkt) "wfc"), (HasPrefix (out_if pkt) "wfc")).
    rewrite (Hf None), H1, H2. setoid_rewrite elem_of_seqZ. split.
    + split; [intros [(s & ? & ?)|[_ H] ]; [exists s; split; [lia|done]|by destruct (HasPrefix (in_if pkt) "wfc"), (HasPrefix (out_if pkt) "wfc")]|].
      intros (s & ? & ?). left. exists s. split; [lia|done].
    + split; [intros [_ H]; by destruct (HasPrefix (in_if pkt) "wfc"), (HasPrefix (out_if pkt) "wfc")|]. intros [Hi Ho]. rewrite Hi, Ho.
      split; [|done]. apply Forall_forall. intros s _. unfold bridge_of, crosses.
      pose proof (wfc_prefix s "r") as Hr. fold (RelayTap s) in Hr. pose proof (wfc_prefix s "g") as Hg. fold (GuestTap s) in Hg.
      case_decide; naive_solver congruence.
Qed.

(** *** IPv6 *)
Lemma rules6_list : rules6 chainIPv6 (setupSteps p) = [ ["-i"; "wfc+"; "-j"; "DROP"]; ["-o"; "wfc+"; "-j"; "DROP"] ]%string.
Proof using Type.
  unfold setupSteps, rules6. rewrite !omap_app, omap_flat_map.
  rewrite (flat_map_nil (fun s => omap (appended6 chainIPv6) (slotSteps s p (Itoa (uid p))))); [reflexivity|].
  intros s. unfold slotSteps, slot_links. rewrite !omap_app. by case_bool_decide.
Qed.

Lemma ipv6_verdict pkt :
  verdict (rules6 chainIPv6 (setupSteps p)) pkt =
  if HasPrefix (in_if pkt) "wfc" || HasPrefix (out_if pkt) "wfc" then Some false else None.
Proof using NL.
  rewrite rules6_list. erewrite !verdict_drop by reflexivity. cbn [fst snd split_j String.eqb Ascii.eqb Bool.eqb verdict].
  matches. by destruct (HasPrefix (in_if pkt) "wfc").
Qed.

(** *** The two promises *)

(** An interface of slot [s]. *)
Definition port_of (s : Z) (n : string) : Prop :=
  n = Bridge s \/ n = RelayTap s \/ n = GuestTap s \/ n = UpstreamTap s.

Lemma port_wfc s n : port_of s n -> HasPrefix n "wfc" = true.
Proof using Type. intros [->|[->|[->| ->] ] ]; apply wfc_prefix. Qed.

Lemma port_inj s s' n : port_of s n -> port_of s' n -> s = s'.
Proof using Type. intros [->|[->|[->| ->] ] ] [H|[H|[H|H] ] ]; by apply name_inj in H as [? _]. Qed.

Lemma verdict_false (v : option bool) : v <> Some true -> v <> None -> v = Some false.
Proof using Type. destruct v as [ [] |]; naive_solver. Qed.

(** Nothing is forwarded from one slot to another. *)
Lemma cross_dropped pkt s s' :
  s <> s' -> port_of s (in_if pkt) -> port_of s' (out_if pkt) ->
  verdict (rules chainFwd (setupSteps p)) pkt = Some false.
Proof using NL Huplink Hplain.
  intros Hne Hi Ho. pose proof (port_wfc _ _ Hi). pose proof (port_wfc _ _ Ho).
  destruct (forward_verdict pkt) as [F1 F2]. apply verdict_false.
  - rewrite F1. intros (t & _ & Ht). assert (Hu : forall t', port_of t' (uplink p) -> False) by (intros t' Hp%port_wfc; congruence).
    destruct Ht as [(_ & _ & E)|[(E & _)|(E1 & E2)] ]; [rewrite E in Ho; by apply Hu in Ho|rewrite E in Hi; by apply Hu in Hi|]. apply Hne.
    rewrite (port_inj s t (in_if pkt)), (port_inj s' t (out_if pkt)); unfold port_of; auto.
  - rewrite F2. intros [? _]. congruence.
Qed.

(** C28.  Whatever the number of slots, the rules [warden setup] leaves forward a
    packet that touches a slot in exactly three cases: a slot's relay (at its
    own address) out of the host's uplink, an answer to it back, or traffic
    inside the slot's own bridge; and frames cross a bridge only between the
    relay's and the guest's TAP of the same slot.  So nothing is forwarded or
    bridged from one slot to another, and no IPv6 packet touches one. *)
Theorem slots_isolated pkt :
  (verdict (rules chainFwd (setupSteps p)) pkt = Some true <-> slot_traffic pkt) /\
  (verdict (rules chainFwd (setupSteps p)) pkt = None <->
     HasPrefix (in_if pkt) "wfc" = false /\ HasPrefix (out_if pkt) "wfc" = false) /\
  (nft_verdict (rules_nft "forward" (setupSteps p)) pkt = Some true <-> exists s, 0 <= s < slots p /\ crosses pkt s) /\
  (forall s s', s <> s' -> port_of s (in_if pkt) -> port_of s' (out_if pkt) ->
     verdict (rules chainFwd (setupSteps p)) pkt = Some false /\
     nft_verdict (rules_nft "forward" (setupSteps p)) pkt = Some false) /\
  (HasPrefix (in_if pkt) "wfc" = true \/ HasPrefix (out_if pkt) "wfc" = true ->
     verdict (rules6 chainIPv6 (setupSteps p)) pkt = Some false).
Proof using NL Huplink Hplain.
  destruct (forward_verdict pkt) as [F1 F2], (bridge_verdict pkt) as [B1 B2].
  split; [exact F1|]. split; [exact F2|]. split; [exact B1|]. split.
  - intros s s' Hne Hi Ho. pose proof (port_wfc _ _ Hi). pose proof (port_wfc _ _ Ho). split; [by eapply cross_dropped|apply verdict_false].
    + rewrite B1. intros (t & _ & [ [E1 E2]|[E1 E2] ]); apply Hne;
        rewrite (port_inj s t (in_if pkt)), (port_inj s' t (out_if pkt)); unfold port_of; auto.
    + rewrite B2. intros [? _]. congruence.
  - intros H. rewrite ipv6_verdict. by destruct (HasPrefix (in_if pkt) "wfc"), (HasPrefix (out_if pkt) "wfc"); naive_solver.
Qed.

(** The host itself: of what arrives on a slot's interfaces, its input
    chain accepts only established traffic of the slot's own relay, and of
    what it would send into the slots' network it lets out only the build
    user's new connections to a relay's claim port, and answers; the rest is
    dropped, and traffic that touches no slot is left to the host's own
    rules. *)
Theorem host_protected pkt :
  (verdict (rules chainIn (setupSteps p)) pkt = Some true <->
     exists s, 0 <= s < slots p /\ in_if pkt = UpstreamTap s /\ src pkt = RelayAddr s /\ ctstate pkt = "ESTABLISHED"%string) /\
  (verdict (rules chainIn (setupSteps p)) pkt = None <-> HasPrefix (in_if pkt) "wfc" = false) /\
  (verdict (rules chainOut (setupSteps p)) pkt = Some true <->
     (exists s, 0 <= s < slots p /\ claim pkt s) \/
     (HasPrefix (out_if pkt) "wfc" = true /\ within upstreamNet (dst pkt) = true /\
      (ctstate pkt = "ESTABLISHED"%string \/ (proto pkt = "icmp"%string /\ ctstate pkt = "RELATED"%string)))) /\
  (verdict (rules chainOut (setupSteps p)) pkt = None <-> HasPrefix (out_if pkt) "wfc" = false).
Proof using NL Hplain.
  destruct (input_verdict pkt) as [I1 I2], (output_verdict pkt) as [O1 O2]. auto.
Qed.
End Verdicts.
End Firewall.

(** A packet filter, and the two promises read on it. *)
Module FirewallExamples.
Import Slots Firewall.

Record packet := mkPacket {
  pin : string; pout : string; psrc : string; pdst : string; pproto : string; pdport : string; pstate : string; powner : string }.

Definition ex_within (n a : string) : bool := bool_decide (a = n) || (HasSuffix n "/22" && HasPrefix a "100.64.").

Fixpoint ex_match (l : list string) (p : packet) : bool :=
  match l with
  | k :: v :: r =>
      (if decide (k = "-i") then iface "+" v (pin p)
       else if decide (k = "-o") then iface "+" v (pout p)
       else if decide (k = "-s") then ex_within v (psrc p)
       else if decide (k = "-d") then ex_within v (pdst p)
       else if decide (k = "-p") then bool_decide (pproto p = v)
       else if decide (k = "--dport") then bool_decide (pdport p = v)
       else if decide (k = "--ctstate") then bool_decide (pstate p ∈ Split v ",")
       else if decide (k = "--uid-owner") then bool_decide (powner p = v)
       else true) && ex_match r p
  | _ => true
  end%string.

Fixpoint ex_nft (l : list string) (p : packet) : option bool :=
  match l with
  | [k] => if decide (k = "accept") then Some true else if decide (k = "drop") then Some false else None
  | k :: v :: r =>
      if (if decide (k = "iifname") then iface "*" v (pin p) else if decide (k = "oifname") then iface "*" v (pout p) else true)
      then ex_nft r p else None
  | _ => None
  end%string.

#[local] Instance ex_filter : Netfilter packet :=
  Build_Netfilter packet pin pout psrc pdst pproto pdport pstate powner ex_within ex_match ex_nft.

(** No octet ends in the network's mask. *)
Definition octet_ok (y : Z) : bool :=
  match str_rev (Itoa y) with String _ (String _ (String c _)) => negb (bool_decide (c = "/"%char)) | _ => true end.
Lemma octets_ok : forallb octet_ok (seqZ (-255) 511) = true.
Proof. vm_compute. reflexivity. Qed.

Lemma relay_no_net s : HasSuffix (RelayAddr s) "/22" = false.
Proof.
  unfold HasSuffix. apply bool_decide_eq_false. intros [r Hr]. apply CutSuffix_Some in Hr.
  unfold RelayAddr, slotAddr in Hr. set (y := Z.rem (4 * s + 2) 256) in Hr. set (x := Itoa (88 + _)) in Hr.
  assert (Hy : octet_ok y = true).
  { apply (proj1 (forallb_forall _ _) octets_ok), list_elem_of_In, elem_of_seqZ. subst y. pose proof (Z.rem_bound_abs (4 * s + 2) 256).
    lia. }
  apply (f_equal str_rev) in Hr. rewrite !str_rev_app in Hr. unfold octet_ok in Hy.
  destruct (str_rev (Itoa y)) as [|c1 [|c2 [|c3 t] ] ]; cbn in Hr; injection Hr; intros; subst; try discriminate.
Qed.

#[local] Instance ex_laws : NetfilterLaws packet.
Proof.
  split; try reflexivity.
  intros s a. change (ex_within (RelayAddr s) a = bool_decide (a = RelayAddr s)). unfold ex_within.
  by rewrite relay_no_net, orb_false_r.
Qed.

Definition ex_params : setupParams := mkParams 2 "ci" 1000 "eth0" 1500 ∅.
Definition ex_cross : packet := mkPacket "wfc0u" "wfc1u" "100.64.88.2" "100.64.88.6" "tcp" "443" "NEW" "".
Definition ex_fetch : packet := mkPacket "wfc1u" "eth0" "100.64.88.6" "1.1.1.1" "tcp" "443" "NEW" "".

(** A relay's fetch is forwarded; a packet to another slot's relay is not. *)
Example slots_isolated_witness :
  verdict (rules chainFwd (setupSteps ex_params)) ex_fetch = Some true /\
  verdict (rules chainFwd (setupSteps ex_params)) ex_cross = Some false.
Proof.
  destruct (slots_isolated ex_params eq_refl eq_refl ex_fetch) as [F _].
  destruct (slots_isolated ex_params eq_refl eq_refl ex_cross) as (_ & _ & _ & H & _).
  split; [|exact (proj1 (H 0 1 ltac:(lia) ltac:(by right; right; right) ltac:(by right; right; right)))].
  apply (proj2 F). exists 1. split; [cbn; lia|]. left. by repeat split.
Defined.

(** The build user's claim leaves the host; another user's connection does not. *)
Definition ex_claim (u : string) : packet := mkPacket "" "wfc1u" "100.64.88.5" "100.64.88.6" "tcp" "8301" "NEW" u.
Example host_protected_witness :
  verdict (rules chainOut (setupSteps ex_params)) (ex_claim "1000") = Some true /\
  verdict (rules chainOut (setupSteps ex_params)) (ex_claim "1001") <> Some true.
Proof.
  destruct (host_protected ex_params eq_refl (ex_claim "1000")) as (_ & _ & O & _).
  destruct (host_protected ex_params eq_refl (ex_claim "1001")) as (_ & _ & O' & _).
  split.
  - apply (proj2 O). left. exists 1. split; [cbn; lia|]. by repeat split.
  - intros H. apply (proj1 O') in H as [(s & _ & H)|(_ & _ & [H|[H _] ])]; [|discriminate H..].
    by destruct H as (_ & _ & _ & _ & _ & [=]).
Defined.
End FirewallExamples.
