(* ===== verification/SetupSpec.v ===== *)
(** * What setup leaves on the host

    The kernel's tables as the documented commands change them, and the locks:
    a setup that succeeds leaves exactly the rules of Firewall, hooked first;
    while it ran every slot was idle and locked; and however it ends, it holds
    no lock more than before. *)
From S2P Require Import Prelude Text BuildLink Session Failure Slots Host Firewall.

#[local] Open Scope string_scope.
#[local] Open Scope Z_scope.

(** ** Commands on the kernel's tables *)

(** A chain: the tool it is managed with, its table, its name. *)
Abbreviation chain_key := (string * string * string)%type.

Inductive action :=
  | New | Ensure | Append (rule : list string) | Flush | Remove | Insert (rule : list string) | Delete (rule : list string).

Module SetupSpec.
Import Failure Slots Host Firewall.

Definition ipt_action (op : string) (spec : list string) : option action :=
  if String.eqb op "-N" then Some New
  else if String.eqb op "-A" then Some (Append spec)
  else if String.eqb op "-F" then Some Flush
  else if String.eqb op "-X" then Some Remove
  else if String.eqb op "-D" then Some (Delete spec)
  else if String.eqb op "-I" then match spec with n :: r => if String.eqb n "1" then Some (Insert r) else None | [] => None end
  else None.

(** What a command does, to which chain. *)
Definition decode (a : list string) : option (chain_key * action) :=
  match a with
  | t :: w :: rest =>
      if (String.eqb t "iptables" || String.eqb t "ip6tables") && String.eqb w "-w" then
        match rest with
        | op :: c :: spec =>
            if String.eqb op "-t" then
              match spec with
              | op' :: c' :: spec' => (fun x => ((t, c, c'), x)) <$> ipt_action op' spec'
              | _ => None
              end
            else (fun x => ((t, "filter", c), x)) <$> ipt_action op spec
        | _ => None
        end
      else if String.eqb t "nft" && String.eqb w "add" then
        match rest with
        | what :: family :: table :: c :: spec =>
            if String.eqb family "bridge" then
              if String.eqb what "rule" then Some (("nft", table, c), Append spec)
              else if String.eqb what "chain" then Some (("nft", table, c), Ensure)
              else None
            else None
        | _ => None
        end
      else None
  | _ => None
  end.

Definition nft_delete : list string := ["nft"; "delete"; "table"; "bridge"; nftTable].

Definition do_action (x : action) (o : option (list (list string))) : option (list (list string)) :=
  match x with
  | New => Some []
  | Ensure => Some (default [] o)
  | Append r => (fun rs => rs ++ [r])%list <$> o
  | Flush => (fun _ => []) <$> o
  | Remove => None
  | Insert r => cons r <$> o
  | Delete r => (fun rs => match list_find (eq r) rs with Some (i, _) => delete i rs | None => rs end) <$> o
  end.

Definition acts (k : chain_key) (a : list string) (o : option (list (list string))) : option (list (list string)) :=
  match decode a with
  | Some (k', x) => if decide (k' = k) then do_action x o else o
  | None => if bool_decide (a = nft_delete) && bool_decide (k.1.1 = "nft") && bool_decide (k.1.2 = nftTable) then None else o
  end.
End SetupSpec.

(** The kernel's tables and the locks this process holds, behind a host. *)
Class Kernel (W : Type) := {
  tables : W -> gmap chain_key (list (list string));
  locked : W -> gset string }.

(** What the manuals say: a command that succeeds did its action; one that
    fails did nothing; the built-in chains always exist; the bridge table's
    deletion fails only when there is none.  A lock is taken only when
    nobody holds it, this process included, and taking it changes no interface. *)
Class KernelLaws (W : Type) `{Host W, Kernel W} := {
  run_ok w a w' k : run w a = (w', None) -> tables w' !! k = SetupSpec.acts k a (tables w !! k);
  builtin w t h : t ∈ ["iptables"; "ip6tables"] -> h ∈ Slots.hooks -> is_Some (tables w !! (t, "filter", h));
  run_err w a w' e : run w a = (w', Some e) -> tables w' = tables w;
  nft_none w w' e c : run w SetupSpec.nft_delete = (w', Some e) -> tables w !! ("nft", Slots.nftTable, c) = None;
  output_tables w a : tables (output w a).1 = tables w;
  lock_tables w p u : tables (lockAs w p u).1 = tables w;
  unlock_tables w p : tables (unlock w p) = tables w;
  run_locks w a : locked (run w a).1 = locked w;
  output_locks w a : locked (output w a).1 = locked w;
  lock_taken w p u w' : lockAs w p u = (w', Ok false) -> p ∉ locked w /\ locked w' = {[p]} ∪ locked w;
  lock_held w p u w' : lockAs w p u = (w', Ok true) -> locked w' = locked w;
  lock_err w p u w' e : lockAs w p u = (w', Err e) -> locked w' = locked w;
  lock_net w p u path : HasPrefix path "/sys/class/net/" = true ->
    exists_ (lockAs w p u).1 path = exists_ w path /\ readFile (lockAs w p u).1 path = readFile w path;
  unlocked w p : locked (unlock w p) = locked w ∖ {[p]} }.

Module SetupProofs.
Import Failure Slots Host Firewall SetupSpec.

#[local] Arguments until_failure : simpl never.

Section Setup.
Context {W : Type} {HW : Host W} {KW : Kernel W} {KL : KernelLaws W}.

(** ** Chains after a list of steps *)

(** The rule a step appends to chain [k]. *)
Definition append_of (k : chain_key) (s : step) : option (list string) :=
  match decode (args s) with
  | Some (k', Append r) => if decide (k' = k) then Some r else None
  | _ => None
  end.

(** A step that leaves [k] alone or appends to it, and then must succeed. *)
Definition touches (k : chain_key) (a : list string) : bool :=
  match decode a with
  | Some (k', _) => bool_decide (k' = k)
  | None => bool_decide (a = nft_delete) && bool_decide (k.1.1 = "nft") && bool_decide (k.1.2 = nftTable)
  end.
Definition sure (s : step) : bool := bool_decide (probe s = None) && negb (ignore_ s) && negb (untilFail s).
Definition calm (k : chain_key) (s : step) : bool :=
  (if touches k (args s) then sure s else true) && match probe s with Some p => negb (touches k p) | None => true end.

Lemma acts_untouched k a o : touches k a = false -> acts k a o = o.
Proof using Type.
  unfold touches, acts. destruct (decode a) as [ [k' x]|].
  - intros H%bool_decide_eq_false. by rewrite decide_False.
  - by intros ->.
Qed.

Lemma run_untouched w a w' r k : run w a = (w', r) -> touches k a = false -> tables w' !! k = tables w !! k.
Proof using KL.
  intros Hr Ht. destruct r as [e|]; [by rewrite (run_err _ _ _ _ Hr)|]. rewrite (run_ok _ _ _ k Hr). by apply acts_untouched.
Qed.

Lemma until_untouched n w a k : touches k a = false -> tables (until_failure n w a) !! k = tables w !! k.
Proof using KL.
  intros Ht. revert w. induction n as [|n IH]; intros w; [done|]. unfold until_failure; fold until_failure.
  destruct (run w a) as [w' [e|] ] eqn:E; [|rewrite IH]; by eapply run_untouched.
Qed.

Lemma run_step_calm w s w' k :
  run_step w s = (w', None) -> touches k (args s) = false -> tables w' !! k = tables w !! k.
Proof using KL.
  unfold run_step. destruct (untilFail s); [intros H Ht; apply (f_equal fst) in H; cbn [fst] in H; subst w'; by apply until_untouched|].
  destruct (run w (args s)) as [w1 [e|] ] eqn:E.
  - destruct (ignore_ s); [intros [= <-] Ht|done]. by eapply run_untouched.
  - intros [= <-] Ht. by eapply run_untouched.
Qed.

Lemma run_step_sure w s w' k :
  run_step w s = (w', None) -> sure s = true -> tables w' !! k = acts k (args s) (tables w !! k) /\
  exists w1, run w (args s) = (w1, None) /\ w1 = w'.
Proof using KL.
  unfold run_step, sure. rewrite !andb_true_iff, !negb_true_iff. intros Hr ((_ & Hi) & Hu). rewrite Hu in Hr.
  destruct (run w (args s)) as [w1 [e|] ] eqn:E; [by rewrite Hi in Hr|]. injection Hr as <-.
  split; [by apply run_ok|by exists w1].
Qed.

(** Chain [k] after calm steps that succeeded. *)
Lemma runSteps_calm k l w c v w' res :
  runSteps w l c v = (w', inl res) -> forallb (calm k) l = true ->
  tables w' !! k = foldl (fun o s => acts k (args s) o) (tables w !! k) l.
Proof using KL.
  revert w c v. induction l as [|s l IH]; intros w c v; cbn [runSteps forallb foldl]; [by intros [= <- <-]|].
  intros Hr [Hs Hl]%andb_true_iff. unfold calm in Hs. apply andb_true_iff in Hs as [Hs Hp].
  assert (Hgo : forall w0 c0, tables w0 !! k = tables w !! k ->
    (match run_step w0 s with (w1, Some e) => (w1, plain e) | (w1, None) => runSteps w1 l c0 v end) = (w', inl res) ->
    tables w' !! k = foldl (fun o s => acts k (args s) o) (acts k (args s) (tables w !! k)) l).
  { intros w0 c0 H0 H. destruct (run_step w0 s) as [w1 [e|] ] eqn:E; [done|]. rewrite (IH _ _ _ H Hl).
    f_equal. rewrite <- H0. destruct (touches k (args s)) eqn:Et.
    - by apply run_step_sure.
    - rewrite acts_untouched by done. by eapply run_step_calm. }
  destruct (probe s) as [p|] eqn:Ep.
  - apply negb_true_iff in Hp. assert (Ht : touches k (args s) = false).
    { destruct (touches k (args s)); [|done]. unfold sure in Hs. by rewrite Ep, bool_decide_eq_false_2 in Hs. }
    destruct (run w p) as [w0 [e|] ] eqn:E; pose proof (run_untouched _ _ _ _ k E Hp) as H0.
    + by apply (Hgo w0 (c ++ [last_word p])%list).
    + rewrite (IH _ _ _ Hr Hl), H0. by rewrite acts_untouched.
  - by apply (Hgo w c).
Qed.

Lemma runSteps_app l1 l2 w c v w' res :
  runSteps w (l1 ++ l2) c v = (w', inl res) ->
  exists w1 c1 v1, runSteps w l1 c v = (w1, inl (c1, v1)) /\ runSteps w1 l2 c1 v1 = (w', inl res).
Proof using Type.
  revert w c v. induction l1 as [|s l1 IH]; intros w c v; cbn [app runSteps]; [eauto|].
  destruct (probe s) as [p|].
  - destruct (run w p) as [w0 [e|] ]; [|by apply IH]. destruct (run_step w0 s) as [w1 [e'|] ]; [done|apply IH].
  - destruct (run_step w s) as [w1 [e'|] ]; [done|apply IH].
Qed.

(** Steps that only append to [k]. *)
Definition appends (k : chain_key) (s : step) : bool :=
  match decode (args s) with
  | Some (k', Append _) => true
  | Some (k', _) => negb (bool_decide (k' = k))
  | None => negb (touches k (args s))
  end.

Lemma fold_appends k l rs :
  forallb (appends k) l = true ->
  foldl (fun o s => acts k (args s) o) (Some rs) l = Some (rs ++ omap (append_of k) l)%list.
Proof using Type.
  revert rs. induction l as [|s l IH]; intros rs; cbn [forallb foldl omap list_omap]; [by rewrite app_nil_r|].
  intros [Hs Hl]%andb_true_iff. unfold appends, touches, acts, append_of in *.
  destruct (decode (args s)) as [ [k' x]|]; cbn [omap list_omap].
  - destruct (decide (k' = k)) as [->|Hk].
    + destruct x; try (by rewrite bool_decide_eq_true_2 in Hs by done). cbn [do_action fmap option_fmap option_map].
      by rewrite IH, <- app_assoc.
    + destruct x; by apply IH.
  - apply negb_true_iff in Hs. rewrite Hs. by apply IH.
Qed.

Lemma fold_untouched k l o :
  forallb (fun s => negb (touches k (args s))) l = true -> foldl (fun o s => acts k (args s) o) o l = o.
Proof using Type.
  revert o. induction l as [|s l IH]; intros o; cbn [forallb foldl]; [done|].
  intros [Hs%negb_true_iff Hl]%andb_true_iff. rewrite acts_untouched by done. by apply IH.
Qed.

Lemma forallb_flat_map {A} (f : step -> bool) (g : A -> list step) l :
  (forall a, forallb f (g a) = true) -> forallb f (flat_map g l) = true.
Proof using Type. intros H. induction l as [|a l IH]; [done|]. cbn [flat_map]. by rewrite forallb_app, H, IH. Qed.

(** The steps after the flush. *)
Definition load_steps (p : setupParams) : list step :=
  (create_chains ++ flat_map (fun s => slotSteps s p (Itoa (uid p))) (seqZ 0 (slots p)) ++
   final_rules p ++ jumps ++ [sysctl ["net.ipv4.ip_forward=1"] ])%list.
Definition fill_steps (p : setupParams) : list step :=
  (flat_map (fun s => slotSteps s p (Itoa (uid p))) (seqZ 0 (slots p)) ++
   final_rules p ++ jumps ++ [sysctl ["net.ipv4.ip_forward=1"] ])%list.

Lemma setupSteps_load p : setupSteps p = (flushSteps ++ load_steps p)%list.
Proof using Type. reflexivity. Qed.
Lemma load_fill p : load_steps p = (create_chains ++ fill_steps p)%list.
Proof using Type. reflexivity. Qed.

(** Decides a property of every step of the list, whatever the slots. *)
Ltac each_step :=
  unfold load_steps, fill_steps; rewrite ?forallb_app;
  repeat (apply andb_true_iff; split);
  try (apply forallb_flat_map; intros; unfold slotSteps, slot_links; rewrite !forallb_app; case_bool_decide; reflexivity);
  reflexivity.

(** The chains setup owns. *)
Definition owned_chains : list chain_key :=
  [("iptables", "filter", chainIn); ("iptables", "filter", chainFwd); ("iptables", "filter", chainOut);
   ("ip6tables", "filter", chainIPv6); ("nft", nftTable, "input"); ("nft", nftTable, "forward")].
Definition hook_jumps : list (string * string * string) :=
  [("iptables", "INPUT", chainIn); ("iptables", "FORWARD", chainFwd); ("iptables", "OUTPUT", chainOut);
   ("ip6tables", "INPUT", chainIPv6); ("ip6tables", "FORWARD", chainIPv6); ("ip6tables", "OUTPUT", chainIPv6)].

Lemma load_calm p k : k ∈ owned_chains -> forallb (calm k) (load_steps p) = true.
Proof using Type.
  intros Hk. repeat (apply elem_of_cons in Hk as [->|Hk]; [each_step|]). by apply elem_of_nil in Hk.
Qed.

Lemma fill_appends p k : k ∈ owned_chains -> forallb (appends k) (fill_steps p) = true.
Proof using Type.
  intros Hk. repeat (apply elem_of_cons in Hk as [->|Hk]; [each_step|]). by apply elem_of_nil in Hk.
Qed.

(** What each owned chain holds in the end. *)
Definition chain_rules (p : setupParams) (k : chain_key) : list (list string) :=
  if decide (k = ("ip6tables", "filter", chainIPv6)) then rules6 chainIPv6 (setupSteps p)
  else if decide (k.1.1 = "nft") then rules_nft k.2 (setupSteps p)
  else rules k.2 (setupSteps p).

(** The bridge table's chains are empty when they are made. *)
Definition fresh (k : chain_key) (o : option (list (list string))) : Prop := k.1.1 = "nft" -> o = None.

Ltac fill_list :=
  unfold fill_steps; rewrite !omap_app, omap_flat_map;
  first [ rewrite flat_map_nil; [reflexivity|]; intros s; unfold slotSteps, slot_links; rewrite !omap_app; case_bool_decide; reflexivity
        | apply (f_equal2 app); [apply flat_map_ext; intros s; unfold slotSteps, slot_links; rewrite !omap_app; case_bool_decide; reflexivity | reflexivity] ].

Lemma load_chain p k o :
  k ∈ owned_chains -> fresh k o -> foldl (fun o s => acts k (args s) o) o (load_steps p) = Some (chain_rules p k).
Proof using Type.
  intros Hk Ho. rewrite load_fill, foldl_app. assert (Hf := fill_appends p k Hk).
  assert (Hc : exists rs, foldl (fun o s => acts k (args s) o) o create_chains = Some rs /\
    (rs ++ omap (append_of k) (fill_steps p))%list = chain_rules p k).
  { unfold owned_chains in Hk.
    repeat (apply elem_of_cons in Hk as [->|Hk]; [eexists; split; [try (rewrite Ho by reflexivity); reflexivity|]|]);
      [..|by apply elem_of_nil in Hk].
    - change (omap (append_of ("iptables", "filter", chainIn)) (fill_steps p) = rules chainIn (setupSteps p)).
      rewrite in_rules. fill_list.
    - change (omap (append_of ("iptables", "filter", chainFwd)) (fill_steps p) = rules chainFwd (setupSteps p)).
      rewrite fwd_rules. fill_list.
    - change (omap (append_of ("iptables", "filter", chainOut)) (fill_steps p) = rules chainOut (setupSteps p)).
      rewrite out_rules. fill_list.
    - change (omap (append_of ("ip6tables", "filter", chainIPv6)) (fill_steps p) = rules6 chainIPv6 (setupSteps p)).
      rewrite rules6_list. fill_list.
    - change (["iifname"; "wfc*"; "drop"] :: omap (append_of ("nft", nftTable, "input")) (fill_steps p) =
        rules_nft "input" (setupSteps p)).
      assert (E : rules_nft "input" (setupSteps p) = [ ["iifname"; "wfc*"; "drop"] ]).
      { unfold setupSteps, rules_nft. rewrite !omap_app, omap_flat_map.
        rewrite (flat_map_nil (fun s => omap (appended_nft "input") (slotSteps s p (Itoa (uid p))))); [reflexivity|].
        intros s. unfold slotSteps, slot_links. rewrite !omap_app. by case_bool_decide. }
      rewrite E. f_equal. fill_list.
    - change (omap (append_of ("nft", nftTable, "forward")) (fill_steps p) = rules_nft "forward" (setupSteps p)).
      rewrite bridge_rules. fill_list. }
  destruct Hc as (rs & -> & <-). by apply fold_appends.
Qed.

Lemma hook_load p t h c o :
  (t, h, c) ∈ hook_jumps ->
  foldl (fun o s => acts (t, "filter", h) (args s) o) o (load_steps p) = cons ["-j"; c] <$> o.
Proof using Type.
  intros Hk. unfold load_steps. rewrite !foldl_app.
  rewrite (fold_untouched _ (flat_map _ _)); [|apply forallb_flat_map; intros s; unfold slotSteps, slot_links;
    rewrite !forallb_app; unfold hook_jumps in Hk; repeat (apply elem_of_cons in Hk as [[= -> -> ->]|Hk]; [case_bool_decide; reflexivity|]);
    by apply elem_of_nil in Hk].
  unfold hook_jumps in Hk. repeat (apply elem_of_cons in Hk as [[= -> -> ->]|Hk]; [by destruct o|]). by apply elem_of_nil in Hk.
Qed.

Lemma hook_calm p t h c : (t, h, c) ∈ hook_jumps -> forallb (calm (t, "filter", h)) (load_steps p) = true.
Proof using Type.
  intros Hk. unfold hook_jumps in Hk. repeat (apply elem_of_cons in Hk as [[= -> -> ->]|Hk]; [each_step|]).
  by apply elem_of_nil in Hk.
Qed.

(** The rules of [p] are in place: every owned chain holds exactly its rules,
    and its hook's first rule jumps to it. *)
Record installed (p : setupParams) (w : W) : Prop := {
  in_chains k : k ∈ owned_chains -> tables w !! k = Some (chain_rules p k);
  in_hooks t h c : (t, h, c) ∈ hook_jumps -> exists old, tables w !! (t, "filter", h) = Some (["-j"; c] :: old) }.

(** After the flush's last step the bridge table is gone. *)
Lemma flush_nft w c v w' c' v' k :
  runSteps w flushSteps c v = (w', inl (c', v')) -> k ∈ owned_chains -> fresh k (tables w' !! k).
Proof using KL.
  intros H Hk Hnft. set (pre := removelast flushSteps).
  assert (E : flushSteps = (pre ++ [tolerant nft_delete])%list) by reflexivity. rewrite E in H.
  apply runSteps_app in H as (w1 & c1 & v1 & _ & H). cbn [runSteps probe tolerant] in H.
  assert (Hk' : exists c, k = ("nft", nftTable, c)).
  { unfold owned_chains in Hk. repeat (apply elem_of_cons in Hk as [->|Hk]; [try discriminate Hnft; eauto|]). by apply elem_of_nil in Hk. }
  destruct Hk' as [ch ->]. unfold run_step, tolerant in H. cbn [untilFail args ignore_] in H.
  destruct (run w1 nft_delete) as [w2 [e|] ] eqn:Er; injection H as <- _ _.
  - rewrite (run_err _ _ _ _ Er). by eapply nft_none.
  - by rewrite (run_ok _ _ _ _ Er).
Qed.

Lemma runSteps_installs p w c v w' res :
  runSteps w (setupSteps p) c v = (w', inl res) -> installed p w'.
Proof using KL.
  rewrite setupSteps_load. intros H. apply runSteps_app in H as (w1 & c1 & v1 & Hf & Hl). split.
  - intros k Hk. rewrite (runSteps_calm k _ _ _ _ _ _ Hl (load_calm p k Hk)). apply load_chain; [done|]. by eapply flush_nft.
  - intros t h ch Hk. rewrite (runSteps_calm _ _ _ _ _ _ _ Hl (hook_calm p t h ch Hk)), (hook_load p t h ch _ Hk).
    destruct (builtin w1 t h) as [old ->]; [| |by exists old];
      unfold hook_jumps in Hk; repeat (apply elem_of_cons in Hk as [[= -> -> ->]|Hk]; [set_solver|]); by apply elem_of_nil in Hk.
Qed.

(** ** Locks *)
Lemma until_locks n w a : locked (until_failure n w a) = locked w.
Proof using KL.
  revert w. induction n as [|n IH]; intros w; [done|]. unfold until_failure; fold until_failure.
  pose proof (run_locks w a) as H. destruct (run w a) as [w' [e|] ]; [done|]. by rewrite IH.
Qed.

Lemma run_step_locks w s : locked (run_step w s).1 = locked w.
Proof using KL.
  unfold run_step. destruct (untilFail s); [apply until_locks|]. pose proof (run_locks w (args s)) as H.
  by destruct (run w (args s)) as [w' [e|] ].
Qed.

Lemma runSteps_locks l w c v : locked (runSteps w l c v).1 = locked w.
Proof using KL.
  revert w c v. induction l as [|s l IH]; intros w c v; [done|]. cbn [runSteps].
  assert (Hgo : forall w0 c0, locked w0 = locked w ->
    locked (match run_step w0 s with (w1, Some e) => (w1, plain e) | (w1, None) => runSteps w1 l c0 v end).1 = locked w).
  { intros w0 c0 H0. pose proof (run_step_locks w0 s) as H. destruct (run_step w0 s) as [w1 [e|] ]; cbn in *; [congruence|].
    by rewrite IH, H. }
  destruct (probe s) as [p|]; [|by apply Hgo]. pose proof (run_locks w p) as H.
  destruct (run w p) as [w0 [e|] ]; cbn in *; [by apply Hgo|by rewrite IH].
Qed.

Lemma addrs_ok_same todo w acc :
  locked (addrs_ok todo w acc).1 = locked w /\ tables (addrs_ok todo w acc).1 = tables w.
Proof using KL.
  revert w acc. induction todo as [|i todo IH]; intros w acc; [done|]. cbn [addrs_ok].
  set (a := ["ip"; "-o"; "-4"; "addr"; "show"; "dev"; UpstreamTap i]).
  pose proof (output_locks w a) as Hl. pose proof (output_tables w a) as Ht.
  destruct (output w a) as [w1 [out|e] ]; cbn in Hl, Ht;
    [destruct (IH w1 (if onlyAddr out (HostAddr i ++ "/30") then {[i]} ∪ acc else acc)) as [-> ->]
    |destruct (IH w1 acc) as [-> ->] ]; done.
Qed.

Lemma release_locks paths w : locked (release w paths) = locked w ∖ list_to_set paths.
Proof using KL.
  revert w. induction paths as [|p paths IH]; intros w; [set_solver|]. cbn [release foldl].
  change (foldl unlock (unlock w p) paths) with (release (unlock w p) paths). rewrite IH, unlocked. set_solver.
Qed.
Lemma release_tables paths w : tables (release w paths) = tables w.
Proof using KL.
  revert w. induction paths as [|p paths IH]; intros w; [done|]. cbn [release foldl].
  change (foldl unlock (unlock w p) paths) with (release (unlock w p) paths). by rewrite IH, unlock_tables.
Qed.

(** A slot nothing can use while we hold its lock: no VMM has a TAP of it, and
    the lock is ours. *)
Definition quiet (dir : string) (n : Z) (w : W) : Prop :=
  forall i, 0 <= i < MaxSlots -> i < n \/ exists_ w ("/sys/class/net/" ++ UpstreamTap i) = true ->
    lock_path dir i ∈ locked w /\
    (exists_ w ("/sys/class/net/" ++ UpstreamTap i) = true -> tapAttached w i = false).

(** Interfaces look the same in both states. *)
Definition same_net (w w' : W) : Prop :=
  forall path, HasPrefix path "/sys/class/net/" = true -> exists_ w' path = exists_ w path /\ readFile w' path = readFile w path.

Lemma net_prefix s : HasPrefix ("/sys/class/net/" ++ s) "/sys/class/net/" = true.
Proof using Type. unfold HasPrefix. apply bool_decide_eq_true. eexists. by apply CutPrefix_Some. Qed.

Lemma same_net_tap w w' s : same_net w w' -> tapAttached w' s = tapAttached w s.
Proof using Type.
  intros H. unfold tapAttached. induction [RelayTap s; GuestTap s; UpstreamTap s] as [|tap l IH]; [done|].
  cbn [existsb]. rewrite IH. by destruct (H ("/sys/class/net/" ++ tap ++ "/carrier") (net_prefix _)) as [_ ->].
Qed.

Lemma lock_same w p u : same_net w (lockAs w p u).1.
Proof using KL. intros path Hp. by apply lock_net. Qed.
Lemma same_net_trans w1 w2 w3 : same_net w1 w2 -> same_net w2 w3 -> same_net w1 w3.
Proof using Type. intros H1 H2 path Hp. destruct (H1 path Hp), (H2 path Hp). split; congruence. Qed.

(** The locks taken so far, over the ones held before. *)
Definition took (l0 : gset string) (paths : list string) (w : W) : Prop :=
  locked w = list_to_set paths ∪ l0 /\ list_to_set paths ## l0.

Lemma took_release l0 paths w : took l0 paths w -> locked (release w paths) = l0.
Proof using KL. intros [Hl Hd]. rewrite release_locks, Hl. set_solver. Qed.

Lemma took_nil w : took (locked w) [] w.
Proof using Type. split; [by rewrite list_to_set_nil, (left_id_L ∅ (∪))|]. rewrite list_to_set_nil. apply disjoint_empty_l. Qed.

Lemma quiesce_loop_spec o dir n todo w paths busy w' r l0 :
  took l0 paths w -> quiesce_loop o dir n todo w paths busy = (w', r) ->
  tables w' = tables w /\
  match r with
  | inr _ => locked w' = l0
  | inl (paths', busy') =>
      took l0 paths' w' /\ same_net w w' /\ paths `prefix_of` paths' /\ busy `prefix_of` busy' /\
      (busy' = busy -> forall i, i ∈ todo -> i < n \/ exists_ w ("/sys/class/net/" ++ UpstreamTap i) = true ->
         lock_path dir i ∈ paths' /\ (exists_ w ("/sys/class/net/" ++ UpstreamTap i) = true -> tapAttached w i = false))
  end.
Proof using KL.
  revert w paths busy. induction todo as [|i todo IH]; intros w paths busy Ht; cbn [quiesce_loop].
  { intros [= <- <-]. split_and!; [done|done|by intros ? ?|done|done|]. intros _ i Hi. by apply elem_of_nil in Hi. }
  cbv zeta. destruct (negb (exists_ w ("/sys/class/net/" ++ UpstreamTap i)) && (n <=? i)) eqn:Eskip.
  { intros H. destruct (IH _ _ _ Ht H) as [HT Hr]. split; [done|]. destruct r as [ [paths' busy']|]; [|done].
    destruct Hr as (H1 & H2 & H3 & H4 & H5). split_and!; [done..|]. intros Hb j [->|Hj]%elem_of_cons Hm; [|by apply H5].
    exfalso. apply andb_true_iff in Eskip as [Ee%negb_true_iff En%Z.leb_le]. destruct Hm; [lia|congruence]. }
  destruct (exists_ w ("/sys/class/net/" ++ UpstreamTap i) && tapAttached w i) eqn:Eatt.
  { intros H. destruct (IH _ _ _ Ht H) as [HT Hr]. split; [done|]. destruct r as [ [paths' busy']|]; [|done].
    destruct Hr as (H1 & H2 & H3 & H4 & H5). split_and!; [done..|by eapply prefix_app_l|].
    intros ->. destruct H4 as [k Hk]. apply (f_equal length) in Hk. rewrite !length_app in Hk. cbn in Hk. lia. }
  set (p := lock_path dir i). pose proof (lock_same w p (oname o)) as Hsn. pose proof (lock_tables w p (oname o)) as Hlt.
  destruct (lockAs w p (oname o)) as [w1 [ [] |e] ] eqn:El; cbn [fst] in Hsn, Hlt.
  - assert (Ht1 : took l0 paths w1) by (destruct Ht; split; [by rewrite (lock_held _ _ _ _ El)|done]).
    intros H. destruct (IH _ _ _ Ht1 H) as [HT Hr]. split; [congruence|]. destruct r as [ [paths' busy']|]; [|done].
    destruct Hr as (H1 & H2 & H3 & H4 & H5). split_and!; [done|by eapply same_net_trans|done|by eapply prefix_app_l|].
    intros ->. destruct H4 as [k Hk]. apply (f_equal length) in Hk. rewrite !length_app in Hk. cbn in Hk. lia.
  - destruct (lock_taken _ _ _ _ El) as [Hni Hli].
    assert (Ht1 : took l0 (paths ++ [p])%list w1).
    { destruct Ht as [Hl Hd]. split; [rewrite Hli, Hl, list_to_set_app_L; set_solver|]. rewrite list_to_set_app_L. set_solver. }
    intros H. destruct (IH _ _ _ Ht1 H) as [HT Hr]. split; [congruence|]. destruct r as [ [paths' busy']|]; [|done].
    destruct Hr as (H1 & H2 & H3 & H4 & H5). split_and!; [done|by eapply same_net_trans|by eapply prefix_app_l|done|].
    intros Hb j [->|Hj]%elem_of_cons Hm.
    + split; [destruct H3 as [k ->]; set_solver|]. intros He. rewrite He in Eatt. done.
    + destruct (Hsn ("/sys/class/net/" ++ UpstreamTap j) (net_prefix _)) as [He _].
      rewrite <- He, <- (same_net_tap _ _ j Hsn). rewrite <- He in Hm. by apply H5.
  - intros [= <- <-]. split; [by rewrite release_tables|]. apply took_release. destruct Ht.
    split; [by rewrite (lock_err _ _ _ _ _ El)|done].
Qed.

Lemma quiesceSlots_spec w o n w' r :
  quiesceSlots w o n = (w', r) ->
  tables w' = tables w /\
  match r with
  | inr _ => locked w' = locked w
  | inl paths => took (locked w) paths w' /\ exists dir, ownerLockDir w (oname o) = inl dir /\ quiet dir n w'
  end.
Proof using KL.
  assert (Ht0 : took (locked w) [] w) by apply took_nil.
  unfold quiesceSlots. destruct (ownerLockDir w (oname o)) as [dir|f]; [|by intros [= <- <-] ].
  destruct (quiesce_loop o dir n (seqZ 0 MaxSlots) w [] []) as [w1 r1] eqn:E.
  destruct (quiesce_loop_spec _ _ _ _ _ _ _ _ _ _ Ht0 E) as [HT Hr]. clear E.
  destruct r1 as [ [paths [|b busy] ]|f]; [| |by intros [= <- <-] ].
  - destruct Hr as (Htook & Hsn & _ & _ & Hq). intros [= <- <-]. split; [done|]. split; [done|]. exists dir. split; [done|].
    intros i Hi Hm. destruct (Hsn ("/sys/class/net/" ++ UpstreamTap i) (net_prefix _)) as [He _].
    rewrite He in Hm |- *. rewrite (same_net_tap _ _ i Hsn).
    destruct (Hq eq_refl i) as [Hp Hatt]; [apply elem_of_seqZ; lia|done|]. split; [|done].
    destruct Htook as [-> _]. apply elem_of_union. left. by apply elem_of_list_to_set.
  - destruct Hr as (Htook & _). intros [= <- <-]. split; [by rewrite release_tables|]. by apply took_release.
Qed.

Lemma checkPosture_same parse_nft w :
  tables (checkPosture parse_nft w).1 = tables w /\ locked (checkPosture parse_nft w).1 = locked w.
Proof using KL.
  unfold checkPosture. destruct (check_tools w); [done|]. destruct (run w firewalld_cmd) as [w1 r1] eqn:E1.
  assert (H1 : tables w1 = tables w /\ locked w1 = locked w).
  { split; [|rewrite <- (run_locks w firewalld_cmd); by rewrite E1]. apply map_eq. intros k. by eapply run_untouched. }
  destruct r1 as [e1|]; [|done]. destruct (output w1 (ipt ["-S"; "FORWARD"])) as [w2 r2] eqn:E2.
  assert (H2 : tables w2 = tables w /\ locked w2 = locked w).
  { pose proof (output_tables w1 (ipt ["-S"; "FORWARD"])) as Ht. pose proof (output_locks w1 (ipt ["-S"; "FORWARD"])) as Hl.
    rewrite E2 in Ht, Hl. cbn in Ht, Hl. destruct H1. split; congruence. }
  destruct r2 as [fwd|]; [|done]. destruct (forwardPolicyAccept fwd); [done|].
  destruct (output w2 ["nft"; "-j"; "list"; "chains"]) as [w3 r3] eqn:E3.
  assert (H3 : tables w3 = tables w /\ locked w3 = locked w).
  { pose proof (output_tables w2 ["nft"; "-j"; "list"; "chains"]) as Ht.
    pose proof (output_locks w2 ["nft"; "-j"; "list"; "chains"]) as Hl.
    rewrite E3 in Ht, Hl. cbn in Ht, Hl. destruct H2. split; congruence. }
  destruct r3 as [out|]; [|done]. by destruct (nftForwardDrops parse_nft out) as [ [|d drops]|].
Qed.

Lemma uplinkParams_same w : tables (uplinkParams w).1 = tables w /\ locked (uplinkParams w).1 = locked w.
Proof using KL.
  unfold uplinkParams. destruct (output w ["ip"; "route"; "show"; "default"]) as [w1 r1] eqn:E1.
  assert (H1 : tables w1 = tables w /\ locked w1 = locked w).
  { pose proof (output_tables w ["ip"; "route"; "show"; "default"]) as Ht.
    pose proof (output_locks w ["ip"; "route"; "show"; "default"]) as Hl. by rewrite E1 in Ht, Hl. }
  destruct r1 as [route|]; [|done]. cbv zeta. case_decide; [done|]. destruct (readFile w1 _) as [b|]; [|done].
  by destruct (BuildLink.BuildLink.Atoi (TrimSpace b)).
Qed.

(** What setup did: nothing to the kernel's chains, or the locked part over
    quiet slots, after which the locks it took are released. *)
Lemma setup_cases parse_nft w n w' r :
  setup parse_nft w n = (w', r) ->
  (exists f, r = inr f /\ tables w' = tables w /\ locked w' = locked w) \/
  exists w1 o up mtu paths dir, let n := if n =? 0 then DefaultSlots else n in
    1 <= n <= MaxSlots /\ tables w1 = tables w /\ took (locked w) paths w1 /\ quiet dir n w1 /\
    w' = release (setup_locked w1 n o up mtu).1 paths /\ r = (setup_locked w1 n o up mtu).2.
Proof using KL.
  unfold setup. set (n' := if n =? 0 then DefaultSlots else n). cbv zeta.
  destruct (ValidateSlotCount n') eqn:Ev; [intros [= <- <-]; left; eauto|].
  assert (Hn : 1 <= n' <= MaxSlots).
  { unfold ValidateSlotCount in Ev. destruct (Z.ltb_spec n' 1), (n' >? MaxSlots) eqn:E; try done. rewrite Z.gtb_ltb, Z.ltb_ge in E. lia. }
  destruct (negb (euid w =? 0)); [intros [= <- <-]; left; eauto|].
  destruct (negb (exists_ w "/dev/kvm")); [intros [= <- <-]; left; eauto|].
  destruct (setupOwner w) as [o|f]; [|intros [= <- <-]; left; eauto]. unfold try.
  destruct (checkPosture_same parse_nft w) as [T1 L1]. destruct (checkPosture parse_nft w) as [w1 [u|f] ]; cbn in T1, L1;
    [|intros [= <- <-]; left; eauto].
  destruct (uplinkParams_same w1) as [T2 L2]. destruct (uplinkParams w1) as [w2 [ [up mtu]|f] ]; cbn in T2, L2;
    [|intros [= <- <-]; left; exists f; split_and!; congruence].
  destruct (quiesceSlots w2 o n') as [w3 [paths|f] ] eqn:Eq; destruct (quiesceSlots_spec _ _ _ _ _ Eq) as [T3 H3].
  - destruct H3 as [Htook (dir & _ & Hq)]. destruct (setup_locked w3 n' o up mtu) as [w4 r4] eqn:El. intros [= <- <-].
    right. exists w3, o, up, mtu, paths, dir. rewrite El. destruct Hn.
    split_and!; [done|done|congruence|by rewrite <- L1, <- L2|done|done|done].
  - intros [= <- <-]. left. exists f. split_and!; congruence.
Qed.

Lemma setup_locked_spec w n o up mtu :
  locked (setup_locked w n o up mtu).1 = locked w /\
  match (setup_locked w n o up mtu).2 with
  | inl _ => exists ok, installed (mkParams n (oname o) (ouid o) up mtu ok) (setup_locked w n o up mtu).1
  | inr _ => True
  end.
Proof using KL.
  unfold setup_locked. pose proof (addrs_ok_same (seqZ 0 n) w ∅) as [Hl _]. fold (upstreamAddrsOK w n) in Hl.
  destruct (upstreamAddrsOK w n) as [w1 ok]. cbn [fst] in Hl. set (l := setupSteps _).
  pose proof (runSteps_locks l w1 [] []) as Hl2. destruct (runSteps w1 l [] []) as [w2 [ [created verified]|f] ] eqn:E; cbn [fst snd] in *.
  - split; [congruence|]. exists ok. exact (runSteps_installs _ _ _ _ _ _ E).
  - split; [congruence|done].
Qed.

(** ** Packets at a hook *)

(** The verdict of a hook's first rule, when that jumps to a chain that decides;
    [None] when the host's other rules do. *)
Definition hook_verdict {P} `{Netfilter P} (w : W) (t hook : string) (pkt : P) : option bool :=
  match tables w !! (t, "filter", hook) with
  | Some ([j; c] :: _) =>
      if String.eqb j "-j" then match tables w !! (t, "filter", c) with Some rs => verdict rs pkt | None => None end
      else None
  | _ => None
  end.

Lemma installed_hook {P} `{Netfilter P} p w t h c (pkt : P) :
  installed p w -> (t, h, c) ∈ hook_jumps -> (t, "filter", c) ∈ owned_chains ->
  hook_verdict w t h pkt = verdict (chain_rules p (t, "filter", c)) pkt.
Proof using Type.
  intros [Hc Hh] Hj Ho. unfold hook_verdict. destruct (Hh _ _ _ Hj) as [old ->]. cbn [String.eqb Ascii.eqb Bool.eqb].
  by rewrite (Hc _ Ho).
Qed.


(** However [warden setup] ends, it holds the locks it held before and no
    other; and if it changed any chain of the kernel, then it did so while it
    held the lock of every slot made or found, with no VMM attached to one: so
    no slot in use is ever without its rules. *)
Theorem setup_quiesced parse_nft w n w' r :
  setup parse_nft w n = (w', r) ->
  locked w' = locked w /\
  (tables w' = tables w \/
   exists w1 o up mtu dir, quiet dir (if n =? 0 then DefaultSlots else n) w1 /\ tables w1 = tables w /\
     tables w' = tables (setup_locked w1 (if n =? 0 then DefaultSlots else n) o up mtu).1 /\
     locked (setup_locked w1 (if n =? 0 then DefaultSlots else n) o up mtu).1 = locked w1).
Proof using KL.
  intros Hs. apply setup_cases in Hs as [(f & -> & HT & HL)|(w1 & o & up & mtu & paths & dir & Hn & HT & Htook & Hq & -> & ->)].
  - split; [done|by left].
  - set (n' := if n =? 0 then DefaultSlots else n) in *. destruct (setup_locked_spec w1 n' o up mtu) as [HL _]. split.
    + apply took_release. destruct Htook. split; [by rewrite HL|done].
    + right. exists w1, o, up, mtu, dir. split_and!; [done|done|by rewrite release_tables|done].
Qed.
End Setup.
End SetupProofs.

(** A machine with these laws, and setup run on it. *)
Module SetupExamples.
Import Failure Slots Host Firewall SetupSpec SetupProofs FirewallExamples.

#[local] Existing Instance ex_filter.
#[local] Existing Instance ex_laws.

Record machine := mkMachine { mTables : gmap chain_key (list (list string)); mLocks : gset string }.

Definition builtins : list chain_key :=
  (t ← ["iptables"; "ip6tables"]; h ← hooks; [ (t, "filter", h) ]) ++
  [("iptables", "raw", "PREROUTING"); ("iptables", "nat", "POSTROUTING")]%list.
Definition base : gmap chain_key (list (list string)) := list_to_map ((fun k => (k, [])) <$> builtins).
Definition all_tables (m : machine) : gmap chain_key (list (list string)) := mTables m ∪ base.

Definition refuses (T : gmap chain_key (list (list string))) (k : chain_key) (x : action) : bool :=
  match x with
  | New => bool_decide (is_Some (T !! k))
  | Ensure => false
  | Remove => bool_decide (k ∈ builtins) || bool_decide (T !! k = None)
  | Delete r => match T !! k with Some rs => negb (bool_decide (r ∈ rs)) | None => true end
  | Append _ | Insert _ | Flush => bool_decide (T !! k = None)
  end.

Definition status : error := Sentinel "exit status 1".

Definition is_nft (k : chain_key) : bool := bool_decide (k.1.1 = "nft") && bool_decide (k.1.2 = nftTable).

Definition ex_run (m : machine) (a : list string) : machine * option error :=
  let T := all_tables m in
  match decode a with
  | Some (k, x) =>
      if refuses T k x then (m, Some status)
      else (mkMachine (partial_alter (do_action x) k T) (mLocks m), None)
  | None =>
      if bool_decide (a = nft_delete) then
        let T' := filter (fun kv => is_nft kv.1 = false) T in
        if bool_decide (T' = T) then (m, Some status) else (mkMachine T' (mLocks m), None)
      else if bool_decide (a = firewalld_cmd) || bool_decide (take 3 a = ["ip"; "link"; "show"]) then (m, Some status)
      else (m, None)
  end.

Definition ex_output (m : machine) (a : list string) : machine * result string :=
  (m, if bool_decide (take 3 a = ["ip"; "route"; "show"]) then Ok "default via 10.0.0.1 dev eth0"
      else if bool_decide (a = ipt ["-S"; "FORWARD"]) then Ok "-P FORWARD DROP"
      else Err status).

#[local] Instance ex_host : Host machine := {|
  run := ex_run;
  output := ex_output;
  readFile _ p := if bool_decide (p = "/sys/class/net/eth0/mtu") then Ok "1500" else Err (Sentinel "file does not exist");
  exists_ _ p := bool_decide (p = "/dev/kvm");
  openRW _ _ := None;
  lookPath _ _ := None;
  getenv _ k := if bool_decide (k = "SUDO_USER") then "ci" else "";
  lookupOwner _ _ := Ok (1000, true);
  userHome _ _ := Ok "/home/ci";
  lockAs m p _ := if bool_decide (p ∈ mLocks m) then (m, Ok true) else (mkMachine (mTables m) ({[p]} ∪ mLocks m), Ok false);
  unlock m p := mkMachine (mTables m) (mLocks m ∖ {[p]});
  euid _ := 0 |}.
#[local] Instance ex_kernel : Kernel machine := {| tables := all_tables; locked := mLocks |}.

Lemma all_base m k : k ∈ builtins -> is_Some (all_tables m !! k).
Proof.
  intros Hk. unfold all_tables. apply lookup_union_is_Some. right.
  assert (H : forallb (fun k => bool_decide (is_Some (base !! k))) builtins = true) by (vm_compute; reflexivity).
  rewrite forallb_forall in H. by apply list_elem_of_In, H, bool_decide_eq_true in Hk.
Qed.

(** A table that still has the built-in chains needs no other. *)
Lemma with_base T l : (forall k, k ∈ builtins -> is_Some (T !! k)) -> all_tables (mkMachine T l) = T.
Proof.
  intros H. apply map_eq. intros k. unfold all_tables. cbn [mTables]. destruct (T !! k) as [rs|] eqn:E.
  - by apply lookup_union_Some_l.
  - apply lookup_union_None. split; [done|]. unfold base. apply not_elem_of_list_to_map_1. intros Hk.
    rewrite <- list_fmap_compose in Hk. apply list_elem_of_fmap in Hk as (k' & -> & Hk'). cbn in E.
    destruct (H k' Hk') as [rs Hrs]. congruence.
Qed.

Lemma ex_run_ok m a m' k : ex_run m a = (m', None) -> all_tables m' !! k = acts k a (all_tables m !! k).
Proof.
  unfold ex_run, acts. set (T := all_tables m). destruct (decode a) as [ [k' x]|].
  - destruct (refuses T k' x) eqn:Er; [done|]. intros [= <-]. rewrite with_base.
    + destruct (decide (k' = k)) as [->|Hk]; [by rewrite lookup_partial_alter_eq|by rewrite lookup_partial_alter_ne].
    + intros k0 H0. destruct (all_base m k0 H0) as [rs Hrs]. fold T in Hrs. destruct (decide (k' = k0)) as [->|Hk].
      * rewrite lookup_partial_alter_eq, Hrs. destruct x; try done. cbn in Er. by rewrite bool_decide_eq_true_2 in Er.
      * by rewrite lookup_partial_alter_ne, Hrs.
  - case_bool_decide as Ha.
    + cbv zeta. case_bool_decide; [done|]. intros [= <-]. rewrite with_base.
      * rewrite map_lookup_filter. cbn [fst]. destruct (T !! k) as [rs|] eqn:E; cbn [mbind option_bind];
          [|by destruct (_ && _)]. unfold is_nft. destruct (bool_decide (k.1.1 = "nft")), (bool_decide (k.1.2 = nftTable)); reflexivity.
      * intros k0 H0. destruct (all_base m k0 H0) as [rs Hrs]. exists rs. apply map_lookup_filter_Some. split; [done|].
        unfold builtins in H0. cbn in H0. repeat (apply elem_of_cons in H0 as [->|H0]; [reflexivity|]). by apply elem_of_nil in H0.
    + case_match; [done|]. by intros [= <-].
Qed.

#[local] Instance ex_laws' : KernelLaws machine.
Proof.
  split.
  - apply ex_run_ok.
  - intros m t h Ht Hh. apply all_base. unfold builtins. apply elem_of_app. left.
    apply list_elem_of_bind. exists t. split; [|done]. apply list_elem_of_bind. exists h. split; [by left|done].
  - cbn. unfold ex_run. intros m a m' e. destruct (decode a) as [ [k x]|]; repeat case_match; by intros [= <- <-].
  - cbn. unfold ex_run. change (decode nft_delete) with (@None (chain_key * action)). intros m m' e c.
    rewrite bool_decide_eq_true_2 by done. cbv zeta. case_bool_decide as Hf; [|done]. intros _.
    destruct (all_tables m !! ("nft", nftTable, c)) as [rs|] eqn:E; [|done]. rewrite <- Hf in E.
    by apply map_lookup_filter_Some in E as [_ E].
  - done.
  - cbn. intros m p u. by case_bool_decide.
  - done.
  - cbn. unfold ex_run. intros m a. destruct (decode a) as [ [k x]|]; repeat case_match; done.
  - done.
  - cbn. intros m p u m'. case_bool_decide; [done|]. by intros [= <-].
  - cbn. intros m p u m'. case_bool_decide; [by intros [= <-]|done].
  - cbn. intros m p u m' e. by case_bool_decide.
  - cbn. intros m p u path _. by case_bool_decide.
  - done.
Qed.

(** A host whose forward hook already has a rule. *)
Definition ex_machine : machine := mkMachine {[ ("iptables", "filter", "FORWARD") := [ ["-j"; "DOCKER-USER"] ] ]} ∅.
Definition ex_parse (out : string) : result (list (option nftChain)) := Ok [].

Definition is_ok {A} (r : A + failure) : bool := match r with inl _ => true | inr _ => false end.

Lemma ex_setup_ok : is_ok (setup ex_parse ex_machine 2).2 = true.
Proof. vm_compute. reflexivity. Qed.

Lemma ex_setup : exists w out, setup ex_parse ex_machine 2 = (w, inl out).
Proof.
  pose proof ex_setup_ok as H. destruct (setup ex_parse ex_machine 2) as [w [out|f] ]; [by exists w, out|done].
Qed.


(** Setup lets go of the locks it took. *)
Example setup_quiesced_witness : locked (setup ex_parse ex_machine 2).1 = ∅.
Proof.
  destruct (setup ex_parse ex_machine 2) as [w r] eqn:E.
  destruct (setup_quiesced ex_parse ex_machine 2 w r E) as [Hl _]. exact Hl.
Defined.
End SetupExamples.
