(* ===== verification/Inspect.v ===== *)
(** * The inspect command (src/cmd/warden/inspect_impl.go, inspect_env.go,
    inspect.go)

    What [warden inspect] makes of an output directory: the text or report it
    writes and the error it returns.  A function that can panic returns an
    option, [None] being the panic (text already written is then not kept). *)
From S2P Require Import Prelude Text Crypto Ledger Writer Environment Collector LayerCache Translate Session Fmt.

#[local] Open Scope string_scope.
#[local] Open Scope Z_scope.
#[local] Open Scope go_scope.

Module Inspect.
Import Reader Environment LayerCache Fmt.

Definition Join := Session.Join.
Definition Dir := Translate.path_Dir.

(** ** The disk

    Directories hold their entries in the order [os.ReadDir] gives; a link is
    what [os.Readlink] says of it. *)
Record disk := mkDisk {
  d_host : host; d_dirs : gmap string (list string); d_links : gmap string string }.

(** What fmt renders from tables: the text of an error and [%q]. *)
Class Rendering := { Error : error -> string; Quote : string -> string }.

Record inspectOptions := mkOptions {
  JSON : bool; Verbosity : Z; Extract : string; NoColor : bool; VerifyDisks : bool }.

(** ** The environment report *)
Record layerCheck := mkCheck { kName : string; kPath : string; kStatus : string }.

Record envReport := mkEnv {
  EType : string; ELabel : string; EPayload : string; EDescriptor : option VMDiskChain;
  EReference : string; EDigest : string; EDigestMatch : option bool;
  ELayers : list layerCheck; EWarnings : list string; EFailures : list string }.

Definition envPayloadVerified : string := "verified".
Definition envPayloadMismatch : string := "MISMATCH".
Definition envPayloadMissing : string := "missing".
Definition envPayloadNone : string := "none".

Definition with_type (e : envReport) (t : string) : envReport :=
  mkEnv t (ELabel e) (EPayload e) (EDescriptor e) (EReference e) (EDigest e) (EDigestMatch e) (ELayers e) (EWarnings e) (EFailures e).
Definition with_payload (e : envReport) (p : string) : envReport :=
  mkEnv (EType e) (ELabel e) p (EDescriptor e) (EReference e) (EDigest e) (EDigestMatch e) (ELayers e) (EWarnings e) (EFailures e).
Definition with_descriptor (e : envReport) (d : VMDiskChain) : envReport :=
  mkEnv (EType e) (ELabel e) (EPayload e) (Some d) (EReference e) (EDigest e) (EDigestMatch e) (ELayers e) (EWarnings e) (EFailures e).
Definition with_image (e : envReport) (r d : string) (m : option bool) : envReport :=
  mkEnv (EType e) (ELabel e) (EPayload e) (EDescriptor e) r d m (ELayers e) (EWarnings e) (EFailures e).
Definition add_layer (e : envReport) (c : layerCheck) : envReport :=
  mkEnv (EType e) (ELabel e) (EPayload e) (EDescriptor e) (EReference e) (EDigest e) (EDigestMatch e) (ELayers e ++ [c])%list (EWarnings e) (EFailures e).
Definition add_warning (e : envReport) (s : string) : envReport :=
  mkEnv (EType e) (ELabel e) (EPayload e) (EDescriptor e) (EReference e) (EDigest e) (EDigestMatch e) (ELayers e) (EWarnings e ++ [s])%list (EFailures e).
Definition add_failure (e : envReport) (s : string) : envReport :=
  mkEnv (EType e) (ELabel e) (EPayload e) (EDescriptor e) (EReference e) (EDigest e) (EDigestMatch e) (ELayers e) (EWarnings e) (EFailures e ++ [s])%list.
Definition no_env (t label payload : string) (warnings : list string) : envReport :=
  mkEnv t label payload None "" "" None [] warnings [].

(** [m[k].(string)], empty when there is no such string. *)
Definition text_of (v : option any) : string := match v with Some (AText s) => s | _ => "" end.
Fixpoint map_get (m : list (string * any)) (k : string) : option any :=
  match m with [] => None | (k', v) :: m' => if decide (k' = k) then Some v else map_get m' k end.
Definition text_at (m : list (string * any)) (k : string) : string := text_of (map_get m k).

(** [isEnvSchema] *)
Definition isEnvSchema (idx : byte) (schemas : list string) : bool :=
  if byte_val idx >=? len schemas then false
  else Text.Contains (nth (Z.to_nat (byte_val idx)) schemas "") "environment".

Definition failed (e : option envReport) : bool :=
  match e with None => false | Some e => 0 <? len (EFailures e) end.

Section Checks.
Context {HO : HashOps} {EO : Ed25519Ops} {CO : CborOps} {JO : JsonOps} {HP : HostPaths} {RO : Rendering}.
(** What [cbor.Unmarshal] leaves in a map when it fails. *)
Context (cbor_partial : bytes -> list (string * any)).

Definition is_dir (d : disk) (p : string) : bool := bool_decide (is_Some (d_dirs d !! resolve p)).

(** [os.ReadFile], [os.ReadDir] *)
Definition ReadFile (d : disk) (p : string) : result bytes :=
  if is_dir d p then Err (Sentinel "is a directory")
  else let? f := stat (d_host d) (resolve p) in
       match fReadErr f with Some e => Err e | None => Ok (fContent f) end.
Definition ReadDir (d : disk) (p : string) : result (list string) :=
  match d_dirs d !! resolve p with Some es => Ok es | None => Err ENOENT end.

(** One layer's check, and the failure it adds. *)
Definition check_layer (h : host) (l : DiskLayer) : string :=
  match HashFileSHA256 h (LPath l) with
  | r =>
      if decide (LPath l = "") then "unreadable"
      else match r with
           | Err e => if decide (e = ENOENT) then "missing" else "unreadable"
           | Ok sum => if decide (sum = LSHA256 l) then "ok" else "MISMATCH"
           end
  end.

Definition verify_layer (h : host) (e : envReport) (l : DiskLayer) : envReport :=
  let status := check_layer h l in
  let e := if decide (status = "MISMATCH")
           then add_failure e ("layer " ++ LName l ++ " at " ++ LPath l ++ " no longer matches the ledger") else e in
  add_layer e (mkCheck (LName l) (LPath l) status).

Definition verifyLayers (h : host) (e : envReport) (d : VMDiskChain) : envReport :=
  foldl (verify_layer h) e (Layers d).

(** [decodePayload] *)
Definition decodePayload (e : envReport) (payload : bytes) (rec : Rec) : envReport :=
  match EnvironmentType payload with
  | Err err => add_failure e ("environment payload: " ++ Error err)
  | Ok t =>
      let e := if negb (bool_decide (ELabel e = "")) && negb (bool_decide (NormalizeEnvType (ELabel e) = t))
               then add_warning e ("unsigned header label " ++ Quote (ELabel e) ++
                                   " disagrees with the signed payload's type " ++ Quote t)
               else e in
      let e := with_type e t in
      if decide (t = EnvTypeVMDiskChain) then
        match DecodeVMDiskChain payload with
        | Err err => add_failure e (Error err)
        | Ok d => with_descriptor e d
        end
      else if decide (t = EnvTypeOCIImage) then
        let raw := default [] (Metadata rec) in
        let meta := match cbor_unmarshal_map raw with Ok m => m | Err _ => cbor_partial raw end in
        let digest := text_at meta "digest" in
        with_image e (text_at meta "reference") digest
          (if decide (digest = "") then None
           else Some (bool_decide (digest = "sha256:" ++ content_sha payload)))
      else add_warning e ("unknown environment type " ++ t ++ "; only the payload hash was checked")
  end.

(** [checkEnvironment] *)
Definition checkEnvironment (d : disk) (res : VerifyResult) (ledgerDir : string) (verifyDisks : bool) : option envReport :=
  let h := VHeader res in
  let label := text_at (default [] (Environment (Meta h))) "type" in
  match EnvironmentRecord h (Records res) with
  | None =>
      if decide (label = "") then None
      else Some (no_env (NormalizeEnvType label) label envPayloadNone
                   ["header names an environment but the ledger records none (written before typed environments)"])
  | Some rec =>
      let e := no_env (NormalizeEnvType label) label "" [] in
      match ReadFile d (Join ledgerDir Collector.EnvironmentFile) with
      | Err _ => Some (with_payload e envPayloadMissing)
      | Ok payload =>
          let bad := match ComputeHashBlock (Hashes (Meta h)) payload with
                     | Err _ => true
                     | Ok want => negb (bool_decide (want = default [] (HashBlock rec))) ||
                                  negb (AbsPayloadSize rec =? len payload)
                     end in
          if bad then
            Some (add_failure (with_payload e envPayloadMismatch)
                    (Collector.EnvironmentFile ++ " does not match the signed environment record"))
          else
            let e := decodePayload (with_payload e envPayloadVerified) payload rec in
            Some (match EDescriptor e with
                  | Some c => if verifyDisks then verifyLayers (d_host d) e c else e
                  | None => e
                  end)
      end
  end.
End Checks.

(** ** Printing the environment *)
Definition shortHex (s : string) : string := if slen s >? 12 then String.substring 0 12 s else s.

Definition describeSource (s : LayerSource) : string :=
  if decide (Kind s = SourceURL) then
    if Pinned s then "url (pinned) " ++ URL s else "url " ++ URL s
  else if decide (Kind s = SourcePrepared) then
    "prepared by " ++ PreparedBy s ++ " from " ++ Itoa (len (Inputs s)) ++ " input(s)"
  else Kind s.

Fixpoint layer_lines (ls : list DiskLayer) (checks : list layerCheck) : string :=
  match ls with
  | [] => ""
  | l :: ls' =>
      "    " ++ pad_right 8 (Role l) ++ " " ++ LName l ++ "  " ++ humanBytes (LSize l) ++ "  sha256:" ++
      shortHex (LSHA256 l) ++ "  " ++ describeSource (Source l) ++
      match checks with c :: _ => "  [" ++ kStatus c ++ "]" | [] => "" end ++ newline ++
      layer_lines ls' (tail checks)
  end.

Definition lines (prefix : string) (l : list string) : string :=
  String.concat "" ((fun s => prefix ++ s ++ newline) <$> l).

Definition print_descriptor (e : envReport) (d : VMDiskChain) : string :=
  "    " ++ Driver d ++ " " ++ GuestOS d ++ "/" ++ Arch d ++
  (if Generation d =? 0 then "" else " gen" ++ Itoa (Generation d)) ++ newline ++
  layer_lines (Layers d) (ELayers e) ++
  (if 0 <? len (Seed d) then "    seed     " ++ Itoa (len (Seed d)) ++ " per-build files" ++ newline else "").

Definition printEnvironment (e : option envReport) : string :=
  match e with
  | None => ""
  | Some e =>
      "  ENVIRONMENT  " ++ EType e ++ "  payload " ++ EPayload e ++ newline ++
      match EDescriptor e with Some d => print_descriptor e d | None => "" end ++
      (if decide (EReference e = "" /\ EDigest e = "") then ""
       else "    " ++ EReference e ++ " " ++ EDigest e ++
            match EDigestMatch e with
            | Some false => " (not the payload's own hash: the runtime re-serialized the manifest, or the digest names an index)"
            | _ => ""
            end ++ newline) ++
      lines "    warning: " (EWarnings e) ++ lines "    FAIL: " (EFailures e)
  end.

(** ** Records *)
Section Records.
Context {CO : CborOps}.

Definition decoded (r : Rec) : option (list (string * any)) :=
  match Metadata r with
  | None => None
  | Some m => match cbor_unmarshal_map m with Ok kvs => Some kvs | Err _ => None end
  end.

(** Up to the first [:] or [/], all of it when there is none. *)
Fixpoint until_sep (s : string) : string :=
  match s with
  | EmptyString => ""
  | String c s' => if decide (c = ":"%char \/ c = "/"%char) then "" else String c (until_sep s')
  end.

Definition extractHost (r : Rec) : string :=
  match decoded r with
  | None => ""
  | Some m => until_sep (TrimPrefix (TrimPrefix (text_at m "url") "http://") "https://")
  end.

Definition friendlyURL (url : string) : string :=
  if HasPrefix url "http://cwd/" then TrimPrefix url "http://cwd"
  else if HasPrefix url "http://artifacts/" then TrimPrefix url "http://artifacts"
  else url.

Definition metaSummary (r : Rec) : string :=
  match decoded r with
  | None => ""
  | Some m =>
      let method := text_at m "method" in let url := text_at m "url" in
      let name := text_at m "name" in let reference := text_at m "reference" in
      if negb (bool_decide (method = "")) && negb (bool_decide (url = "")) then method ++ " " ++ friendlyURL url
      else if negb (bool_decide (reference = "")) then reference
      else if negb (bool_decide (name = "")) then "→ " ++ name
      else ""
  end.

Definition resolveSchema (idx : byte) (schemas : list string) : string :=
  if decide (idx = SchemaNoMetadata) then ""
  else if byte_val idx <? len schemas then nth (Z.to_nat (byte_val idx)) schemas ""
  else "unknown(" ++ Itoa (byte_val idx) ++ ")".

(** What follows the last slash, all of it when there is none. *)
Definition after_last_slash (url : string) : string := List.last (Split url "/"%char) "".
Definition schemaShortName (url : string) : string :=
  let name := after_last_slash url in
  if Text.Contains url "/" then TrimSuffix name ".json" else url.

Definition dirArrow (dir : string) : string := if decide (dir = "in") then "▶" else "◀".
Definition sigStatus (valid : bool) : string := if valid then "✅" else "❌".

(** ** Channels *)

(** A channel: its open record, its checkpoints and the last record that
    closed it. *)
Record channel := mkChannel { ch_open : Rec; ch_checkpoints : list Rec; ch_close : option Rec }.

(** The map's pointers are indices into [ordered]. *)
Record chans := mkChans { c_map : gmap bytes nat; c_ordered : list channel }.

Definition channelColors : list string :=
  [ESC ++ "[36m"; ESC ++ "[33m"; ESC ++ "[35m"; ESC ++ "[32m"; ESC ++ "[34m"; ESC ++ "[91m"; ESC ++ "[96m"; ESC ++ "[93m"].
Definition colorReset : string := ESC ++ "[0m".
Definition colorContext : string := ESC ++ "[2m".
Definition colorArtifact : string := ESC ++ "[1;32m".
Definition colorEnv : string := ESC ++ "[1;35m".

Record colorTracker := mkTracker {
  openSet : gmap bytes Z; reservedSet : gmap bytes string; nextColor : Z; useColor : bool }.
Definition newColorTracker (useColor : bool) : colorTracker := mkTracker ∅ ∅ 0 useColor.

Definition reserve (ct : colorTracker) (sigKey : bytes) (color : string) : colorTracker :=
  mkTracker (openSet ct) (<[sigKey := color]> (reservedSet ct)) (nextColor ct) (useColor ct).

Definition assignOpen (ct : colorTracker) (sigKey : bytes) (rec : Rec) (schemas : list string) : colorTracker :=
  if isEnvSchema (SchemaIndex rec) schemas then reserve ct sigKey colorEnv
  else
    let host := extractHost rec in
    if decide (host = "cwd") then reserve ct sigKey colorContext
    else if decide (host = "artifacts") then reserve ct sigKey colorArtifact
    else mkTracker (<[sigKey := nextColor ct mod 8]> (openSet ct)) (reservedSet ct) (nextColor ct + 1) (useColor ct).

Definition channel_key (rec : Rec) : bytes :=
  if decide (Type_ rec = RecordOpen) then Signature rec else default [] (OpenSig rec).

Definition palette (i : Z) : string := nth (Z.to_nat i) channelColors "".

Definition colorFor (ct : colorTracker) (rec : Rec) : string :=
  if negb (useColor ct) then ""
  else match reservedSet ct !! channel_key rec with
       | Some c => c
       | None =>
           if decide (Type_ rec = RecordOpen) then palette (default 0 (openSet ct !! Signature rec))
           else match OpenSig rec with
                | Some o => match openSet ct !! o with Some idx => palette idx | None => palette 0 end
                | None => palette 0
                end
       end.

Definition isReserved (ct : colorTracker) (rec : Rec) : bool :=
  bool_decide (is_Some (reservedSet ct !! channel_key rec)).

Definition closeChannel (ct : colorTracker) (rec : Rec) : colorTracker :=
  match OpenSig rec with
  | Some o => mkTracker (delete o (openSet ct)) (delete o (reservedSet ct)) (nextColor ct) (useColor ct)
  | None => ct
  end.

Definition add_checkpoint (rec : Rec) (ch : channel) : channel :=
  mkChannel (ch_open ch) (ch_checkpoints ch ++ [rec])%list (ch_close ch).
Definition set_close (rec : Rec) (ch : channel) : channel :=
  mkChannel (ch_open ch) (ch_checkpoints ch) (Some rec).

(** Through the pointer the map holds. *)
Definition update_channel (f : channel -> channel) (rec : Rec) (cs : chans) : chans :=
  match c_map cs !! default [] (OpenSig rec) with
  | Some i => mkChans (c_map cs) (alter f i (c_ordered cs))
  | None => cs
  end.

(** [groupRecord] *)
Definition groupRecord (rec : Rec) (cs : chans) (ct : colorTracker) (schemas : list string) : chans * colorTracker :=
  if decide (Type_ rec = RecordOpen) then
    (mkChans (<[Signature rec := length (c_ordered cs)]> (c_map cs)) (c_ordered cs ++ [mkChannel rec [] None])%list,
     assignOpen ct (Signature rec) rec schemas)
  else if decide (Type_ rec = RecordCheckpoint) then (update_channel (add_checkpoint rec) rec cs, ct)
  else if decide (Type_ rec = RecordClose \/ Type_ rec = RecordArtifact) then (update_channel (set_close rec) rec cs, ct)
  else (cs, ct).

(** ** Printing records *)

(** [hex.EncodeToString(b[:n])]: slicing past the capacity panics. *)
Definition hex_prefix (n : nat) (b : bytes) : option string :=
  if len b <? Z.of_nat n then None else Some (Writer.hex_encode (take n b)).

Definition reservedTypeLabel (r : Rec) (schemas : list string) : string :=
  if isEnvSchema (SchemaIndex r) schemas then "ENVIRONMENT"
  else if decide (extractHost r = "cwd") then "CONTEXT"
  else if decide (extractHost r = "artifacts") then "ARTIFACT"
  else "OPEN".

Definition channelLabel (openSig : option bytes) (useColor : bool) : option string :=
  match openSig with
  | None => Some ""
  | Some o => if useColor then Some "" else h ← hex_prefix 4 o; Some (" [" ++ h ++ "]")
  end.

Definition sig_label (verbosity : Z) (r : Rec) : option string :=
  if verbosity >=? 2 then
    s ← hex_prefix 8 (Signature r);
    match HashBlock r with
    | Some b => h ← hex_prefix 8 b; Some (" sig=" ++ s ++ " hash=" ++ h)
    | None => Some (" sig=" ++ s)
    end
  else Some "".

(** [printEntryTree]; [seq] counts from 0. *)
Definition printEntryTree (seq : Z) (r : Rec) (color : string) (useColor : bool) (verbosity : Z)
    (schemas : list string) (ct : colorTracker) : option string :=
  let coloured := useColor && negb (bool_decide (color = "")) in
  let reset := if coloured then colorReset else "" in
  let color := if coloured then color else "" in
  sigLabel ← sig_label verbosity r;
  let s := resolveSchema (SchemaIndex r) schemas in
  let schemaLabel := if decide (s = "") then "" else " [" ++ schemaShortName s ++ "]" in
  let head := "[" ++ pad_left 3 (Itoa (seq + 1)) ++ "] ✅ " ++ color in
  let size := "(" ++ Itoa (AbsPayloadSize r) ++ " bytes)" in
  if decide (Type_ r = RecordOpen) then
    let typeLabel := if isReserved ct r then reservedTypeLabel r schemas else "OPEN" in
    Some (head ++ typeLabel ++ " " ++ metaSummary r ++ schemaLabel ++ sigLabel ++ reset ++ newline)
  else if decide (Type_ r = RecordCheckpoint) then
    openLabel ← channelLabel (OpenSig r) useColor;
    Some (head ++ " ├─ CHECKPOINT " ++ dirArrow (Direction r) ++ " " ++ Direction r ++ " " ++ size ++
          schemaLabel ++ openLabel ++ sigLabel ++ reset ++ newline)
  else if decide (Type_ r = RecordClose) then
    openLabel ← channelLabel (OpenSig r) useColor;
    Some (head ++ " └─ CLOSE " ++ dirArrow (Direction r) ++ " " ++ Direction r ++ " " ++ size ++
          schemaLabel ++ openLabel ++ sigLabel ++ reset ++ newline)
  else if decide (Type_ r = RecordArtifact) then
    openLabel ← channelLabel (OpenSig r) useColor;
    Some (head ++ " └─ ARTIFACT " ++ metaSummary r ++ " " ++ size ++
          schemaLabel ++ openLabel ++ sigLabel ++ reset ++ newline)
  else Some "".

(** [printCompact] *)
Definition printCompact (ch : channel) (noColor : bool) (schemas : list string) : string :=
  let m := metaSummary (ch_open ch) in
  let meta := match ch_close ch with
              | Some c => if decide (m = "") then metaSummary c else m
              | None => m
              end in
  let '(status, size) :=
    match ch_close ch with
    | Some c => (if decide (Type_ c = RecordArtifact) then " ARTIFACT" else "", AbsPayloadSize c)
    | None => (" UNCLOSED", 0)
    end in
  let host := extractHost (ch_open ch) in
  let isEnv := isEnvSchema (SchemaIndex (ch_open ch)) schemas in
  let named (s : string) := if decide (status = "") then s else status in
  let '(color, status) :=
    if isEnv then (colorEnv, named " ENVIRONMENT")
    else if decide (host = "cwd") then (colorContext, named " CONTEXT")
    else if decide (host = "artifacts") then (colorArtifact, status)
    else ("", status) in
  let prefix := if noColor then "" else color in
  let suffix := if noColor || bool_decide (color = "") then "" else colorReset in
  prefix ++ "✅" ++ status ++ " " ++ meta ++ " (" ++ Itoa size ++ " bytes)" ++ suffix ++ newline.
End Records.

(** ** The human report *)
Definition rule : string := repeat_str "═" 80 ++ newline.

Section Report.
Context {HO : HashOps} {EO : Ed25519Ops} {CO : CborOps}.

(** [verifyHeader]: [ed25519.Verify] panics on a key of another length. *)
Definition verifyHeader (h : Header) : option bool :=
  if negb (len (PubKey h) =? PublicKeySize) then None
  else Some (ed_verify (PubKey h) (sha512 (PrefixBytes h)) (HSignature h)).

(** The records' loop of [printHuman], from index [i]. *)
Fixpoint print_records (verbosity : Z) (schemas : list string) (i : Z) (rs : list Rec) (cs : chans) (ct : colorTracker) :
    option (string * chans) :=
  match rs with
  | [] => Some ("", cs)
  | rec :: rs' =>
      let '(cs, ct) := groupRecord rec cs ct schemas in
      line ← (if verbosity >=? 1
              then printEntryTree i rec (colorFor ct rec) (useColor ct) verbosity schemas ct
              else Some "");
      let ct := if (verbosity >=? 1) && bool_decide (Type_ rec = RecordClose \/ Type_ rec = RecordArtifact)
                then closeChannel ct rec else ct in
      '(text, cs) ← print_records verbosity schemas (i + 1) rs' cs ct;
      Some (line ++ text, cs)
  end.

(** int64 addition wraps. *)
Definition total_bytes (rs : list Rec) : Z := foldl (fun acc r => to_int64 (acc + AbsPayloadSize r)) 0 rs.
Definition count_type (t : byte) (rs : list Rec) : Z := len (List.filter (fun r => bool_decide (Type_ r = t)) rs).

Definition printSummary (res : VerifyResult) (requestCount : Z) (captures : option (string * Z)) : string :=
  let artifacts := count_type RecordArtifact (Records res) in
  newline ++ rule ++
  "  SUMMARY: " ++ Itoa (TotalRecords res) ++ " records, " ++ Itoa requestCount ++ " requests, " ++
  humanBytes (total_bytes (Records res)) ++ " audited" ++
  (if 0 <? artifacts then ", " ++ Itoa artifacts ++ " artifact(s)" else "") ++ newline ++
  (if SigErrors res =? 0 then "  SIGNATURES: ✅ All " ++ Itoa (TotalRecords res + 1) ++ " signatures valid" ++ newline
   else "  SIGNATURES: ❌ " ++ Itoa (SigErrors res) ++ " signature error(s)" ++ newline) ++
  (if 0 <? Unclosed res then "  COMPLETENESS: ❌ " ++ Itoa (Unclosed res) ++ " unclosed channels" ++ newline
   else "  COMPLETENESS: ✅ All channels closed" ++ newline) ++
  match captures with
  | Some (dir, n) => "  CAPTURES: " ++ Itoa n ++ " payload(s) saved in " ++ dir ++ newline
  | None => ""
  end ++ rule.

Definition printHuman (res : VerifyResult) (env : option envReport) (verbosity : Z)
    (captures : option (string * Z)) (noColor : bool) : option string :=
  let h := VHeader res in
  headerValid ← verifyHeader h;
  let schemas := Schemas (Meta h) in
  '(records, cs) ← print_records verbosity schemas 0 (Records res) (mkChans ∅ [])
                     (newColorTracker ((verbosity >=? 1) && negb noColor));
  Some (rule ++
    "  LEDGER  scheme=" ++ SigScheme h ++ "  hashes=" ++ strings_v (Hashes (Meta h)) ++ "  " ++ sigStatus headerValid ++ newline ++
    (if verbosity >=? 1 then
       "  sig_size=" ++ Itoa (SigSize h) ++ "  hash_block_size=" ++ Itoa (HashBlockSize h) ++
       "  pub_key_len=" ++ Itoa (PubKeyLen h) ++ newline ++
       "  schemas=" ++ strings_v schemas ++ newline ++
       "  environment: " ++ any_v (AStrMap (default [] (Environment (Meta h)))) ++ newline
     else "") ++
    printEnvironment env ++ rule ++ records ++
    (if verbosity =? 0 then String.concat "" ((fun ch => printCompact ch noColor schemas) <$> c_ordered cs) else "") ++
    printSummary res (len (c_ordered cs)) captures).

(** ** The JSON report *)
Record jsonHeader := mkJsonHeader {
  jVersion : Z; jSigScheme : string; jSigSize : Z; jHashBlockSize : Z; jPubKey : string; jHSignature : string;
  jHashes : list string; jSchemas : list string; jHEnvironment : option (list (string * any)); jHValid : bool }.

Record jsonRecord := mkJsonRecord {
  jSeq : Z; jType : string; jDirection : string; jBytes : Z; jSchema : string; jPrevSig : string;
  jSignature : string; jOpenSig : string; jHashBlock : string; jMetadata : option (list (string * any)) }.

Record jsonSummary := mkJsonSummary {
  jTotalRecords : Z; jRequests : Z; jBytesAudited : Z; jArtifacts : Z; jCaptures : Z;
  jSigErrors : Z; jUnclosed : Z; jValid : bool }.

Record jsonReport := mkJsonReport {
  jHeader : jsonHeader; jEnvironment : option envReport; jRecords : list jsonRecord; jSummary : jsonSummary }.

(** Setting a key keeps the place of an earlier one. *)
Fixpoint map_set (m : list (string * any)) (k : string) (v : any) : list (string * any) :=
  match m with
  | [] => [(k, v)]
  | (k', v') :: m' => if decide (k' = k) then (k, v) :: m' else (k', v') :: map_set m' k v
  end.

(** [normalizeForJSON]: every map becomes a string map. *)
Fixpoint normalizeForJSON (v : any) : any :=
  match v with
  | AMap m => AStrMap (foldl (fun out kv => map_set out kv.1 kv.2) []
                (List.map (fun kv => (any_v (fst kv), normalizeForJSON (snd kv))) m))
  | AStrMap m => AStrMap (List.map (fun kv => (fst kv, normalizeForJSON (snd kv))) m)
  | AArray l => AArray (List.map normalizeForJSON l)
  | _ => v
  end.

Definition normalize_map (m : list (string * any)) : option (list (string * any)) :=
  match normalizeForJSON (AStrMap m) with AStrMap m => Some m | _ => None end.

Definition json_record (schemas : list string) (i : Z) (rec : Rec) : jsonRecord :=
  mkJsonRecord (i + 1) (TypeName rec) (Direction rec) (AbsPayloadSize rec) (resolveSchema (SchemaIndex rec) schemas)
    (base64 (PrevSig rec)) (base64 (Signature rec))
    match OpenSig rec with Some o => base64 o | None => "" end
    match HashBlock rec with Some b => Writer.hex_encode b | None => "" end
    (m ← decoded rec; normalize_map m).

Fixpoint json_records (schemas : list string) (i : Z) (rs : list Rec) : list jsonRecord :=
  match rs with [] => [] | rec :: rs' => json_record schemas i rec :: json_records schemas (i + 1) rs' end.

Definition jsonReport_of (res : VerifyResult) (env : option envReport) (captures : Z) : option jsonReport :=
  let h := VHeader res in
  headerValid ← verifyHeader h;
  let rs := Records res in
  Some (mkJsonReport
    (mkJsonHeader (byte_val (Version h)) (SigScheme h) (SigSize h) (HashBlockSize h) (base64 (PubKey h))
       (base64 (HSignature h)) (Hashes (Meta h)) (Schemas (Meta h)) (m ← Environment (Meta h); normalize_map m) headerValid)
    env (json_records (Schemas (Meta h)) 0 rs)
    (mkJsonSummary (TotalRecords res) (count_type RecordOpen rs) (total_bytes rs) (count_type RecordArtifact rs)
       captures (SigErrors res) (Unclosed res) (Valid res))).
End Report.

(** ** The command *)
Section Command.
Context {HO : HashOps} {EO : Ed25519Ops} {CO : CborOps} {JO : JsonOps} {HP : HostPaths} {RO : Rendering}.
Context (cbor_partial : bytes -> list (string * any)).
(** zstd's [DecodeAll] and the encoding of a report. *)
Context (decompress : bytes -> result bytes) (encode : jsonReport -> result string).
(** What a write of a file meets: nothing, or an error after some bytes landed
    ([None]: none did, the file was not created), and [os.MkdirAll]'s error. *)
Context (write_fault : string -> option (option nat)) (mkdir_fault : string -> option error).

Definition verification_failed (res : VerifyResult) : error :=
  Errorf "ledger verification failed: %d signature error(s)" [Itoa (SigErrors res)].

Definition printJSON (res : VerifyResult) (env : option envReport) (captures : Z) : option (string * option error) :=
  report ← jsonReport_of res env captures;
  Some match encode report with
       | Err e => ("", Some (Wrap "encoding JSON" e))
       | Ok text => (text, if negb (Valid res) then Some (verification_failed res) else None)
       end.

(** [os.WriteFile]: what lands, and whether it reported an error. *)
Definition put_file (d : disk) (p : string) (b : bytes) : disk :=
  mkDisk (mkHost (<[resolve p := mkFile b 0 None]> (files (d_host d))) (cache (d_host d))) (d_dirs d) (d_links d).

Definition WriteFile (d : disk) (p : string) (b : bytes) : disk * bool :=
  if is_dir d p then (d, false)
  else match write_fault p with
       | Some None => (d, false)
       | Some (Some n) => (put_file d p (take n b), false)
       | None => (put_file d p b, true)
       end.

Definition MkdirAll (d : disk) (p : string) : disk * option error :=
  match mkdir_fault p with
  | Some e => (d, Some e)
  | None =>
      if is_dir d p then (d, None)
      else match files (d_host d) !! resolve p with
           | Some _ => (d, Some (Sentinel "not a directory"))
           | None => (mkDisk (d_host d) (<[resolve p := []]> (d_dirs d)) (d_links d), None)
           end
  end.

Definition extract_source (d : disk) (capturesDir name : string) : string :=
  let symPath := Join capturesDir name in
  match d_links d !! symPath with Some target => Join capturesDir target | None => symPath end.

(** One entry of the loop: the count and the size extracted so far. *)
Definition extract_one (capturesDir destDir : string) (st : disk * (Z * Z)) (name : string) : disk * (Z * Z) :=
  let '(d, (count, totalSize)) := st in
  match ReadFile d (extract_source d capturesDir name) with
  | Err _ => st
  | Ok data =>
      match WriteFile d (Join destDir name) data with
      | (d, false) => (d, (count, totalSize))
      | (d, true) => (d, (count + 1, to_int64 (totalSize + len data)))
      end
  end.

Definition extractPayloads (d : disk) (capturesDir destDir : string) : disk * result string :=
  match MkdirAll d destDir with
  | (d, Some e) => (d, Err (Wrap "creating extract dir" e))
  | (d, None) =>
      match ReadDir d capturesDir with
      | Err e => (d, Err (Wrap "reading captures dir" e))
      | Ok entries =>
          let '(d, (count, totalSize)) := foldl (extract_one capturesDir destDir) (d, (0, 0)) entries in
          (d, Ok ("Extracted " ++ Itoa count ++ " payloads (" ++ humanBytes totalSize ++ ") to " ++ destDir ++ newline))
      end
  end.

Definition countCaptures (d : disk) (capturesDir : string) : Z :=
  match ReadDir d capturesDir with Ok es => len es | Err _ => 0 end.

Definition readLedger (d : disk) (path : string) : result bytes :=
  let? data := ReadFile d path in
  if HasSuffix path ".zst" then decompress data else Ok data.

(** After the ledger was verified: the text written and the error. *)
Definition report (d : disk) (res : VerifyResult) (opts : inspectOptions) (ledgerDir : string) (hasCaps : bool) :
    option (string * option error) :=
  let capturesDir := Join ledgerDir "captures" in
  let env := checkEnvironment cbor_partial d res ledgerDir (VerifyDisks opts) in
  '(text, err) ←
    (if JSON opts then printJSON res env (if hasCaps then countCaptures d capturesDir else 0)
     else
       text ← printHuman res env (Verbosity opts) (if hasCaps then Some (capturesDir, countCaptures d capturesDir) else None) (NoColor opts);
       Some (text, if negb (Valid res) then Some (verification_failed res) else None));
  Some (text,
    match err with
    | Some e => Some e
    | None => if failed env
              then Some (Errorf "environment verification failed: %s"
                           [match env with Some e => nth 0 (EFailures e) "" | None => "" end])
              else None
    end).

(** [runInspectImpl].  [Verify] always answers ([Verify_exact]). *)
Definition runInspectImpl (d : disk) (path : string) (opts : inspectOptions) : disk * option (string * option error) :=
  match readLedger d path with
  | Err e => (d, Some ("", Some e))
  | Ok data =>
      if negb (IsValidLedger data)
      then (d, Some ("", Some (Msg "not a valid BuildWarden ledger (invalid magic bytes)")))
      else match Reader.Verify data with
           | None => (d, None)
           | Some (Err e) => (d, Some ("", Some e))
           | Some (Ok res) =>
               let ledgerDir := Dir path in
               let capturesDir := Join ledgerDir "captures" in
               let hasCaps := is_dir d capturesDir in
               if negb (bool_decide (Extract opts = "")) && hasCaps then
                 match extractPayloads d capturesDir (Extract opts) with
                 | (d, Err e) => (d, Some ("", Some e))
                 | (d, Ok text) => (d, '(text', err) ← report d res opts ledgerDir hasCaps; Some (text ++ text', err))
                 end
               else (d, report d res opts ledgerDir hasCaps)
           end
  end.

(** [resolveLedgerPath] and the exit code of [runInspect]; a panic exits 2. *)
Definition stat_ok (d : disk) (p : string) : bool :=
  is_dir d p || bool_decide (is_Some (files (d_host d) !! resolve p)).

Definition resolveLedgerPath (d : disk) (path : string) : string :=
  if negb (is_dir d path) then path
  else if stat_ok d (Join path "ledger.zst") then Join path "ledger.zst"
  else if stat_ok d (Join path "ledger") then Join path "ledger"
  else path.

Definition runInspect (d : disk) (arg : string) (opts : inspectOptions) : Z :=
  match (runInspectImpl d (resolveLedgerPath d arg) opts).2 with
  | Some (_, None) => 0
  | Some (_, Some _) => 1
  | None => 2
  end.
End Command.
End Inspect.
