(* ===== verification/InspectSpec.v ===== *)
(** * What the inspect command promises

    Its verdict is the ledger's and the environment's, however it prints; the
    channels it shows are those of the ledger; the environment check says what
    it compared. *)
From S2P Require Import Prelude Text Crypto Ledger LedgerVerify Writer Environment Collector LayerCache Translate Session Fmt Inspect.

#[local] Open Scope Z_scope.

Module InspectSpec.
Import Reader Format LedgerSpec Environment LayerCache Fmt Inspect.

(** ** Channels *)
Section Channels.
Context {CO : CborOps}.

(** The records a channel gathers: [key] is its open signature. *)
Definition checkpoint_of (key : bytes) (r : Rec) : bool :=
  bool_decide (Type_ r = RecordCheckpoint /\ default [] (OpenSig r) = key).
Definition closer_of (key : bytes) (r : Rec) : bool :=
  bool_decide ((Type_ r = RecordClose \/ Type_ r = RecordArtifact) /\ default [] (OpenSig r) = key).
Definition is_open (r : Rec) : bool := bool_decide (Type_ r = RecordOpen).

Definition group (schemas : list string) (st : chans * colorTracker) (r : Rec) : chans * colorTracker :=
  groupRecord r st.1 st.2 schemas.

(** The grouping of [printHuman]'s loop does not depend on what it prints. *)
Definition step_chans (cs : chans) (r : Rec) : chans := (groupRecord r cs (newColorTracker false) []).1.

Lemma groupRecord_chans r cs ct schemas : (groupRecord r cs ct schemas).1 = step_chans cs r.
Proof. unfold step_chans, groupRecord. by repeat case_decide. Qed.

Lemma groupRecord_colors r cs ct schemas : useColor (groupRecord r cs ct schemas).2 = useColor ct.
Proof. unfold groupRecord, assignOpen, reserve. by repeat (case_decide || case_match). Qed.

(** What later records add to a channel. *)
Definition gather (key : bytes) (ch : channel) (rs : list Rec) : channel :=
  mkChannel (ch_open ch) (ch_checkpoints ch ++ List.filter (checkpoint_of key) rs)
    (match last (List.filter (closer_of key) rs) with Some c => Some c | None => ch_close ch end).

(** The channels of a ledger, defined record by record. *)
Definition new_channel (r : Rec) : channel := mkChannel r [] None.
Definition key (ch : channel) : bytes := Signature (ch_open ch).
Fixpoint channels_of (rs : list Rec) : list channel :=
  match rs with
  | [] => []
  | r :: rs' => if is_open r then gather (Signature r) (new_channel r) rs' :: channels_of rs' else channels_of rs'
  end.

Lemma gather_cons k ch r rs : gather k ch (r :: rs) = gather k (gather k ch [r]) rs.
Proof.
  unfold gather. cbn [ch_open ch_checkpoints ch_close List.filter]. f_equal.
  - rewrite <- app_assoc. f_equal. destruct (checkpoint_of k r); done.
  - destruct (closer_of k r); [|by destruct (last _)].
    rewrite last_cons. by destruct (last (List.filter _ rs)).
Qed.

Lemma gather_other k ch r : checkpoint_of k r = false -> closer_of k r = false -> gather k ch [r] = ch.
Proof. intros H1 H2. unfold gather. cbn [List.filter]. rewrite H1, H2. cbn. rewrite app_nil_r. by destruct ch. Qed.

Lemma gather_open k ch r : is_open r = true -> gather k ch [r] = ch.
Proof.
  intros Ho. apply bool_decide_eq_true in Ho. unfold checkpoint_of, closer_of.
  apply gather_other; apply bool_decide_eq_false; rewrite Ho; naive_solver.
Qed.

Lemma gather_nil k ch : gather k ch [] = ch.
Proof. unfold gather. cbn. rewrite app_nil_r. by destruct ch. Qed.

(** The map points at every channel, under its key. *)
Definition active (cs : chans) : Prop :=
  forall s i, c_map cs !! s = Some i <-> exists ch, c_ordered cs !! i = Some ch /\ key ch = s.

Lemma active_update cs r f :
  active cs -> (forall ch, key ch = default [] (OpenSig r) -> f ch = gather (key ch) ch [r]) ->
  (forall ch, key ch <> default [] (OpenSig r) -> gather (key ch) ch [r] = ch) ->
  c_ordered (update_channel f r cs) = (fun ch => gather (key ch) ch [r]) <$> c_ordered cs.
Proof.
  intros Ha Hf Hn. unfold update_channel. destruct (c_map cs !! _) as [i|] eqn:Em; cbn [c_ordered].
  - apply list_eq. intros j. rewrite list_lookup_fmap. destruct (decide (j = i)) as [->|Hj].
    + rewrite list_lookup_alter_eq. apply Ha in Em as (ch & -> & Hk). cbn. by rewrite Hf.
    + rewrite list_lookup_alter_ne by done. destruct (c_ordered cs !! j) as [ch|] eqn:Ej; [|done]. cbn.
      rewrite Hn; [done|]. intros Hk. assert (c_map cs !! default [] (OpenSig r) = Some j) by (apply Ha; eauto). congruence.
  - apply list_eq. intros j. rewrite list_lookup_fmap. destruct (c_ordered cs !! j) as [ch|] eqn:Ej; [|done]. cbn.
    rewrite Hn; [done|]. intros Hk. assert (c_map cs !! default [] (OpenSig r) = Some j) by (apply Ha; eauto). congruence.
Qed.

Lemma step_other cs r :
  active cs -> is_open r = false ->
  c_map (step_chans cs r) = c_map cs /\
  c_ordered (step_chans cs r) = (fun ch => gather (key ch) ch [r]) <$> c_ordered cs.
Proof.
  intros Ha Ho. apply bool_decide_eq_false in Ho. unfold step_chans, groupRecord. rewrite decide_False by done.
  case_decide as H2; [|case_decide as H3]; cbn [fst].
  - split; [by unfold update_channel; destruct (c_map cs !! _)|].
    apply (active_update cs r (add_checkpoint r) Ha); intros ch Hk; unfold gather, add_checkpoint; cbn [List.filter];
      unfold checkpoint_of, closer_of; rewrite (bool_decide_eq_false_2 ((_ \/ _) /\ _)) by (rewrite H2; naive_solver).
    + by rewrite bool_decide_eq_true_2.
    + rewrite bool_decide_eq_false_2 by naive_solver. cbn. rewrite app_nil_r. by destruct ch.
  - split; [by unfold update_channel; destruct (c_map cs !! _)|].
    apply (active_update cs r (set_close r) Ha); intros ch Hk; unfold gather, set_close; cbn [List.filter];
      unfold checkpoint_of, closer_of; rewrite (bool_decide_eq_false_2 (_ = RecordCheckpoint /\ _)) by naive_solver;
      rewrite app_nil_r.
    + by rewrite bool_decide_eq_true_2.
    + rewrite bool_decide_eq_false_2 by naive_solver. by destruct ch.
  - split; [done|]. symmetry. rewrite <- (list_fmap_id (c_ordered cs)) at 2. apply list_fmap_ext. intros _ ch _.
    apply gather_other; unfold checkpoint_of, closer_of; apply bool_decide_eq_false; naive_solver.
Qed.

Lemma step_opened cs r :
  is_open r = true ->
  step_chans cs r = mkChans (<[Signature r := length (c_ordered cs)]> (c_map cs)) (c_ordered cs ++ [new_channel r]).
Proof. intros Ho. apply bool_decide_eq_true in Ho. unfold step_chans, groupRecord. by rewrite decide_True. Qed.

Lemma active_step cs r :
  active cs -> (is_open r = true -> Signature r ∉ key <$> c_ordered cs) -> active (step_chans cs r).
Proof.
  intros Ha Hf. destruct (is_open r) eqn:Ho; cycle 1.
  { destruct (step_other cs r Ha Ho) as [Hm Hl]. intros s i. rewrite Hm, Hl, (Ha s i), list_lookup_fmap.
    split; [intros (ch & -> & Hk); by eexists|]. destruct (c_ordered cs !! i) as [ch|]; [|by intros (? & [=] & _)].
    intros (ch' & [= <-] & Hk). by exists ch. }
  rewrite step_opened by done. specialize (Hf eq_refl). intros s i. cbn [c_map c_ordered].
  rewrite lookup_insert_Some, (Ha s i). setoid_rewrite lookup_app_Some. split.
  - intros [[<- <-]|[_ (ch & Hc & Hk)]]; [|exists ch; split; [by left|done]].
    exists (new_channel r). split; [|done]. right. by rewrite Nat.sub_diag.
  - intros (ch & [Hc|[Hi Hc]] & Hk).
    + right. split; [|by exists ch]. intros Hs. destruct Hf. rewrite Hs, <- Hk. apply list_elem_of_fmap.
      exists ch. split; [done|]. by eapply list_elem_of_lookup_2.
    + left. apply list_lookup_singleton_Some in Hc as [Hz <-]. split; [done|]. lia.
Qed.

Definition open_sigs (rs : list Rec) : list bytes := Signature <$> List.filter is_open rs.

Lemma group_all cs rs :
  active cs -> NoDup ((key <$> c_ordered cs) ++ open_sigs rs) ->
  c_ordered (foldl step_chans cs rs) = ((fun ch => gather (key ch) ch rs) <$> c_ordered cs) ++ channels_of rs.
Proof.
  revert cs. induction rs as [|r rs IH]; intros cs Ha Hn; cbn [foldl channels_of].
  { rewrite app_nil_r. symmetry. rewrite <- (list_fmap_id (c_ordered cs)) at 2. apply list_fmap_ext.
    intros _ ch _. apply gather_nil. }
  unfold open_sigs in Hn. cbn [List.filter] in Hn. destruct (is_open r) eqn:Ho.
  - rewrite fmap_cons in Hn. rewrite IH.
    + rewrite (step_opened cs r Ho). cbn [c_ordered]. rewrite fmap_app, <- (assoc_L (++)). f_equal.
      apply list_fmap_ext. intros _ ch _. by rewrite (gather_cons _ _ r), gather_open.
    + apply active_step; [done|]. intros _ Hin. apply NoDup_app in Hn as (_ & Hd & _).
      apply (Hd (Signature r) Hin). by left.
    + rewrite (step_opened cs r Ho). cbn [c_ordered]. rewrite fmap_app, <- (assoc_L (++)). exact Hn.
  - destruct (step_other cs r Ha Ho) as [Hm Hl].
    rewrite IH; [|by apply active_step; [|by rewrite Ho]|].
    + rewrite Hl. rewrite <- list_fmap_compose. f_equal. apply list_fmap_ext. intros _ ch _.
      symmetry. apply (gather_cons (key ch) ch r rs).
    + rewrite Hl, <- list_fmap_compose. exact Hn.
Qed.

(** The loop groups a ledger whose open records have different signatures into
    exactly its channels. *)
Lemma grouped rs : NoDup (open_sigs rs) -> c_ordered (foldl step_chans (mkChans ∅ []) rs) = channels_of rs.
Proof.
  intros Hn. rewrite group_all; [done| |done]. intros s i. cbn. by split; [|intros (? & ? & _)].
Qed.

Lemma channels_opens rs : ch_open <$> channels_of rs = List.filter is_open rs.
Proof.
  induction rs as [|r rs IH]; [done|]. cbn [channels_of List.filter]. destruct (is_open r); [|done].
  rewrite fmap_cons, IH. done.
Qed.

Lemma channels_keys rs : key <$> channels_of rs = open_sigs rs.
Proof. unfold open_sigs. rewrite <- channels_opens, <- list_fmap_compose. done. Qed.

Definition unclosed (ch : channel) : bool := match ch_close ch with Some _ => false | None => true end.

(** Only close and artifact records name a channel they close. *)
Lemma closer_closes ss hs k r : wf_record ss hs r -> closer_of k r = true <-> closes k r.
Proof.
  intros [_ Ho _ _ _ _]. unfold closer_of, closes. rewrite bool_decide_eq_true.
  destruct (OpenSig r) as [o|] eqn:Eo; cbn [default].
  - naive_solver.
  - split; [|by intros [_ [=] ]]. intros [ [H|H] _]; by rewrite Ho in H.
Qed.

Lemma gather_unclosed ss hs r rs :
  Forall (wf_record ss hs) rs ->
  unclosed (gather (Signature r) (new_channel r) rs) = true <-> Forall (fun r' => ~ closes (Signature r) r') rs.
Proof.
  intros Hwf. unfold unclosed, gather. cbn [ch_close new_channel].
  destruct (last (List.filter (closer_of (Signature r)) rs)) as [c|] eqn:El.
  - split; [done|]. intros Hall. apply last_Some in El as [l El].
    assert (Hin : In c (List.filter (closer_of (Signature r)) rs)) by (rewrite El; apply in_or_app; right; by left).
    apply filter_In in Hin as [Hin Hc]. apply list_elem_of_In in Hin. rewrite Forall_forall in Hall, Hwf.
    destruct (Hall c Hin). by eapply closer_closes; [apply Hwf|].
  - split; [intros _|done]. apply last_None in El. rewrite Forall_forall in Hwf |- *. intros c Hin Hc.
    assert (Hf : In c (List.filter (closer_of (Signature r)) rs)).
    { apply filter_In. split; [by apply list_elem_of_In|]. by eapply closer_closes; [apply Hwf|]. }
    by rewrite El in Hf.
Qed.

(** The channels left open are those shown unclosed. *)
Lemma channels_left_open ss hs rs s :
  Forall (wf_record ss hs) rs -> s ∈ key <$> List.filter unclosed (channels_of rs) <-> left_open rs s.
Proof.
  induction rs as [|r rs IH]; intros Hwf.
  { split; [by intros ?%elem_of_nil|]. by intros (l & ? & ? & H & _); destruct l. }
  apply Forall_cons in Hwf as [Hr Hwf]. specialize (IH Hwf). rewrite left_open_cons. cbn [channels_of].
  destruct (is_open r) eqn:Ho; apply bool_decide_eq_true in Ho || apply bool_decide_eq_false in Ho.
  - cbn [List.filter]. pose proof (gather_unclosed ss hs r rs Hwf) as Hg.
    destruct (unclosed _); [|rewrite IH; split; [by left|intros [?|(_ & <- & H)]; [done|by apply Hg in H] ] ].
    rewrite fmap_cons, elem_of_cons, IH. change (key (gather _ _ _)) with (Signature r).
    split; [intros [->|?]; [right|by left]|intros [?|(_ & <- & _)]; [by right|by left] ].
    split_and!; [done|done|by apply Hg].
  - rewrite IH. split; [by left|intros [?|(? & _)]; done].
Qed.
End Channels.

(** The channels' keys are distinct when the open records' signatures are. *)
Lemma NoDup_filter_keys (f : channel -> bool) l : NoDup (key <$> l) -> NoDup (key <$> List.filter f l).
Proof.
  induction l as [|ch l IH]; cbn; [done|]. intros [Hn Hd]%NoDup_cons. specialize (IH Hd).
  destruct (f ch); [|done]. rewrite fmap_cons. apply NoDup_cons. split; [|done].
  intros Hin. destruct Hn. apply list_elem_of_fmap in Hin as (c & -> & Hc). apply list_elem_of_fmap.
  exists c. split; [done|]. apply list_elem_of_In in Hc. apply filter_In in Hc as [Hc _]. by apply list_elem_of_In.
Qed.

Section Loop.
Context {CO : CborOps}.

Lemma print_records_chans v schemas i rs cs ct text cs' :
  print_records v schemas i rs cs ct = Some (text, cs') -> cs' = foldl step_chans cs rs.
Proof.
  revert i cs ct text. induction rs as [|r rs IH]; intros i cs ct text; cbn [print_records foldl]; [by intros [= _ ->]|].
  pose proof (groupRecord_chans r cs ct schemas) as Hg. destruct (groupRecord r cs ct schemas) as [cs1 ct1]. cbn in Hg. subst cs1.
  destruct (if v >=? 1 then _ else _) as [line|]; [|done]. cbn [mbind option_bind].
  destruct (print_records _ _ _ _ _ _) as [ [t c]|] eqn:E; [|done]. cbn [mbind option_bind].
  intros [= _ <-]. by eapply IH.
Qed.

(** What printing a record slices. *)
Definition sigs_long (r : Rec) : Prop :=
  8 <= len (Signature r) /\ match OpenSig r with Some o => 4 <= len o | None => True end.
Definition hash_long (r : Rec) : Prop := match HashBlock r with Some b => 8 <= len b | None => True end.

Lemma hex_prefix_some n b : is_Some (hex_prefix n b) <-> Z.of_nat n <= len b.
Proof. unfold hex_prefix. destruct (Z.ltb_spec (len b) (Z.of_nat n)); [split; [by intros [? [=] ]|lia]|split; eauto]. Qed.

Lemma sig_label_some v r : sigs_long r -> is_Some (sig_label v r) <-> v < 2 \/ hash_long r.
Proof.
  intros [Hs _]. unfold sig_label, hash_long. rewrite Z.geb_leb. destruct (Z.leb_spec 2 v); [|split; [by left; lia|eauto] ].
  apply (hex_prefix_some 8) in Hs as [s ->]. cbn [mbind option_bind]. destruct (HashBlock r) as [b|].
  - pose proof (hex_prefix_some 8 b) as Hb. destruct (hex_prefix 8 b); cbn [mbind option_bind].
    + split; [intros _; right; apply Hb; eauto|eauto].
    + split; [by intros [? [=] ]|]. intros [?|H8]; [lia|]. apply Hb in H8. by destruct H8.
  - split; [by right|eauto].
Qed.

Lemma channelLabel_some r uc : sigs_long r -> is_Some (channelLabel (OpenSig r) uc).
Proof.
  intros [_ Ho]. unfold channelLabel. destruct (OpenSig r) as [o|]; [|eauto]. destruct uc; [eauto|].
  apply (hex_prefix_some 4) in Ho as [s ->]. cbn [mbind option_bind]. eauto.
Qed.

Lemma printEntryTree_some i r color uc v schemas ct :
  sigs_long r -> is_Some (printEntryTree i r color uc v schemas ct) <-> v < 2 \/ hash_long r.
Proof.
  intros Hr. rewrite <- (sig_label_some v r Hr). unfold printEntryTree.
  destruct (sig_label v r) as [sl|]; cbn [mbind option_bind]; [|split; by intros [? [=] ]].
  split; [eauto|]. intros _. destruct (channelLabel_some r uc Hr) as [ol ->]. cbn [mbind option_bind].
  repeat case_decide; eauto.
Qed.

Lemma print_records_some v schemas i rs cs ct :
  Forall sigs_long rs -> is_Some (print_records v schemas i rs cs ct) <-> v < 2 \/ Forall hash_long rs.
Proof.
  intros Hrs. revert i cs ct. induction Hrs as [|r rs Hr Hrs IH]; intros i cs ct; cbn [print_records].
  { split; [by right|eauto]. }
  destruct (groupRecord r cs ct schemas) as [cs1 ct1]. rewrite Z.geb_leb.
  destruct (Z.leb_spec 1 v) as [H1|H1].
  - pose proof (printEntryTree_some i r (colorFor ct1 r) (useColor ct1) v schemas ct1 Hr) as Hp.
    destruct (printEntryTree _ _ _ _ _ _ _) as [line|]; cbn [mbind option_bind].
    + set (ct2 := if _ && _ then _ else _). specialize (IH (i + 1) cs1 ct2). rewrite Forall_cons.
      destruct (print_records _ _ _ _ _ _) as [ [t c]|]; cbn [mbind option_bind].
      * split; [intros _|eauto]. destruct Hp as [Hp _], IH as [IH _]. specialize (Hp ltac:(eauto)). specialize (IH ltac:(eauto)).
        naive_solver.
      * split; [by intros [? [=] ]|]. intros H. exfalso. assert (Hx : v < 2 \/ Forall hash_long rs) by naive_solver.
        apply IH in Hx. by destruct Hx.
    + split; [by intros [? [=] ]|]. rewrite Forall_cons. intros H. exfalso.
      assert (Hx : v < 2 \/ hash_long r) by naive_solver. apply Hp in Hx. by destruct Hx.
  - cbn [mbind option_bind andb]. specialize (IH (i + 1) cs1 ct1). destruct (print_records _ _ _ _ _ _) as [ [t c]|].
    + split; [by left; lia|]. cbn [mbind option_bind]. eauto.
    + destruct IH as [_ IH]. specialize (IH ltac:(left; lia)). by destruct IH.
Qed.
End Loop.

(** ** The verdict *)
Section Verdict.
Context {HO : HashOps} {EO : Ed25519Ops} {CO : CborOps} {JO : JsonOps} {HP : HostPaths} {RO : Rendering}.
Context (cbor_partial : bytes -> list (string * any)).
Context (decompress : bytes -> result bytes) (encode : jsonReport -> result string).
Context (write_fault : string -> option (option nat)) (mkdir_fault : string -> option error).
(** [ed25519.Verify] refuses a signature of another length. *)
Context (ed_sig_len : forall pk m sig, ed_verify pk m sig = true -> len sig = SignatureSize).

Abbreviation runInspectImpl := (runInspectImpl cbor_partial decompress encode write_fault mkdir_fault).
Abbreviation checkEnvironment := (checkEnvironment cbor_partial).
Abbreviation extractPayloads := (extractPayloads write_fault mkdir_fault).

Lemma verified_lens pk m sig : verifyEd25519Sig pk m sig = true -> len pk = 32 /\ len sig = 64 /\ ed_verify pk (sha512 m) sig = true.
Proof using ed_sig_len.
  unfold verifyEd25519Sig. destruct (Z.eqb_spec (len pk) PublicKeySize); [|done]. cbn [negb]. intros H.
  by pose proof (ed_sig_len _ _ _ H).
Qed.

Lemma chain_verified pk prev rs : chain pk prev rs -> Forall (fun r => record_sig_ok pk r = true) rs.
Proof. induction 1; by constructor. Qed.

Lemma valid_prints h meta rs :
  wf_ledger h meta rs -> Valid (LedgerSpec.report h rs) = true -> verifyHeader h = Some true /\ Forall sigs_long rs.
Proof using ed_sig_len.
  intros [Hh Hrs] [Hv Hc]%report_valid. apply verified_lens in Hv as (Hk & Hs & Hv). split.
  - unfold verifyHeader. rewrite Hk. cbn [negb Z.eqb]. by rewrite Hv.
  - apply chain_verified in Hc. rewrite Forall_forall in Hc, Hrs |- *. intros r Hr.
    destruct (verified_lens _ _ _ (Hc r Hr)) as (_ & Hl & _). destruct (Hrs r Hr) as [_ Ho _ _ Hsg _].
    split; [lia|]. destruct (OpenSig r) as [o|]; [|done]. lia.
Qed.

(** What a report needs to come out, for a valid ledger. *)
Definition printable (d : disk) (res : VerifyResult) (opts : inspectOptions) (dir : string) (hasCaps : bool) : Prop :=
  if JSON opts
  then exists rep, jsonReport_of res (checkEnvironment d res dir (VerifyDisks opts))
                     (if hasCaps then countCaptures d (Join dir "captures") else 0) = Some rep /\ is_ok (encode rep) = true
  else Verbosity opts < 2 \/ Forall hash_long (Records res).

Lemma printHuman_some h rs env v caps noColor :
  verifyHeader h = Some true -> Forall sigs_long rs ->
  is_Some (printHuman (LedgerSpec.report h rs) env v caps noColor) <-> v < 2 \/ Forall hash_long rs.
Proof using Type.
  intros Hh Hrs. destruct (report_fields h rs) as (Hr & _ & HV & _). unfold printHuman. rewrite HV, Hr, Hh. cbn [mbind option_bind].
  rewrite <- (print_records_some v (Schemas (Meta h)) 0 rs (mkChans ∅ []) (newColorTracker ((v >=? 1) && negb noColor)) Hrs).
  destruct (print_records _ _ _ _ _ _) as [ [t c]|]; cbn [mbind option_bind]; [split; eauto|split; by intros [? [=] ] ].
Qed.

Lemma report_exit d h meta rs opts dir hasCaps :
  wf_ledger h meta rs ->
  let res := LedgerSpec.report h rs in
  let out := report cbor_partial encode d res opts dir hasCaps in
  ((exists text, out = Some (text, None)) <->
     Valid res = true /\ failed (checkEnvironment d res dir (VerifyDisks opts)) = false /\
     printable d res opts dir hasCaps) /\
  (out = None -> Valid res = false \/ (JSON opts = false /\ ~ printable d res opts dir hasCaps)).
Proof using ed_sig_len.
  intros Hwf res out. subst out. unfold report, printable.
  set (env := checkEnvironment d res dir (VerifyDisks opts)).
  destruct (report_fields h rs) as (Hr & _ & HV & _). fold res in Hr, HV.
  destruct (Valid res) eqn:Ev; cbn [negb].
  - destruct (valid_prints h meta rs Hwf Ev) as [Hh Hs]. destruct (JSON opts).
    + unfold printJSON. assert (exists rep, jsonReport_of res env (if hasCaps then countCaptures d (Join dir "captures") else 0) = Some rep) as [rep Hrep].
      { unfold jsonReport_of. rewrite HV, Hh. cbn [mbind option_bind]. eauto. }
      rewrite Hrep. cbn [mbind option_bind]. rewrite Ev. split; [|by destruct (encode rep)].
      destruct (encode rep) as [t|e] eqn:Ee; cbn [mbind option_bind negb].
      * destruct (failed env); split; [by intros [? [=] ]|by intros (_ & [=] & _)| |eauto].
        intros _. split_and!; [done|done|]. exists rep. by rewrite Ee.
      * split; [by intros [? [=] ]|]. intros (_ & _ & rep' & [= <-] & Hk). by rewrite Ee in Hk.
    + pose proof (printHuman_some h rs env (Verbosity opts)
        (if hasCaps then Some (Join dir "captures", countCaptures d (Join dir "captures")) else None) (NoColor opts) Hh Hs) as Hp.
      fold res in Hp. rewrite Hr. destruct (printHuman _ _ _ _ _) as [t|]; cbn [mbind option_bind].
      * split; [|by intros [=] ]. destruct (failed env); split; [by intros [? [=] ]|by intros (_ & [=] & _)| |eauto].
        intros _. split_and!; [done|done|]. apply Hp. eauto.
      * split; [split; [by intros [? [=] ]|]|].
        -- intros (_ & _ & H). apply Hp in H. by destruct H.
        -- intros _. right. split; [done|]. intros H. apply Hp in H. by destruct H.
  - split; [|by left]. split; [|by intros [ [=] _] ]. intros [text H]. exfalso. revert H. destruct (JSON opts).
    + unfold printJSON. destruct (jsonReport_of _ _ _) as [rep|]; [|done]. cbn [mbind option_bind]. rewrite Ev.
      by destruct (encode rep).
    + destruct (printHuman _ _ _ _ _); by cbn [mbind option_bind negb].
Qed.

(** C37.  The command's verdict.  However its report is printed, [warden
    inspect] returns no error exactly when the file is read, has the ledger's
    magic, parses and verifies with every signature valid, the extraction that
    was asked for worked and the environment check found no failure, and the
    report could be written: a JSON report encodes, and the -vv tree needs
    eight-byte hash blocks to abbreviate.  And it panics only on a ledger
    that does not verify, or for want of those eight bytes. *)
Theorem inspect_verdict d path opts :
  let out := runInspectImpl d path opts in
  let dir := Dir path in
  let hasCaps := is_dir d (Join dir "captures") in
  ((exists text, out.2 = Some (text, None)) <->
   exists data res, readLedger decompress d path = Ok data /\ IsValidLedger data = true /\
     Reader.Verify data = Some (Ok res) /\ Valid res = true /\
     (Extract opts <> ""%string -> hasCaps = true -> is_ok (extractPayloads d (Join dir "captures") (Extract opts)).2 = true) /\
     failed (checkEnvironment out.1 res dir (VerifyDisks opts)) = false /\ printable out.1 res opts dir hasCaps) /\
  (out.2 = None ->
   exists data res, readLedger decompress d path = Ok data /\ Reader.Verify data = Some (Ok res) /\
     (Valid res = false \/ JSON opts = false /\ 2 <= Verbosity opts /\ ~ Forall hash_long (Records res))).
Proof using ed_sig_len.
  intros out dir hasCaps. subst out. unfold Inspect.runInspectImpl.
  destruct (readLedger decompress d path) as [data|e] eqn:Er; cbn [fst snd].
  2: { split; [split; [by intros [? [=] ]|by intros (? & ? & [=] & _)]|done]. }
  destruct (IsValidLedger data) eqn:Em; cbn [negb fst snd].
  2: { split; [split; [by intros [? [=] ]|by intros (? & ? & [= <-] & ? & _); congruence]|done]. }
  pose proof (Verify_parsed data) as Hp.
  destruct (Reader.Verify data) as [ [res|e]|] eqn:Ev; [| |done]; cbn [fst snd].
  2: { split; [split; [by intros [? [=] ]|by intros (? & ? & [= <-] & _ & ? & _); congruence]|done]. }
  destruct Hp as (h & meta & rs & Hwf & _ & ->). set (res := LedgerSpec.report h rs) in *.
  fold dir. fold hasCaps. set (ex := negb _ && hasCaps).
  assert (Hpn : forall d', JSON opts = false -> ~ printable d' res opts dir hasCaps ->
    2 <= Verbosity opts /\ ~ Forall hash_long (Records res)).
  { intros d' Hj Hn. unfold printable in Hn. rewrite Hj in Hn. split; [|tauto]. destruct (Z.lt_ge_cases (Verbosity opts) 2); tauto. }
  assert (Hex : forall P, (Extract opts <> ""%string -> hasCaps = true -> P) <-> (ex = true -> P)).
  { intros P. subst ex. rewrite andb_true_iff, negb_true_iff, bool_decide_eq_false. tauto. }
  destruct ex eqn:Eex.
  - destruct (extractPayloads d _ _) as [d' [text|e] ] eqn:Ex; cbn [fst snd].
    + destruct (report_exit d' h meta rs opts dir hasCaps Hwf) as [Hiff Hpanic]. fold res in Hiff, Hpanic. split.
      * split.
        -- intros [t Ht]. destruct (report cbor_partial encode d' res opts dir hasCaps) as [ [t' e']|] eqn:Eo; [|done].
           cbn [mbind option_bind] in Ht. injection Ht as _ ->. destruct Hiff as [Hiff _].
           destruct (Hiff ltac:(eauto)) as (? & ? & ?). exists data, res. split_and!; done.
        -- intros (data' & res' & [= <-] & _ & He & Hv & _ & Hf & Hpr). rewrite Ev in He. injection He as <-.
           destruct Hiff as [_ Hiff]. destruct Hiff as [t ->]; [done|]. cbn [mbind option_bind]. eauto.
      * intros Hn. exists data, res. split_and!; [done|done|].
        destruct (report cbor_partial encode d' res opts dir hasCaps) as [ [t' e']|] eqn:Eo; [done|].
        destruct (Hpanic eq_refl) as [?|[? ?] ]; [by left|right]. split; [done|]. by eapply Hpn.
    + split; [|done]. split; [by intros [? [=] ]|].
      intros (data' & res' & _ & _ & _ & _ & Hok & _). by specialize (proj1 (Hex _) Hok eq_refl).
  - cbn [fst snd]. destruct (report_exit d h meta rs opts dir hasCaps Hwf) as [Hiff Hpanic]. fold res in Hiff, Hpanic. split.
    + rewrite Hiff. split; [intros (? & ? & ?); exists data, res; split_and!; try done; by apply Hex|].
      intros (data' & res' & [= <-] & _ & He & ? & _ & ? & ?). rewrite Ev in He. by injection He as <-.
    + intros Hn. exists data, res. split_and!; [done|done|]. destruct (Hpanic Hn) as [?|[? ?] ]; [by left|right].
      split; [done|]. by eapply Hpn.
Qed.
End Verdict.

(** ** The environment *)
Section Env.
Context {HO : HashOps} {EO : Ed25519Ops} {CO : CborOps} {JO : JsonOps} {HP : HostPaths} {RO : Rendering}.
Context (cbor_partial : bytes -> list (string * any)).

Abbreviation checkEnvironment := (checkEnvironment cbor_partial).

Definition layer_check (h : host) (l : DiskLayer) : layerCheck := mkCheck (LName l) (LPath l) (check_layer h l).

(** The failures the layers add: one for each that changed. *)
Lemma verifyLayers_spec h ls : forall e, let e' := foldl (verify_layer h) e ls in
  EType e' = EType e /\ EPayload e' = EPayload e /\ EDescriptor e' = EDescriptor e /\
  ELayers e' = (ELayers e ++ (layer_check h <$> ls))%list /\
  (EFailures e' = [] <-> EFailures e = [] /\ Forall (fun l => check_layer h l <> "MISMATCH"%string) ls).
Proof.
  induction ls as [|l ls IH]; intros e; cbn [foldl].
  { rewrite app_nil_r. split_and!; try done. split; [done|by intros [? _] ]. }
  destruct (IH (verify_layer h e l)) as (-> & -> & -> & -> & ->). unfold verify_layer. rewrite Forall_cons.
  case_decide as Hm; cbn; rewrite <- ?(assoc_L (++)); split_and!; try done.
  - split; [by intros [H _]; destruct (EFailures e)|by intros (_ & H & _)].
  - split; naive_solver.
Qed.

(** A layer is fine exactly when the file at its path has the recorded hash. *)
Lemma check_layer_ok h l :
  check_layer h l = "ok"%string <-> LPath l <> ""%string /\ HashFileSHA256 h (LPath l) = Ok (LSHA256 l).
Proof.
  unfold check_layer. cbv zeta. destruct (decide (LPath l = ""%string)); [naive_solver|].
  destruct (HashFileSHA256 h (LPath l)) as [sum|e]; [case_decide; naive_solver|]. case_decide; naive_solver.
Qed.

Lemma check_layer_mismatch h l :
  check_layer h l = "MISMATCH"%string <->
  LPath l <> ""%string /\ exists sum, HashFileSHA256 h (LPath l) = Ok sum /\ sum <> LSHA256 l.
Proof.
  unfold check_layer. cbv zeta. destruct (decide (LPath l = ""%string)); [naive_solver|].
  destruct (HashFileSHA256 h (LPath l)) as [sum|e]; [case_decide; naive_solver|]. case_decide; naive_solver.
Qed.

(** Whether a payload decodes as what it says it is. *)
Definition decodes (payload : bytes) : Prop :=
  exists t, EnvironmentType payload = Ok t /\ (t = EnvTypeVMDiskChain -> exists c, DecodeVMDiskChain payload = Ok c).

Definition chain_in (payload : bytes) : option VMDiskChain :=
  match EnvironmentType payload with
  | Ok t => if decide (t = EnvTypeVMDiskChain) then match DecodeVMDiskChain payload with Ok c => Some c | Err _ => None end else None
  | Err _ => None
  end.

Lemma decodePayload_spec e payload rec :
  EDescriptor e = None -> EFailures e = [] ->
  let e' := decodePayload cbor_partial e payload rec in
  EPayload e' = EPayload e /\ ELayers e' = ELayers e /\ EDescriptor e' = chain_in payload /\
  (EFailures e' = [] <-> decodes payload) /\ (forall t, EnvironmentType payload = Ok t -> EType e' = t).
Proof.
  intros Hd Hf. unfold decodePayload, decodes, chain_in. cbv zeta.
  destruct (EnvironmentType payload) as [t|err] eqn:Et; cycle 1.
  { cbn. split_and!; try done. rewrite Hf. split; [done|by intros (? & [=] & _)]. }
  set (e1 := if _ && _ then add_warning _ _ else e).
  assert (H1 : EPayload e1 = EPayload e /\ ELayers e1 = ELayers e /\ EDescriptor e1 = None /\ EFailures e1 = [])
    by (subst e1; destruct (_ && _); done).
  destruct H1 as (Hp & Hl & Hd1 & Hf1). case_decide as Hc.
  - destruct (DecodeVMDiskChain payload) as [c|err] eqn:Ed; cbn; (split_and!; try done; [|by intros ? [= <-] ]).
    + split; [intros _; exists t; split; [done|]; eauto|done].
    + rewrite Hf1. split; [done|]. intros (? & [= <-] & H). by destruct (H Hc).
  - case_decide; cbn; (split_and!; try done; [|by intros ? [= <-] ]); (split; [intros _; exists t; split; [done|by intros ->]|done]).
Qed.

Lemma failed_iff r : failed (Some r) = false <-> EFailures r = [].
Proof. unfold failed, len. rewrite Z.ltb_ge. destruct (EFailures r); cbn; split; (done || lia). Qed.

(** The payload is the signed record's. *)
Definition same_payload (res : VerifyResult) (rec : Rec) (payload : bytes) : Prop :=
  ComputeHashBlock (Hashes (Meta (VHeader res))) payload = Ok (default [] (HashBlock rec)) /\
  AbsPayloadSize rec = len payload.

Definition checked_layers (disks : bool) (payload : bytes) : list DiskLayer :=
  if disks then match chain_in payload with Some c => Layers c | None => [] end else [].

Definition unchanged (d : disk) (ls : list DiskLayer) : Prop :=
  Forall (fun l => check_layer (d_host d) l <> "MISMATCH"%string) ls.

Lemma checkEnvironment_same d res dir disks rec payload :
  EnvironmentRecord (VHeader res) (Records res) = Some rec ->
  ReadFile d (Join dir Collector.EnvironmentFile) = Ok payload -> same_payload res rec payload ->
  exists r, checkEnvironment d res dir disks = Some r /\
    EPayload r = envPayloadVerified /\ EDescriptor r = chain_in payload /\
    (forall t, EnvironmentType payload = Ok t -> EType r = t) /\
    ELayers r = layer_check (d_host d) <$> checked_layers disks payload /\
    (failed (Some r) = false <-> decodes payload /\ unchanged d (checked_layers disks payload)).
Proof.
  intros Hrec Hread [Hh Hsz]. unfold Inspect.checkEnvironment, checked_layers, unchanged. cbv zeta. rewrite Hrec, Hread, Hh.
  rewrite bool_decide_eq_true_2, Hsz, Z.eqb_refl by done. cbn [negb orb].
  set (e0 := with_payload _ _). destruct (decodePayload_spec e0 payload rec eq_refl eq_refl) as (Hp & Hl & Hd & Hf & Ht).
  set (e1 := decodePayload _ e0 payload rec) in *. eexists. split; [done|]. rewrite failed_iff, <- Hd.
  destruct (EDescriptor e1) as [c|] eqn:Ed; [destruct disks|].
  - destruct (verifyLayers_spec (d_host d) (Layers c) e1) as (Ht' & Hp' & Hd' & Hl' & Hf').
    unfold verifyLayers. rewrite Hd', Ed, Hp', Hp, Hl', Hl, Hf', Hf, Ht'. split_and!; done.
  - rewrite Hp, Hl, Hf. split_and!; try done. split; [intros ?; split; [done|constructor]|by intros [? _] ].
  - rewrite Hp, Hl, Hf. split_and!; try done; [by destruct disks|].
    split; [intros ?; split; [done|by destruct disks; constructor]|by intros [? _] ].
Qed.

(** The environment check.  Without an environment record nothing fails;
    with one whose payload file cannot be read the payload is missing, which
    does not fail either.  Otherwise the payload is verified exactly when its
    hash block and its size are the signed record's; it is then decoded by the
    type it names, its layers are checked when asked for, in order, and the
    check fails exactly when the payload differs, does not decode, or a
    layer's file was read and does not hash to what the payload records. *)
Theorem environment_check_exact d res dir disks :
  let e := checkEnvironment d res dir disks in
  match EnvironmentRecord (VHeader res) (Records res) with
  | None => failed e = false /\ (e = None \/ exists r, e = Some r /\ EPayload r = envPayloadNone)
  | Some rec => exists r, e = Some r /\
      match ReadFile d (Join dir Collector.EnvironmentFile) with
      | Err _ => EPayload r = envPayloadMissing /\ failed e = false
      | Ok payload =>
          (same_payload res rec payload /\ EPayload r = envPayloadVerified /\ EDescriptor r = chain_in payload /\
             (forall t, EnvironmentType payload = Ok t -> EType r = t) /\
             ELayers r = layer_check (d_host d) <$> checked_layers disks payload /\
             (failed e = false <-> decodes payload /\ unchanged d (checked_layers disks payload))) \/
          (~ same_payload res rec payload /\ EPayload r = envPayloadMismatch /\ failed e = true)
      end
  end.
Proof.
  cbv zeta. pose proof (checkEnvironment_same d res dir disks) as Hsame. revert Hsame.
  unfold Inspect.checkEnvironment. cbv zeta. set (label := text_at _ _).
  destruct (EnvironmentRecord (VHeader res) (Records res)) as [rec|]; intros Hsame; cycle 1.
  { case_decide; (split; [done|]); [by left|right; eauto]. }
  destruct (ReadFile d _) as [payload|err]; [|by eexists].
  specialize (Hsame rec payload eq_refl eq_refl). set (bad := match ComputeHashBlock _ _ with Ok _ => _ | Err _ => _ end) in *.
  assert (Hbad : bad = false <-> same_payload res rec payload).
  { subst bad. unfold same_payload. destruct (ComputeHashBlock _ payload) as [want|e]; [|split; [done|by intros [ [=] _] ] ].
    rewrite orb_false_iff, !negb_false_iff, bool_decide_eq_true, Z.eqb_eq. naive_solver. }
  destruct bad.
  - eexists. split; [done|]. right. split; [by intros H; apply Hbad in H|done].
  - assert (Hs : same_payload res rec payload) by by apply Hbad. destruct (Hsame Hs) as (r & He & Hr).
    exists r. split; [done|]. left. rewrite He. by split.
Qed.
End Env.

(** ** What is shown of the channels *)
Section Shown.
Context {HO : HashOps} {EO : Ed25519Ops} {CO : CborOps}.

(** What is shown of the channels is what the ledger holds: when no two
    open records share a signature, the loop groups the records into one
    channel per open record, in order, each with the checkpoints that name it
    and the last close or artifact record that does; so the human report and
    the JSON summary count the same requests, and as many channels are shown
    unclosed as [Verify] counts. *)
Theorem channels_shown data res v schemas ct text cs :
  Reader.Verify data = Some (Ok res) -> NoDup (open_sigs (Records res)) ->
  print_records v schemas 0 (Records res) (mkChans ∅ []) ct = Some (text, cs) ->
  c_ordered cs = channels_of (Records res) /\
  len (c_ordered cs) = count_type RecordOpen (Records res) /\
  len (List.filter unclosed (c_ordered cs)) = Unclosed res.
Proof.
  intros Hv Hn Hp. apply print_records_chans in Hp as ->. rewrite (grouped _ Hn). split; [done|].
  pose proof (Verify_parsed data) as Hd. rewrite Hv in Hd. destruct Hd as (h & meta & rs & [_ Hwf] & _ & ->).
  destruct (report_fields h rs) as (Hr & _). rewrite Hr in *. split.
  - unfold count_type. change (fun r => bool_decide (Type_ r = RecordOpen)) with is_open.
    rewrite <- channels_opens. unfold len. by rewrite length_fmap.
  - unfold len. rewrite <- (length_fmap key).
    assert (Hk : NoDup (key <$> List.filter unclosed (channels_of rs))) by (apply NoDup_filter_keys; by rewrite channels_keys).
    rewrite <- (size_list_to_set (C := gset bytes)) by done. cbn [LedgerSpec.report finish Unclosed]. do 2 f_equal.
    apply set_eq. intros s. rewrite elem_of_list_to_set, (channels_left_open _ _ rs s Hwf), fold_open. cbn. set_solver.
Qed.
End Shown.
End InspectSpec.
