(* ===== verification/RecordedBuild.v ===== *)
(** * Auditing what was recorded

    The relay's writer against the inspect command: a build whose ledger and
    environment payload reached the output directory is passed by [warden
    inspect], in every print mode. *)
From S2P Require Import Prelude Text Crypto Ledger LedgerVerify Writer Environment Claim.
From S2P Require Import Paths Streams Collector Relay RelaySpec EndToEnd.
From S2P Require Import LayerCache Translate Session Fmt Inspect InspectSpec.

#[local] Open Scope Z_scope.

Module RecordedBuild.
Import Reader Format LedgerSpec Environment Writer WriterSpec ClaimEnvironment Relay RelaySpec EndToEnd Inspect InspectSpec.

#[local] Arguments loop_body : simpl never.
#[local] Arguments write_all : simpl never.

Section RecordedBuild.
Context {HO : HashOps} {HL : HashLaws} {EO : Ed25519Ops} {EL : Ed25519Laws} {CO : CborOps} {JO : JsonOps}.
Context {HP : LayerCache.HostPaths} {RO : Rendering} {S : Type}.
Context (cbor_partial : bytes -> list (string * any)).
Context (decompress : bytes -> result bytes) (encode : jsonReport -> result string).
Context (write_fault : string -> option (option nat)) (mkdir_fault : string -> option error).
Context (ed_sig_len : forall pk m sig, ed_verify pk m sig = true -> len sig = SignatureSize).

(** The relay's ledger configuration for an environment of type [t]. *)
Definition relay_config (t : string) : LedgerConfig bytes :=
  mkLedgerConfig [] (Some [("type"%string, AText t)]) None None.

Lemma relay_hash_size t seed l :
  NewLedger buffer_write (Ok seed) (relay_config t) = Some (Ok l) ->
  hashBlockSize l = 100 /\ hashes l = defaultHashes.
Proof using Type.
  unfold NewLedger. cbn [relay_config cHashes cSchemas default]. change (mapM hashOutputSize defaultHashes) with (Some [32; 32; 20; 16]).
  cbn [mbind option_bind]. unfold writeHeader. destruct (cbor_marshal_header _); [|done]. cbn. by intros [= <-].
Qed.

(** The signed environment record is the relay's: the first one. *)
Lemma environment_first (r0 : Relay Collector.Collector) env k prev rest t l :
  exists prev' sig open_sig,
    EnvironmentRecord (read_header (header_meta (relay_config t)) l)
      (entry_records k prev (environment_entries r0 env ++ rest)) =
    Some (entry_record prev' sig
            (mkEntry Reader.RecordClose open_sig (to_int64 (- len (ePayload env))) (hash_block r0 (ePayload env)) schemaEnv (eMeta env))).
Proof using Type. by do 3 eexists. Qed.

Lemma payload_size n : 0 < n <= Collector.MaxEnvironmentBytes ->
  to_int64 (- n) = - n /\ (- n =? 0) = false /\ (if - n <? 0 then to_int64 (- - n) else - n) = n.
Proof using Type.
  unfold Collector.MaxEnvironmentBytes. intros ?. rewrite !to_int64_id by (unfold int64_ok; lia).
  split_and!; [done|by apply Z.eqb_neq; lia|]. destruct (Z.ltb_spec (- n) 0); lia.
Qed.

Lemma environment_same (r0 : Relay Collector.Collector) env seed k prev rest t l rs :
  NewLedger buffer_write (Ok seed) (relay_config t) = Some (Ok l) -> ledger r0 = l ->
  0 < len (ePayload env) <= Collector.MaxEnvironmentBytes ->
  rs = entry_records k prev (environment_entries r0 env ++ rest) ->
  let res := LedgerSpec.report (read_header (header_meta (relay_config t)) l) rs in
  exists rec, EnvironmentRecord (VHeader res) (Records res) = Some rec /\ same_payload res rec (ePayload env).
Proof using Type.
  intros Hn Hl Hlen -> res. destruct (relay_hash_size t seed l Hn) as [_ Hhs].
  destruct (report_fields (read_header (header_meta (relay_config t)) l)
    (entry_records k prev (environment_entries r0 env ++ rest))) as (Hr & _ & HV & _). fold res in Hr, HV.
  destruct (environment_first r0 env k prev rest t l) as (prev' & sig & o & He).
  destruct (payload_size _ Hlen) as (Hs1 & Hs2 & Hs3). rewrite Hr. setoid_rewrite HV. eexists. split; [exact He|].
  unfold same_payload. rewrite HV. unfold AbsPayloadSize. cbn [entry_record PayloadSize HashBlock ePayloadSize eHashBlock].
  rewrite Hs1, Hs2. cbn [default]. split; [|exact Hs3].
  unfold hash_block. rewrite Hl, Hhs. cbn [read_header Meta header_meta relay_config cHashes default Hashes].
  pose proof (hash_blocks_agree defaultHashes (ePayload env)) as Hb.
  destruct (Environment.ComputeHashBlock defaultHashes (ePayload env)) as [b|e]; [by rewrite Hb|].
  exfalso. destruct Hb as (_ & n1 & n & n2 & Heq & _ & Hnone & _).
  assert (Hin : n ∈ defaultHashes) by (rewrite Heq; apply elem_of_app; right; by left). revert Hnone. unfold defaultHashes in Hin.
  repeat (apply elem_of_cons in Hin as [->|Hin]; [done|]). by apply elem_of_nil in Hin.
Qed.

(** Every hash block of the relay is long enough to print. *)
Lemma entries_hash_long es k prev : Forall (wf_entry 100) es -> Forall hash_long (entry_records k prev es).
Proof using Type.
  intros Hwf. revert prev. induction Hwf as [|e es [_ _ Hh _] _ IH]; intros prev; cbn [entry_records]; [constructor|].
  constructor; [|apply IH]. unfold hash_long, entry_record. cbn [HashBlock]. destruct (Z.eqb_spec (ePayloadSize e) 0); [done|].
  destruct Hh; lia.
Qed.

(** What the writer leaves starts with the ledger's magic. *)
Lemma magic rest : IsValidLedger (bytes_of "BLDL" ++ Byte.x01 :: rest) = true.
Proof using Type.
  unfold IsValidLedger. cbn [bytes_of String.list_byte_of_string list_byte_of_string]. rewrite Z.geb_leb.
  rewrite (proj2 (Z.leb_le 5 _)); [reflexivity|]. rewrite len_app, len_cons. pose proof (len_nonneg rest). change (len _) with 4 at 1. lia.
Qed.

Lemma written_magic seed t l mb es :
  NewLedger buffer_write (Ok seed) (relay_config t) = Some (Ok l) ->
  cbor_marshal_header (header_meta (relay_config t)) = Ok mb ->
  cbor_unmarshal_header mb = Ok (header_meta (relay_config t)) -> len mb < 2 ^ 32 ->
  Forall (wf_entry (hashBlockSize l)) es -> IsValidLedger (writer (write_all buffer_write l es)) = true.
Proof using EL.
  intros Hn Hmb Hum Hml Hwf. destruct (relay_hash_size t seed l Hn) as [H100 _].
  destruct (NewLedger_fresh _ _ _ Hn eq_refl) as (mb' & Hmb' & Hfr & Hss & _). assert (mb' = mb) as -> by congruence.
  destruct (fresh_header _ _ _ _ Hfr Hss ltac:(lia) Hum Hml) as (_ & Hwr & _).
  destruct (write_all_records l es _ Hwf) as (Hb & _). rewrite Hb, Hwr. unfold encode_header, encode_prefix. rewrite <- !app_assoc.
  apply magic.
Qed.

(** C40.  What the relay witnessed, inspect confirms.  A ledger the relay
    created for an environment of type [t], with the environment's records
    first and any records after them, finished into the file inspect reads,
    with the environment's payload beside it: when the payload decodes and no
    checked layer changed, [warden inspect] returns no error in every
    verbosity, reports the payload verified and shows the type the relay's
    header names. *)
Theorem recorded_build_passes seed t l0 mb (r0 : Relay Collector.Collector) env rest d path opts :
  let es := environment_entries r0 env ++ rest in
  NewLedger buffer_write (Ok seed) (relay_config t) = Some (Ok l0) -> ledger r0 = l0 ->
  cbor_marshal_header (header_meta (relay_config t)) = Ok mb ->
  cbor_unmarshal_header mb = Ok (header_meta (relay_config t)) -> len mb < 2 ^ 32 ->
  EnvironmentType (ePayload env) = Ok t -> 0 < len (ePayload env) <= Collector.MaxEnvironmentBytes ->
  Forall (wf_entry (hashBlockSize l0)) es ->
  readLedger decompress d path = Ok (writer (write_all buffer_write l0 es)) ->
  ReadFile d (Join (Dir path) Collector.EnvironmentFile) = Ok (ePayload env) ->
  decodes (ePayload env) -> unchanged d (checked_layers (VerifyDisks opts) (ePayload env)) ->
  Extract opts = ""%string -> JSON opts = false ->
  exists res text e,
    Reader.Verify (writer (write_all buffer_write l0 es)) = Some (Ok res) /\
    runInspectImpl cbor_partial decompress encode write_fault mkdir_fault d path opts = (d, Some (text, None)) /\
    checkEnvironment cbor_partial d res (Dir path) (VerifyDisks opts) = Some e /\
    EPayload e = envPayloadVerified /\ EType e = t.
Proof using EL ed_sig_len.
  intros es Hn Hl Hmb Hum Hml Ht Hlen Hwf Hread Henv Hdec Hun Hex Hjs.
  destruct (relay_hash_size t seed l0 Hn) as [H100 _].
  destruct (written_report seed (relay_config t) l0 mb es Hn eq_refl Hmb Hum Hml ltac:(lia) Hwf) as (Hv & Hok & _).
  set (h := read_header (header_meta (relay_config t)) l0) in *. set (rs := entry_records _ _ es) in *.
  destruct (environment_same r0 env seed _ _ rest t l0 rs Hn Hl Hlen eq_refl) as (rec & Hrec & Hsame). fold h in Hrec, Hsame.
  destruct (checkEnvironment_same cbor_partial d (LedgerSpec.report h rs) (Dir path) (VerifyDisks opts) rec (ePayload env) Hrec Henv Hsame)
    as (e & He & Hp & _ & Hty & _ & Hf).
  pose proof (Verify_parsed (writer (write_all buffer_write l0 es))) as Hparsed. rewrite Hv in Hparsed.
  destruct Hparsed as (h' & meta & rs' & Hwfl & Hb & Heq).
  destruct (report_exit cbor_partial encode ed_sig_len d h' meta rs' opts (Dir path) (is_dir d (Join (Dir path) "captures")) Hwfl) as [Hiff _].
  rewrite <- Heq in Hiff. destruct (proj2 Hiff) as [text Htext].
  { split; [done|]. rewrite He. split; [by apply Hf|]. unfold printable. rewrite Hjs. right.
    destruct (report_fields h rs) as (-> & _). apply entries_hash_long. by rewrite <- H100. }
  exists (LedgerSpec.report h rs), text, e. split_and!; [done| |done|done|by apply Hty].
  unfold runInspectImpl. rewrite Hread, (written_magic seed t l0 mb es Hn Hmb Hum Hml Hwf), Hv, Hex. cbn [negb].
  rewrite bool_decide_eq_true_2 by done. cbn [negb andb]. by rewrite Htext.
Qed.
End RecordedBuild.
End RecordedBuild.

(** ** Witnesses and examples *)
Module RecordedBuildExamples.
Import Toy Reader Format LedgerSpec Environment Writer WriterSpec ClaimEnvironment Relay RelaySpec EndToEnd EndToEndExamples
  Inspect InspectSpec RecordedBuild.

#[local] Instance paths : LayerCache.HostPaths :=
  {| LayerCache.Abs p := Ok p; LayerCache.resolve p := p; LayerCache.Abs_resolve p k := Ok_inj p k;
     LayerCache.Abs_idem p k _ := eq_refl |}.
#[local] Existing Instance EndToEndExamples.json.
#[local] Instance rendering : Rendering := {| Error _ := "error"%string; Quote s := s |}.

Lemma toy_sig_len (pk m sig : bytes) : ed_verify pk m sig = true -> len sig = SignatureSize.
Proof. cbn. unfold verify. intros H. apply bool_decide_eq_true in H as ->. apply len_be_encode. Qed.

Definition no_partial (b : bytes) : list (string * any) := [].
Definition no_zstd (b : bytes) : result bytes := Err (Msg "not compressed").
Definition no_encode (r : jsonReport) : result string := Ok "{}"%string.
Definition disk_of (m : gmap string bytes) : disk :=
  mkDisk (LayerCache.mkHost ((fun b => LayerCache.mkFile b 0 None) <$> m) LayerCache.Missing) ∅ ∅.
Definition run (d : disk) (path : string) (opts : inspectOptions) : disk * option (string * option error) :=
  runInspectImpl no_partial no_zstd no_encode (fun _ => None) (fun _ => None) d path opts.
Definition opts_of (v : Z) : inspectOptions := mkOptions false v "" true false.

Definition ex_disk : disk :=
  disk_of {["/out/ledger" := writer (write_all buffer_write ex_l0 (ex_records ++ []));
            "/out/environment.json" := ePayload ex_env]}%string.

Lemma recorded_build_passes_witness :
  exists text, run ex_disk "/out/ledger" (opts_of 2) = (ex_disk, Some (text, None)).
Proof.
  destruct (recorded_build_passes no_partial no_zstd no_encode (fun _ => None) (fun _ => None) toy_sig_len
    [Byte.x07] "oci-image" ex_l0 ex_lmeta ex_fresh ex_env [] ex_disk "/out/ledger" (opts_of 2))
    as (res & text & e & _ & Hrun & _).
  - exact ex_l0_new.
  - reflexivity.
  - vm_compute. reflexivity.
  - vm_compute. reflexivity.
  - vm_compute. reflexivity.
  - reflexivity.
  - vm_compute. split; [reflexivity|discriminate].
  - rewrite app_nil_r. exact ex_build_wf.
  - reflexivity.
  - reflexivity.
  - exists "oci-image"%string. split; [reflexivity|discriminate].
  - constructor.
  - reflexivity.
  - reflexivity.
  - exists text. exact Hrun.
Defined.

(** The ledger before its first record. *)
Definition ex_fresh_bytes : bytes := Eval vm_compute in writer ex_l0.

Definition ex_fresh_result : option (result VerifyResult) := Eval vm_compute in Reader.Verify ex_fresh_bytes.
Definition ex_fresh_report : VerifyResult :=
  match ex_fresh_result with Some (Ok res) => res | _ => mkVerifyResult (mkHeader Byte.x00 "" 0 0 0 [] [] {| Hashes := []; Schemas := []; Crypto.Environment := None |} []) [] false 0 0 0 end.
Lemma ex_fresh_verify : Reader.Verify ex_fresh_bytes = Some (Ok ex_fresh_report).
Proof. vm_compute. reflexivity. Qed.
Definition ex_fresh_disk : disk := disk_of {["/l"%string := ex_fresh_bytes]}.

Lemma inspect_verdict_witness : exists text, (run ex_fresh_disk "/l" (opts_of 2)).2 = Some (text, None).
Proof.
  apply (inspect_verdict no_partial no_zstd no_encode (fun _ => None) (fun _ => None) toy_sig_len ex_fresh_disk "/l" (opts_of 2)).
  exists ex_fresh_bytes, ex_fresh_report. split; [vm_compute; reflexivity|]. split; [vm_compute; reflexivity|].
  split; [exact ex_fresh_verify|]. split; [vm_compute; reflexivity|]. split; [intros H; destruct H; reflexivity|].
  split; [vm_compute; reflexivity|]. right. constructor.
Defined.

(** A hand-made ledger with one-byte signatures and a key of [n] bytes. *)
Definition ex_meta : bytes := [Byte.x00; Byte.x00; Byte.x00].
Definition ex_header (n : nat) (sig_size : Z) (sig : bytes) : Header :=
  let h0 := mkHeader Byte.x01 "x" sig_size 0 (Z.of_nat n) (replicate n Byte.x01) sig
              {| Hashes := []; Schemas := []; Crypto.Environment := None |} [] in
  mkHeader Byte.x01 "x" sig_size 0 (Z.of_nat n) (replicate n Byte.x01) sig (Meta h0) (encode_prefix h0).
Definition ex_rec (ty : byte) (prev sig : byte) (op : option bytes) : Rec :=
  mkRec ty [prev] op 0 None [sig] SchemaNoMetadata None.
Definition ex_rs : list Rec :=
  [ex_rec RecordOpen Byte.x10 Byte.x11 None; ex_rec RecordOpen Byte.x11 Byte.x12 None;
   ex_rec RecordCheckpoint Byte.x12 Byte.x13 (Some [Byte.x12]); ex_rec RecordClose Byte.x13 Byte.x14 (Some [Byte.x12])].
Definition ex_bytes (n : nat) (rs : list Rec) : bytes := ledger_bytes (ex_header n 1 [Byte.x10]) ex_meta rs.

Lemma channels_shown_witness :
  exists res text cs, Reader.Verify (ex_bytes 31 ex_rs) = Some (Ok res) /\
    print_records 0 [] 0 (Records res) (mkChans ∅ []) (newColorTracker false) = Some (text, cs) /\
    len (List.filter unclosed (c_ordered cs)) = 1 /\ Unclosed res = 1.
Proof.
  destruct (Reader.Verify (ex_bytes 31 ex_rs)) as [ [res|e]|] eqn:Ev;
    [|vm_compute in Ev; discriminate Ev|vm_compute in Ev; discriminate Ev].
  destruct (print_records 0 [] 0 (Records res) (mkChans ∅ []) (newColorTracker false)) as [ [text cs]|] eqn:Ep.
  2: { vm_compute in Ev. injection Ev as <-. vm_compute in Ep. discriminate Ep. }
  assert (Hn : NoDup (open_sigs (Records res))).
  { vm_compute in Ev. injection Ev as <-. apply (bool_decide_unpack _). vm_compute. exact I. }
  destruct (channels_shown (ex_bytes 31 ex_rs) res 0 [] (newColorTracker false) text cs Ev Hn Ep) as (_ & _ & Hu).
  exists res, text, cs. split; [reflexivity|]. split; [exact Ep|]. rewrite Hu.
  vm_compute in Ev. injection Ev as <-. split; reflexivity.
Defined.

(** [ed25519.Verify] panics on a key that is not 32 bytes long: where [Verify]
    counts a signature error, the command crashes. *)
Example inspect_panics :
  (run (disk_of {["/l"%string := ex_bytes 31 []]}) "/l" (opts_of 0)).2 = None /\
  exists res, Reader.Verify (ex_bytes 31 []) = Some (Ok res) /\ SigErrors res = 1.
Proof. split; [vm_compute; reflexivity|]. eexists. split; vm_compute; reflexivity. Qed.

(** Every line of a tree is ticked, whatever its signature is worth: here all
    five signatures are bad. *)
Example ticks_are_unconditional :
  exists text, (run (disk_of {["/l"%string := ex_bytes 32 ex_rs]}) "/l" (mkOptions false 1 "" false false)).2 =
    Some (text, Some (Errorf "ledger verification failed: %d signature error(s)" ["5"%string])) /\
  Text.Contains text "[  1] ✅" = true /\ Text.Contains text "[  4] ✅" = true.
Proof. eexists. split; [vm_compute; reflexivity|]. split; vm_compute; reflexivity. Qed.
End RecordedBuildExamples.
