(* ===== verification/GuestFs.v ===== *)
(** * The guest's file system

    What package [os] does on Linux with the paths the guest agent
    (src/cmd/warden-io) uses: regular files, directories and symbolic links,
    paths resolved one name at a time.  [OS] is what may go wrong: a call may
    fail, a failed write leaves some of its bytes, a failed [RemoveAll] some of
    the tree.  Looking a path up fails only when it leads nowhere. *)
From S2P Require Import Prelude Text.

#[local] Open Scope string_scope.
#[local] Open Scope Z_scope.

Module GuestFs.

(** A resolved path: the names from the root. *)
Abbreviation path := (list string).

Inductive node := File (content : bytes) (mode : Z) | Dir | Link (target : string).
Abbreviation fs := (gmap path node).

#[export] Instance node_eq_dec : EqDecision node.
Proof. solve_decision. Defined.

Record disk := mkDisk { nodes : fs; cwd : path }.

Definition ENOENT : error := Sentinel "no such file or directory".
Definition ENOTDIR : error := Sentinel "not a directory".
Definition EISDIR : error := Sentinel "is a directory".
Definition EEXIST : error := Sentinel "file exists".
Definition ENOTEMPTY : error := Sentinel "directory not empty".
Definition ELOOP : error := Sentinel "too many levels of symbolic links".

(** ** Paths *)

(** The names of a path; "." and ".." among them are kept. *)
Definition comps (p : string) : list string := filter (fun c => c <> "") (Split p "/").

Definition absolute (p : string) : bool := HasPrefix p "/".

Definition parent (p : path) : path := rev (tail (rev p)).

Definition at_ (s : fs) (p : path) : option node := match p with [] => Some Dir | _ => s !! p end.

(** path_resolution(7): the place names lead to from [cur], which need not hold
    anything when only the last name is missing; a link is followed unless it
    is the last name and [follow] is false.  Linux follows 40 links. *)
Fixpoint walk (s : fs) (follow : bool) (links : nat) : path -> list string -> result path :=
  fix go (cur : path) (todo : list string) {struct todo} : result path :=
    match todo with
    | [] => Ok cur
    | c :: rest =>
        if bool_decide (c = ".") then go cur rest
        else if bool_decide (c = "..") then go (parent cur) rest
        else
          let p := (cur ++ [c])%list in
          let last := match rest with [] => true | _ => false end in
          match s !! p with
          | Some Dir => go p rest
          | Some (File _ _) => if last then Ok p else Err ENOTDIR
          | None => if last then Ok p else Err ENOENT
          | Some (Link t) =>
              if last && negb follow then Ok p
              else match links with
                   | O => Err ELOOP
                   | S links => walk s follow links (if absolute t then [] else cur) (comps t ++ rest)
                   end
          end
    end.

Definition max_links : nat := 40.

Definition from (d : disk) (p : string) : path := if absolute p then [] else cwd d.

Definition locate (d : disk) (follow : bool) (p : string) : result path :=
  match p with "" => Err ENOENT | _ => walk (nodes d) follow max_links (from d p) (comps p) end.

(** What is at a path, following a last link ([os.Stat]) or not ([os.Lstat]). *)
Definition look (follow : bool) (d : disk) (p : string) : option node :=
  match locate d follow p with Ok l => at_ (nodes d) l | Err _ => None end.
Definition Stat : disk -> string -> option node := look true.
Definition Lstat : disk -> string -> option node := look false.

Definition is_dir (n : option node) : bool := match n with Some Dir => true | _ => false end.

(** [if err := c; err != nil { return err }; k], over the disk *)
Definition try (c : disk * option error) (k : disk -> disk * option error) : disk * option error :=
  match c with
  | (d, Some e) => (d, Some e)
  | (d, None) => k d
  end.
Definition wrap (ctx : string) (c : disk * option error) : disk * option error := (c.1, Wrap ctx <$> c.2).

Lemma try_None c k d : try c k = (d, None) -> exists d', c = (d', None) /\ k d' = (d, None).
Proof. destruct c as [d' [e|] ]; [done|]. by exists d'. Qed.
Lemma wrap_None ctx c d : wrap ctx c = (d, None) -> c = (d, None).
Proof. destruct c as [d' [e|] ]; [done|]. by intros [= ->]. Qed.

(** ** Calls *)
Class OS := {
  fault : string -> string -> option error;
  written : string -> bytes -> bytes;
  survives : string -> path -> bool }.

Definition with_nodes (d : disk) (s : fs) : disk := mkDisk s (cwd d).
Definition put (d : disk) (l : path) (n : node) : disk := with_nodes d (<[l := n]> (nodes d)).

Section Calls.
Context {O : OS}.

Definition call {A} (op p : string) (r : result A) : result A :=
  match fault op p with Some e => Err e | None => r end.

Definition ReadFile (d : disk) (p : string) : result bytes :=
  call "open" p
    match locate d true p with
    | Err e => Err e
    | Ok l => match at_ (nodes d) l with
              | Some (File b _) => call "read" p (Ok b)
              | Some _ => Err EISDIR
              | None => Err ENOENT
              end
    end.

(** [os.OpenFile] with [O_CREATE|O_TRUNC]: where the file is, emptied. *)
Definition open_trunc (d : disk) (p : string) (mode : Z) : result (disk * path) :=
  call "open" p
    match locate d true p with
    | Err e => Err e
    | Ok l => match at_ (nodes d) l with
              | Some (File _ m) => Ok (put d l (File [] m), l)
              | Some _ => Err EISDIR
              | None => if is_dir (at_ (nodes d) (parent l)) then Ok (put d l (File [] mode), l) else Err ENOENT
              end
    end.

(** The file at [l] gets [b] appended to it, as far as the writes succeed. *)
Definition append_at (d : disk) (p : string) (l : path) (b : bytes) : disk * option error :=
  match nodes d !! l with
  | Some (File c m) =>
      match fault "write" p with
      | Some e => (put d l (File (c ++ written p b) m), Some e)
      | None => (put d l (File (c ++ b) m), None)
      end
  | _ => (d, Some EISDIR)
  end.

(** [os.WriteFile], and [os.Create] with a write of the whole. *)
Definition WriteFile (d : disk) (p : string) (b : bytes) (mode : Z) : disk * option error :=
  match open_trunc d p mode with
  | Err e => (d, Some e)
  | Ok (d, l) => append_at d p l b
  end.

(** [os.OpenFile] with [O_APPEND|O_WRONLY], then a write. *)
Definition open_append (d : disk) (p : string) : result path :=
  call "open" p
    match locate d true p with
    | Err e => Err e
    | Ok l => match at_ (nodes d) l with
              | Some (File _ _) => Ok l
              | Some _ => Err EISDIR
              | None => Err ENOENT
              end
    end.

(** mkdir(2) *)
Definition mkdir_at (d : disk) (p : string) (l : result path) : disk * option error :=
  match fault "mkdir" p, l with
  | Some e, _ | None, Err e => (d, Some e)
  | None, Ok l =>
      match at_ (nodes d) l with
      | Some _ => (d, Some EEXIST)
      | None => if is_dir (at_ (nodes d) (parent l)) then (put d l Dir, None) else (d, Some ENOENT)
      end
  end.

(** [os.MkdirAll] of a path from [base], its names reversed: it stops at the
    longest part that exists, and makes the rest. *)
Fixpoint mkdir_all (d : disk) (base : path) (names : list string) : disk * option error :=
  match names with
  | [] => if is_dir (at_ (nodes d) base) then (d, None) else (d, Some ENOENT)
  | _ :: up =>
      let look follow d := match walk (nodes d) follow max_links base (rev names) with
                           | Ok l => at_ (nodes d) l | Err _ => None end in
      match look true d with
      | Some Dir => (d, None)
      | Some _ => (d, Some ENOTDIR)
      | None =>
          match mkdir_all d base up with
          | (d, Some e) => (d, Some e)
          | (d, None) =>
              match mkdir_at d (Join (rev names) "/") (walk (nodes d) false max_links base (rev names)) with
              | (d, None) => (d, None)
              | (d, Some e) => if is_dir (look false d) then (d, None) else (d, Some e)
              end
          end
      end
  end.
Definition MkdirAll (d : disk) (p : string) : disk * option error := mkdir_all d (from d p) (rev (comps p)).

Definition below (l q : path) : bool := bool_decide (l `prefix_of` q).
Definition strictly_below (l q : path) : bool := below l q && negb (bool_decide (q = l)).

(** [os.Remove]: a file, a link or an empty directory. *)
Definition Remove (d : disk) (p : string) : disk * option error :=
  match fault "remove" p, locate d false p with
  | Some e, _ | None, Err e => (d, Some e)
  | None, Ok l =>
      match at_ (nodes d) l with
      | None => (d, Some ENOENT)
      | Some Dir =>
          if decide (l = [] \/ filter (fun e => strictly_below l e.1 = true) (nodes d) <> ∅) then (d, Some ENOTEMPTY)
          else (with_nodes d (delete l (nodes d)), None)
      | Some _ => (with_nodes d (delete l (nodes d)), None)
      end
  end.

(** [os.RemoveAll]: a path that leads nowhere is removed already. *)
Definition RemoveAll (d : disk) (p : string) : disk * option error :=
  match locate d false p with
  | Err e => if decide (e = ENOENT) then (d, None) else (d, Some e)
  | Ok l =>
      match fault "removeall" p with
      | Some e => (with_nodes d (filter (fun e => below l e.1 = false \/ survives p e.1 = true) (nodes d)), Some e)
      | None => (with_nodes d (filter (fun e => below l e.1 = false) (nodes d)), None)
      end
  end.

Definition Symlink (d : disk) (target p : string) : disk * option error :=
  match fault "symlink" p, locate d false p with
  | Some e, _ | None, Err e => (d, Some e)
  | None, Ok l =>
      match at_ (nodes d) l with
      | Some _ => (d, Some EEXIST)
      | None => if is_dir (at_ (nodes d) (parent l)) then (put d l (Link target), None) else (d, Some ENOENT)
      end
  end.

Definition Chmod (d : disk) (p : string) (mode : Z) : disk * option error :=
  match fault "chmod" p, locate d true p with
  | Some e, _ | None, Err e => (d, Some e)
  | None, Ok l =>
      match at_ (nodes d) l with
      | Some (File b _) => (put d l (File b mode), None)
      | Some _ => (d, None)
      | None => (d, Some ENOENT)
      end
  end.

Definition Chdir (d : disk) (p : string) : disk * option error :=
  match call "chdir" p (locate d true p) with
  | Err e => (d, Some e)
  | Ok l => match at_ (nodes d) l with
            | Some Dir => (mkDisk (nodes d) l, None)
            | Some _ => (d, Some ENOTDIR)
            | None => (d, Some ENOENT)
            end
  end.
End Calls.
End GuestFs.

(** ** Paths without links on the way *)
Module GuestFsSpec.
Import GuestFs.

#[local] Open Scope list_scope.

Definition sname (n : string) : Prop := n <> "." /\ n <> "..".

(** No place on the way to [p], nor [p] itself, is a link. *)
Definition clear (s : fs) (p : path) : Prop := forall q t, q `prefix_of` p -> s !! q <> Some (Link t).

Lemma clear_prefix s p q : clear s p -> q `prefix_of` p -> clear s q.
Proof. intros H Hq r t Hr. apply H. by trans q. Qed.

Lemma parent_snoc (p : path) c : parent (p ++ [c]) = p.
Proof. unfold parent. rewrite rev_unit. cbn [tail]. apply rev_involutive. Qed.

Lemma prefix_snoc_inv (q p : path) c : q `prefix_of` p ++ [c] -> q = p ++ [c] \/ q `prefix_of` p.
Proof.
  intros [k Hk]. destruct k as [|x k _] using rev_ind; [left; by rewrite app_nil_r in Hk|].
  rewrite app_assoc in Hk. apply app_inj_tail in Hk as [-> _]. right. by exists k.
Qed.

Lemma walk_step s follow links cur c rest :
  sname c ->
  walk s follow links cur (c :: rest) =
    match s !! (cur ++ [c]) with
    | Some Dir => walk s follow links (cur ++ [c]) rest
    | Some (File _ _) => if match rest with [] => true | _ => false end then Ok (cur ++ [c]) else Err ENOTDIR
    | None => if match rest with [] => true | _ => false end then Ok (cur ++ [c]) else Err ENOENT
    | Some (Link t) => if match rest with [] => true | _ => false end && negb follow then Ok (cur ++ [c]) else
        match links with O => Err ELOOP | S links => walk s follow links (if absolute t then [] else cur) (comps t ++ rest) end
    end.
Proof. intros [H1 H2]. destruct links; cbn; by rewrite !bool_decide_eq_false_2. Qed.

Lemma walk_nil s follow links cur : walk s follow links cur [] = Ok cur.
Proof. by destruct links. Qed.

(** Where a walk ends when no link is on its way: it crossed directories. *)
Lemma walk_clear s follow links todo : forall cur l,
  Forall sname todo ->
  (forall q t, q `prefix_of` todo -> q <> [] -> follow = true \/ q <> todo -> s !! (cur ++ q) <> Some (Link t)) ->
  walk s follow links cur todo = Ok l ->
  l = cur ++ todo /\
  forall q c, q ++ [c] `prefix_of` todo -> q ++ [c] <> todo -> s !! (cur ++ q ++ [c]) = Some Dir.
Proof.
  induction todo as [|c rest IH]; intros cur l Hs Hc H.
  - rewrite walk_nil in H. injection H as <-. rewrite app_nil_r. split; [done|].
    intros q c [k Hk]. by destruct q.
  - apply Forall_cons in Hs as [Hn Hs]. rewrite walk_step in H by done.
    assert (Hlast : rest = [] -> forall q x, q ++ [x] `prefix_of` c :: rest -> q ++ [x] <> c :: rest ->
      s !! (cur ++ q ++ [x]) = Some Dir).
    { intros -> q x [k Hk] Hne. destruct q as [|y [|]]; cbn in Hk; [|done..]. destruct k; [by injection Hk as <-|done]. }
    destruct (s !! (cur ++ [c])) as [ [b m| |t]|] eqn:El.
    + destruct rest; [|done]. injection H as <-. auto.
    + destruct (IH (cur ++ [c]) l Hs) as [-> Hd]; [|done|].
      { intros q t Hq _ Hf. rewrite <- app_assoc. apply Hc; [by apply prefix_cons|done|].
        destruct Hf as [?|Hf]; [by left|right; by intros [= ?] ]. }
      rewrite <- app_assoc. split; [done|]. intros q x Hq Hne. destruct q as [|y q].
      * apply prefix_cons_inv_1 in Hq as <-. done.
      * pose proof (prefix_cons_inv_1 _ _ _ _ Hq) as ->. apply prefix_cons_inv_2 in Hq.
        change (cur ++ (c :: q) ++ [x]) with (cur ++ [c] ++ q ++ [x]). rewrite app_assoc. apply Hd; [done|].
        intros E. apply Hne. cbn. by f_equal.
    + destruct follow eqn:Ef, rest as [|c' rest]; cbn [andb negb] in H;
        try (exfalso; eapply (Hc [c] t); [by apply prefix_cons, prefix_nil|done|first [by left|by right]|exact El]).
      injection H as <-. auto.
    + destruct rest; [|done]. injection H as <-. auto.
Qed.

(** A walk that only crosses directories arrives. *)
Lemma walk_dirs s follow links todo : forall cur,
  Forall sname todo ->
  (forall q c, q ++ [c] `prefix_of` todo -> q ++ [c] <> todo -> s !! (cur ++ q ++ [c]) = Some Dir) ->
  (follow = true -> forall t, s !! (cur ++ todo) <> Some (Link t)) ->
  walk s follow links cur todo = Ok (cur ++ todo).
Proof.
  induction todo as [|c rest IH]; intros cur Hs Hd Hl.
  - by rewrite walk_nil, app_nil_r.
  - apply Forall_cons in Hs as [Hn Hs]. rewrite walk_step by done. destruct rest as [|c' rest].
    + destruct (s !! (cur ++ [c])) as [ [b m| |t]|] eqn:El; try done; [by rewrite walk_nil|].
      destruct follow; [by specialize (Hl eq_refl t)|done].
    + pose proof (Hd [] c ltac:(by apply prefix_cons, prefix_nil) ltac:(done)) as El. cbn [app] in El. rewrite El.
      rewrite IH; [by rewrite <- app_assoc|done| |by rewrite <- app_assoc].
      intros q x Hq Hne. rewrite <- app_assoc. apply (Hd (c :: q) x); [by apply prefix_cons|cbn; congruence].
Qed.

(** A walk into a directory goes on from there. *)
Lemma walk_through s follow links dir todo : forall cur,
  Forall sname dir -> (forall q x, q ++ [x] `prefix_of` dir -> s !! (cur ++ q ++ [x]) = Some Dir) ->
  walk s follow links cur (dir ++ todo) = walk s follow links (cur ++ dir) todo.
Proof.
  induction dir as [|c dir IH]; intros cur Hs Hd; [by rewrite app_nil_r|]. apply Forall_cons in Hs as [Hn Hs].
  cbn [app]. rewrite walk_step by done. pose proof (Hd [] c ltac:(by apply prefix_cons, prefix_nil)) as E. cbn [app] in E. rewrite E.
  rewrite IH; [by rewrite <- app_assoc|done|]. intros q x Hq. rewrite <- app_assoc. apply (Hd (c :: q) x). by apply prefix_cons.
Qed.

(** [p] is the absolute path of the names [l], without dots. *)
Definition at_path (p : string) (l : path) : Prop := absolute p = true /\ comps p = l /\ Forall sname l /\ l <> [].

Lemma absolute_nonempty p : absolute p = true -> p <> ""%string.
Proof. by intros H ->. Qed.

Lemma from_abs d p : absolute p = true -> from d p = [].
Proof. unfold from. by intros ->. Qed.

Lemma locate_abs d follow p l : at_path p l -> locate d follow p = walk (nodes d) follow max_links [] l.
Proof.
  intros (Ha & <- & _ & _). unfold locate. rewrite from_abs by done. by destruct p.
Qed.

(** Directories on the way to [l]. *)
Definition way (s : fs) (l : path) : Prop :=
  forall q c, q ++ [c] `prefix_of` l -> q ++ [c] <> l -> s !! (q ++ [c]) = Some Dir.

Lemma snoc_prefix (q k : path) : q `prefix_of` k -> q <> k -> exists c r, k = q ++ c :: r.
Proof. intros [r ->] H. destruct r as [|c r]; [by rewrite app_nil_r in H|]. eauto. Qed.

Lemma prefix_parent (q l : path) : q `prefix_of` l -> q <> l -> q `prefix_of` parent l.
Proof.
  intros H Hne. destruct l as [|c l _] using rev_ind; [by apply prefix_nil_inv in H|].
  rewrite parent_snoc. by apply prefix_snoc_inv in H as [?|?].
Qed.

Lemma parent_prefix (l : path) : parent l `prefix_of` l.
Proof. destruct l as [|c l _] using rev_ind; [done|]. rewrite parent_snoc. by exists [c]. Qed.

Lemma parent_ne (l : path) : l <> [] -> parent l <> l.
Proof.
  intros Hne. destruct l as [|c l _] using rev_ind; [done|]. rewrite parent_snoc. intros H.
  apply (f_equal length) in H. rewrite length_app in H. cbn in H. lia.
Qed.

Lemma at_ne (s : fs) l : l <> [] -> at_ s l = s !! l.
Proof. by destruct l. Qed.

Lemma locate_clear d (follow : bool) p l l' :
  at_path p l -> clear (nodes d) (if follow then l else parent l) -> locate d follow p = Ok l' ->
  l' = l /\ way (nodes d) l.
Proof.
  intros Hp Hc H. pose proof Hp as (_ & _ & Hs & _). rewrite (locate_abs _ _ _ _ Hp) in H.
  destruct (walk_clear (nodes d) follow max_links l [] l' Hs) as [-> Hw]; [|done|done].
  intros q t Hq _ Hf. apply (Hc q t). destruct follow; [done|]. destruct Hf as [?|Hne]; [done|]. by apply prefix_parent.
Qed.

Lemma locate_way d follow p l :
  at_path p l -> way (nodes d) l -> (follow = true -> forall t, nodes d !! l <> Some (Link t)) -> locate d follow p = Ok l.
Proof.
  intros Hp Hw Hl. pose proof Hp as (_ & _ & Hs & _). rewrite (locate_abs _ _ _ _ Hp). by apply (walk_dirs _ _ _ _ []).
Qed.

Lemma way_parent (s : fs) l : way s l -> at_ s (parent l) = Some Dir.
Proof.
  intros Hw. destruct l as [|c l _] using rev_ind; [done|]. rewrite parent_snoc.
  destruct l as [|x l _] using rev_ind; [done|]. rewrite at_ne by (by destruct l). apply Hw.
  - by exists [c].
  - intros H. apply (f_equal length) in H. rewrite !length_app in H. cbn in H. lia.
Qed.

(** Every node is in a directory. *)
Definition wf (s : fs) : Prop := forall q c n, s !! (q ++ [c]) = Some n -> at_ s q = Some Dir.

Lemma wf_way (s : fs) l n : wf s -> s !! l = Some n -> way s l.
Proof.
  intros Hwf. revert n. induction l as [|c l IH] using rev_ind; intros n Hl q x Hq Hne.
  - by apply prefix_nil_inv in Hq; destruct q.
  - pose proof (Hwf _ _ _ Hl) as Hd. apply prefix_snoc_inv in Hq as [?|Hq]; [done|].
    rewrite at_ne in Hd by (intros ->; apply prefix_nil_inv in Hq; by destruct q).
    destruct (decide (q ++ [x] = l)) as [->|Hne']; [done|]. by eapply IH.
Qed.

Lemma wf_put s l n : wf s -> at_ s (parent l) = Some Dir -> (s !! l = Some Dir -> n = Dir) -> l <> [] -> wf (<[l := n]> s).
Proof.
  intros Hwf Hd Hn Hne q c m. destruct (decide (q ++ [c] = l)) as [<-|Hne'].
  - intros _. rewrite parent_snoc in Hd. destruct q as [|x q]; [done|]. cbn [at_] in *.
    rewrite lookup_insert_ne; [done|]. intros E. apply (f_equal length) in E. rewrite length_app in E. cbn in E. lia.
  - rewrite lookup_insert_ne by done. intros H. specialize (Hwf _ _ _ H). destruct q as [|x q]; [done|]. cbn [at_] in *.
    destruct (decide (x :: q = l)) as [<-|]; [|by rewrite lookup_insert_ne]. rewrite lookup_insert_eq. by rewrite Hn.
Qed.

Section Calls.
Context {O : OS}.

Lemma call_Ok {A} op p (r : result A) a : call op p r = Ok a -> r = Ok a.
Proof. unfold call. by destruct (fault op p). Qed.

(** The mode of a file written to: [O_TRUNC] keeps that of the file there. *)
Definition kept_mode (s : fs) (l : path) (m : Z) : Z := match s !! l with Some (File _ m) => m | _ => m end.

Lemma WriteFile_clear d p b m d' l :
  at_path p l -> clear (nodes d) l -> WriteFile d p b m = (d', None) ->
  way (nodes d) l /\ nodes d !! l <> Some Dir /\ d' = put d l (File b (kept_mode (nodes d) l m)).
Proof.
  intros Hp Hc. pose proof Hp as (_ & _ & _ & Hne). unfold WriteFile.
  destruct (open_trunc d p m) as [ [d1 l1]|e] eqn:E; [|done]. unfold open_trunc in E. apply call_Ok in E.
  destruct (locate d true p) as [l'|e] eqn:El; [|done]. destruct (locate_clear _ true _ _ _ Hp Hc El) as [-> Hw].
  rewrite at_ne in E by done. intros H.
  assert (Hd : exists m0, d1 = put d l (File [] m0) /\ l1 = l /\ m0 = kept_mode (nodes d) l m /\ nodes d !! l <> Some Dir).
  { unfold kept_mode. destruct (nodes d !! l) as [ [c m0| |t]|] eqn:En; [by injection E as <- <-; eauto|done|done|].
    rewrite way_parent in E by done. injection E as <- <-. by exists m. }
  destruct Hd as (m0 & -> & -> & -> & Hnd). split; [done|]. split; [done|].
  unfold append_at in H. cbn [nodes put with_nodes] in H. rewrite lookup_insert_eq in H.
  destruct (fault "write" p); [done|]. injection H as <-. unfold put, with_nodes. cbn [nodes cwd app]. by rewrite insert_insert_eq.
Qed.

Lemma mkdir_all_clear base l : forall d d',
  Forall sname (rev l) -> base = [] -> clear (nodes d) (rev l) -> mkdir_all d base l = (d', None) ->
  cwd d' = cwd d /\
  (forall q, q `prefix_of` rev l -> at_ (nodes d') q = Some Dir) /\
  (forall q, nodes d' !! q = nodes d !! q \/ (q `prefix_of` rev l /\ nodes d !! q = None /\ nodes d' !! q = Some Dir)).
Proof.
  induction l as [|c up IH]; intros d d' Hs -> Hc H.
  - cbn in H. injection H as <-. split; [done|]. split; [|by left]. intros q Hq. apply prefix_nil_inv in Hq as ->. done.
  - cbn [mkdir_all] in H. set (l := rev (c :: up)) in *.
    assert (El : l = rev up ++ [c]) by done.
    destruct (match walk (nodes d) true max_links [] l with Ok l => at_ (nodes d) l | Err _ => None end) as [n|] eqn:En.
    + destruct n; [done| |done]. injection H as <-. split; [done|]. split; [|by left].
      destruct (walk (nodes d) true max_links [] l) as [l'|] eqn:Ew; [|done].
      destruct (walk_clear (nodes d) true max_links l [] l' Hs) as [-> Hw]; [intros q t Hq _ _; by apply (Hc q t)|done|].
      intros q Hq. destruct (decide (q = l)) as [->|Hne]; [done|].
      destruct q as [|x q _] using rev_ind; [done|]. rewrite at_ne by (by destruct q). by apply Hw.
    + destruct (mkdir_all d [] up) as [d1 [e|] ] eqn:E1; [done|].
      assert (Hs' : Forall sname (rev up)) by (rewrite El in Hs; by apply Forall_app in Hs as [? _]).
      destruct (IH d d1 Hs' eq_refl) as (Hcwd & Hup & Hsame); [|done|].
      { eapply clear_prefix; [exact Hc|]. rewrite El. by exists [c]. }
      assert (Hc1 : clear (nodes d1) l).
      { intros q t Hq. destruct (Hsame q) as [->|(_ & _ & ->)]; [by apply Hc|done]. }
      assert (Hw1 : walk (nodes d1) false max_links [] l = Ok l).
      { apply (walk_dirs _ _ _ _ []); [done| |done]. intros q x Hq Hne. cbn [app].
        rewrite <- (at_ne (nodes d1)) by (by destruct q). apply Hup. rewrite El in *.
        by apply prefix_snoc_inv in Hq as [?|?]. }
      rewrite Hw1 in H. unfold mkdir_at in H. assert (Hne : l <> []) by (rewrite El; by destruct (rev up)).
      assert (Hfin : forall d2, (d2 = put d1 l Dir \/ d2 = d1 /\ nodes d1 !! l = Some Dir) -> nodes d1 !! l = None \/ nodes d1 !! l = Some Dir ->
        cwd d2 = cwd d /\ (forall q, q `prefix_of` l -> at_ (nodes d2) q = Some Dir) /\
        (forall q, nodes d2 !! q = nodes d !! q \/ (q `prefix_of` l /\ nodes d !! q = None /\ nodes d2 !! q = Some Dir))).
      { intros d2 Hd2 Hl1. assert (Hl : nodes d2 !! l = Some Dir) by (destruct Hd2 as [->|[-> ?] ]; [apply lookup_insert_eq|done]).
        assert (Ho : forall q, q <> l -> nodes d2 !! q = nodes d1 !! q)
          by (intros q Hq; destruct Hd2 as [->|[-> ?] ]; [by apply lookup_insert_ne|done]).
        split; [by destruct Hd2 as [->|[-> ?] ]|]. split.
        - intros q Hq. destruct (decide (q = l)) as [->|Hql]; [by rewrite at_ne|].
          rewrite El in Hq. apply prefix_snoc_inv in Hq as [->|Hq]; [by rewrite <- El in Hql|].
          pose proof (Hup q Hq) as Hqd. destruct q; [done|]. cbn [at_] in *. by rewrite Ho.
        - intros q. destruct (decide (q = l)) as [->|Hql].
          + rewrite Hl. destruct (Hsame l) as [E|(_ & E & _)]; [|right; done].
            destruct (nodes d !! l) as [n|] eqn:Edl; [left|by right]. rewrite <- Hl.
            destruct Hl1 as [?|?]; congruence.
          + rewrite Ho by done. destruct (Hsame q) as [E|(Hq & E)]; [by left|right]. split; [|done].
            trans (rev up); [done|]. rewrite El. by exists [c]. }
      clear IH. rewrite at_ne in H by done.
      destruct (fault "mkdir" _) as [e|].
      * rewrite Hw1, at_ne in H by done. destruct (nodes d1 !! l) as [ [| |]|] eqn:Ed1; try done. injection H as <-.
        apply Hfin; auto.
      * destruct (nodes d1 !! l) as [n|] eqn:Ed1.
        -- rewrite Hw1, at_ne, Ed1 in H by done. destruct n; try done. injection H as <-. apply Hfin; auto.
        -- rewrite way_parent in H; [injection H as <-; apply Hfin; auto|]. intros q x Hq Hne'.
           rewrite <- (at_ne (nodes d1)) by (by destruct q). apply Hup. rewrite El in *.
           by apply prefix_snoc_inv in Hq as [?|?].
Qed.

(** What making the directories of [l] does. *)
Definition made (s s' : fs) (l : path) : Prop :=
  (forall q, q `prefix_of` l -> at_ s' q = Some Dir) /\
  (forall q, s' !! q = s !! q \/ (q `prefix_of` l /\ s !! q = None /\ s' !! q = Some Dir)).

Lemma MkdirAll_clear d p d' l :
  at_path p l -> clear (nodes d) l -> MkdirAll d p = (d', None) -> cwd d' = cwd d /\ made (nodes d) (nodes d') l.
Proof.
  intros (Ha & Hp & Hs & Hne) Hc H. unfold MkdirAll in H. rewrite from_abs, Hp in H by done.
  rewrite <- (rev_involutive l) in Hs, Hc. destruct (mkdir_all_clear [] (rev l) d d' Hs eq_refl Hc H) as (Hcwd & H1 & H2).
  rewrite rev_involutive in H1, H2. done.
Qed.

Lemma made_other s s' l q : made s s' l -> ~ q `prefix_of` l -> s' !! q = s !! q.
Proof. intros [_ H] Hq. by destruct (H q) as [?|[? _] ]. Qed.

Lemma made_link s s' l q t : made s s' l -> s' !! q = Some (Link t) -> s !! q = Some (Link t).
Proof. intros [_ H] Hq. destruct (H q) as [E|(_ & _ & E)]; congruence. Qed.

Lemma made_clear s s' l q : made s s' l -> clear s q -> clear s' q.
Proof. intros Hm Hc r t Hr Hl. eapply Hc; [done|]. by eapply made_link. Qed.

Lemma made_wf s s' l : made s s' l -> wf s -> wf s'.
Proof.
  intros [Hd Hs] Hwf q c n Hn. destruct (Hs (q ++ [c])) as [E|(Hq & _ & _)].
  - rewrite E in Hn. specialize (Hwf _ _ _ Hn). destruct q as [|x q]; [done|]. cbn [at_] in *.
    destruct (Hs (x :: q)) as [->|(_ & _ & ->)]; done.
  - apply Hd. trans (q ++ [c]); [by exists [c]|done].
Qed.

Lemma RemoveAll_clear d p d' l :
  at_path p l -> clear (nodes d) (parent l) -> wf (nodes d) -> RemoveAll d p = (d', None) ->
  cwd d' = cwd d /\ forall q, nodes d' !! q = if below l q then None else nodes d !! q.
Proof.
  intros Hp Hc Hwf H. pose proof Hp as (_ & _ & Hs & Hne). unfold RemoveAll in H.
  destruct (locate d false p) as [l'|e] eqn:El.
  - destruct (locate_clear _ false _ _ _ Hp Hc El) as [-> _]. destruct (fault "removeall" p); [done|]. injection H as <-.
    split; [done|]. intros q. cbn [nodes with_nodes]. rewrite map_lookup_filter.
    destruct (nodes d !! q), (below l q) eqn:Eb; cbn; try done; by rewrite option_guard_bool_decide, Eb.
  - destruct (decide (e = ENOENT)) as [->|]; [|done]. injection H as <-. split; [done|]. intros q.
    destruct (below l q) eqn:Eb; [|done]. unfold below in Eb. bool_to_prop.
    destruct (nodes d !! q) as [n|] eqn:Eq; [|done]. exfalso. pose proof (wf_way _ _ _ Hwf Eq) as Hw.
    assert (Hw' : way (nodes d) l).
    { intros r x Hr Hrl. apply Hw; [by trans l|]. intros E. apply Hrl. apply (anti_symm prefix); [done|]. by rewrite E. }
    by rewrite (locate_way d false p l Hp Hw' ltac:(done)) in El.
Qed.

Lemma Symlink_clear d t p d' l :
  at_path p l -> clear (nodes d) (parent l) -> Symlink d t p = (d', None) ->
  way (nodes d) l /\ nodes d !! l = None /\ d' = put d l (Link t).
Proof.
  intros Hp Hc H. pose proof Hp as (_ & _ & _ & Hne). unfold Symlink in H.
  destruct (fault "symlink" p); [done|]. destruct (locate d false p) as [l'|e] eqn:El; [|done].
  destruct (locate_clear _ false _ _ _ Hp Hc El) as [-> Hw]. rewrite at_ne in H by done.
  destruct (nodes d !! l); [done|]. rewrite way_parent in H by done. by injection H as <-.
Qed.

(** What a [Remove] of a path whose parent is clear may do. *)
Lemma Remove_clear d p d' r l :
  at_path p l -> clear (nodes d) (parent l) -> Remove d p = (d', r) ->
  cwd d' = cwd d /\ (nodes d' = nodes d \/ nodes d' = delete l (nodes d)) /\
  (fault "remove" p = None -> way (nodes d) l -> nodes d !! l <> Some Dir -> nodes d' !! l = None).
Proof.
  intros Hp Hc. pose proof Hp as (_ & _ & _ & Hne). unfold Remove.
  destruct (fault "remove" p); [intros [= <- _]; split_and!; [done|by left|done]|].
  destruct (locate d false p) as [l'|e] eqn:El.
  - destruct (locate_clear _ false _ _ _ Hp Hc El) as [-> Hw]. rewrite at_ne by done.
    destruct (nodes d !! l) as [ [| |]|] eqn:En.
    + intros [= <- _]. split_and!; [done|by right|]. intros _ _ _. apply lookup_delete_eq.
    + intros H. split_and!; [|case_decide; injection H as <- _; auto|done]. by case_decide; injection H as <- _.
    + intros [= <- _]. split_and!; [done|by right|]. intros _ _ _. apply lookup_delete_eq.
    + intros [= <- _]. split_and!; [done|by left|done].
  - intros [= <- _]. split_and!; [done|by left|]. intros _ Hw _. by rewrite (locate_way d false p l Hp Hw ltac:(done)) in El.
Qed.

Lemma Lstat_clear d p n l :
  at_path p l -> clear (nodes d) (parent l) -> Lstat d p = Some n -> way (nodes d) l /\ nodes d !! l = Some n.
Proof.
  intros Hp Hc. pose proof Hp as (_ & _ & _ & Hne). unfold Lstat, look.
  destruct (locate d false p) as [l'|e] eqn:El; [|done]. destruct (locate_clear _ false _ _ _ Hp Hc El) as [-> Hw].
  by rewrite at_ne.
Qed.

Lemma Lstat_way d p l : at_path p l -> way (nodes d) l -> Lstat d p = nodes d !! l.
Proof.
  intros Hp Hw. pose proof Hp as (_ & _ & _ & Hne). unfold Lstat, look. rewrite (locate_way d false p l) by done. by apply at_ne.
Qed.

Lemma ReadFile_clear d p b l :
  at_path p l -> clear (nodes d) l -> ReadFile d p = Ok b -> exists m, nodes d !! l = Some (File b m).
Proof.
  intros Hp Hc H. pose proof Hp as (_ & _ & _ & Hne). unfold ReadFile in H. apply call_Ok in H.
  destruct (locate d true p) as [l'|e] eqn:El; [|done]. destruct (locate_clear _ true _ _ _ Hp Hc El) as [-> _].
  rewrite at_ne in H by done. destruct (nodes d !! l) as [ [c m| |]|]; try done. apply call_Ok in H. injection H as ->. eauto.
Qed.

Lemma Stat_way d p l n : at_path p l -> way (nodes d) l -> nodes d !! l = Some n -> (forall t, n <> Link t) -> Stat d p = Some n.
Proof.
  intros Hp Hw Hn Hl. pose proof Hp as (_ & _ & _ & Hne). unfold Stat, look. rewrite (locate_way d true p l); try done; [by rewrite at_ne|].
  intros _ t Ht. rewrite Hn in Ht. injection Ht as ->. by apply (Hl t).
Qed.

(** Wherever a path leads, a write leaves a file there. *)
Lemma WriteFile_any d p b m d' :
  WriteFile d p b m = (d', None) ->
  exists l c k, l <> [] /\ d' = put d l (File c k) /\
    match nodes d !! l with None => at_ (nodes d) (parent l) = Some Dir | Some (File _ _) => True | _ => False end.
Proof.
  unfold WriteFile. destruct (open_trunc d p m) as [ [d1 l]|e] eqn:E; [|done]. unfold open_trunc in E. apply call_Ok in E.
  destruct (locate d true p) as [l'|e]; [|done]. intros H.
  assert (Hd : exists k, d1 = put d l (File [] k) /\ l <> [] /\
    match nodes d !! l with None => at_ (nodes d) (parent l) = Some Dir | Some (File _ _) => True | _ => False end).
  { destruct l' as [|x l']; [done|]. cbn [at_] in E. destruct (nodes d !! (x :: l')) as [ [c k| |t]|] eqn:En; [|done|done|].
    - injection E as <- <-. exists k. by rewrite En.
    - destruct (is_dir _) eqn:Ed; [|done]. injection E as <- <-. exists m. rewrite En. split_and!; [done|done|].
      by destruct (at_ (nodes d) (parent (x :: l'))) as [ [| |]|]. }
  destruct Hd as (k & -> & Hne & Hl). unfold append_at in H. cbn [nodes put with_nodes] in H. rewrite lookup_insert_eq in H.
  destruct (fault "write" p); [done|]. injection H as <-. exists l, b, k. split_and!; [done| |done].
  unfold put, with_nodes. cbn [nodes cwd app]. by rewrite insert_insert_eq.
Qed.

Lemma Chmod_clear d p m d' r l :
  at_path p l -> clear (nodes d) l -> Chmod d p m = (d', r) ->
  cwd d' = cwd d /\ (forall q, q <> l -> nodes d' !! q = nodes d !! q) /\
  (forall b k, nodes d !! l = Some (File b k) -> exists k', nodes d' !! l = Some (File b k')) /\
  (nodes d' !! l = nodes d !! l \/ exists b k k', nodes d !! l = Some (File b k) /\ nodes d' !! l = Some (File b k')).
Proof.
  intros Hp Hc. pose proof Hp as (_ & _ & _ & Hne). unfold Chmod.
  assert (Hsame : cwd d = cwd d /\ (forall q, q <> l -> nodes d !! q = nodes d !! q) /\
    (forall b k, nodes d !! l = Some (File b k) -> exists k', nodes d !! l = Some (File b k')) /\
    (nodes d !! l = nodes d !! l \/ exists b k k', nodes d !! l = Some (File b k) /\ nodes d !! l = Some (File b k'))).
  { split_and!; [done|done|by eauto|by left]. }
  destruct (fault "chmod" p); [by intros [= <- _]|]. destruct (locate d true p) as [l'|e] eqn:El; [|by intros [= <- _] ].
  destruct (locate_clear _ true _ _ _ Hp Hc El) as [-> _]. rewrite at_ne by done.
  destruct (nodes d !! l) as [ [b k| |]|] eqn:En; intros [= <- _]; [|rewrite En; exact Hsame..]. cbn [cwd nodes put with_nodes]. split_and!.
  - done.
  - intros q Hq. by rewrite lookup_insert_ne.
  - intros b' k' [= <- <-]. exists m. apply lookup_insert_eq.
  - right. exists b, k, m. split; [done|apply lookup_insert_eq].
Qed.

(** *** Reading back what was written, whatever links lead there *)

Definition file_or_none (n : option node) : Prop := match n with None | Some (File _ _) => True | _ => False end.

Lemma walk_put s follow l c k links : forall cur todo, file_or_none (s !! l) ->
  walk s follow links cur todo = Ok l -> walk (<[l := File c k]> s) follow links cur todo = Ok l.
Proof.
  induction links as [|links IHl]; intros cur todo Hn; revert cur; induction todo as [|x rest IH]; intros cur H; try exact H.
  all: cbn [walk] in *; destruct (bool_decide (x = ".")); [by apply IH|]; destruct (bool_decide (x = "..")); [by apply IH|].
  all: destruct (decide (cur ++ [x] = l)) as [<-|Hne];
    [rewrite lookup_insert_eq; destruct (s !! (cur ++ [x])) as [ [| |]|]; try done; by destruct rest|].
  all: rewrite lookup_insert_ne by done; destruct (s !! (cur ++ [x])) as [ [| |t]|];
    [destruct rest; congruence|by apply IH| |destruct rest; congruence].
  all: destruct (_ && _); [done|]; first [done|by apply IHl].
Qed.

Lemma locate_put d follow p l c k :
  file_or_none (nodes d !! l) -> locate d follow p = Ok l -> locate (put d l (File c k)) follow p = Ok l.
Proof. intros Hn. unfold locate. destruct p; [done|]. by apply walk_put. Qed.

(** What a path leads to, as a file. *)
Definition holds (d : disk) (p : string) (b : bytes) : Prop :=
  exists l k, l <> [] /\ locate d true p = Ok l /\ nodes d !! l = Some (File b k).

Lemma WriteFile_holds d p b m d' : WriteFile d p b m = (d', None) -> holds d' p b.
Proof.
  unfold WriteFile. destruct (open_trunc d p m) as [ [d1 l]|e] eqn:E; [|done]. unfold open_trunc in E. apply call_Ok in E.
  destruct (locate d true p) as [l'|e] eqn:El; [|done]. intros H.
  assert (Hd : exists k, d1 = put d l (File [] k) /\ l' = l /\ l <> [] /\ file_or_none (nodes d !! l)).
  { destruct l' as [|x l']; [done|]. cbn [at_] in E. destruct (nodes d !! (x :: l')) as [ [c k| |t]|] eqn:En; [|done|done|].
    - injection E as <- <-. exists k. by rewrite En.
    - destruct (is_dir _); [|done]. injection E as <- <-. exists m. by rewrite En. }
  destruct Hd as (k & -> & -> & Hne & Hn). unfold append_at in H. cbn [nodes put with_nodes] in H. rewrite lookup_insert_eq in H.
  destruct (fault "write" p); [done|]. injection H as <-.
  match goal with |- holds ?x _ _ => replace x with (put d l (File b k))
    by (unfold put, with_nodes; cbn [nodes cwd app]; by rewrite insert_insert_eq) end.
  exists l, k. split; [done|]. split; [by apply locate_put|apply lookup_insert_eq].
Qed.

Lemma Chmod_holds d p m b : holds d p b -> holds (Chmod d p m).1 p b.
Proof.
  intros (l & k & Hne & El & En). unfold Chmod. destruct (fault "chmod" p); [by exists l, k|]. rewrite El, at_ne, En by done.
  exists l, m. split; [done|]. split; [apply locate_put; [by rewrite En|done]|apply lookup_insert_eq].
Qed.

Lemma holds_read d p b c : holds d p b -> ReadFile d p = Ok c -> c = b.
Proof.
  intros (l & k & Hne & El & En) H. unfold ReadFile in H. apply call_Ok in H. rewrite El, at_ne, En in H by done.
  apply call_Ok in H. congruence.
Qed.
End Calls.
End GuestFsSpec.
