(* ===== verification/Trust.v ===== *)
(** * The guest's trust store (src/cmd/warden-io/trust_linux.go, platform_linux.go)

    Installing the relay's CA as the system's only root, or as one more; the
    hook that restores exclusive trust when ca-certificates is reinstalled.
    X.509 and ASN.1 are parameters, and so is update-ca-certificates. *)
From S2P Require Import Prelude Text Crypto Writer Translate Session GuestFs.

#[local] Open Scope string_scope.
#[local] Open Scope Z_scope.

(** A certificate, as far as the agent reads it: its DER form, the start of its
    validity in milliseconds of Unix time and its subject's DER form. *)
Record Cert := mkCert { Raw : bytes; NotBefore : Z; RawSubject : bytes }.

(** [pem.Decode], [x509.ParseCertificate], and [asn1.Unmarshal] and [Marshal] of
    a subject: a sequence of sets of attributes, an attribute being its object
    identifier with its value when that is a string. *)
Class X509Ops := {
  pem_decode : bytes -> option bytes;
  ParseCertificate : bytes -> result Cert;
  unmarshal_subject : bytes -> result (list (list (list Z * option string)));
  marshal_set : list (list Z * string) -> result bytes }.

(** update-ca-certificates: whether it is on the path, and what it does. *)
Class CaTool := {
  has_update : GuestFs.disk -> bool;
  run_update : GuestFs.disk -> GuestFs.disk * option error }.

Module Trust.
Import GuestFs.

(** [filepath.Join] and [filepath.Dir] *)
Abbreviation Join := Session.Join.
Abbreviation Dir_of := Translate.path_Dir.

(** ** OpenSSL's names *)

(** The runes of a string; an invalid byte is U+FFFD. *)
Definition rune_value (s : string) (n : nat) : Z :=
  match n, s with
  | 2%nat, String c (String d _) => (code c - 192) * 64 + (code d - 128)
  | 3%nat, String c (String d (String e _)) => (code c - 224) * 4096 + (code d - 128) * 64 + (code e - 128)
  | 4%nat, String c (String d (String e (String f _))) =>
      (code c - 240) * 262144 + (code d - 128) * 4096 + (code e - 128) * 64 + (code f - 128)
  | _, _ => 65533
  end.
Fixpoint runes_go (fuel : nat) (s : string) : list Z :=
  match fuel, s with
  | S fuel, String c s' =>
      if code c <? 128 then code c :: runes_go fuel s'
      else
        let n := Translate.utf8_len s in
        rune_value s n :: runes_go fuel (substring (Nat.max 1 n) (String.length s - Nat.max 1 n) s)
  | _, _ => []
  end.
Definition runes (s : string) : list Z := runes_go (String.length s) s.

(** [WriteRune] of a valid rune *)
Definition byte_str (z : Z) : string := String (ascii_of_Z z) "".
Definition encode_rune (r : Z) : string :=
  if r <? 128 then byte_str r
  else if r <? 2048 then byte_str (192 + r / 64) ++ byte_str (128 + r mod 64)
  else if r <? 65536 then byte_str (224 + r / 4096) ++ byte_str (128 + r / 64 mod 64) ++ byte_str (128 + r mod 64)
  else byte_str (240 + r / 262144) ++ byte_str (128 + r / 4096 mod 64) ++ byte_str (128 + r / 64 mod 64) ++
       byte_str (128 + r mod 64).

(** [unicode.IsSpace] *)
Definition IsSpace (r : Z) : bool :=
  ((9 <=? r) && (r <=? 13)) || bool_decide (r ∈ [32; 133; 160; 5760; 8232; 8233; 8239; 8287; 12288]) ||
  ((8192 <=? r) && (r <=? 8202)).

Fixpoint drop_space (l : list Z) : list Z :=
  match l with r :: l' => if IsSpace r then drop_space l' else l | [] => [] end.
Definition trim_space (l : list Z) : list Z := rev (drop_space (rev (drop_space l))).

(** [unicode.ToLower] of a rune up to 128 *)
Definition ToLower (r : Z) : Z := if (65 <=? r) && (r <=? 90) then r + 32 else r.

(** [canonicalString] *)
Fixpoint canonical_go (inSpace : bool) (l : list Z) : string :=
  match l with
  | [] => ""
  | r :: l =>
      if 128 <? r then encode_rune r ++ canonical_go false l
      else if IsSpace r then (if inSpace then "" else " ") ++ canonical_go true l
      else encode_rune (ToLower r) ++ canonical_go false l
  end.
Definition canonicalString (s : string) : string := canonical_go false (trim_space (runes s)).

Section Trust.
Context {HO : HashOps} {XO : X509Ops} {CT : CaTool} {O : OS}.

(** The encoding of one set: an attribute without a string is left out. *)
Definition canonical_set (set : list (list Z * option string)) : result bytes :=
  marshal_set (omap (fun a => match a.2 with Some v => Some (a.1, canonicalString v) | None => None end) set).

Fixpoint hash_sets (acc : bytes) (seq : list (list (list Z * option string))) : result bytes :=
  match seq with
  | [] => Ok acc
  | set :: seq =>
      match canonical_set set with
      | Err e => Err (Wrap "encoding certificate subject" e)
      | Ok enc => hash_sets (acc ++ enc)%list seq
      end
  end.

(** [subjectHash] *)
Definition subjectHash (cert : Cert) : result string :=
  match unmarshal_subject (RawSubject cert) with
  | Err e => Err (Wrap "parsing certificate subject" e)
  | Ok seq =>
      match hash_sets [] seq with
      | Err e => Err e
      | Ok h =>
          let s := Writer.hex_encode (sha1 h) in
          Ok (substring 6 2 s ++ substring 4 2 s ++ substring 2 2 s ++ substring 0 2 s)
      end
  end.

(** ** Installing the CA *)
Definition wardenCAPath : string := "/usr/local/share/ca-certificates/warden-ca.crt".
Definition certs : string := "/etc/ssl/certs".
Definition otherBundles : list string :=
  ["/etc/pki/tls/certs/ca-bundle.crt"; "/etc/pki/ca-trust/extracted/pem/tls-ca-bundle.pem"; "/etc/ssl/cert.pem"].
Definition hookDir : string := "/etc/ca-certificates/update.d".

Definition line (s : string) : string := s ++ Translate.nl.

(** [trustHook] with its two arguments *)
Definition trustHook (ca hash : string) : string :=
  line "#!/bin/sh" ++
  line "# Installed by warden-io: the warden CA is the only trusted root." ++
  line "rm -rf /etc/ssl/certs" ++
  line "mkdir -p /etc/ssl/certs" ++
  line ("cp " ++ ca ++ " /etc/ssl/certs/warden.crt") ++
  line ("cp " ++ ca ++ " /etc/ssl/certs/ca-certificates.crt") ++
  line ("ln -s warden.crt /etc/ssl/certs/" ++ hash ++ ".0").

(** The loop over [otherBundles]. *)
Fixpoint write_bundles (d : disk) (pemData : bytes) (bundles : list string) : disk * option error :=
  match bundles with
  | [] => (d, None)
  | b :: bundles =>
      match Lstat d b with
      | None => write_bundles d pemData bundles
      | Some _ =>
          let '(d, _) := Remove d b in
          try (wrap ("writing " ++ b) (WriteFile d b pemData 420)) (fun d => write_bundles d pemData bundles)
      end
  end.

(** [installExclusiveCA] *)
Definition installExclusiveCA (d : disk) (pemData : bytes) (cert : Cert) : disk * option error :=
  match subjectHash cert with
  | Err e => (d, Some e)
  | Ok hash =>
      try (wrap "clearing /etc/ssl/certs" (RemoveAll d certs)) (fun d =>
      try (MkdirAll d certs) (fun d =>
      try (WriteFile d (Join certs "warden.crt") pemData 420) (fun d =>
      try (WriteFile d (Join certs "ca-certificates.crt") pemData 420) (fun d =>
      try (Symlink d "warden.crt" (Join certs (hash ++ ".0"))) (fun d =>
      try (write_bundles d pemData otherBundles) (fun d =>
      try (MkdirAll d hookDir) (fun d =>
      WriteFile d (Join hookDir "99warden") (bytes_of (trustHook wardenCAPath hash)) 493)))))))
  end.

(** The bundles the fallback of [installCA] and [findCABundle] look for. *)
Definition bundles : list string :=
  ["/etc/ssl/certs/ca-certificates.crt"; "/etc/pki/tls/certs/ca-bundle.crt"; "/etc/ssl/cert.pem"].

(** Appending to the first bundle that can be opened; what the writes return is
    ignored. *)
Fixpoint append_bundle (d : disk) (pem : bytes) (l : list string) : disk * option error :=
  match l with
  | [] => (d, Some (Msg "no writable CA bundle found"))
  | bundle :: l =>
      match open_append d bundle with
      | Err _ => append_bundle d pem l
      | Ok at_file =>
          let '(d, _) := append_at d bundle at_file (bytes_of Translate.nl) in
          let '(d, _) := append_at d bundle at_file pem in
          (d, None)
      end
  end.

(** [installCA] *)
Definition TrustAppend : string := "append".
Definition TrustExclusive : string := "exclusive".

Definition installCA (d : disk) (pem : bytes) (cert : Cert) (mode : string) : disk * option error :=
  try (wrap "creating CA dir" (MkdirAll d (Dir_of wardenCAPath))) (fun d =>
  try (wrap "writing CA cert" (WriteFile d wardenCAPath pem 420)) (fun d =>
  if bool_decide (mode = TrustExclusive) then installExclusiveCA d pem cert
  else
    if has_update d then
      match run_update d with
      | (d, None) => (d, None)
      | (d, Some _) => append_bundle d pem bundles
      end
    else append_bundle d pem bundles)).

(** [findCABundle] *)
Definition findCABundle (d : disk) : string :=
  default "" (List.find (fun p => bool_decide (is_Some (Stat d p))) bundles).
End Trust.
End Trust.
