(* ===== verification/TrustSpec.v ===== *)
(** * What installing the relay's CA guarantees

    Exclusive trust leaves the relay's CA as the only certificate at every place
    Linux distributions read system roots from, touches nothing else, and is
    restored by its hook. *)
From S2P Require Import Prelude Text Crypto Writer Translate Session GuestFs Trust.

#[local] Open Scope string_scope.
#[local] Open Scope Z_scope.
#[local] Open Scope list_scope.

Module TrustSpec.
Import GuestFs GuestFsSpec Trust.

(** ** The paths *)
Definition certsPath : path := ["etc"; "ssl"; "certs"].
Definition hookPath : path := ["etc"; "ca-certificates"; "update.d"; "99warden"].
Definition caPath : path := ["usr"; "local"; "share"; "ca-certificates"; "warden-ca.crt"].

(** Computes that a literal is the path of its names. *)
Lemma at_path_bool p l :
  absolute p && bool_decide (comps p = l) && forallb (fun n => negb (bool_decide (n = ".")) && negb (bool_decide (n = ".."))) l &&
  negb (bool_decide (l = [])) = true -> at_path p l.
Proof.
  rewrite !andb_true_iff, negb_true_iff, bool_decide_eq_true, bool_decide_eq_false, forallb_forall.
  intros [ [ [Ha Hc] Hs] Hne]. split_and!; try done. apply Forall_forall. intros n Hn%list_elem_of_In.
  specialize (Hs n Hn). cbn beta in Hs. rewrite andb_true_iff, !negb_true_iff, !bool_decide_eq_false in Hs. done.
Qed.

Ltac at_path_tac := apply at_path_bool; vm_compute; reflexivity.

Lemma at_certs : at_path certs certsPath.
Proof. at_path_tac. Qed.
Lemma at_hook : at_path (Join hookDir "99warden") hookPath.
Proof. at_path_tac. Qed.
Lemma at_ca : at_path wardenCAPath caPath.
Proof. at_path_tac. Qed.
Lemma at_bundles : Forall (fun b => at_path b (comps b)) otherBundles.
Proof. repeat (apply Forall_cons_2; [at_path_tac|]). by apply Forall_nil. Qed.

(** A name of a file in a directory. *)
Definition name_ok (n : string) : Prop := n <> "" /\ sname n /\ no_char "/" n.

Lemma join_certs n : name_ok n -> Join certs n = ("/etc/ssl/certs/" ++ n)%string.
Proof.
  intros (Hne & [Hd Hdd] & Hn). unfold Join, Session.Join, Translate.path_Clean, certs. cbn [append].
  rewrite decide_True by done.
  change (String "e" (String "t" (String "c" (String "/" ?r)))) with ("etc" ++ String "/" r)%string.
  change (String "s" (String "s" (String "l" (String "/" ?r)))) with ("ssl" ++ String "/" r)%string.
  change (String "c" (String "e" (String "r" (String "t" (String "s" (String "/" ?r)))))) with ("certs" ++ String "/" r)%string.
  rewrite !Split_app, (Split_none n) by done. cbn [foldl]. unfold Translate.clean_seg_rooted at 1.
  rewrite decide_False by naive_solver. rewrite decide_False by done. done.
Qed.

Lemma at_certs_name n : name_ok n -> at_path (Join certs n) (certsPath ++ [n]).
Proof.
  intros Hok. rewrite join_certs by done. destruct Hok as (Hne & Hs & Hn). split; [done|]. split; [|split; [|done] ].
  - unfold comps. change ("/etc/ssl/certs/" ++ n)%string with ("" ++ String "/" ("etc" ++ String "/" ("ssl" ++ String "/" ("certs" ++ String "/" n))))%string.
    rewrite !Split_app, (Split_none n) by done.
    rewrite filter_cons_False by naive_solver. by rewrite !filter_cons_True by done.
  - repeat (apply Forall_cons_2; [done|]). by apply Forall_nil.
Qed.

(** Two fixed paths, one not below the other, by computation. *)
Lemma not_by_decide (P : Prop) `{Decision P} : bool_decide P = false -> ~ P.
Proof. apply bool_decide_eq_false. Qed.
Ltac apart := refine (not_by_decide _ _); vm_compute; reflexivity.

(** ** Exclusive trust *)
Section Exclusive.
Context {HO : HashOps} {XO : X509Ops} {CT : CaTool} {O : OS}.

Lemma clear_snoc s p c : clear s p -> (forall t, s !! (p ++ [c]) <> Some (Link t)) -> clear s (p ++ [c]).
Proof. intros Hp Hc q t Hq. apply prefix_snoc_inv in Hq as [->|Hq]; [apply Hc|by apply Hp]. Qed.

Lemma clear_leaf s l : l <> [] -> clear s (parent l) -> (forall t, s !! l <> Some (Link t)) -> clear s l.
Proof.
  intros Hne Hp Hl. destruct l as [|c l _] using rev_ind; [done|]. rewrite parent_snoc in Hp. by apply clear_snoc.
Qed.

Lemma clear_insert s l n p : (forall t, n <> Link t) -> clear s p -> clear (<[l := n]> s) p.
Proof.
  intros Hn Hp q t Hq. destruct (decide (q = l)) as [->|?].
  - rewrite lookup_insert_eq. intros [= E]. by apply (Hn t).
  - rewrite lookup_insert_ne by done. by apply Hp.
Qed.

Lemma clear_same (s s' : fs) p : (forall q t, q `prefix_of` p -> s' !! q = Some (Link t) -> s !! q = Some (Link t)) -> clear s p -> clear s' p.
Proof. intros H Hc q t Hq E. eapply Hc; [exact Hq|by apply H]. Qed.

(** What the loop over the bundles leaves. *)
Definition bundle_ok (d : disk) (b : string) : Prop :=
  at_path b (comps b) /\ clear (nodes d) (parent (comps b)) /\ nodes d !! comps b <> Some Dir /\ fault "remove" b = None.

Definition rewritten (s s' : fs) (pem : bytes) (ps : list path) : Prop :=
  forall q, s' !! q = if bool_decide (q ∈ ps /\ is_Some (s !! q)) then Some (File pem 420) else s !! q.

Lemma write_bundle_step d b pem d1 r d2 :
  wf (nodes d) -> bundle_ok d b -> is_Some (nodes d !! comps b) ->
  Remove d b = (d1, r) -> wrap ("writing " ++ b)%string (WriteFile d1 b pem 420) = (d2, None) ->
  cwd d2 = cwd d /\ nodes d2 = <[comps b := File pem 420]> (nodes d).
Proof.
  intros Hwf (Hp & Hc & Hnd & Hf) [n Hn] Hr Hw%wrap_None. pose proof Hp as (_ & _ & _ & Hne).
  destruct (Remove_clear _ _ _ _ _ Hp Hc Hr) as (Hcwd & Hs & Hgone).
  specialize (Hgone Hf (wf_way _ _ _ Hwf Hn) Hnd).
  assert (Hs1 : nodes d1 = delete (comps b) (nodes d)) by (destruct Hs as [Hs|?]; [congruence|done]). clear Hs.
  assert (Hc1 : clear (nodes d1) (comps b)).
  { apply clear_leaf; [done| |by rewrite Hgone]. eapply clear_same, Hc. intros q t _. rewrite Hs1.
    intros H. by apply lookup_delete_Some in H as [_ ?]. }
  destruct (WriteFile_clear _ _ _ _ _ _ Hp Hc1 Hw) as (_ & _ & ->). split; [done|].
  cbn [nodes put with_nodes]. unfold kept_mode. rewrite Hgone, Hs1. apply insert_delete_eq.
Qed.

Lemma write_bundles_spec pem bs : forall d d',
  wf (nodes d) -> Forall (bundle_ok d) bs -> write_bundles d pem bs = (d', None) ->
  cwd d' = cwd d /\ rewritten (nodes d) (nodes d') pem (comps <$> bs).
Proof.
  induction bs as [|b bs IH]; intros d d' Hwf Hok H.
  { injection H as <-. split; [done|]. intros q. rewrite bool_decide_eq_false_2; [done|]. intros [Hq _]. by apply elem_of_nil in Hq. }
  cbn [write_bundles] in H. apply Forall_cons in Hok as [Hb Hbs].
  pose proof Hb as (Hp & Hc & Hnd & Hf).
  destruct (Lstat d b) as [n|] eqn:El.
  - destruct (Lstat_clear _ _ _ _ Hp Hc El) as [Hway Hn].
    destruct (Remove d b) as [d1 r] eqn:Er. apply try_None in H as (d2 & Hw & H).
    destruct (write_bundle_step _ _ _ _ _ _ Hwf Hb ltac:(eauto) Er Hw) as [Hcwd Hs].
    destruct (IH d2 d') as [Hcwd' Hrest]; [| |done|].
    + rewrite Hs. apply wf_put; [done|by apply way_parent|by intros ?|by destruct Hp as (_ & _ & _ & ?)].
    + eapply Forall_impl; [exact Hbs|]. intros b' (Hp' & Hc' & Hnd' & Hf'). split_and!; [done| | |done].
      * rewrite Hs. by apply clear_insert.
      * rewrite Hs. destruct (decide (comps b' = comps b)) as [->|?]; [by rewrite lookup_insert_eq|by rewrite lookup_insert_ne].
    + split; [by rewrite Hcwd'|]. intros q. rewrite (Hrest q), Hs. destruct (decide (q = comps b)) as [->|Hq].
      * rewrite lookup_insert_eq. rewrite (bool_decide_eq_true_2 (comps b ∈ comps <$> b :: bs /\ _)) by (rewrite Hn; split; [left|done]).
        by destruct (bool_decide _).
      * rewrite lookup_insert_ne by done. rewrite fmap_cons.
        erewrite (bool_decide_ext (q ∈ comps b :: _ /\ _)); [done|]. rewrite elem_of_cons. naive_solver.
  - destruct (IH d d' Hwf Hbs H) as [Hcwd Hrest]. split; [done|]. intros q. rewrite (Hrest q), fmap_cons.
    erewrite (bool_decide_ext (q ∈ comps b :: _ /\ _)); [done|]. rewrite elem_of_cons.
    split; [|naive_solver]. intros [ [->|?] Hs]; [|done]. exfalso. destruct Hs as [n Hn].
    by rewrite (Lstat_way _ _ _ Hp (wf_way _ _ _ Hwf Hn)), Hn in El.
Qed.

(** What is in /etc/ssl/certs afterwards, by the names below it. *)
Definition certs_node (pem : bytes) (hash : string) (names : list string) : option node :=
  match names with
  | [] => Some Dir
  | [n] => if decide (n = "warden.crt" \/ n = "ca-certificates.crt") then Some (File pem 420)
           else if decide (n = (hash ++ ".0")%string) then Some (Link "warden.crt") else None
  | _ => None
  end.

Lemma below_app l k : below l (l ++ k) = true.
Proof. apply bool_decide_eq_true_2. by exists k. Qed.

Lemma below_false l q : below l q = false <-> ~ l `prefix_of` q.
Proof. apply bool_decide_eq_false. Qed.

Lemma wf_filter_below (s s' : fs) l : wf s -> (forall q, s' !! q = if below l q then None else s !! q) -> wf s'.
Proof.
  intros Hwf Hs q c n Hn. rewrite Hs in Hn. destruct (below l (q ++ [c])) eqn:Eb; [done|]. specialize (Hwf _ _ _ Hn).
  destruct q as [|x q]; [done|]. cbn [at_] in *. rewrite Hs. destruct (below l (x :: q)) eqn:Eq; [|done].
  apply below_false in Eb. exfalso. apply Eb. unfold below in Eq. bool_to_prop. trans (x :: q); [done|by exists [c] ].
Qed.

(** A file written into a directory of regular files only. *)
Lemma put_certs d p n b m d' :
  at_path p (certsPath ++ [n]) -> clear (nodes d) certsPath -> nodes d !! (certsPath ++ [n]) = None ->
  WriteFile d p b m = (d', None) -> d' = put d (certsPath ++ [n]) (File b m).
Proof.
  intros Hp Hc Hn Hw. assert (Hcl : clear (nodes d) (certsPath ++ [n])) by (apply clear_snoc; [done|by rewrite Hn]).
  destruct (WriteFile_clear _ _ _ _ _ _ Hp Hcl Hw) as (_ & _ & ->). unfold kept_mode. by rewrite Hn.
Qed.

Lemma snoc_ne (n m : string) : n <> m -> certsPath ++ [n] <> certsPath ++ [m].
Proof. intros H E. apply app_inj_tail in E as [_ ?]. done. Qed.

Lemma name_ok_literal n : negb (bool_decide (n = "")) && negb (bool_decide (n = ".")) && negb (bool_decide (n = "..")) &&
  str_forallb (fun c => negb (bool_decide (c = "/"%char))) n = true -> name_ok n.
Proof.
  rewrite !andb_true_iff, !negb_true_iff, !bool_decide_eq_false. intros [ [ [? ?] ?] ?]. by split_and!.
Qed.

(** What the replaced directory is, and what else changed. *)
Definition certs_replaced (s s' : fs) (pem : bytes) (hash : string) : Prop :=
  (forall names, s' !! (certsPath ++ names) = certs_node pem hash names) /\
  (forall q, ~ certsPath `prefix_of` q ->
     s' !! q = s !! q \/ (s !! q = None /\ s' !! q = Some Dir /\ q `prefix_of` certsPath)).

(** The directory once it holds the two files and the link. *)
Definition filled (s : fs) (pem : bytes) (hash : string) : fs :=
  <[certsPath ++ [(hash ++ ".0")%string] := Link "warden.crt"]>
  (<[certsPath ++ ["ca-certificates.crt"] := File pem 420]> (<[certsPath ++ ["warden.crt"] := File pem 420]> s)).

Lemma filled_lookup s pem hash :
  s !! certsPath = Some Dir -> (forall n names, s !! (certsPath ++ n :: names) = None) ->
  (hash ++ ".0")%string <> "warden.crt" -> (hash ++ ".0")%string <> "ca-certificates.crt" ->
  forall names, filled s pem hash !! (certsPath ++ names) = certs_node pem hash names.
Proof.
  intros Hd Hs Hw Hca names. unfold filled. destruct names as [|n [|x names] ].
  - rewrite app_nil_r. by rewrite !lookup_insert_ne by done.
  - cbn [certs_node]. destruct (decide (n = (hash ++ ".0")%string)) as [->|Hh].
    + rewrite decide_False by naive_solver. apply lookup_insert_eq.
    + rewrite lookup_insert_ne by by apply snoc_ne. destruct (decide (n = "ca-certificates.crt")) as [->|Hc].
      { rewrite decide_True by auto. apply lookup_insert_eq. }
      rewrite lookup_insert_ne by by apply snoc_ne. destruct (decide (n = "warden.crt")) as [->|Hn].
      { rewrite decide_True by auto. apply lookup_insert_eq. }
      rewrite decide_False by naive_solver. rewrite lookup_insert_ne by by apply snoc_ne. apply Hs.
  - assert (Hlong : forall m, certsPath ++ [m] <> certsPath ++ n :: x :: names) by (intros m E; by apply app_inv_head in E).
    rewrite !lookup_insert_ne by apply Hlong. apply Hs.
Qed.

Lemma filled_other s pem hash q : ~ certsPath `prefix_of` q -> filled s pem hash !! q = s !! q.
Proof. intros Hq. unfold filled. rewrite !lookup_insert_ne; [done|..]; intros <-; apply Hq; by eexists. Qed.

Lemma filled_wf s pem hash :
  wf s -> s !! certsPath = Some Dir -> (forall n names, s !! (certsPath ++ n :: names) = None) ->
  (hash ++ ".0")%string <> "warden.crt" -> (hash ++ ".0")%string <> "ca-certificates.crt" -> wf (filled s pem hash).
Proof.
  intros Hwf Hd Hs Hw Hca. unfold filled.
  apply wf_put; [apply wf_put; [apply wf_put; [done|..]|..]|..]; rewrite ?parent_snoc; cbn [at_ certsPath];
    rewrite ?lookup_insert_ne by (done || by apply snoc_ne); rewrite ?Hs; try done.
Qed.

Lemma emptied d d1 d2 :
  wf (nodes d) -> clear (nodes d) (parent certsPath) -> RemoveAll d certs = (d1, None) -> MkdirAll d1 certs = (d2, None) ->
  cwd d2 = cwd d /\ wf (nodes d2) /\ clear (nodes d2) certsPath /\ nodes d2 !! certsPath = Some Dir /\
  (forall n names, nodes d2 !! (certsPath ++ n :: names) = None) /\
  (forall q, ~ certsPath `prefix_of` q ->
     nodes d2 !! q = nodes d !! q \/ (nodes d !! q = None /\ nodes d2 !! q = Some Dir /\ q `prefix_of` certsPath)).
Proof.
  intros Hwf Hc H1 H2. destruct (RemoveAll_clear _ _ _ _ at_certs Hc Hwf H1) as [Hw1 Hs1].
  assert (Hc1 : clear (nodes d1) certsPath).
  { apply clear_leaf; [done| |by rewrite Hs1]. eapply clear_same, Hc. intros q t _ E. rewrite Hs1 in E. by destruct (below certsPath q). }
  destruct (MkdirAll_clear _ _ _ _ at_certs Hc1 H2) as [Hw2 Hm]. split_and!.
  - congruence.
  - by eapply made_wf, wf_filter_below.
  - by eapply made_clear.
  - by apply (proj1 Hm certsPath).
  - intros n names. rewrite (made_other _ _ _ _ Hm), Hs1, below_app; [done|]. intros Hp. apply prefix_length in Hp.
    rewrite length_app in Hp. cbn in Hp. lia.
  - intros q Hq. destruct Hm as [_ Hm].
    destruct (Hm q) as [E|(Hp & E & E')]; rewrite Hs1, (proj2 (below_false _ _) Hq) in E; [by left|by right].
Qed.

Lemma certs_written d d1 d2 d3 d4 d5 pem hash :
  wf (nodes d) -> clear (nodes d) (parent certsPath) -> name_ok (hash ++ ".0") ->
  RemoveAll d certs = (d1, None) -> MkdirAll d1 certs = (d2, None) ->
  WriteFile d2 (Join certs "warden.crt") pem 420 = (d3, None) ->
  WriteFile d3 (Join certs "ca-certificates.crt") pem 420 = (d4, None) ->
  Symlink d4 "warden.crt" (Join certs (hash ++ ".0")) = (d5, None) ->
  cwd d5 = cwd d /\ wf (nodes d5) /\ certs_replaced (nodes d) (nodes d5) pem hash.
Proof.
  intros Hwf Hc Hn H1 H2 H3 H4 H5. destruct (emptied _ _ _ Hwf Hc H1 H2) as (Hcwd & Hwf2 & Hc2 & Hd & Hin & Ho).
  apply (put_certs _ _ _ _ _ _ (at_certs_name "warden.crt" ltac:(by apply name_ok_literal)) Hc2 (Hin _ _)) in H3 as ->.
  assert (Hc3 : clear (nodes (put d2 (certsPath ++ ["warden.crt"]) (File pem 420))) certsPath) by by apply clear_insert.
  apply (put_certs _ _ _ _ _ _ (at_certs_name "ca-certificates.crt" ltac:(by apply name_ok_literal)) Hc3) in H4 as ->;
    [|cbn [nodes put with_nodes]; rewrite lookup_insert_ne by (by apply snoc_ne); apply Hin].
  set (d4 := put (put d2 _ _) _ _) in *. assert (Hc4 : clear (nodes d4) certsPath) by by apply clear_insert.
  destruct (Symlink_clear _ _ _ _ _ (at_certs_name _ Hn) ltac:(by rewrite parent_snoc) H5) as (_ & Hnone & ->).
  assert (Hne : (hash ++ ".0")%string <> "warden.crt" /\ (hash ++ ".0")%string <> "ca-certificates.crt").
  { split; intros E; rewrite E in Hnone; cbn [d4 nodes put with_nodes] in Hnone;
      [rewrite lookup_insert_ne in Hnone by by apply snoc_ne|]; by rewrite lookup_insert_eq in Hnone. }
  destruct Hne as [Hw Hca]. split; [done|].
  change (nodes (put d4 _ _)) with (filled (nodes d2) pem hash). split; [by apply filled_wf|]. split.
  - by apply filled_lookup.
  - intros q Hq. rewrite filled_other by done. by apply Ho.
Qed.

(** ** Names made of hexadecimal digits *)
Lemma substring_forallb (P : ascii -> bool) s : forall n m, str_forallb P s = true -> str_forallb P (substring n m s) = true.
Proof.
  induction s as [|c s IH]; intros [|n] [|m] Hs; cbn; try done; cbn in Hs; apply andb_true_iff in Hs as [? ?]; [|by apply IH..].
  apply andb_true_iff. split; [done|]. by apply IH.
Qed.

Lemma substring_nonempty s : forall n m, (n < String.length s)%nat -> substring n (S m) s <> "".
Proof. induction s as [|c s IH]; intros [|n] m H; cbn in *; [lia..|done|]. apply IH. lia. Qed.

Lemma concat_forallb P l : Forall (fun s => str_forallb P s = true) l -> str_forallb P (String.concat "" l) = true.
Proof.
  induction 1 as [|x l Hx Hl IH]; [done|]. destruct l as [|y l]; [done|].
  change (String.concat "" (x :: y :: l)) with (x ++ "" ++ String.concat "" (y :: l))%string.
  rewrite str_forallb_app, Hx. exact IH.
Qed.

Definition is_hex (c : ascii) : bool := is_digit c || ((97 <=? code c) && (code c <=? 102)).

Lemma hex_is_hex b : str_forallb is_hex (Writer.hex_encode b) = true.
Proof.
  apply concat_forallb. induction b as [|x b IH]; [done|]. cbn [fmap list_fmap]. apply Forall_cons_2; [|exact IH].
  by destruct x.
Qed.

Lemma length_concat_2 l : Forall (fun s => String.length s = 2%nat) l -> String.length (String.concat "" l) = (2 * length l)%nat.
Proof.
  induction 1 as [|x l Hx Hl IH]; [done|]. destruct l as [|y l]; [cbn; lia|].
  change (String.concat "" (x :: y :: l)) with (x ++ "" ++ String.concat "" (y :: l))%string.
  rewrite str_length_app, Hx. change (2 + String.length (String.concat "" (y :: l)) = 2 * S (length (y :: l)))%nat. rewrite IH. cbn. lia.
Qed.

Lemma length_hex b : String.length (Writer.hex_encode b) = (2 * length b)%nat.
Proof.
  unfold Writer.hex_encode. rewrite length_concat_2, length_fmap; [done|]. apply Forall_fmap, Forall_true. by intros [].
Qed.

Lemma is_hex_safe h : str_forallb is_hex h = true -> str_forallb (fun c => negb (Translate.unsafe c)) h = true /\ no_char "/" h.
Proof.
  intros H. split; revert H; apply str_forallb_impl; intros c Hc; apply negb_true_iff, bool_decide_eq_false; [|by intros ->].
  intros Hin. unfold Translate.unsafe_chars in Hin. repeat (apply elem_of_cons in Hin as [->|Hin]; [by vm_compute in Hc|]).
  by apply elem_of_nil in Hin.
Qed.

Lemma subjectHash_hex cert hash : subjectHash cert = Ok hash ->
  str_forallb is_hex hash = true /\ (HashLaws -> hash <> "").
Proof.
  unfold subjectHash. destruct (unmarshal_subject _); [|done]. destruct (hash_sets _ _) as [h|]; [|done]. intros [= <-].
  set (s := Writer.hex_encode (sha1 h)). assert (Hs : str_forallb is_hex s = true) by apply hex_is_hex. split.
  - rewrite !str_forallb_app, !andb_true_iff. split_and!; by apply substring_forallb.
  - intros HL E. destruct (substring 6 2 s) as [|c r] eqn:E2; [|done]. revert E2. apply substring_nonempty.
    unfold s. rewrite length_hex. pose proof (len_sha1 h) as Hl. unfold len in Hl. lia.
Qed.

Lemma subjectHash_name cert hash : subjectHash cert = Ok hash -> name_ok (hash ++ ".0").
Proof.
  intros [Hk _]%subjectHash_hex. apply is_hex_safe in Hk as [_ Hk].
  split; [by destruct hash|]. split; [split|by apply no_char_app].
  - destruct hash as [|c [|] ]; done.
  - destruct hash as [|c [|d [|] ] ]; cbn; congruence.
Qed.

(** ** The whole of the installation *)

(** What is assumed of the guest: its nodes are in directories, none of the
    fixed paths leads through a link (a bundle, and /etc/ssl/certs, may be
    one), and a bundle is no directory. *)
Record linux_guest (s : fs) : Prop := {
  g_wf : wf s;
  g_certs : clear s (parent certsPath);
  g_hook : clear s hookPath;
  g_ca : clear s caPath;
  g_bundles : Forall (fun b => clear s (parent (comps b)) /\ s !! comps b <> Some Dir) otherBundles }.

Definition managed : list path := [hookPath; caPath] ++ (comps <$> otherBundles).
Definition dirs_for : list path := [certsPath; hookPath; caPath].

(** Exclusive trust, on the nodes. *)
Record exclusive (s s' : fs) (pem : bytes) (hash : string) : Prop := {
  e_way : forall q, q `prefix_of` certsPath -> at_ s' q = Some Dir;
  e_certs names : s' !! (certsPath ++ names) = certs_node pem hash names;
  e_bundles b : b ∈ otherBundles -> s' !! comps b = match s !! comps b with Some _ => Some (File pem 420) | None => None end;
  e_hook : s' !! hookPath = Some (File (bytes_of (trustHook wardenCAPath hash)) (kept_mode s hookPath 493));
  e_ca : s' !! caPath = Some (File pem (kept_mode s caPath 420));
  e_other q : ~ certsPath `prefix_of` q -> q ∉ managed ->
    s' !! q = s !! q \/ (s !! q = None /\ s' !! q = Some Dir /\ exists p, p ∈ dirs_for /\ q `prefix_of` p) }.

Context (Hremove : Forall (fun b => fault "remove" b = None) otherBundles).

(** Whatever was not replaced keeps its links. *)
Lemma replaced_link s s' pem hash q t :
  certs_replaced s s' pem hash -> ~ certsPath `prefix_of` q -> s' !! q = Some (Link t) -> s !! q = Some (Link t).
Proof. intros [_ Ho] Hq E. destruct (Ho q Hq) as [E'|(_ & E' & _)]; congruence. Qed.

Lemma replaced_clear s s' pem hash p :
  certs_replaced s s' pem hash -> ~ certsPath `prefix_of` p -> clear s p -> clear s' p.
Proof.
  intros Hr Hp. apply clear_same. intros q t Hq. eapply replaced_link; [exact Hr|]. intros Hc. apply Hp. by trans q.
Qed.

Lemma rewritten_clear s s' pem ps p : rewritten s s' pem ps -> clear s p -> clear s' p.
Proof. intros Hr. apply clear_same. intros q t _. rewrite Hr. by destruct (bool_decide _). Qed.

Lemma bundle_paths : Forall (fun b => ~ certsPath `prefix_of` comps b /\ ~ comps b `prefix_of` certsPath /\
  ~ comps b `prefix_of` parent hookPath /\ comps b <> hookPath /\ ~ comps b `prefix_of` caPath) otherBundles.
Proof. repeat (apply Forall_cons_2; [split_and!; apart|]). by apply Forall_nil. Qed.

Lemma replaced_bundles d d' pem hash :
  linux_guest (nodes d) -> certs_replaced (nodes d) (nodes d') pem hash -> Forall (bundle_ok d') otherBundles.
Proof using Hremove.
  intros Hg Hr. apply Forall_forall. intros b Hb.
  pose proof (proj1 (Forall_forall _ _) at_bundles b Hb) as Hp. pose proof (proj1 (Forall_forall _ _) Hremove b Hb) as Hf.
  destruct (proj1 (Forall_forall _ _) (g_bundles _ Hg) b Hb) as [Hc Hd].
  destruct (proj1 (Forall_forall _ _) bundle_paths b Hb) as (Hnb & Hnp & _).
  split_and!; [done| | |done].
  - eapply replaced_clear; [exact Hr| |done]. intros H. apply Hnb. trans (parent (comps b)); [done|apply parent_prefix].
  - destruct Hr as [_ Ho]. destruct (Ho (comps b) Hnb) as [->|(_ & _ & ?)]; done.
Qed.

Lemma at_hookDir : at_path hookDir (parent hookPath).
Proof. at_path_tac. Qed.

(** The last two steps: the hook. *)
Lemma hook_written d d1 d2 b :
  clear (nodes d) hookPath -> MkdirAll d hookDir = (d1, None) -> WriteFile d1 (Join hookDir "99warden") b 493 = (d2, None) ->
  cwd d2 = cwd d /\ nodes d2 !! hookPath = Some (File b (kept_mode (nodes d) hookPath 493)) /\
  forall q, q <> hookPath -> nodes d2 !! q = nodes d !! q \/
    (nodes d !! q = None /\ nodes d2 !! q = Some Dir /\ q `prefix_of` parent hookPath).
Proof.
  intros Hc H1 H2. assert (Hcp : clear (nodes d) (parent hookPath)) by (eapply clear_prefix; [exact Hc|apply parent_prefix]).
  destruct (MkdirAll_clear _ _ _ _ at_hookDir Hcp H1) as [Hw1 Hm].
  destruct (WriteFile_clear _ _ _ _ _ _ at_hook (made_clear _ _ _ _ Hm Hc) H2) as (_ & _ & ->).
  cbn [cwd nodes put with_nodes]. split; [done|]. split.
  - rewrite lookup_insert_eq. unfold kept_mode. rewrite (made_other _ _ _ _ Hm); [done|apart].
  - intros q Hq. rewrite lookup_insert_ne by done. destruct Hm as [_ Hm]. destruct (Hm q) as [?|(?&?&?)]; auto.
Qed.

Lemma installExclusiveCA_exact d pem cert d' :
  linux_guest (nodes d) -> nodes d !! caPath = Some (File pem (kept_mode (nodes d) caPath 420)) ->
  installExclusiveCA d pem cert = (d', None) ->
  exists hash, subjectHash cert = Ok hash /\ cwd d' = cwd d /\ exclusive (nodes d) (nodes d') pem hash.
Proof using Hremove.
  intros Hg Hca H. unfold installExclusiveCA in H. destruct (subjectHash cert) as [hash|] eqn:Eh; [|done].
  exists hash. split; [done|].
  apply try_None in H as (d1 & H1%wrap_None & H). apply try_None in H as (d2 & H2 & H). apply try_None in H as (d3 & H3 & H).
  apply try_None in H as (d4 & H4 & H). apply try_None in H as (d5 & H5 & H). apply try_None in H as (d6 & H6 & H).
  apply try_None in H as (d7 & H7 & H8).
  destruct (certs_written _ _ _ _ _ _ _ _ (g_wf _ Hg) (g_certs _ Hg) (subjectHash_name _ _ Eh) H1 H2 H3 H4 H5) as (Hw5 & Hwf5 & Hr).
  destruct (write_bundles_spec _ _ _ _ Hwf5 (replaced_bundles _ _ _ _ Hg Hr) H6) as [Hw6 Hb].
  assert (Hh6 : clear (nodes d6) hookPath).
  { eapply rewritten_clear; [exact Hb|]. eapply replaced_clear; [exact Hr|apart|apply Hg]. }
  destruct (hook_written _ _ _ _ Hh6 H7 H8) as (Hw8 & Hhook & Ho8). split; [congruence|].
  assert (Hnb : forall q, q ∉ comps <$> otherBundles -> nodes d6 !! q = nodes d5 !! q).
  { intros q Hq. rewrite (Hb q), bool_decide_eq_false_2; naive_solver. }
  assert (Hsame : forall q, q <> hookPath -> q ∉ comps <$> otherBundles -> ~ q `prefix_of` parent hookPath -> nodes d' !! q = nodes d5 !! q).
  { intros q Hq1 Hq2 Hq3. destruct (Ho8 q Hq1) as [->|(_ & _ & ?)]; [by apply Hnb|done]. }
  destruct Hr as [Hrc Hro].
  assert (Hin : forall names, nodes d' !! (certsPath ++ names) = certs_node pem hash names).
  { intros names. rewrite <- Hrc. apply Hsame.
    - done.
    - intros Hx. repeat (apply elem_of_cons in Hx as [Hx|Hx]; [done|]). by apply elem_of_nil in Hx.
    - intros [k Hk]. done. }
  split.
  - intros q Hq. destruct (decide (q = certsPath)) as [->|Hne]; [apply (Hin [])|]. destruct q as [|x q _] using rev_ind; [done|].
    assert (Hd5 : nodes d5 !! (q ++ [x]) = Some Dir) by by apply (wf_way _ _ _ Hwf5 (Hrc [])).
    rewrite at_ne by by destruct q.
    assert (Hqb : q ++ [x] ∉ comps <$> otherBundles).
    { intros (b & Eb & Hbin)%list_elem_of_fmap. destruct (proj1 (Forall_forall _ _) bundle_paths b Hbin) as (_ & Hnp & _).
      apply Hnp. by rewrite <- Eb. }
    destruct (Ho8 (q ++ [x])) as [->|(_ & -> & _)]; [|by rewrite Hnb|done]. intros E. rewrite E in Hq. revert Hq. change (~ hookPath `prefix_of` certsPath). apart.
  - exact Hin.
  - intros b Hbin. destruct (proj1 (Forall_forall _ _) bundle_paths b Hbin) as (Hb1 & Hb2 & Hb3 & Hb4 & _).
    destruct (Ho8 (comps b) Hb4) as [->|(_ & _ & ?)]; [|done]. rewrite (Hb (comps b)).
    assert (Hbf : comps b ∈ comps <$> otherBundles) by by apply list_elem_of_fmap_2.
    destruct (Hro (comps b) Hb1) as [->|(_ & _ & ?)]; [|done].
    destruct (nodes d !! comps b) eqn:E; [by rewrite bool_decide_eq_true_2|by rewrite bool_decide_eq_false_2 by (intros [_ [? ?]]; congruence)].
  - rewrite Hhook. unfold kept_mode. rewrite Hnb by apart.
    destruct (Hro hookPath ltac:(apart)) as [->|(_ & _ & Hx)]; [done|]. exfalso. revert Hx. apart.
  - rewrite Hsame; [|done| |apart].
    + destruct (Hro caPath ltac:(apart)) as [->|(E & _)]; [done|congruence].
    + apart.
  - intros q Hq Hm. unfold managed in Hm. apply not_elem_of_app in Hm as [Hm1 Hm2].
    apply not_elem_of_cons in Hm1 as [Hqh _].
    destruct (Ho8 q Hqh) as [->|(E & -> & Hp)].
    + rewrite Hnb by done. destruct (Hro q Hq) as [->|(? & ? & ?)]; [by left|right]. split_and!; [done|done|].
      exists certsPath. split; [by left|done].
    + rewrite Hnb in E by done. destruct (Hro q Hq) as [E'|(? & E' & ?)]; [|congruence]. right. rewrite <- E'. split_and!; [done|done|].
      exists hookPath. split; [right; left|]. trans (parent hookPath); [done|apply parent_prefix].
Qed.

(** ** installCA *)

Lemma at_caDir : at_path (Dir_of wardenCAPath) (parent caPath).
Proof. at_path_tac. Qed.

Lemma ca_written d d1 d2 pem :
  linux_guest (nodes d) -> MkdirAll d (Dir_of wardenCAPath) = (d1, None) -> WriteFile d1 wardenCAPath pem 420 = (d2, None) ->
  cwd d2 = cwd d /\ linux_guest (nodes d2) /\ nodes d2 !! caPath = Some (File pem (kept_mode (nodes d) caPath 420)) /\
  forall q, q <> caPath -> nodes d2 !! q = nodes d !! q \/
    (nodes d !! q = None /\ nodes d2 !! q = Some Dir /\ q `prefix_of` parent caPath).
Proof.
  intros Hg H1 H2. assert (Hc : clear (nodes d) caPath) by apply Hg.
  assert (Hcp : clear (nodes d) (parent caPath)) by (eapply clear_prefix; [exact Hc|apply parent_prefix]).
  destruct (MkdirAll_clear _ _ _ _ at_caDir Hcp H1) as [Hw1 Hm].
  destruct (WriteFile_clear _ _ _ _ _ _ at_ca (made_clear _ _ _ _ Hm Hc) H2) as (Hway & Hnd & ->).
  cbn [cwd nodes put with_nodes].
  assert (Hk : kept_mode (nodes d1) caPath 420 = kept_mode (nodes d) caPath 420)
    by (unfold kept_mode; rewrite (made_other _ _ _ _ Hm); [done|apart]).
  assert (Hcl : forall p, clear (nodes d) p -> clear (<[caPath := File pem (kept_mode (nodes d1) caPath 420)]> (nodes d1)) p)
    by (intros p Hp; apply clear_insert; [done|by eapply made_clear]).
  split; [done|]. split; [split|split].
  - apply wf_put; [eapply made_wf, Hg; exact Hm|by apply way_parent|done|done].
  - apply Hcl, Hg.
  - apply Hcl, Hg.
  - apply Hcl, Hg.
  - apply Forall_forall. intros b Hb. destruct (proj1 (Forall_forall _ _) (g_bundles _ Hg) b Hb) as [Hc' Hd'].
    destruct (proj1 (Forall_forall _ _) bundle_paths b Hb) as (_ & _ & _ & _ & Hnp). split; [by apply Hcl|].
    rewrite lookup_insert_ne by (intros E; apply Hnp; by rewrite <- E). rewrite (made_other _ _ _ _ Hm); [done|].
    intros H. apply Hnp. trans (parent caPath); [done|apply parent_prefix].
  - by rewrite lookup_insert_eq, Hk.
  - intros q Hq. rewrite lookup_insert_ne by done. destruct Hm as [_ Hm]. destruct (Hm q) as [?|(?&?&?)]; auto.
Qed.

Lemma kept_same s s' q m : s' !! q = s !! q -> kept_mode s' q m = kept_mode s q m.
Proof. unfold kept_mode. by intros ->. Qed.

Lemma installCA_exact d pem cert d' :
  linux_guest (nodes d) -> installCA d pem cert TrustExclusive = (d', None) ->
  exists hash, subjectHash cert = Ok hash /\ cwd d' = cwd d /\ exclusive (nodes d) (nodes d') pem hash.
Proof using Hremove.
  intros Hg H. unfold installCA in H. rewrite bool_decide_eq_true_2 in H by done.
  apply try_None in H as (d1 & H1%wrap_None & H). apply try_None in H as (d2 & H2%wrap_None & H).
  destruct (ca_written _ _ _ _ Hg H1 H2) as (Hw2 & Hg2 & Hca & Ho).
  assert (Hself : kept_mode (nodes d2) caPath 420 = kept_mode (nodes d) caPath 420) by (unfold kept_mode at 1; by rewrite Hca).
  destruct (installExclusiveCA_exact d2 pem cert d' Hg2 ltac:(by rewrite Hself) H) as (hash & Eh & Hw & He).
  exists hash. split; [done|]. split; [congruence|]. destruct He. split; try done.
  - intros b Hb. rewrite e_bundles0 by done. destruct (proj1 (Forall_forall _ _) bundle_paths b Hb) as (_ & _ & _ & _ & Hnp).
    destruct (Ho (comps b)) as [->|(_ & _ & Hp)]; [intros E; apply Hnp; by rewrite <- E|done|].
    exfalso. apply Hnp. trans (parent caPath); [done|apply parent_prefix].
  - rewrite e_hook0. do 2 f_equal. apply kept_same. destruct (Ho hookPath ltac:(done)) as [?|(_ & _ & Hp)]; [done|].
    exfalso. revert Hp. apart.
  - by rewrite e_ca0, Hself.
  - intros q Hq Hm. assert (Hqc : q <> caPath) by (intros ->; apply Hm; right; left).
    destruct (e_other0 q Hq Hm) as [->|(E & -> & p & Hp & Hqp)]; destruct (Ho q Hqc) as [E'|(E1 & E2 & Hp2)].
    + by left.
    + right. split_and!; [done|done|]. exists caPath. split; [do 2 right; left|]. trans (parent caPath); [done|apply parent_prefix].
    + right. rewrite <- E'. eauto.
    + congruence.
Qed.

(** ** What is then trusted *)

(** The relay's CA is the only certificate on the nodes roots are read from. *)
Record rooted (s : fs) (pem : bytes) (hash : string) : Prop := {
  r_way : forall q, q `prefix_of` certsPath -> at_ s q = Some Dir;
  r_certs names : s !! (certsPath ++ names) = certs_node pem hash names;
  r_bundles b : b ∈ otherBundles -> clear s (comps b) /\ forall c m, s !! comps b = Some (File c m) -> c = pem }.

(** As it is read: at any name in /etc/ssl/certs, and at the other bundles. *)
Definition sole_root (d : disk) (pem : bytes) : Prop :=
  (forall n c, name_ok n -> ReadFile d (Join certs n) = Ok c -> c = pem) /\
  (forall b c, b ∈ otherBundles -> ReadFile d b = Ok c -> c = pem).

Lemma walk_certs s pem hash n l c m follow links :
  rooted s pem hash -> name_ok n ->
  walk s follow (S links) [] (certsPath ++ [n]) = Ok l -> s !! l = Some (File c m) -> c = pem.
Proof.
  intros He (_ & Hn & _) Hw Hl. rewrite (walk_through s follow (S links) certsPath [n] []) in Hw.
  - cbn [app] in Hw. rewrite walk_step, (r_certs _ _ _ He [n]) in Hw by done. cbn [certs_node] in Hw.
    destruct (decide (n = "warden.crt" \/ n = "ca-certificates.crt")) as [Hf|Hf].
    { apply Ok_inj in Hw as <-. rewrite (r_certs _ _ _ He [n]) in Hl. cbn [certs_node] in Hl. rewrite decide_True in Hl by done. congruence. }
    destruct (decide (n = (hash ++ ".0")%string)) as [Hh|Hh].
    + destruct follow; cbn [andb negb] in Hw.
      * change (absolute "warden.crt") with false in Hw. change (comps "warden.crt" ++ []) with ["warden.crt"] in Hw. cbn iota in Hw.
        rewrite walk_step, (r_certs _ _ _ He ["warden.crt"]) in Hw by done.
        change (certs_node pem hash ["warden.crt"]) with (Some (File pem 420)) in Hw. cbn iota in Hw. apply Ok_inj in Hw as <-.
        rewrite (r_certs _ _ _ He ["warden.crt"]) in Hl. change (certs_node pem hash ["warden.crt"]) with (Some (File pem 420)) in Hl.
        congruence.
      * apply Ok_inj in Hw as <-. rewrite (r_certs _ _ _ He [n]) in Hl. cbn [certs_node] in Hl.
        rewrite decide_False, decide_True in Hl by done. done.
    + apply Ok_inj in Hw as <-. rewrite (r_certs _ _ _ He [n]) in Hl. cbn [certs_node] in Hl. by rewrite !decide_False in Hl by done.
  - repeat (apply Forall_cons_2; [done|]). by apply Forall_nil.
  - intros q x Hq. pose proof (r_way _ _ _ He (q ++ [x]) Hq) as H. by rewrite at_ne in H by by destruct q.
Qed.

Lemma rooted_sole d pem hash : rooted (nodes d) pem hash -> sole_root d pem.
Proof.
  intros He. split.
  - intros n c Hn Hr. unfold ReadFile in Hr. apply call_Ok in Hr. rewrite (locate_abs _ _ _ _ (at_certs_name n Hn)) in Hr.
    destruct (walk _ _ _ _ _) as [l|] eqn:El; [|done]. destruct (at_ (nodes d) l) as [ [b m| |]|] eqn:Ea; try done.
    apply call_Ok in Hr. injection Hr as ->. destruct l as [|x l]; [done|]. cbn [at_] in Ea. by eapply walk_certs.
  - intros b c Hb Hr. pose proof (proj1 (Forall_forall _ _) at_bundles b Hb) as Hp.
    destruct (r_bundles _ _ _ He b Hb) as [Hc Hf]. destruct (ReadFile_clear _ _ _ _ Hp Hc Hr) as (m & El). by eapply Hf.
Qed.

(** Outside /etc/ssl/certs the installation makes no link. *)
Lemma exclusive_link s s' pem hash q t :
  exclusive s s' pem hash -> ~ certsPath `prefix_of` q -> s' !! q = Some (Link t) -> s !! q = Some (Link t).
Proof.
  intros He Hq Eq. destruct (decide (q ∈ managed)) as [Hm|Hm].
  - exfalso. unfold managed in Hm. apply elem_of_app in Hm as [Hm|Hm].
    + apply elem_of_cons in Hm as [->|Hm]; [rewrite (e_hook _ _ _ _ He) in Eq; done|].
      apply elem_of_cons in Hm as [->|Hm]; [rewrite (e_ca _ _ _ _ He) in Eq; done|by apply elem_of_nil in Hm].
    + apply list_elem_of_fmap in Hm as (b' & -> & Hb'). rewrite (e_bundles _ _ _ _ He b' Hb') in Eq. by destruct (s !! comps b').
  - destruct (e_other _ _ _ _ He q Hq Hm) as [E'|(_ & E' & _)]; congruence.
Qed.

Lemma exclusive_clear s s' pem hash p : exclusive s s' pem hash -> ~ certsPath `prefix_of` p -> clear s p -> clear s' p.
Proof.
  intros He Hp. apply clear_same. intros q t Hq. eapply exclusive_link; [exact He|]. intros H. apply Hp. by trans q.
Qed.

Lemma exclusive_rooted s s' pem hash : linux_guest s -> exclusive s s' pem hash -> rooted s' pem hash.
Proof.
  intros Hg He. split; [apply He|apply He|]. intros b Hb.
  pose proof (proj1 (Forall_forall _ _) at_bundles b Hb) as Hp.
  destruct (proj1 (Forall_forall _ _) (g_bundles _ Hg) b Hb) as [Hc _].
  destruct (proj1 (Forall_forall _ _) bundle_paths b Hb) as (Hnb & _).
  pose proof (e_bundles _ _ _ _ He b Hb) as E. split.
  - apply clear_leaf; [by destruct Hp as (_ & _ & _ & ?)| |by rewrite E; destruct (s !! comps b)].
    eapply exclusive_clear; [exact He| |exact Hc]. intros H. apply Hnb. trans (parent (comps b)); [done|apply parent_prefix].
  - intros c m Ec. rewrite E in Ec. destruct (s !! comps b); congruence.
Qed.

(** *** Later writes *)

(** A step that makes directories on the way to [p] and at most a file at it. *)
Definition adds (s s' : fs) (p : path) : Prop := forall q,
  s' !! q = s !! q \/ (q `prefix_of` p /\ s !! q = None /\ s' !! q = Some Dir) \/
  (q = p /\ (exists c m, s' !! q = Some (File c m))).

Lemma adds_clear s s' p q : adds s s' p -> clear s q -> clear s' q.
Proof.
  intros Ha. apply clear_same. intros r t _ E. destruct (Ha r) as [<-|[(_ & _ & E')|(_ & c & m & E')]]; [done|congruence..].
Qed.

Lemma adds_rooted s s' p pem hash :
  adds s s' p -> ~ certsPath `prefix_of` p -> ~ p `prefix_of` certsPath -> p ∉ comps <$> otherBundles ->
  rooted s pem hash -> rooted s' pem hash.
Proof.
  intros Ha Hp Hpc Hb Hr. split.
  - intros q Hq. pose proof (r_way _ _ _ Hr q Hq) as E. destruct q as [|x q]; [done|]. cbn [at_] in *.
    destruct (Ha (x :: q)) as [->|[(_ & E' & _)|(E' & _)]]; [done|congruence|by rewrite E' in Hq].
  - intros names. rewrite <- (r_certs _ _ _ Hr names). destruct (Ha (certsPath ++ names)) as [?|[(Hq & _)|(Hq & _)]]; [done|exfalso..].
    + apply Hp. trans (certsPath ++ names); [by eexists|done].
    + apply Hp. rewrite <- Hq. by eexists.
  - intros b Hbin. destruct (r_bundles _ _ _ Hr b Hbin) as [Hc Hf]. split; [by eapply adds_clear|].
    intros c m E. destruct (Ha (comps b)) as [E'|[(_ & _ & E')|(<- & _)]]; [|congruence|].
    + rewrite E' in E. by eapply Hf.
    + exfalso. apply Hb. by apply list_elem_of_fmap_2.
Qed.

Lemma made_rooted s s' p pem hash : made s s' p -> ~ certsPath `prefix_of` p -> rooted s pem hash -> rooted s' pem hash.
Proof.
  intros Hm Hp Hr. split.
  - intros q Hq. pose proof (r_way _ _ _ Hr q Hq) as E. destruct q as [|x q]; [done|]. cbn [at_] in *.
    destruct Hm as [_ Hm]. destruct (Hm (x :: q)) as [->|(_ & _ & ->)]; done.
  - intros names. rewrite <- (r_certs _ _ _ Hr names). apply (made_other _ _ _ _ Hm). intros Hq. apply Hp.
    trans (certsPath ++ names); [by eexists|done].
  - intros b Hbin. destruct (r_bundles _ _ _ Hr b Hbin) as [Hc Hf]. split; [by eapply made_clear|].
    intros c m E. destruct Hm as [_ Hm]. destruct (Hm (comps b)) as [E'|(_ & _ & E')]; [|congruence]. rewrite E' in E. by eapply Hf.
Qed.

Lemma made_adds s s' p : made s s' p -> adds s s' p.
Proof. intros [_ H] q. destruct (H q) as [?|?]; auto. Qed.

Lemma put_adds s p c m : adds s (<[p := File c m]> s) p.
Proof.
  intros q. destruct (decide (q = p)) as [->|?]; [right; right; split; [done|]; exists c, m; apply lookup_insert_eq|].
  left. by apply lookup_insert_ne.
Qed.

Lemma adds_trans s1 s2 s3 q p : adds s1 s2 q -> adds s2 s3 p -> q `prefix_of` p -> (forall c m, s2 !! q <> Some (File c m)) -> adds s1 s3 p.
Proof.
  intros H1 H2 Hqp Hd r. destruct (H2 r) as [E|[(Hr & E & E')|(-> & E)]]; [| |by do 2 right].
  - rewrite E. destruct (H1 r) as [?|[(? & ? & ?)|(-> & c & m & Ec)]]; [by left|right; left; split; [by trans q|done]|by apply Hd in Ec].
  - destruct (H1 r) as [E1|[(? & ? & E1)|(-> & c & m & Ec)]]; [|congruence|by apply Hd in Ec].
    right; left. split_and!; [done|congruence|done].
Qed.


(** ** The hook *)

(** The commands of a script, its comment lines left out. *)
Definition script_commands (script : string) : option (list (list string)) :=
  Shell.commands (Text.Join (filter (fun l => HasPrefix l "#" = false) (Split script Translate.newline)) Translate.nl).

(** What the commands of the hook do, by their manuals. *)
Definition run_command (d : disk) (c : list string) : disk * option error :=
  match c with
  | ["rm"; "-rf"; p] => RemoveAll d p
  | ["mkdir"; "-p"; p] => MkdirAll d p
  | ["cp"; src; dst] => match ReadFile d src with Err e => (d, Some e) | Ok b => WriteFile d dst b 420 end
  | ["ln"; "-s"; target; p] => Symlink d target p
  | _ => (d, Some (Msg "not found"))
  end.

(** A shell goes on after a command that failed; the statuses, in order. *)
Fixpoint run_commands (d : disk) (cs : list (list string)) : disk * list (option error) :=
  match cs with
  | [] => (d, [])
  | c :: cs => let '(d, e) := run_command d c in let '(d, es) := run_commands d cs in (d, e :: es)
  end.

Lemma Split_line x r : no_char Translate.newline x -> Split (line x ++ r) Translate.newline = x :: Split r Translate.newline.
Proof. intros Hx. unfold line, Translate.nl. rewrite str_app_assoc. by apply Split_app. Qed.

(** A digest's name needs no quotes. *)
Definition plain_name (hash : string) : Prop :=
  hash <> "" /\ str_forallb (fun c => negb (Translate.unsafe c)) hash = true.

Lemma plain_no_newline h : plain_name h -> no_char Translate.newline h.
Proof.
  intros [_ H]. revert H. apply str_forallb_impl. intros c Hc. apply negb_true_iff, bool_decide_eq_false. intros ->.
  by vm_compute in Hc.
Qed.

Lemma next_command (a : string) w r cs :
  (forall r, Shell.commands (a ++ Translate.nl ++ r) = (c ← Shell.commands r; Some (w :: c))) ->
  Shell.commands r = Some cs -> Shell.commands (a ++ Translate.nl ++ r) = Some (w :: cs).
Proof. intros Ha Hr. by rewrite Ha, Hr. Qed.

Lemma hook_commands hash : plain_name hash -> name_ok (hash ++ ".0") ->
  script_commands (trustHook wardenCAPath hash) = Some
    [["rm"; "-rf"; certs]; ["mkdir"; "-p"; certs]; ["cp"; wardenCAPath; Join certs "warden.crt"];
     ["cp"; wardenCAPath; Join certs "ca-certificates.crt"]; ["ln"; "-s"; "warden.crt"; Join certs (hash ++ ".0")]].
Proof.
  intros Hp Hn. rewrite (join_certs _ Hn). unfold script_commands, trustHook.
  set (ln := ("ln -s warden.crt /etc/ssl/certs/" ++ hash ++ ".0")%string).
  assert (Hln : no_char Translate.newline ln).
  { apply no_char_app; split; [done|]. apply no_char_app; split; [by apply plain_no_newline|done]. }
  rewrite <- (str_app_nil_r (line ln)). do 6 rewrite Split_line by done. rewrite Split_line by done.
  change (Split "" Translate.newline) with [""].
  do 2 rewrite filter_cons_False by done. do 5 rewrite filter_cons_True by done. rewrite filter_cons_True by done. rewrite filter_nil.
  assert (H : Shell.commands (Text.Join [ln; ""] Translate.nl) = Some [["ln"; "-s"; "warden.crt"; ("/etc/ssl/certs/" ++ hash ++ ".0")%string] ]).
  { rewrite Join_cons. unfold ln, Shell.commands. rewrite !str_app_assoc.
    change (Shell.lex Shell.Plain None [] ("ln -s warden.crt /etc/ssl/certs/" ++ ?r)%string) with
      (Shell.lex Shell.Plain (Some "/etc/ssl/certs/") ["ln"; "-s"; "warden.crt"] r).
    destruct Hp as [Hne Hp]. rewrite Shell.lex_literal by done. rewrite Shell.lex_literal by done.
    cbn [default from_option id]. rewrite str_app_assoc. reflexivity. }
  do 4 (rewrite Join_cons; apply next_command; [reflexivity|]). exact H.
Qed.

Lemma cp_ca d dst d' pem :
  clear (nodes d) caPath -> nodes d !! caPath = Some (File pem 420) ->
  match ReadFile d wardenCAPath with Err e => (d, Some e) | Ok b => WriteFile d dst b 420 end = (d', None) ->
  WriteFile d dst pem 420 = (d', None).
Proof.
  intros Hc Hn. destruct (ReadFile d wardenCAPath) as [b|e] eqn:Er; [|done].
  destruct (ReadFile_clear _ _ _ _ at_ca Hc Er) as [m Hb]. congruence.
Qed.

(** The hook restores exclusive trust: its text, as installed, lexes to five
    commands, and running them on whatever a reinstall of ca-certificates left
    in /etc/ssl/certs, when none of them fails, leaves in that directory what
    the installation did, and everything outside it as it was. *)
Theorem hook_restores {HL : HashLaws} cert hash d pem :
  subjectHash cert = Ok hash -> linux_guest (nodes d) -> nodes d !! caPath = Some (File pem 420) ->
  exists cs, script_commands (trustHook wardenCAPath hash) = Some cs /\
    forall d' es, run_commands d cs = (d', es) -> Forall (fun e => e = None) es ->
      certs_replaced (nodes d) (nodes d') pem hash.
Proof using Type.
  intros Hh Hg Hca. pose proof (subjectHash_name _ _ Hh) as Hn. destruct (subjectHash_hex _ _ Hh) as [Hx Hne].
  eexists. split; [apply hook_commands; [split; [by apply Hne|by apply is_hex_safe]|done]|].
  intros d' es Hrun Hes. cbn [run_commands run_command] in Hrun.
  destruct (RemoveAll d certs) as [d1 e1] eqn:H1. destruct (MkdirAll d1 certs) as [d2 e2] eqn:H2.
  destruct (match ReadFile d2 wardenCAPath with Err e => (d2, Some e) | Ok b => WriteFile d2 (Join certs "warden.crt") b 420 end) as [d3 e3] eqn:H3.
  destruct (match ReadFile d3 wardenCAPath with Err e => (d3, Some e) | Ok b => WriteFile d3 (Join certs "ca-certificates.crt") b 420 end) as [d4 e4] eqn:H4.
  destruct (Symlink d4 "warden.crt" _) as [d5 e5] eqn:H5. injection Hrun as <- <-.
  repeat (apply Forall_cons in Hes as [? Hes]). subst.
  destruct (emptied _ _ _ (g_wf _ Hg) (g_certs _ Hg) H1 H2) as (_ & _ & Hc2 & _ & Hin & Ho).
  assert (Hca2 : nodes d2 !! caPath = Some (File pem 420)) by (destruct (Ho caPath ltac:(apart)) as [->|(? & _)]; congruence).
  assert (Hcl : clear (nodes d2) caPath).
  { eapply clear_same, (g_ca _ Hg). intros q t Hq Et. destruct (Ho q) as [<-|(_ & E & _)]; [|done|congruence].
    intros Hp. assert (Hp' : certsPath `prefix_of` caPath) by by trans q. revert Hp'. apart. }
  apply (cp_ca _ _ _ _ Hcl Hca2) in H3.
  pose proof (put_certs _ _ _ _ _ _ (at_certs_name "warden.crt" ltac:(by apply name_ok_literal)) Hc2 (Hin _ _) H3) as E3.
  apply (cp_ca d3 _ _ pem) in H4; [|rewrite E3; by apply clear_insert|rewrite E3; cbn [nodes put with_nodes]; by rewrite lookup_insert_ne].
  by destruct (certs_written _ _ _ _ _ _ _ _ (g_wf _ Hg) (g_certs _ Hg) Hn H1 H2 H3 H4 H5) as (_ & _ & ?).
Qed.
End Exclusive.
End TrustSpec.
