(* ===== verification/Baseline.v ===== *)
(** * The guest's baseline (src/cmd/warden-io/baseline.go, jks.go)

    What every build environment gets from the relay's CA: a Java truststore,
    the Bazel rc, the environment, and the file a held shell sources.
    [read_jks] is the keystore format as the JDK reads it. *)
From stdpp Require Import sorting.
From S2P Require Import Prelude Text Crypto Writer Translate LayerCache GuestFs Trust.

#[local] Open Scope string_scope.
#[local] Open Scope Z_scope.
#[local] Open Scope go_scope.

Module Baseline.
Import GuestFs Trust.

(** ** The Java keystore *)
Definition jksAlias : string := "warden".
Definition jksPassword : string := "changeit".

(** A rune the format's modified UTF-8 writes as UTF-8 does, in one byte. *)
Definition plain_byte (c : ascii) : bool := (0 <? code c) && (code c <=? 127).

(** [putUTF] *)
Definition putUTF (s : string) : result bytes :=
  if negb (str_forallb plain_byte s) then Err (Errorf "jks: non-ASCII string %q" [s])
  else Ok (be_encode 2 (slen s) ++ bytes_of s)%list.

(** [utf16.Encode] of a rune, big-endian. *)
Definition utf16be (r : Z) : bytes :=
  if r <? 65536 then be_encode 2 r
  else (be_encode 2 (55296 + (r - 65536) / 1024) ++ be_encode 2 (56320 + (r - 65536) mod 1024))%list.
Definition password_bytes (password : string) : bytes := mjoin (utf16be <$> runes password).

Section Jks.
Context {HO : HashOps}.

Definition jks_digest (password : string) (b : bytes) : bytes :=
  sha1 (password_bytes password ++ bytes_of "Mighty Aphrodite" ++ b)%list.

(** [writeJKS] *)
Definition writeJKS (alias : string) (cert : Cert) (password : string) : result bytes :=
  let? a := putUTF alias in
  let? t := putUTF "X.509" in
  let b := (be_encode 4 0xFEEDFEED ++ be_encode 4 2 ++ be_encode 4 1 ++ be_encode 4 2 ++ a ++
            be_encode 8 (NotBefore cert) ++ t ++ be_encode 4 (len (Raw cert)) ++ Raw cert)%list in
  Ok (b ++ jks_digest password b)%list.

(** *** As the JDK reads it *)
Definition take_n (n : Z) (b : bytes) : option (bytes * bytes) :=
  if len b <? n then None else Some (slice b 0 n, slice b n (len b)).
Definition read_int (n : Z) (b : bytes) : option (Z * bytes) :=
  '(x, b) ← take_n n b; Some (be_decode x, b).
Definition read_utf (b : bytes) : option (string * bytes) :=
  '(n, b) ← read_int 2 b; '(s, b) ← take_n n b; Some (string_of s, b).

(** A trusted certificate: its alias, creation time, type and DER form. *)
Record trusted_entry := mkEntry { e_alias : string; e_time : Z; e_type : string; e_der : bytes }.

Definition read_entry (b : bytes) : option (trusted_entry * bytes) :=
  '(tag, b) ← read_int 4 b;
  if negb (tag =? 2) then None
  else
    '(alias, b) ← read_utf b; '(t, b) ← read_int 8 b; '(ty, b) ← read_utf b;
    '(n, b) ← read_int 4 b; '(der, b) ← take_n n b;
    Some (mkEntry alias t ty der, b).

Fixpoint read_entries (n : nat) (b : bytes) : option (list trusted_entry * bytes) :=
  match n with
  | O => Some ([], b)
  | S n => '(e, b) ← read_entry b; '(es, b) ← read_entries n b; Some (e :: es, b)
  end.

(** The whole keystore, its digest checked against the password. *)
Definition read_jks (password : string) (b : bytes) : option (list trusted_entry) :=
  '(magic, r) ← read_int 4 b; '(version, r) ← read_int 4 r; '(count, r) ← read_int 4 r;
  if negb ((magic =? 0xFEEDFEED) && (version =? 2)) then None
  else
    '(es, digest) ← read_entries (Z.to_nat count) r;
    if bool_decide (digest = jks_digest password (slice b 0 (len b - len digest))) then Some es else None.
End Jks.

(** ** The environment *)
Definition bundleEnv : list string :=
  ["SSL_CERT_FILE"; "REQUESTS_CA_BUNDLE"; "CURL_CA_BUNDLE"; "NODE_EXTRA_CA_CERTS"; "PIP_CERT"; "CARGO_HTTP_CAINFO";
   "NIX_SSL_CERT_FILE"; "HEX_CACERTS_PATH"].

Definition wardenDataDir : string := "/etc/warden".
Definition bazelSystemRC : string := "/etc/bazel.bazelrc".
Definition jksPath : string := Join wardenDataDir "certs.jks".

Section Baseline.
Context {HO : HashOps} {O : OS}.

(** [writeFileMkdir] *)
Definition writeFileMkdir (d : disk) (path : string) (data : bytes) (mode : Z) : disk * option error :=
  try (MkdirAll d (Dir_of path)) (fun d => WriteFile d path data mode).

Definition base_env (bundle : string) : gmap string string :=
  let env := <["UV_NATIVE_TLS" := "1"]> (<["SOURCE_DATE_EPOCH" := "0"]> ∅) in
  if bool_decide (bundle = "") then env else foldl (fun env k => <[k := bundle]> env) env bundleEnv.

(** [filepath.ToSlash] is the identity on Linux. *)
Definition jvm_opts : string :=
  "-Djavax.net.ssl.trustStore=" ++ jksPath ++ " -Djavax.net.ssl.trustStorePassword=" ++ jksPassword.
Definition bazelrc : string :=
  line ("startup --host_jvm_args=-Djavax.net.ssl.trustStore=" ++ jksPath ++
        " --host_jvm_args=-Djavax.net.ssl.trustStorePassword=" ++ jksPassword).

(** [applyBaseline] *)
Definition applyBaseline (d : disk) (cert : Cert) (bundle : string) : disk * result (gmap string string) :=
  match writeJKS jksAlias cert jksPassword with
  | Err e => (d, Err e)
  | Ok jks =>
      match wrap "writing Java truststore" (writeFileMkdir d jksPath jks 420) with
      | (d, Some e) => (d, Err e)
      | (d, None) =>
          match wrap "writing bazelrc" (writeFileMkdir d bazelSystemRC (bytes_of bazelrc) 420) with
          | (d, Some e) => (d, Err e)
          | (d, None) => (d, Ok (<["GRADLE_OPTS" := jvm_opts]> (<["MAVEN_OPTS" := jvm_opts]> (base_env bundle))))
          end
      end
  end.
End Baseline.

(** ** A shell's environment *)

(** [shQuote] *)
Definition shQuote (s : string) : string := "'" ++ ReplaceByte s "'" "'\''" ++ "'".

(** [sort.Strings] of the keys *)
Definition sorted_keys (env : gmap string string) : list string := LayerCache.sort_strings ((map_to_list env).*1).

Definition export_quoted (env : gmap string string) (k : string) : string :=
  line ("export " ++ k ++ "=" ++ shQuote (default "" (env !! k))).

(** [shellEnvScript] *)
Definition shellEnvScript (env : gmap string string) (workdir : string) : string :=
  String.concat "" (export_quoted env <$> sorted_keys env) ++
  (if bool_decide (workdir = "") then "" else line ("cd " ++ shQuote workdir)).

(** ** Theorems *)
Section JksSpec.
Context {HO : HashOps}.

#[local] Open Scope list_scope.

Lemma take_n_app n (a b : bytes) : len a = n -> take_n n (a ++ b) = Some (a, b).
Proof.
  intros <-. unfold take_n. rewrite len_app. destruct (Z.ltb_spec (len a + len b) (len a)); [pose proof (len_nonneg b); lia|].
  f_equal. f_equal; [by apply slice_take|]. rewrite <- len_app. rewrite slice_skip by lia. rewrite len_app.
  replace (len a - len a) with 0 by lia. replace (len a + len b - len a) with (len b) by lia. apply slice_full.
Qed.

Lemma read_int_app k z b : 0 <= z < 2 ^ (8 * Z.of_nat k) -> read_int (Z.of_nat k) (be_encode k z ++ b) = Some (z, b).
Proof.
  intros Hz. unfold read_int. rewrite take_n_app by apply len_be_encode. cbn [mbind option_bind].
  by rewrite be_decode_encode, Z.mod_small.
Qed.

Lemma read_utf_app s a b : putUTF s = Ok a -> slen s < 65536 -> read_utf (a ++ b) = Some (s, b).
Proof.
  unfold putUTF. destruct (negb _); [done|]. intros H%Ok_inj Hl. subst a. unfold read_utf. rewrite <- app_assoc.
  rewrite (read_int_app 2) by (pose proof (slen_nonneg s); lia). cbn [mbind option_bind].
  rewrite take_n_app by apply len_bytes_of. cbn [mbind option_bind]. by rewrite string_of_bytes_of.
Qed.

Lemma read_entry_app alias a t cert rest :
  putUTF alias = Ok a -> slen alias < 65536 -> putUTF "X.509" = Ok t ->
  0 <= NotBefore cert < 2 ^ 64 -> len (Raw cert) < 2 ^ 32 ->
  read_entry (be_encode 4 2 ++ a ++ be_encode 8 (NotBefore cert) ++ t ++ be_encode 4 (len (Raw cert)) ++ Raw cert ++ rest) =
  Some (mkEntry alias (NotBefore cert) "X.509" (Raw cert), rest).
Proof.
  intros Ha Hla Ht Hn Hr. unfold read_entry. rewrite (read_int_app 4) by lia. cbn [mbind option_bind].
  change (negb (2 =? 2)) with false. cbn iota. rewrite (read_utf_app _ _ _ Ha Hla). cbn [mbind option_bind].
  rewrite (read_int_app 8) by done. cbn [mbind option_bind]. rewrite (read_utf_app _ _ _ Ht ltac:(done)). cbn [mbind option_bind].
  rewrite (read_int_app 4) by (pose proof (len_nonneg (Raw cert)); lia). cbn [mbind option_bind].
  by rewrite take_n_app.
Qed.

(** The Java truststore the agent writes is a keystore the JDK reads: under
    the password it was made with, it holds exactly one trusted certificate, of
    type X.509, with the alias, the certificate's DER form and its start of
    validity as creation time; the digest matches.  An alias Java would write
    otherwise than in ASCII is an error. *)
Theorem jks_roundtrip {HL : HashLaws} alias cert password :
  slen alias < 65536 -> 0 <= NotBefore cert < 2 ^ 64 -> len (Raw cert) < 2 ^ 32 ->
  (str_forallb plain_byte alias = true ->
   exists b, writeJKS alias cert password = Ok b /\
     read_jks password b = Some [mkEntry alias (NotBefore cert) "X.509" (Raw cert)]) /\
  (str_forallb plain_byte alias = false -> exists e, writeJKS alias cert password = Err e).
Proof.
  intros Hl Hn Hr. unfold writeJKS. destruct (putUTF alias) as [a|e] eqn:Ha.
  - split; [intros _|intros E; unfold putUTF in Ha; by rewrite E in Ha].
    destruct (putUTF "X.509") as [t|] eqn:Ht; [|done]. cbn [result_bind]. eexists. split; [done|].
    set (body := be_encode 4 0xFEEDFEED ++ _). set (dig := jks_digest password body). unfold read_jks.
    assert (E : body ++ dig = be_encode 4 0xFEEDFEED ++ be_encode 4 2 ++ be_encode 4 1 ++
      (be_encode 4 2 ++ a ++ be_encode 8 (NotBefore cert) ++ t ++ be_encode 4 (len (Raw cert)) ++ Raw cert ++ dig))
      by (unfold body; by rewrite <- !app_assoc).
    rewrite E at 1. do 3 (rewrite (read_int_app 4) by lia; cbn [mbind option_bind]).
    change (negb ((0xFEEDFEED =? 0xFEEDFEED) && (2 =? 2))) with false. cbn iota. change (Z.to_nat 1) with 1%nat. cbn [read_entries].
    rewrite (read_entry_app _ _ _ _ _ Ha Hl Ht Hn Hr). cbn [mbind option_bind].
    rewrite bool_decide_eq_true_2; [done|]. rewrite slice_take by (rewrite ?len_app; lia). done.
  - split; [|by eauto]. intros E. unfold putUTF in Ha. by rewrite E in Ha.
Qed.
End JksSpec.

(** *** The shell's environment *)
#[local] Open Scope string_scope.

Lemma lex_shQuote s cur cmd rest :
  Shell.lex Shell.Plain (Some cur) cmd (shQuote s ++ rest) = Shell.lex Shell.Plain (Some (cur ++ s)) cmd rest.
Proof. unfold shQuote. rewrite !str_app_assoc. exact (Shell.lex_single s cur cmd rest). Qed.

Lemma commands_export_quoted env k rest : k <> "" -> str_forallb Translate.is_word k = true ->
  Shell.commands (export_quoted env k ++ rest) =
  (cs ← Shell.commands rest; Some (["export"; k ++ "=" ++ default "" (env !! k)] :: cs)).
Proof.
  intros Hne Hk. unfold export_quoted, line. rewrite !str_app_assoc. unfold Shell.commands at 1.
  change (Shell.lex Shell.Plain None [] ("export " ++ ?r)) with (Shell.lex Shell.Plain None ["export"] r).
  rewrite Shell.lex_literal by (done || by apply Shell.is_word_safe). cbn [from_option id append].
  change (Shell.lex Shell.Plain (Some ?w) ?c (String "=" ?r)) with (Shell.lex Shell.Plain (Some (w ++ "=")) c r).
  rewrite lex_shQuote, Shell.lex_end. cbn [app]. by rewrite str_app_assoc.
Qed.

Lemma commands_exports env ks rest :
  Forall (fun k => k <> "" /\ str_forallb Translate.is_word k = true) ks ->
  Shell.commands (String.concat "" (export_quoted env <$> ks) ++ rest) =
  (cs ← Shell.commands rest; Some (((fun k => ["export"; (k ++ "=" ++ default "" (env !! k))%string]) <$> ks) ++ cs)%list).
Proof.
  induction 1 as [|k ks [Hne Hk] Hks IH]; [change (Shell.commands rest = (cs ← Shell.commands rest; Some cs)); by destruct (Shell.commands rest)|].
  rewrite !fmap_cons, Shell.concat_cons, str_app_assoc, commands_export_quoted, IH by done.
  by destruct (Shell.commands rest).
Qed.

(** What [initialize --hold] leaves for a shell to source sets exactly the
    build's environment: the script is one export per variable, each once and in
    the order of their names, with its value whatever characters that holds, and
    then a change to the work directory if there is one. *)
Theorem shell_env_exact env workdir :
  map_Forall (fun k _ => k <> "" /\ str_forallb Translate.is_word k = true) env ->
  exists l, l ≡ₚ map_to_list env /\ Sorted (fun a b => String.leb a b = true) l.*1 /\
    Shell.commands (shellEnvScript env workdir) =
      Some (((fun kv => ["export"; (kv.1 ++ "=" ++ kv.2)%string]) <$> l) ++
            (if decide (workdir = "") then [] else [["cd"; workdir]]))%list.
Proof.
  intros Hok. exists ((fun k => (k, default "" (env !! k))) <$> sorted_keys env).
  assert (Hp : sorted_keys env ≡ₚ (map_to_list env).*1) by apply merge_sort_Permutation. split_and!.
  - rewrite Hp. rewrite <- list_fmap_compose. erewrite list_fmap_ext; [by rewrite list_fmap_id|].
    intros i [k v] Hi. cbn. apply list_elem_of_lookup_2, elem_of_map_to_list in Hi. by rewrite Hi.
  - rewrite <- list_fmap_compose. change (fst ∘ _) with (fun k : string => k). rewrite list_fmap_id.
    apply Sorted_merge_sort. intros a b. apply String.leb_total.
  - unfold shellEnvScript. rewrite commands_exports.
    + rewrite <- list_fmap_compose. case_bool_decide as Hw.
      * rewrite decide_True by done. done.
      * rewrite decide_False by done. unfold line. rewrite str_app_assoc. unfold Shell.commands.
        change (Shell.lex Shell.Plain None [] ("cd " ++ ?r)) with (Shell.lex Shell.Plain None ["cd"] r).
        change (shQuote workdir) with ("'" ++ (ReplaceByte workdir "'" "'\''" ++ "'")). rewrite !str_app_assoc.
        change (Shell.lex Shell.Plain None ?c ("'" ++ ?r)) with (Shell.lex Shell.Single (Some "") c r).
        change ("'" ++ Translate.nl) with (String Translate.squote Translate.nl). rewrite Shell.lex_single. done.
    + rewrite Hp. apply Forall_fmap, Forall_forall. intros [k v] Hkv%elem_of_map_to_list. by apply (Hok k v).
Qed.
End Baseline.
