(* ===== verification/Agent.v ===== *)
(** * The guest agent (src/cmd/warden-io/main.go, initialize.go,
      platform_linux.go; src/bootstrap/bootstrap.go)

    What runs inside a build environment: the setup from the relay, the build
    script with its output streamed back, and the fetch, post and trust
    commands the script calls.  A run is the agent's effect on the guest and the
    trace of what it asked the relay and of the processes it started; the
    relay's answers and what the build script does are arbitrary. *)
From S2P Require Import Prelude Text Crypto Paths Translate GuestFs Trust Baseline.

#[local] Open Scope string_scope.
#[local] Open Scope Z_scope.

(** ** What the agent talks to *)

Record request := mkRequest { method : string; url : string; rbody : bytes }.
(** A response, with what reading its body yields and the error it ends with. *)
Record response := mkResponse { status : Z; body : bytes; read_err : option error }.

(** What a started script does, step by step: it writes output, or two seconds
    pass. *)
Inductive step := Output (b : bytes) | Tick.

(** How it ends: it could not be started, exited, or could not be waited for. *)
Inductive proc_end := NotStarted | Exited (code : Z) | WaitFailed.

#[export] Instance proc_end_eq_dec : EqDecision proc_end.
Proof. solve_decision. Defined.

Inductive event := EvHTTP (r : request) | EvScript (shell path : string) (content : result bytes) (env : list string).

(** The relay's answer to a request, given all that happened; how long a request
    took, in nanoseconds; what a script does to the guest; the path of the
    agent's own executable. *)
Class Outside := {
  answer : list event -> request -> result response;
  took : list event -> request -> Z;
  took_nonneg t r : 0 <= took t r;
  script_does : list event -> string -> GuestFs.disk -> GuestFs.disk * list step * proc_end;
  executable : option string }.

(** [json.Decoder] over a bootstrap document: the version and the mode, an error
    for an unknown field, and whether anything follows the value. *)
Class ConfigCodec := config_decode : bytes -> result (Z * string * bool).

Module Bootstrap.
Import Trust.

Record Config := mkConfig { Version : Z; Mode : string }.
Definition version : Z := 1.
Definition empty : Config := mkConfig 0 "".

(** [strings.ToLower] on ASCII. *)
Definition ForGuest (guestOS : string) : Config :=
  let os := str_map (fun c => if is_upper c then ascii_of_Z (code c + 32) else c) guestOS in
  mkConfig version (if bool_decide (os ∈ ["windows"; "darwin"; "macos"]) then TrustAppend else TrustExclusive).

Definition TrustMode (c : Config) : string := if bool_decide (Mode c = "") then TrustAppend else Mode c.

(** [Parse]; [bytes.TrimSpace] on ASCII white space. *)
Definition Parse {CC : ConfigCodec} (data : bytes) : result Config :=
  if bool_decide (TrimSpace (string_of data) = "") then Ok empty
  else match config_decode data with
       | Err e => Err (Wrap "bootstrap config" e)
       | Ok (v, mode, more) =>
           if more then Err (Msg "bootstrap config: trailing data")
           else if negb (v =? version) then Err (Errorf "bootstrap config: unsupported version %d" [Itoa v])
           else if bool_decide (mode ∈ [""; TrustAppend; TrustExclusive]) then Ok (mkConfig v mode)
           else Err (Errorf "bootstrap config: unknown trust mode %q" [mode])
       end.
End Bootstrap.

Module Agent.
Import GuestFs Trust Baseline Bootstrap.

(** The guest: its disk, the agent's environment, the clock, and what happened. *)
Record guest := mkGuest { disk_of : disk; environ : list string; now : Z; trace : list event }.

Definition set_disk (g : guest) (d : disk) : guest := mkGuest d (environ g) (now g) (trace g).

(** ** Flags *)
Record initArgs := mkArgs { gateway : string; selfIP : string; script : string; workdir : string; hold : bool }.
Definition no_args : initArgs := mkArgs "" "" "" "" false.

(** [str[name]] *)
Definition set_flag (a : initArgs) (name val : string) : option initArgs :=
  if bool_decide (name = "--gateway") then Some (mkArgs val (selfIP a) (script a) (workdir a) (hold a))
  else if bool_decide (name = "--ip") then Some (mkArgs (gateway a) val (script a) (workdir a) (hold a))
  else if bool_decide (name = "--script") then Some (mkArgs (gateway a) (selfIP a) val (workdir a) (hold a))
  else if bool_decide (name = "--workdir") then Some (mkArgs (gateway a) (selfIP a) (script a) val (hold a))
  else None.

(** [strings.Cut(arg, "=")] *)
Definition cut_eq (arg : string) : string * option string :=
  match Split arg "=" with
  | name :: v :: rest => (name, Some (Text.Join (v :: rest) "="))
  | _ => (arg, None)
  end.

Fixpoint parse_args (a : initArgs) (args : list string) : initArgs :=
  match args with
  | [] => a
  | arg :: args =>
      if bool_decide (arg = "--hold") then parse_args (mkArgs (gateway a) (selfIP a) (script a) (workdir a) true) args
      else
        let '(name, val) := cut_eq arg in
        match set_flag a name "", val with
        | None, _ => parse_args a args
        | Some _, Some v => parse_args (default a (set_flag a name v)) args
        | Some _, None =>
            match args with
            | [] => a
            | v :: args => parse_args (default a (set_flag a name v)) args
            end
        end
  end.
Definition parseInitArgs : list string -> initArgs := parse_args no_args.

(** ** The process environment *)
Definition env_entry (k v : string) : string := k ++ "=" ++ v.
Definition Getenv (env : list string) (k : string) : string :=
  default "" (e ← List.find (fun e => HasPrefix e (k ++ "=")) env; CutPrefix e (k ++ "=")).
Fixpoint Setenv (env : list string) (k v : string) : list string :=
  match env with
  | [] => [env_entry k v]
  | e :: env => if HasPrefix e (k ++ "=") then env_entry k v :: env else e :: Setenv env k v
  end.

Definition first_set (a b : string) : string := if bool_decide (a = "") then b else a.

(** [strings.EqualFold(e[:5], "PATH=")] *)
Definition is_path_entry (e : string) : bool := bool_decide (Translate.ToUpper (substring 0 5 e) = "PATH=").

Fixpoint prepend_path (env : list string) (selfDir : string) : list string :=
  match env with
  | [] => ["PATH=" ++ selfDir]
  | e :: env =>
      if is_path_entry e then (substring 0 5 e ++ selfDir ++ ":" ++ substring 5 (String.length e - 5) e) :: env
      else e :: prepend_path env selfDir
  end.

Section Agent.
Context {HO : HashOps} {XO : X509Ops} {CT : CaTool} {FS : OS} {OU : Outside} {CC : ConfigCodec} {MO : Translate.MapOrder}.

(** [buildScriptEnv] *)
Definition buildScriptEnv (env : list string) : list string :=
  match executable with
  | None => env
  | Some self => prepend_path env (Dir_of self)
  end.

(** ** The relay *)
Definition do_http (g : guest) (r : request) : guest * result response :=
  (mkGuest (disk_of g) (environ g) (now g + took (trace g) r) (trace g ++ [EvHTTP r])%list, answer (trace g) r).

Definition get (u : string) : request := mkRequest "GET" u [].

(** [relayGet]; reading the body may fail after the status came. *)
Definition relayGet (g : guest) (u : string) : guest * result (bytes * Z) :=
  match do_http g (get u) with
  | (g, Err e) => (g, Err e)
  | (g, Ok r) => (g, match read_err r with Some e => Err e | None => Ok (body r, status r) end)
  end.

(** [fmt.Errorf("HTTP %d", status)] *)
Definition http_status (s : Z) : error := Errorf "HTTP %d" [Itoa s].

(** [fetchCA] *)
Definition fetchCA (g : guest) : guest * result (bytes * Cert) :=
  match relayGet g "http://artifacts/ca.pem" with
  | (g, Err e) => (g, Err e)
  | (g, Ok (data, s)) =>
      (g, if negb (s =? 200) then Err (http_status s)
          else match pem_decode data with
               | None => Err (Msg "no PEM certificate")
               | Some der => match ParseCertificate der with
                             | Err e => Err (Wrap "parsing CA" e)
                             | Ok cert => Ok (data, cert)
                             end
               end)
  end.

(** [fetchBootstrap] *)
Definition fetchBootstrap (g : guest) : guest * result Config :=
  match relayGet g "http://artifacts/bootstrap" with
  | (g, Err e) => (g, Err e)
  | (g, Ok (data, s)) =>
      (g, if s =? 200 then Parse data else if s =? 404 then Ok empty else Err (http_status s))
  end.

(** [waitForRelay]: the loop until [deadline]. *)
Definition healthURL (gw : string) : string :=
  if bool_decide (gw = "") then "http://artifacts/health" else "http://" ++ gw ++ ":8300/health".

Fixpoint wait_loop (fuel : nat) (g : guest) (u : string) (deadline : Z) : guest * option error :=
  let late := Some (Msg "relay did not become healthy within 60s") in
  match fuel with
  | O => (g, late)
  | S fuel =>
      if now g <? deadline then
        match do_http g (get u) with
        | (g, res) =>
            if match res with Ok r => status r =? 200 | Err _ => false end then (g, None)
            else wait_loop fuel (mkGuest (disk_of g) (environ g) (now g + 500000000) (trace g)) u deadline
        end
      else (g, late)
  end.

(** Sixty seconds hold 120 sleeps of half a second. *)
Definition wait_passes : nat := 121.
Definition waitForRelay (g : guest) (gw : string) : guest * option error :=
  wait_loop wait_passes g (healthURL gw) (now g + 60000000000).

(** ** Files from the relay *)

(** [os.Create] and [io.Copy] of a body into it. *)
Definition create_copy (d : disk) (dest : string) (r : response) : disk * option error :=
  match WriteFile d dest (body r) 438 with
  | (d, Some e) => (d, Some e)
  | (d, None) => (d, read_err r)
  end.

(** [if dir := filepath.Dir(dest); dir != "." && dir != "" { MkdirAll }] *)
Definition make_parent (d : disk) (dest : string) : disk * option error :=
  let dir := Dir_of dest in
  if bool_decide (dir = ".") || bool_decide (dir = "") then (d, None) else MkdirAll d dir.

(** [fetchBuildScript] *)
Definition fetchBuildScript (g : guest) (dest : string) : guest * option error :=
  match do_http g (get "http://artifacts/build-script") with
  | (g, Err e) => (g, Some e)
  | (g, Ok r) =>
      if negb (status r =? 200) then (g, Some (http_status (status r)))
      else let '(d, err) := try (make_parent (disk_of g) dest) (fun d => create_copy d dest r) in (set_disk g d, err)
  end.

(** [fetchFile] *)
Definition fetchFile (g : guest) (src dest : string) : guest * option error :=
  match make_parent (disk_of g) dest with
  | (d, Some e) => (set_disk g d, Some e)
  | (d, None) =>
      match do_http (set_disk g d) (get ("http://cwd/" ++ src)) with
      | (g, Err e) => (g, Some e)
      | (g, Ok r) =>
          if negb (status r =? 200) then (g, Some (http_status (status r)))
          else let '(d, err) := create_copy (disk_of g) dest r in (set_disk g d, err)
      end
  end.

(** [fetchListing]: the nonempty lines. *)
Definition listing_lines (b : bytes) : list string :=
  filter (fun l => l <> "") (Split (TrimSpace (string_of b)) Translate.newline).
Definition fetchListing (g : guest) (prefix : string) : guest * result (list string) :=
  match do_http g (get ("http://cwd/" ++ prefix)) with
  | (g, Err e) => (g, Err e)
  | (g, Ok r) =>
      (g, if negb (status r =? 200) then Err (http_status (status r))
          else match read_err r with Some e => Err e | None => Ok (listing_lines (body r)) end)
  end.

(** [filepath.Join], which leaves out empty elements. *)
Definition join2 (a b : string) : string :=
  if bool_decide (a = "") then (if bool_decide (b = "") then "" else Translate.path_Clean b)
  else if bool_decide (b = "") then Translate.path_Clean a else Join a b.

(** [fetchDir] *)
Fixpoint fetch_listed (g : guest) (prefix destDir : string) (listing : list string) : guest * option error :=
  match listing with
  | [] => (g, None)
  | f :: listing =>
      let out := if bool_decide (destDir = "") then f
                 else join2 destDir (if bool_decide (prefix = "") then f else TrimPrefix f prefix) in
      match fetchFile g f out with
      | (g, Some e) => (g, Some (Wrap f e))
      | (g, None) => fetch_listed g prefix destDir listing
      end
  end.
Definition fetchDir (g : guest) (prefix destDir : string) : guest * option error :=
  let prefix := if bool_decide (prefix = ".") then "" else prefix in
  match fetchListing g prefix with
  | (g, Err e) => (g, Some e)
  | (g, Ok listing) => fetch_listed g prefix destDir listing
  end.

(** [runFetch]'s arguments: the destination and the files; [None] is the fatal
    error of a "-o" without one. *)
Fixpoint fetch_args (args : list string) : option (option string * list string) :=
  match args with
  | [] => Some (None, [])
  | a :: args =>
      if bool_decide (a = "-o") then
        match args with
        | [] => None
        | dest :: args => '(d, fs) ← fetch_args args; Some (Some (default dest d), fs)
        end
      else '(d, fs) ← fetch_args args; Some (d, a :: fs)
  end.

(** The loop of [runFetch] *)
Definition fetch_one (g : guest) (dest : string) (many : bool) (f : string) : guest * option error :=
  if HasSuffix f "/" || bool_decide (f = ".") then fetchDir g f dest
  else
    let out := if bool_decide (dest = "") then f
               else if many || HasSuffix dest "/" then join2 dest (Translate.path_Base f) else dest in
    fetchFile g f out.

Fixpoint fetch_all (g : guest) (dest : string) (many : bool) (files : list string) (code : Z) : guest * Z :=
  match files with
  | [] => (g, code)
  | f :: files =>
      match fetch_one g dest many f with
      | (g, Some _) => fetch_all g dest many files 1
      | (g, None) => fetch_all g dest many files code
      end
  end.

(** [runFetch]: the exit status. *)
Definition runFetch (g : guest) (args : list string) : guest * Z :=
  match fetch_args args with
  | None | Some (_, []) => (g, 1)
  | Some (dest, files) => fetch_all g (default "" dest) (1 <? len files) files 0
  end.

(** [runPost] *)
Definition runPost (g : guest) (args : list string) : guest * Z :=
  match args with
  | [] => (g, 1)
  | filePath :: rest =>
      let name := match rest with n :: _ => n | [] => Translate.path_Base filePath end in
      match ReadFile (disk_of g) filePath with
      | Err _ => (g, 1)
      | Ok b =>
          match do_http g (mkRequest "POST" ("http://artifacts/" ++ name) b) with
          | (g, Err _) => (g, 1)
          | (g, Ok r) => (g, if status r =? 200 then 0 else 1)
          end
      end
  end.

(** [runTrust] *)
Definition runTrust (g : guest) : guest * Z :=
  match fetchCA g with
  | (g, Err _) => (g, 1)
  | (g, Ok (pem, cert)) =>
      match installCA (disk_of g) pem cert TrustAppend with
      | (d, Some _) => (set_disk g d, 1)
      | (d, None) => (set_disk g d, 0)
      end
  end.

(** ** Setup *)

(** [configureNetwork] *)
Definition configureNetwork (d : disk) (gw : string) : disk * option error :=
  if bool_decide (gw = "") then (d, None)
  else wrap "writing resolv.conf" (WriteFile d "/etc/resolv.conf" (bytes_of (line ("nameserver " ++ gw))) 420).

(** Entering the workdir *)
Definition enter (d : disk) (workdir : string) : disk * option error :=
  if bool_decide (workdir = "") then (d, None)
  else wrap "workdir" (try (MkdirAll d workdir) (fun d => Chdir d workdir)).

Definition set_all (env : list string) (m : gmap string string) : list string :=
  foldl (fun env kv => Setenv env kv.1 kv.2) env (Translate.range "" m).

(** [setUp] *)
Definition setUp (g : guest) (workdir : string) : guest * result (gmap string string) :=
  match fetchCA g with
  | (g, Err e) => (g, Err (Wrap "CA" e))
  | (g, Ok (pem, cert)) =>
      match fetchBootstrap g with
      | (g, Err e) => (g, Err (Wrap "bootstrap config" e))
      | (g, Ok cfg) =>
          match installCA (disk_of g) pem cert (TrustMode cfg) with
          | (d, Some e) => (set_disk g d, Err (Wrap "CA install" e))
          | (d, None) =>
              match applyBaseline d cert (findCABundle d) with
              | (d, Err e) => (set_disk g d, Err (Wrap "baseline" e))
              | (d, Ok env) =>
                  let g := mkGuest d (set_all (environ g) env) (now g) (trace g) in
                  match enter d workdir with
                  | (d, Some e) => (set_disk g d, Err e)
                  | (d, None) => (set_disk g d, Ok env)
                  end
              end
          end
      end
  end.

(** ** Running the script *)

(** Reads of a 32 KiB buffer from the pipe one write goes through. *)
Definition buffer_size : nat := 32768.
Fixpoint chunks_go (fuel : nat) (b : bytes) : list bytes :=
  match fuel, b with
  | S fuel, _ :: _ => take buffer_size b :: chunks_go fuel (drop buffer_size b)
  | _, _ => []
  end.
Definition chunks (b : bytes) : list bytes := chunks_go (length b) b.

Definition outputURL (gw : string) : string := "http://" ++ gw ++ ":8300/v1/output".

(** [postBuildOutputChunk] *)
Definition postBuildOutputChunk (g : guest) (gw : string) (data : bytes) : guest * bool :=
  if bool_decide (gw = "") || bool_decide (data = []) then (g, false)
  else match do_http g (mkRequest "POST" (outputURL gw) data) with
       | (g, Err _) => (g, false)
       | (g, Ok r) => (g, status r =? 200)
       end.

(** [streamBuildOutput]: one read of the loop, and those of one write; [deliver]
    is kept across. *)
Fixpoint stream_chunks (g : guest) (gw : string) (deliver : bool) (cs : list bytes) : guest * bool :=
  match cs with
  | [] => (g, deliver)
  | c :: cs =>
      if deliver then let '(g, ok) := postBuildOutputChunk g gw c in stream_chunks g gw ok cs
      else stream_chunks g gw false cs
  end.

(** The script's steps, with [heartbeat] beside them. *)
Fixpoint run_steps (g : guest) (gw : string) (deliver : bool) (steps : list step) : guest :=
  match steps with
  | [] => g
  | Output b :: steps => let '(g, deliver) := stream_chunks g gw deliver (chunks b) in run_steps g gw deliver steps
  | Tick :: steps => run_steps (do_http g (get "http://artifacts/heartbeat")).1 gw deliver steps
  end.

(** [scriptCommand] *)
Definition script_shell (d : disk) : string :=
  if bool_decide (is_Some (Stat d "/bin/bash")) then "/bin/bash" else "/bin/sh".

(** [execScript] *)
Definition execScript (g : guest) (path gw : string) : guest * Z :=
  let ev := EvScript (script_shell (disk_of g)) path (ReadFile (disk_of g) path) (buildScriptEnv (environ g)) in
  let '(d, steps, fin) := script_does (trace g) path (disk_of g) in
  match fin with
  | NotStarted => (g, 1)
  | Exited code => (run_steps (mkGuest d (environ g) (now g) (trace g ++ [ev])%list) gw (negb (bool_decide (gw = ""))) steps, code)
  | WaitFailed => (run_steps (mkGuest d (environ g) (now g) (trace g ++ [ev])%list) gw (negb (bool_decide (gw = ""))) steps, 1)
  end.

(** [reportComplete] *)
Definition exitURL (code : Z) : string := "http://artifacts/exit?code=" ++ Itoa code.
Definition reportComplete (g : guest) (code : Z) : guest := (do_http g (mkRequest "POST" (exitURL code) [])).1.

(** ** initialize *)
Inductive ending := Exit (code : Z) | Held.

#[export] Instance ending_eq_dec : EqDecision ending.
Proof. solve_decision. Defined.

Definition shellEnvPath : string := Join wardenDataDir "shell.env".

(** [holdForShell] *)
Definition holdForShell (g : guest) (env : gmap string string) (workdir : string) : guest * ending :=
  let env := match executable with
             | Some self => <["PATH" := Dir_of self ++ ":" ++ Getenv (environ g) "PATH"]> env
             | None => env
             end in
  match writeFileMkdir (disk_of g) shellEnvPath (bytes_of (shellEnvScript env workdir)) 420 with
  | (d, Some _) => (set_disk g d, Exit 1)
  | (d, None) => (set_disk g d, Held)
  end.

(** [os.TempDir] and [scriptDestPath] *)
Definition scriptDestPath (env : list string) (script : string) : string :=
  join2 (first_set (Getenv env "TMPDIR") "/tmp") (Translate.path_Base script).

Definition with_defaults (env : list string) (a : initArgs) : initArgs :=
  mkArgs (first_set (gateway a) (Getenv env "WARDEN_GATEWAY")) (first_set (selfIP a) (Getenv env "WARDEN_IP"))
    (first_set (script a) "build.sh") (workdir a) (hold a).

(** From the fetched script on; its mode is set, an error of that ignored. *)
Definition run_fetched (g : guest) (path gw : string) : guest * ending :=
  let '(g, code) := execScript (set_disk g (Chmod (disk_of g) path 493).1) path gw in
  (reportComplete g code, Exit code).

(** [runInitialize] *)
Definition runInitialize (g : guest) (args : list string) : guest * ending :=
  let a := with_defaults (environ g) (parseInitArgs args) in
  match configureNetwork (disk_of g) (gateway a) with
  | (d, Some _) => (set_disk g d, Exit 1)
  | (d, None) =>
      match waitForRelay (set_disk g d) (gateway a) with
      | (g, Some _) => (g, Exit 1)
      | (g, None) =>
          match setUp g (workdir a) with
          | (g, Err _) => (g, Exit 1)
          | (g, Ok env) =>
              if hold a then holdForShell g env (workdir a)
              else
                let path := scriptDestPath (environ g) (script a) in
                match fetchBuildScript g path with
                | (g, Some _) => (g, Exit 1)
                | (g, None) => run_fetched g path (gateway a)
                end
          end
      end
  end.

Definition exits (r : guest * Z) : guest * ending := (r.1, Exit r.2).

(** [main], after the command's name; the usage and [fatal] exit with 1. *)
Definition main (g : guest) (args : list string) : guest * ending :=
  match args with
  | cmd :: args =>
      if bool_decide (cmd ∈ ["initialize"; "init"]) then runInitialize g args
      else if bool_decide (cmd = "fetch") then exits (runFetch g args)
      else if bool_decide (cmd = "post") then exits (runPost g args)
      else if bool_decide (cmd = "trust") then exits (runTrust g)
      else (g, Exit 1)
  | [] => (g, Exit 1)
  end.
End Agent.
End Agent.
