(* ===== verification/AgentSpec.v ===== *)
(** * What the guest agent guarantees

    The order in which a build environment is set up and what it asks the relay
    for, whatever goes wrong; that the script runs only under the trust policy
    the relay sent; and that its output reaches the relay as it was written. *)
From S2P Require Import Prelude Text Crypto Paths Translate Session GuestFs Trust TrustSpec Baseline Agent.

#[local] Open Scope string_scope.
#[local] Open Scope Z_scope.
#[local] Open Scope list_scope.

Module AgentSpec.
Import GuestFs GuestFsSpec Trust TrustSpec Baseline Bootstrap Agent.

Section Spec.
Context {HO : HashOps} {XO : X509Ops} {CT : CaTool} {FS : OS} {OU : Outside} {CC : ConfigCodec} {MO : Translate.MapOrder}.

(** ** Traces *)
Definition asked (u : string) : event := EvHTTP (get u).

Lemma do_http_trace g r : trace (do_http g r).1 = trace g ++ [EvHTTP r].
Proof. done. Qed.
Lemma set_disk_trace g d : trace (set_disk g d) = trace g.
Proof. done. Qed.

Lemma relayGet_trace g u g' r : relayGet g u = (g', r) -> trace g' = trace g ++ [asked u].
Proof. unfold relayGet, do_http. destruct (answer _ _); by intros [= <- _]. Qed.

Lemma fetchCA_trace g g' r : fetchCA g = (g', r) -> trace g' = trace g ++ [asked "http://artifacts/ca.pem"].
Proof.
  unfold fetchCA. destruct (relayGet g _) as [g1 r1] eqn:E. intros H. rewrite <- (relayGet_trace _ _ _ _ E).
  destruct r1 as [ [b s]|]; by injection H as <- _.
Qed.

Lemma fetchBootstrap_trace g g' r : fetchBootstrap g = (g', r) -> trace g' = trace g ++ [asked "http://artifacts/bootstrap"].
Proof.
  unfold fetchBootstrap. destruct (relayGet g _) as [g1 r1] eqn:E. intros H. rewrite <- (relayGet_trace _ _ _ _ E).
  destruct r1 as [ [b s]|]; by injection H as <- _.
Qed.

Lemma wait_loop_trace fuel : forall g u dl g' r, wait_loop fuel g u dl = (g', r) ->
  exists k, (k <= fuel)%nat /\ trace g' = trace g ++ repeat (asked u) k /\ disk_of g' = disk_of g /\ environ g' = environ g.
Proof.
  induction fuel as [|fuel IH]; intros g u dl g' r H.
  { injection H as <- _. exists 0%nat. rewrite app_nil_r. split; [lia|done]. }
  cbn [wait_loop] in H. destruct (now g <? dl); [|injection H as <- _; exists 0%nat; rewrite app_nil_r; split; [lia|done] ].
  unfold do_http in H. destruct (match answer _ _ with Ok r => status r =? 200 | Err _ => false end).
  - injection H as <- _. exists 1%nat. split; [lia|done].
  - apply IH in H as (k & Hk & Ht & Hd & He). exists (S k). split; [lia|]. cbn [trace disk_of environ] in *. rewrite Ht, <- app_assoc. done.
Qed.

(** The sixty seconds are over before the passes are. *)
Lemma wait_loop_fuel fuel : forall g u dl, dl - now g <= Z.of_nat fuel * 500000000 -> forall more,
  wait_loop (fuel + more) g u dl = wait_loop fuel g u dl.
Proof.
  induction fuel as [|fuel IH]; intros g u dl Hf more.
  - destruct more; cbn [wait_loop Nat.add]; [done|]. destruct (Z.ltb_spec (now g) dl); [lia|done].
  - cbn [wait_loop Nat.add]. destruct (now g <? dl); [|done]. unfold do_http.
    destruct (match answer _ _ with Ok r => status r =? 200 | Err _ => false end); [done|].
    apply IH. cbn [now]. pose proof (took_nonneg (trace g) (get u)). lia.
Qed.

Lemma wait_passes_enough g gw more :
  wait_loop (wait_passes + more) g (healthURL gw) (now g + 60000000000) = waitForRelay g gw.
Proof. apply wait_loop_fuel. unfold wait_passes. lia. Qed.

(** ** Streaming *)

Lemma buffer_positive : (1 <= buffer_size)%nat.
Proof. by apply Nat.leb_le. Qed.

Lemma chunks_go_concat fuel : forall b, (length b <= fuel)%nat -> mjoin (chunks_go fuel b) = b.
Proof.
  induction fuel as [|fuel IH]; intros [|x b] Hl; [done|exfalso; cbn in Hl; lia|done|]. cbn [chunks_go]. rewrite mjoin_cons, IH; [apply take_drop|].
  rewrite length_drop. pose proof buffer_positive. cbn [length] in *. lia.
Qed.

Lemma chunks_concat b : mjoin (chunks b) = b.
Proof. by apply chunks_go_concat. Qed.

Lemma chunks_bounded fuel : forall b, Forall (fun c => c <> [] /\ (length c <= buffer_size)%nat) (chunks_go fuel b).
Proof.
  induction fuel as [|fuel IH]; intros [|x b]; [by apply Forall_nil..|]. cbn [chunks_go]. apply Forall_cons_2; [|apply IH].
  split; [done|]. rewrite length_take. lia.
Qed.

(** What the events posted to [u]. *)
Definition posted (u : string) (t : list event) : list bytes :=
  omap (fun e => match e with
                 | EvHTTP r => if decide (method r = "POST" /\ url r = u) then Some (rbody r) else None
                 | _ => None
                 end) t.

Lemma posted_app u a b : posted u (a ++ b) = posted u a ++ posted u b.
Proof. apply omap_app. Qed.

(** The output a script wrote. *)
Definition written_by (steps : list step) : bytes :=
  mjoin (omap (fun s => match s with Output b => Some b | Tick => None end) steps).

Definition answered_200 (t : list event) (r : request) : bool :=
  match answer t r with Ok r => status r =? 200 | Err _ => false end.

Definition post (gw : string) (c : bytes) : event := EvHTTP (mkRequest "POST" (outputURL gw) c).

Definition link_up (gw : string) : Prop := forall t c, answered_200 t (mkRequest "POST" (outputURL gw) c) = true.

Lemma post_chunk g gw c g' ok : gw <> "" -> c <> [] -> postBuildOutputChunk g gw c = (g', ok) ->
  trace g' = trace g ++ [post gw c] /\ disk_of g' = disk_of g /\ (link_up gw -> ok = true).
Proof.
  intros Hg Hc. unfold postBuildOutputChunk. rewrite !bool_decide_eq_false_2 by done. cbn [orb]. unfold do_http.
  destruct (answer (trace g) _) as [r|e] eqn:Ea; intros [= <- <-]; (split; [done|split; [done|] ]); intros Hup;
    specialize (Hup (trace g) c); unfold answered_200 in Hup; by rewrite Ea in Hup.
Qed.

Lemma stream_chunks_spec gw cs : forall g deliver g' d',
  Forall (fun c => c <> []) cs -> (deliver = true -> gw <> "") -> stream_chunks g gw deliver cs = (g', d') ->
  exists sent rest, cs = sent ++ rest /\ trace g' = trace g ++ (post gw <$> sent) /\ disk_of g' = disk_of g /\
    (d' = true -> deliver = true) /\ (rest <> [] -> d' = false) /\ (deliver = false -> sent = []) /\
    (link_up gw -> deliver = true -> d' = true).
Proof.
  induction cs as [|c cs IH]; intros g deliver g' d' Hne Hgw H.
  { injection H as <- <-. exists [], []. split_and!; try done. by rewrite app_nil_r. }
  apply Forall_cons in Hne as [Hc Hne]. cbn [stream_chunks] in H. destruct deliver.
  - destruct (postBuildOutputChunk g gw c) as [g1 ok] eqn:Ep. destruct (post_chunk _ _ _ _ _ (Hgw eq_refl) Hc Ep) as (Ht & Hd & Hok).
    destruct (IH g1 ok g' d' Hne ltac:(by intros _; apply Hgw) H) as (sent & rest & -> & Ht' & Hd' & H1 & H2 & H3 & H4).
    exists (c :: sent), rest. split_and!; [done| |congruence|done|done|done|by auto].
    by rewrite Ht', Ht, <- app_assoc.
  - destruct (IH g false g' d' Hne ltac:(done) H) as (sent & rest & -> & Ht' & Hd' & H1 & H2 & H3 & H4).
    rewrite (H3 eq_refl) in *. exists [], (c :: rest). split_and!; try done. intros _. destruct d'; [by specialize (H1 eq_refl)|done].
Qed.

Lemma posted_posts gw l : posted (outputURL gw) (post gw <$> l) = l.
Proof. induction l as [|c l IH]; [done|]. rewrite fmap_cons. cbn. rewrite decide_True by done. by f_equal. Qed.

Definition beat : event := asked "http://artifacts/heartbeat".

Definition beats (t : list event) : nat :=
  length (omap (fun e => match e with EvHTTP r => if decide (method r = "GET") then Some tt else None | _ => None end) t).
Definition ticks (steps : list step) : nat := length (omap (fun s => match s with Tick => Some tt | _ => None end) steps).

Lemma beats_app a b : beats (a ++ b) = (beats a + beats b)%nat.
Proof. unfold beats. by rewrite omap_app, length_app. Qed.

Lemma beats_posts gw l : beats (post gw <$> l) = 0%nat.
Proof. by induction l. Qed.

Lemma run_steps_spec g gw deliver steps :
  (deliver = true -> gw <> "") ->
  exists sent rest, trace (run_steps g gw deliver steps) = trace g ++ sent /\
    Forall (fun e => e = beat \/ exists c, e = post gw c /\ (1 <= length c <= buffer_size)%nat) sent /\
    beats sent = ticks steps /\
    mjoin (posted (outputURL gw) sent) ++ rest = written_by steps /\
    (deliver = false -> posted (outputURL gw) sent = []) /\
    (link_up gw -> deliver = true -> rest = []).
Proof.
  revert g deliver. induction steps as [|st steps IH]; intros g deliver Hgw.
  { exists [], []. rewrite app_nil_r. by split_and!. }
  destruct st as [b|]; cbn [run_steps].
  - destruct (stream_chunks g gw deliver (chunks b)) as [g1 d1] eqn:Es.
    assert (Hne : Forall (fun c => c <> []) (chunks b)) by (eapply Forall_impl; [apply chunks_bounded|by intros c [? _] ]).
    destruct (stream_chunks_spec _ _ _ _ _ _ Hne Hgw Es) as (sent & rest & Hc & Ht & _ & H1 & H2 & H3 & H4).
    destruct (IH g1 d1 ltac:(by intros ?; apply Hgw, H1)) as (sent' & rest' & Ht' & Hf & Hb & Hw & Hn & Hup).
    assert (Hsize : Forall (fun c => (1 <= length c <= buffer_size)%nat) sent).
    { pose proof (chunks_bounded (length b) b) as Hcb. fold (chunks b) in Hcb. rewrite Hc in Hcb. apply Forall_app in Hcb as [Hcb _].
      eapply Forall_impl; [exact Hcb|]. intros c [Hcn ?]. split; [|done]. destruct c; [done|cbn; lia]. }
    assert (Hwb : written_by (Output b :: steps) = b ++ written_by steps) by done.
    rewrite Hwb, <- (chunks_concat b), Hc, join_app, <- app_assoc.
    assert (Hrest : rest <> [] -> posted (outputURL gw) sent' = []) by (intros Hr; by apply Hn, H2).
    exists ((post gw <$> sent) ++ sent'), (mjoin rest ++ (if decide (rest = []) then rest' else written_by steps)).
    split_and!.
    + by rewrite Ht', Ht, <- app_assoc.
    + apply Forall_app. split; [|done]. apply Forall_fmap. eapply Forall_impl; [exact Hsize|]. intros c Hcs. right. by exists c.
    + by rewrite beats_app, beats_posts, Hb.
    + rewrite posted_app, posted_posts, join_app, <- !app_assoc. f_equal. destruct (decide (rest = [])) as [->|Hr]; [exact Hw|].
      by rewrite (Hrest Hr).
    + intros Hd. rewrite posted_app, posted_posts, (H3 Hd). cbn [app]. apply Hn. destruct d1; [by specialize (H1 eq_refl); congruence|done].
    + intros Hl Hd. pose proof (H4 Hl Hd) as Hd1. destruct (decide (rest = [])) as [->|Hr]; [by apply Hup|].
      specialize (H2 Hr). congruence.
  - destruct (IH (do_http g (get "http://artifacts/heartbeat")).1 deliver Hgw) as (sent & rest & Ht & Hf & Hb & Hw & Hn & Hup).
    exists (beat :: sent), rest. rewrite do_http_trace in Ht. split_and!; try done.
    + by rewrite Ht, <- app_assoc.
    + apply Forall_cons_2; [by left|done].
    + change (beats (beat :: sent)) with (S (beats sent)). change (ticks (Tick :: steps)) with (S (ticks steps)). by rewrite Hb.
Qed.

(** ** initialize *)
Definition ask_ca : event := asked "http://artifacts/ca.pem".
Definition ask_bootstrap : event := asked "http://artifacts/bootstrap".
Definition ask_script : event := asked "http://artifacts/build-script".
Definition exit_reported (code : Z) : event := EvHTTP (mkRequest "POST" (exitURL code) []).

(** A setup that succeeded asked for both; its parts. *)
Lemma setUp_Ok g wd g' env : setUp g wd = (g', Ok env) ->
  exists g1 g2 pem cert cfg d1 d2 d3,
    fetchCA g = (g1, Ok (pem, cert)) /\ fetchBootstrap g1 = (g2, Ok cfg) /\
    installCA (disk_of g2) pem cert (TrustMode cfg) = (d1, None) /\
    applyBaseline d1 cert (findCABundle d1) = (d2, Ok env) /\ enter d2 wd = (d3, None) /\
    g' = mkGuest d3 (set_all (environ g2) env) (now g2) (trace g2).
Proof.
  unfold setUp. destruct (fetchCA g) as [g1 [ [pem cert]|] ]; [|done]. destruct (fetchBootstrap g1) as [g2 [cfg|] ] eqn:E0; [|done].
  destruct (installCA _ _ _ _) as [d1 [|] ] eqn:E1; [done|]. destruct (applyBaseline _ _ _) as [d2 [env'|] ] eqn:E2; [|done].
  destruct (enter d2 wd) as [d3 [|] ] eqn:E3; [done|]. intros [= <- <-]. by exists g1, g2, pem, cert, cfg, d1, d2, d3.
Qed.

Lemma setUp_trace g wd g' r : setUp g wd = (g', r) ->
  exists asks, trace g' = trace g ++ asks /\ asks `prefix_of` [ask_ca; ask_bootstrap] /\ (is_ok r = true -> asks = [ask_ca; ask_bootstrap]).
Proof.
  intros H. unfold setUp in H. destruct (fetchCA g) as [g1 r1] eqn:E1. apply fetchCA_trace in E1.
  destruct r1 as [ [pem cert]|]; [|injection H as <- <-; exists [ask_ca]; split_and!; [done|by exists [ask_bootstrap]|done] ].
  destruct (fetchBootstrap g1) as [g2 r2] eqn:E2. apply fetchBootstrap_trace in E2. rewrite E1, <- app_assoc in E2.
  exists [ask_ca; ask_bootstrap]. cut (trace g' = trace g2); [by intros ->|].
  destruct r2 as [cfg|]; [|by injection H as <- <-].
  destruct (installCA _ _ _ _) as [d1 [|] ]; [by injection H as <- <-|].
  destruct (applyBaseline _ _ _) as [d2 [env|] ]; [|by injection H as <- <-].
  destruct (enter d2 wd) as [d3 [|] ]; by injection H as <- <-.
Qed.

Lemma fetchBuildScript_trace g dest g' r : fetchBuildScript g dest = (g', r) -> trace g' = trace g ++ [ask_script].
Proof.
  unfold fetchBuildScript, do_http. destruct (answer _ _) as [x|]; [|by intros [= <- _] ].
  destruct (negb _); [by intros [= <- _]|]. destruct (try _ _). by intros [= <- _].
Qed.

(** What running the script adds to the trace. *)
Inductive ran (gw : string) : list event -> Z -> Prop :=
  | not_started : ran gw [] 1
  | started sh path content env sent code :
      Forall (fun e => e = beat \/ exists c, e = post gw c) sent -> ran gw (EvScript sh path content env :: sent) code.

Lemma execScript_trace g path gw g' code : execScript g path gw = (g', code) ->
  exists t, trace g' = trace g ++ t /\ ran gw t code.
Proof.
  unfold execScript. destruct (script_does _ _ _) as [ [d steps] fin].
  set (g1 := mkGuest d _ _ _). assert (Hgw : negb (bool_decide (gw = "")) = true -> gw <> "") by (intros H; by bool_to_prop).
  destruct (run_steps_spec g1 gw _ steps Hgw) as (sent & rest & Ht & Hf & _).
  assert (Hr : forall c, exists t, trace (run_steps g1 gw (negb (bool_decide (gw = ""))) steps) = trace g ++ t /\ ran gw t c).
  { intros c. eexists. split; [rewrite Ht; unfold g1; cbn [trace]; rewrite <- app_assoc; done|]. constructor.
    eapply Forall_impl; [exact Hf|]. intros e [?|(x & ? & _)]; [by left|right; by exists x]. }
  destruct fin as [|c|]; intros [= <- <-]; [|apply Hr..]. exists []. rewrite app_nil_r. split; [done|constructor].
Qed.

(** C23.  A script that was started is run to its end whatever becomes of its
    output, and its status is the one returned.  While it runs, the agent sends
    nothing but heartbeats, one per tick, and the script's output: what it
    posted to the relay is a prefix of what the script wrote, byte for byte
    however the pipe cut it, in pieces of at most 32 KiB; with a gateway and a
    relay that answers every post with 200 it is the whole of it; without a
    gateway nothing is posted. *)
Theorem output_streamed g path gw d steps fin :
  script_does (trace g) path (disk_of g) = (d, steps, fin) -> fin <> NotStarted ->
  exists g' sent rest, execScript g path gw = (g', match fin with Exited code => code | _ => 1 end) /\
    trace g' = trace g ++ EvScript (script_shell (disk_of g)) path (ReadFile (disk_of g) path) (buildScriptEnv (environ g)) :: sent /\
    Forall (fun e => e = beat \/ exists c, e = post gw c /\ (1 <= length c <= buffer_size)%nat) sent /\
    beats sent = ticks steps /\ mjoin (posted (outputURL gw) sent) ++ rest = written_by steps /\
    (gw = "" -> posted (outputURL gw) sent = []) /\ (gw <> "" -> link_up gw -> rest = []).
Proof.
  intros Hs Hfin. unfold execScript. rewrite Hs. set (g1 := mkGuest d _ _ _). set (dl := negb (bool_decide (gw = ""))).
  assert (Hgw : dl = true -> gw <> "") by (intros H; unfold dl in H; by bool_to_prop).
  destruct (run_steps_spec g1 gw dl steps Hgw) as (sent & rest & Ht & Hf & Hb & Hw & Hn & Hup).
  exists (run_steps g1 gw dl steps), sent, rest. split_and!; try done; [by destruct fin| | |].
  - rewrite Ht. unfold g1. cbn [trace]. by rewrite <- app_assoc.
  - intros ->. by apply Hn.
  - intros Hne Hl. apply Hup; [done|]. unfold dl. by rewrite bool_decide_eq_false_2.
Qed.


(** ** Writes of the baseline *)

Lemma WriteFile_adds d p b m d' l :
  at_path p l -> clear (nodes d) l -> WriteFile d p b m = (d', None) ->
  cwd d' = cwd d /\ adds (nodes d) (nodes d') l /\ exists k, nodes d' !! l = Some (File b k).
Proof.
  intros Hp Hc H. destruct (WriteFile_clear _ _ _ _ _ _ Hp Hc H) as (_ & _ & ->). split; [done|].
  split; [apply put_adds|]. eexists. apply lookup_insert_eq.
Qed.

(** A file and the directory it is in. *)
Definition file_path (p : string) (l : path) : Prop :=
  at_path p l /\ at_path (Dir_of p) (parent l).

Lemma with_parent d d1 d2 p b m l :
  file_path p l -> clear (nodes d) l -> MkdirAll d (Dir_of p) = (d1, None) -> WriteFile d1 p b m = (d2, None) ->
  cwd d2 = cwd d /\ adds (nodes d) (nodes d2) l /\ exists k, nodes d2 !! l = Some (File b k).
Proof.
  intros [Hp Hpd] Hc H1 H2. assert (Hcp : clear (nodes d) (parent l)) by (eapply clear_prefix; [exact Hc|apply parent_prefix]).
  destruct (MkdirAll_clear _ _ _ _ Hpd Hcp H1) as [Hw1 Hm].
  destruct (WriteFile_adds _ _ _ _ _ _ Hp (made_clear _ _ _ _ Hm Hc) H2) as (Hw2 & Ha & Hf). split; [congruence|]. split; [|done].
  eapply adds_trans; [by apply made_adds|exact Ha|apply parent_prefix|].
  intros c k E. destruct Hpd as (_ & _ & _ & Hne). destruct Hm as [Hm _]. specialize (Hm (parent l) ltac:(done)).
  rewrite at_ne in Hm by done. congruence.
Qed.

Lemma writeFileMkdir_adds d p b m d' l :
  file_path p l -> clear (nodes d) l -> writeFileMkdir d p b m = (d', None) -> adds (nodes d) (nodes d') l.
Proof. intros Hp Hc (d1 & H1 & H2)%try_None. by destruct (with_parent _ _ _ _ _ _ _ Hp Hc H1 H2) as (_ & ? & _). Qed.

(** Places that do not touch the roots. *)
Definition apart_from_roots (l : path) : Prop :=
  ~ certsPath `prefix_of` l /\ ~ l `prefix_of` certsPath /\ l ∉ comps <$> otherBundles.

Definition jksP : path := ["etc"; "warden"; "certs.jks"].
Definition bazelP : path := ["etc"; "bazel.bazelrc"].

Lemma jks_file : file_path jksPath jksP /\ apart_from_roots jksP.
Proof. split; [split; at_path_tac|split_and!; apart]. Qed.
Lemma bazel_file : file_path bazelSystemRC bazelP /\ apart_from_roots bazelP.
Proof. split; [split; at_path_tac|split_and!; apart]. Qed.

Lemma rooted_adds s s' l pem hash : adds s s' l -> apart_from_roots l -> rooted s pem hash -> rooted s' pem hash.
Proof. intros Ha (H1 & H2 & H3). by eapply adds_rooted. Qed.

(** The baseline keeps the roots, and makes no link. *)
Lemma applyBaseline_keeps d cert bundle d' env :
  clear (nodes d) jksP -> clear (nodes d) bazelP -> applyBaseline d cert bundle = (d', Ok env) ->
  (forall pem hash, rooted (nodes d) pem hash -> rooted (nodes d') pem hash) /\
  (forall l, clear (nodes d) l -> clear (nodes d') l).
Proof.
  intros Hj Hb H. unfold applyBaseline in H. destruct (writeJKS _ _ _) as [jks|]; [|done].
  destruct (wrap _ (writeFileMkdir d jksPath jks 420)) as [d1 [|] ] eqn:E1; [done|]. apply wrap_None in E1.
  destruct (wrap _ (writeFileMkdir d1 bazelSystemRC _ 420)) as [d2 [|] ] eqn:E2; [done|]. apply wrap_None in E2.
  injection H as <- <-. destruct jks_file as [Hjf Hja], bazel_file as [Hbf Hba].
  pose proof (writeFileMkdir_adds _ _ _ _ _ _ Hjf Hj E1) as A1.
  pose proof (writeFileMkdir_adds _ _ _ _ _ _ Hbf (adds_clear _ _ _ _ A1 Hb) E2) as A2. split.
  - intros pem hash Hr. eapply rooted_adds; [exact A2|done|]. by eapply rooted_adds.
  - intros l Hl. eapply adds_clear; [exact A2|]. by eapply adds_clear.
Qed.

(** The workdir of a build. *)
Definition workdir_ok (s : fs) (wd : string) : Prop :=
  wd = "" \/ exists l, at_path wd l /\ clear s l /\ ~ certsPath `prefix_of` l.

Lemma enter_keeps d wd d' :
  workdir_ok (nodes d) wd -> enter d wd = (d', None) ->
  (forall pem hash, rooted (nodes d) pem hash -> rooted (nodes d') pem hash) /\
  (forall l, clear (nodes d) l -> clear (nodes d') l).
Proof.
  unfold enter. intros Hok H. case_bool_decide as Hw; [injection H as <-; by split|].
  destruct Hok as [?|(l & Hp & Hc & Hn)]; [done|]. apply wrap_None, try_None in H as (d1 & H1 & H2).
  destruct (MkdirAll_clear _ _ _ _ Hp Hc H1) as [_ Hm].
  assert (Hsame : nodes d' = nodes d1).
  { unfold Chdir in H2. destruct (call _ _ _) as [x|]; [|done]. destruct (at_ (nodes d1) x) as [ [| |]|]; by injection H2 as <-. }
  rewrite Hsame. split; [intros pem hash; by eapply made_rooted|intros p; by eapply made_clear].
Qed.

(** A name's server is written wherever /etc/resolv.conf leads. *)
Lemma put_file_guest s l c k :
  l <> [] -> match s !! l with None => at_ s (parent l) = Some Dir | Some (File _ _) => True | _ => False end ->
  linux_guest s -> linux_guest (<[l := File c k]> s).
Proof.
  intros Hne Hl Hg. split.
  - assert (Hd : at_ s (parent l) = Some Dir).
    { destruct (s !! l) as [ [b m| |]|] eqn:E; try done. apply way_parent. by eapply wf_way, E; apply Hg. }
    apply wf_put; [apply Hg|done| |done]. intros E. by rewrite E in Hl.
  - apply clear_insert; [done|apply Hg].
  - apply clear_insert; [done|apply Hg].
  - apply clear_insert; [done|apply Hg].
  - eapply Forall_impl; [apply (g_bundles _ Hg)|]. intros b [H1 H2]. split; [by apply clear_insert|].
    destruct (decide (l = comps b)) as [<-|]; [by rewrite lookup_insert_eq|by rewrite lookup_insert_ne].
Qed.

Lemma configureNetwork_keeps d gw d' :
  configureNetwork d gw = (d', None) ->
  (linux_guest (nodes d) -> linux_guest (nodes d')) /\ (forall l, clear (nodes d) l -> clear (nodes d') l).
Proof.
  unfold configureNetwork. case_bool_decide as Hgw; [by intros [= <-]|]. intros H%wrap_None.
  apply WriteFile_any in H as (l & c & k & Hne & -> & Hl). cbn [nodes put with_nodes]. split.
  - by apply put_file_guest.
  - intros p. by apply clear_insert.
Qed.

(** ** What the relay served *)

(** A request of the trace was answered with this status and this whole body. *)
Definition served (t : list event) (u : string) (st : Z) (b : bytes) : Prop :=
  exists t0 t1 r, t = t0 ++ asked u :: t1 /\ answer t0 (get u) = Ok r /\ status r = st /\ body r = b /\ read_err r = None.

Lemma served_more t t' u st b : served t u st b -> served (t ++ t') u st b.
Proof. intros (t0 & t1 & r & -> & H). exists t0, (t1 ++ t'), r. by rewrite <- app_assoc. Qed.

Lemma relayGet_served g u g' b st : relayGet g u = (g', Ok (b, st)) ->
  served (trace g') u st b /\ disk_of g' = disk_of g /\ environ g' = environ g.
Proof.
  unfold relayGet, do_http. destruct (answer (trace g) (get u)) as [r|] eqn:Ea; [|done].
  destruct (read_err r) eqn:Er; [done|]. intros [= <- <- <-]. split; [|done]. by exists (trace g), [], r.
Qed.

Lemma fetchCA_Ok g g' pem cert : fetchCA g = (g', Ok (pem, cert)) ->
  served (trace g') "http://artifacts/ca.pem" 200 pem /\ disk_of g' = disk_of g /\ environ g' = environ g /\
  exists der, pem_decode pem = Some der /\ ParseCertificate der = Ok cert.
Proof.
  unfold fetchCA. destruct (relayGet g _) as [g1 [ [b st]|] ] eqn:E; [|done]. apply relayGet_served in E as (Hs & Hd & He).
  destruct (Z.eqb_spec st 200) as [->|]; cbn [negb]; [|done]. destruct (pem_decode b) as [der|] eqn:Ep; [|done].
  destruct (ParseCertificate der) eqn:Ec; [|done]. intros [= <- <- <-]. eauto 10.
Qed.

(** The policy the relay sent, the empty one when it has none. *)
Definition policy (t : list event) (cfg : Config) : Prop :=
  exists data, (served t "http://artifacts/bootstrap" 200 data /\ Parse data = Ok cfg) \/
               (served t "http://artifacts/bootstrap" 404 data /\ cfg = empty).

Lemma fetchBootstrap_Ok g g' cfg : fetchBootstrap g = (g', Ok cfg) ->
  policy (trace g') cfg /\ disk_of g' = disk_of g /\ environ g' = environ g.
Proof.
  unfold fetchBootstrap. destruct (relayGet g _) as [g1 [ [b st]|] ] eqn:E; [|done]. apply relayGet_served in E as (Hs & Hd & He).
  destruct (Z.eqb_spec st 200) as [->|]; [intros [= <- Hp]; split; [exists b; auto|done]|].
  destruct (Z.eqb_spec st 404) as [->|]; [|done]. intros [= <- <-]. split; [exists b; auto|done].
Qed.

Lemma policy_more t t' cfg : policy t cfg -> policy (t ++ t') cfg.
Proof. intros (data & [ [H ?]|[H ?] ]); exists data; [left|right]; (split; [by apply served_more|done]). Qed.

Lemma fetchBuildScript_Ok g dest g' : fetchBuildScript g dest = (g', None) ->
  exists data, served (trace g') "http://artifacts/build-script" 200 data /\ holds (disk_of g') dest data /\
    environ g' = environ g /\
    forall l, file_path dest l -> clear (nodes (disk_of g)) l -> adds (nodes (disk_of g)) (nodes (disk_of g')) l.
Proof.
  unfold fetchBuildScript, do_http. destruct (answer (trace g) _) as [r|] eqn:Ea; [|done].
  destruct (Z.eqb_spec (status r) 200) as [Hst|]; cbn [negb]; [|done]. cbn [disk_of].
  destruct (try _ _) as [d [|] ] eqn:Et; [done|]. intros [= <-]. cbn [trace disk_of environ set_disk].
  apply try_None in Et as (d1 & H1 & H2). unfold create_copy in H2. destruct (WriteFile d1 dest (body r) 438) as [d2 [|] ] eqn:Ew; [done|].
  injection H2 as <- Hr. exists (body r). split; [by exists (trace g), [], r|]. split; [by eapply WriteFile_holds|]. split; [done|].
  intros l Hl Hc. unfold make_parent in H1. destruct (_ || _).
  - injection H1 as <-. by apply (WriteFile_adds _ _ _ _ _ _ (proj1 Hl) Hc Ew).
  - by apply (with_parent _ _ _ _ _ _ _ Hl Hc H1 Ew).
Qed.

(** What is assumed of the guest's own paths for exclusive trust. *)
Definition agent_guest (s : fs) : Prop := linux_guest s /\ clear s jksP /\ clear s bazelP.
Definition script_ok (s : fs) (p : string) : Prop := exists l, file_path p l /\ clear s l /\ apart_from_roots l.

Context (Hremove : Forall (fun b => fault "remove" b = None) otherBundles).

Lemma setUp_roots g wd g' env pem cfg d0 :
  nodes (disk_of g) = d0 ->
  (exists g1 g2 cert d1 d2 d3, fetchCA g = (g1, Ok (pem, cert)) /\ fetchBootstrap g1 = (g2, Ok cfg) /\
    installCA (disk_of g2) pem cert (TrustMode cfg) = (d1, None) /\
    applyBaseline d1 cert (findCABundle d1) = (d2, Ok env) /\ enter d2 wd = (d3, None) /\ disk_of g' = d3) ->
  TrustMode cfg = TrustExclusive -> agent_guest d0 -> workdir_ok d0 wd ->
  exists hash, rooted (nodes (disk_of g')) pem hash /\
    forall l, clear d0 l -> ~ certsPath `prefix_of` l -> clear (nodes (disk_of g')) l.
Proof using Hremove.
  intros <- (g1 & g2 & cert & d1 & d2 & d3 & H1 & H2 & H3 & H4 & H5 & ->) Hm (Hg & Hj & Hb) Hw.
  apply fetchCA_Ok in H1 as (_ & Hd1 & _ & _). apply fetchBootstrap_Ok in H2 as (_ & Hd2 & _). rewrite Hm, Hd2, Hd1 in H3.
  destruct (installCA_exact Hremove _ _ _ _ Hg H3) as (hash & _ & _ & He). exists hash.
  assert (Hcl : forall l, clear (nodes (disk_of g)) l -> ~ certsPath `prefix_of` l -> clear (nodes d1) l)
    by (intros l Hl Hn; by eapply exclusive_clear).
  destruct (applyBaseline_keeps _ _ _ _ _ (Hcl _ Hj ltac:(apart)) (Hcl _ Hb ltac:(apart)) H4) as [Hr2 Hc2].
  assert (Hw2 : workdir_ok (nodes d2) wd).
  { destruct Hw as [?|(l & Hp & Hl & Hn)]; [by left|right]. exists l. split_and!; [done|by apply Hc2, Hcl|done]. }
  destruct (enter_keeps _ _ _ Hw2 H5) as [Hr3 Hc3]. split.
  - apply Hr3, Hr2. by eapply exclusive_rooted.
  - intros l Hl Hn. by apply Hc3, Hc2, Hcl.
Qed.

(** A trace of requests alone. *)
Definition http_only (t : list event) : Prop := Forall (fun ev => exists r, ev = EvHTTP r) t.

Lemma http_no_script t sh path content env : http_only t -> EvScript sh path content env ∉ t.
Proof. intros H Hin. unfold http_only in H. rewrite Forall_forall in H. by destruct (H _ Hin). Qed.

Lemma http_app a b : http_only a -> http_only b -> http_only (a ++ b).
Proof. intros. by apply Forall_app. Qed.

Lemma http_repeat u k : http_only (repeat (asked u) k).
Proof. apply Forall_forall. intros ev Hev. apply list_elem_of_In, repeat_spec in Hev as ->. by eexists. Qed.

Lemma http_prefix a b : a `prefix_of` b -> http_only b -> http_only a.
Proof. intros [k ->] H. by apply Forall_app in H as [? _]. Qed.

Lemma http_asks : http_only [ask_ca; ask_bootstrap; ask_script].
Proof. repeat (apply Forall_cons_2; [by eexists|]). by apply Forall_nil. Qed.

Lemma http_sent gw sent :
  Forall (fun e => e = beat \/ exists c, e = post gw c /\ (1 <= length c <= buffer_size)%nat) sent -> http_only sent.
Proof. intros H. eapply Forall_impl; [exact H|]. intros e [->|(c & -> & _)]; by eexists. Qed.

(** The script event of a run, once the script was fetched. *)
Lemma run_fetched_script g p gw g' e sh path content env :
  run_fetched g p gw = (g', e) -> http_only (trace g) -> EvScript sh path content env ∈ trace g' ->
  let gs := set_disk g (Chmod (disk_of g) p 493).1 in
  path = p /\ content = ReadFile (disk_of gs) p /\ env = buildScriptEnv (environ gs) /\
  exists t, trace g' = trace gs ++ EvScript sh path content env :: t.
Proof.
  intros H Hg Hin gs. unfold run_fetched in H. fold gs in H. destruct (execScript gs p gw) as [g4 code] eqn:E4. injection H as <- _.
  unfold reportComplete in *. rewrite do_http_trace in *.
  assert (Hin4 : EvScript sh path content env ∈ trace g4).
  { apply elem_of_app in Hin as [Hin|Hin]; [done|]. apply elem_of_cons in Hin as [Hin|Hin]; [done|by apply elem_of_nil in Hin]. }
  unfold execScript in E4. destruct (script_does _ _ _) as [ [d steps] fin]. set (gr := mkGuest d _ _ _) in E4.
  set (dl := negb (bool_decide (gw = ""))) in E4. assert (Hgw : dl = true -> gw <> "") by (intros Hb; unfold dl in Hb; by bool_to_prop).
  destruct (run_steps_spec gr gw dl steps Hgw) as (sent & rest & Htr & Hf%http_sent & _).
  destruct (decide (fin = NotStarted)) as [->|Hfin].
  { injection E4 as <- _. by apply (http_no_script _ sh path content env) in Hg. }
  assert (E : trace g4 = trace gs ++ EvScript (script_shell (disk_of gs)) p (ReadFile (disk_of gs) p) (buildScriptEnv (environ gs)) :: sent).
  { destruct fin; [done|injection E4 as <- _..]; rewrite Htr; unfold gr; cbn [trace]; by rewrite <- app_assoc. }
  rewrite E in Hin4 |- *. apply elem_of_app in Hin4 as [Hx|[Hx|Hx]%elem_of_cons].
  - by apply (http_no_script _ sh path content env) in Hg.
  - injection Hx as -> -> -> ->. split_and!; try done. eexists. by rewrite <- app_assoc.
  - by apply (http_no_script _ sh path content env) in Hf.
Qed.

(** The run up to a started script. *)
Lemma script_started g args g' e sh path content env :
  runInitialize g args = (g', e) -> http_only (trace g) -> EvScript sh path content env ∈ trace g' ->
  let a := with_defaults (environ g) (parseInitArgs args) in
  exists d0 g1 g2 g3 benv t,
    configureNetwork (disk_of g) (gateway a) = (d0, None) /\ disk_of g1 = d0 /\ setUp g1 (workdir a) = (g2, Ok benv) /\
    fetchBuildScript g2 path = (g3, None) /\
    let gs := set_disk g3 (Chmod (disk_of g3) path 493).1 in
    trace g' = trace gs ++ EvScript sh path content env :: t /\
    content = ReadFile (disk_of gs) path /\ env = buildScriptEnv (environ gs).
Proof.
  intros H Hg Hin a. unfold runInitialize in H. fold a in H.
  assert (Hno : http_only (trace g') -> False) by (intros Hh; by apply (http_no_script _ sh path content env) in Hh).
  destruct (configureNetwork _ _) as [d0 [|] ] eqn:E0; [injection H as <- _; exfalso; by apply Hno|].
  destruct (waitForRelay _ _) as [g1 r1] eqn:E1. unfold waitForRelay in E1. apply wait_loop_trace in E1 as (k & _ & Ht1 & Hd1 & _).
  cbn [trace set_disk disk_of] in Ht1, Hd1.
  assert (Hh1 : http_only (trace g1)) by (rewrite Ht1; apply http_app; [done|apply http_repeat]).
  destruct r1 as [|]; [injection H as <- _; exfalso; by apply Hno|].
  destruct (setUp g1 (workdir a)) as [g2 r2] eqn:E2. pose proof (setUp_trace _ _ _ _ E2) as (asks & Ht2 & Hp & _).
  assert (Hh2 : http_only (trace g2)).
  { rewrite Ht2. apply http_app; [done|]. eapply http_prefix, http_asks. trans [ask_ca; ask_bootstrap]; [done|by exists [ask_script] ]. }
  destruct r2 as [benv|]; [|injection H as <- _; exfalso; by apply Hno].
  destruct (hold a).
  { exfalso. unfold holdForShell in H. destruct (writeFileMkdir _ _ _ _) as [d3 [|] ]; injection H as <- _; by apply Hno. }
  destruct (fetchBuildScript g2 _) as [g3 r3] eqn:E3. pose proof (fetchBuildScript_trace _ _ _ _ E3) as Ht3.
  assert (Hh3 : http_only (trace g3)).
  { rewrite Ht3. apply http_app; [done|]. apply Forall_cons_2; [by eexists|by apply Forall_nil]. }
  destruct r3 as [|]; [injection H as <- _; exfalso; by apply Hno|].
  destruct (run_fetched_script _ _ _ _ _ _ _ _ _ H Hh3 Hin) as (-> & Hc & He & t & Ht).
  by exists d0, g1, g2, g3, benv, t.
Qed.

End Spec.
End AgentSpec.
