(* ===== verification/CopySpec.v ===== *)
(** * A COPY, from the Containerfile to the guest's disk

    The script the translator writes, run by the agent: the commands a COPY
    becomes are run one after the other under [set -e], and each file of the
    build context lands where the Containerfile says, with its bytes. *)
From S2P Require Import Prelude Text Crypto Paths Translate Session GuestFs Trust TrustSpec Baseline Agent AgentSpec.

#[local] Open Scope string_scope.
#[local] Open Scope Z_scope.
#[local] Open Scope list_scope.

Module CopySpec.
Import GuestFs GuestFsSpec Trust Baseline Agent AgentSpec.

(** The directories on the way to [c], and [c], are directories. *)
Definition dirs (s : fs) (c : path) : Prop := forall q x, q ++ [x] `prefix_of` c -> s !! (q ++ [x]) = Some Dir.

(** A path from the directory [c] leads to the names [l]: an absolute one, or a
    relative one after some "./". *)
Definition goes (c : path) (p : string) (l : path) : Prop :=
  (absolute p = true /\ comps p = l /\ Forall sname l) \/
  exists k r, absolute p = false /\ p <> "" /\ comps p = repeat "." k ++ r /\ Forall sname r /\ Forall sname c /\ l = c ++ r.

(** Places where directories can be made. *)
Definition free (s : fs) (l : path) : Prop :=
  forall q x, q ++ [x] `prefix_of` l -> s !! (q ++ [x]) = None \/ s !! (q ++ [x]) = Some Dir.

Lemma walk_dots s follow links k : forall cur todo, walk s follow links cur (repeat "." k ++ todo) = walk s follow links cur todo.
Proof. induction k as [|k IH]; intros cur todo; [done|]. cbn [repeat app]. rewrite <- (IH cur todo). by destruct links. Qed.

Lemma goes_walk s follow links c p l : goes c p l -> dirs s c ->
  walk s follow links (if absolute p then [] else c) (comps p) = walk s follow links [] l.
Proof.
  intros [(Ha & <- & _)|(k & r & Ha & _ & -> & Hr & Hc & ->)] Hd; rewrite Ha; [done|].
  rewrite walk_dots. symmetry. apply (walk_through s follow links c r []); done.
Qed.

Lemma goes_locate d follow p l : goes (cwd d) p l -> dirs (nodes d) (cwd d) ->
  locate d follow p = walk (nodes d) follow max_links [] l.
Proof.
  intros Hg Hd. unfold locate, from. rewrite (goes_walk _ _ _ _ _ _ Hg Hd).
  destruct p as [|x p]; [|done]. destruct Hg as [(H & _)|(k & r & _ & H & _)]; done.
Qed.

Lemma goes_sname c p l : goes c p l -> Forall sname l.
Proof. intros [(_ & _ & ?)|(k & r & _ & _ & _ & ? & ? & ->)]; [done|by apply Forall_app]. Qed.

Section Copy.
Context {HO : HashOps} {XO : X509Ops} {CT : CaTool} {FS : OS} {OU : Outside} {CC : ConfigCodec} {MO : Translate.MapOrder}.
Context (NF : forall op p, fault op p = None).

(** ** Calls that succeed *)

Lemma call_none {A} op p (r : result A) : call op p r = r.
Proof using NF. unfold call. by rewrite NF. Qed.

Lemma dirs_walk s follow l todo : Forall sname l -> dirs s l -> walk s follow max_links [] (l ++ todo) = walk s follow max_links l todo.
Proof. intros Hs Hd. by apply (walk_through s follow max_links l todo []). Qed.

Lemma dirs_way s l c : dirs s l -> way s (l ++ [c]).
Proof. intros Hd q x Hq Hne. apply prefix_snoc_inv in Hq as [?|?]; [done|by apply Hd]. Qed.

Lemma dirs_at s l : dirs s l -> at_ s l = Some Dir.
Proof. intros Hd. destruct l as [|x l _] using rev_ind; [done|]. rewrite at_ne by by destruct l. by apply Hd. Qed.

(** The walk to a place all whose parents are directories. *)
Lemma walk_place s follow l c : Forall sname (l ++ [c]) -> dirs s l -> (follow = true -> forall t, s !! (l ++ [c]) <> Some (Link t)) ->
  walk s follow max_links [] (l ++ [c]) = Ok (l ++ [c]).
Proof. intros Hs Hd Hl. apply (walk_dirs _ _ _ _ []); [done| |done]. intros q x Hq Hne. by apply (dirs_way s l c). Qed.

Lemma WriteFile_place d p b m l c :
  goes (cwd d) p (l ++ [c]) -> dirs (nodes d) (cwd d) -> dirs (nodes d) l -> file_or_none (nodes d !! (l ++ [c])) ->
  exists k, WriteFile d p b m = (put d (l ++ [c]) (File b k), None).
Proof using NF.
  intros Hg Hc Hd Hn. unfold WriteFile, open_trunc. rewrite call_none, (goes_locate _ _ _ _ Hg Hc).
  rewrite walk_place; [|by eapply goes_sname|done|by intros _ t E; rewrite E in Hn].
  rewrite at_ne by by destruct l. unfold append_at.
  destruct (nodes d !! (l ++ [c])) as [ [x k| |]|]; try done.
  - exists k. cbn [nodes put with_nodes]. rewrite lookup_insert_eq, NF. unfold put, with_nodes. cbn [nodes cwd app]. by rewrite insert_insert_eq.
  - rewrite parent_snoc, dirs_at by done. cbn [is_dir nodes put with_nodes]. exists m. rewrite lookup_insert_eq, NF.
    unfold put, with_nodes. cbn [nodes cwd app]. by rewrite insert_insert_eq.
Qed.

Lemma rev_dots k (r : path) : rev (r ++ repeat "." k) = repeat "." k ++ rev r.
Proof. by rewrite rev_app_distr, rev_repeat. Qed.

Lemma free_dirs s l n : free s l -> at_ s l = Some n -> n = Dir.
Proof.
  intros Hf Hn. destruct l as [|x l _] using rev_ind; [by injection Hn as <-|]. rewrite at_ne in Hn by by destruct l.
  destruct (Hf l x ltac:(done)) as [E|E]; congruence.
Qed.

Lemma free_clear s l : free s l -> l <> [] -> forall q t, q `prefix_of` l -> q <> [] -> s !! q <> Some (Link t).
Proof.
  intros Hf Hne q t Hq Hqne. destruct q as [|x q _] using rev_ind; [done|]. destruct (Hf q x Hq) as [->| ->]; done.
Qed.

(** What making the directories of a free place does. *)
Definition dirs_made (s s' : fs) (l : path) : Prop :=
  dirs s' l /\ forall q, s' !! q = s !! q \/ (q `prefix_of` l /\ s !! q = None /\ s' !! q = Some Dir).

Lemma dirs_made_refl s l : dirs s l -> dirs_made s s l.
Proof. intros H. split; [done|by left]. Qed.

Lemma prefix_app_cases (q a b : path) : q `prefix_of` a ++ b -> q `prefix_of` a \/ exists b', q = a ++ b' /\ b' `prefix_of` b.
Proof.
  intros Hq. destruct (prefix_weak_total q a (a ++ b) Hq (prefix_app_r a a b (reflexivity _))) as [?|[b' ->]]; [by left|right].
  exists b'. split; [done|]. by apply prefix_app_inv in Hq.
Qed.

Lemma free_walk s base l : free s (base ++ l) ->
  forall q t, q `prefix_of` l -> q <> [] -> true = true \/ q <> l -> s !! (base ++ q) <> Some (Link t).
Proof.
  intros Hf q t Hq Hne _. destruct q as [|x q _] using rev_ind; [done|]. rewrite app_assoc.
  destruct (Hf (base ++ q) x) as [->| ->]; [rewrite <- app_assoc; by apply prefix_app|done..].
Qed.

Lemma look_dir s base k r : Forall sname base -> dirs s base -> Forall sname r -> free s (base ++ r) ->
  match walk s true max_links base (repeat "." k ++ r) with Ok l => at_ s l | Err _ => None end = Some Dir -> dirs s (base ++ r).
Proof.
  intros Hb Hd Hr Hf. rewrite walk_dots. destruct (walk s true max_links base r) as [l|] eqn:Ew; [|done]. intros Hn.
  destruct (walk_clear s true max_links r base l Hr) as [-> Hw]; [|done|].
  { by apply free_walk. }
  intros q x Hq. destruct (prefix_app_cases _ _ _ Hq) as [Hqb|(b' & E & Hb')]; [by apply Hd|].
  rewrite E. destruct (decide (b' = r)) as [->|Hne].
  - rewrite <- Hn. symmetry. apply at_ne. rewrite <- E. by destruct q.
  - destruct b' as [|y b' _] using rev_ind; [|by apply Hw].
    rewrite app_nil_r in *. rewrite <- E. apply Hd. by rewrite E.
Qed.

(** Making the directories of [r] below [base]. *)
Lemma mkdir_all_free base k r : forall d,
  Forall sname base -> dirs (nodes d) base -> Forall sname (rev r) -> free (nodes d) (base ++ rev r) ->
  exists d', mkdir_all d base (r ++ repeat "." k) = (d', None) /\ cwd d' = cwd d /\ dirs_made (nodes d) (nodes d') (base ++ rev r).
Proof using NF.
  induction r as [|c up IH]; intros d Hb Hd Hr Hf.
  - exists d. rewrite app_nil_r. cbn [app]. split; [|split; [done|by apply dirs_made_refl] ]. destruct k as [|k].
    + cbn. by rewrite dirs_at.
    + cbn [repeat mkdir_all]. change (rev ("." :: repeat "." k)) with (rev (repeat "." (S k))). rewrite rev_repeat.
      pose proof (walk_dots (nodes d) true max_links (S k) base []) as Hwd. rewrite app_nil_r in Hwd. rewrite Hwd, walk_nil.
      by rewrite dirs_at.
  - cbn [app mkdir_all]. change (rev (c :: up ++ repeat "." k)) with (rev ((c :: up) ++ repeat "." k)).
    rewrite rev_dots. set (l := rev (c :: up)) in *. assert (El : l = rev up ++ [c]) by done.
    destruct (match walk (nodes d) true max_links base (repeat "." k ++ l) with Ok l => at_ (nodes d) l | Err _ => None end) as [n|] eqn:En.
    + assert (n = Dir) as ->.
      { rewrite walk_dots in En. destruct (walk (nodes d) true max_links base l) as [l'|] eqn:Ew; [|done].
        destruct (walk_clear (nodes d) true max_links l base l' Hr) as [-> _]; [by apply free_walk|done|]. by eapply free_dirs. }
      exists d. split; [done|]. split; [done|]. apply dirs_made_refl. by apply (look_dir _ _ k).
    + assert (Hfu : free (nodes d) (base ++ rev up)) by (intros q x Hq; apply Hf; rewrite El, app_assoc; by apply prefix_app_r).
      assert (Hru : Forall sname (rev up)) by (rewrite El in Hr; by apply Forall_app in Hr as [? _]).
      destruct (IH d Hb Hd Hru Hfu) as (d1 & E1 & Hw1 & Hd1 & Hs1). rewrite E1.
      assert (Hlast : Forall sname ((base ++ rev up) ++ [c])) by (rewrite <- app_assoc, <- El; by apply Forall_app).
      assert (Hn1 : nodes d1 !! ((base ++ rev up) ++ [c]) = None \/ nodes d1 !! ((base ++ rev up) ++ [c]) = Some Dir).
      { destruct (Hs1 ((base ++ rev up) ++ [c])) as [->|(_ & _ & ->)]; [|by right]. apply Hf. by rewrite El, app_assoc. }
      assert (Hw : walk (nodes d1) false max_links base (repeat "." k ++ l) = Ok ((base ++ rev up) ++ [c])).
      { rewrite walk_dots, El. pose proof (walk_through (nodes d1) false max_links base (rev up ++ [c]) [] Hb) as Hwt.
        cbn [app] in Hwt. rewrite <- Hwt.
        - rewrite app_assoc. apply walk_place; [done|exact Hd1|done].
        - intros q x Hq. apply Hd1. by apply prefix_app_r. }
      rewrite Hw. unfold mkdir_at. rewrite NF, at_ne by by destruct (base ++ rev up).
      assert (Hfin : forall d2, nodes d2 !! ((base ++ rev up) ++ [c]) = Some Dir ->
        (forall q, q <> (base ++ rev up) ++ [c] -> nodes d2 !! q = nodes d1 !! q) -> dirs_made (nodes d) (nodes d2) (base ++ l)).
      { intros d2 H1 H2. rewrite El, app_assoc. split.
        - intros q x Hq. destruct (decide (q ++ [x] = (base ++ rev up) ++ [c])) as [->|Hne]; [done|]. rewrite H2 by done.
          apply Hd1. apply prefix_snoc_inv in Hq as [?|?]; done.
        - intros q. destruct (decide (q = (base ++ rev up) ++ [c])) as [->|Hne].
          + rewrite H1. destruct (Hf (base ++ rev up) c ltac:(by rewrite El, app_assoc)) as [E|E]; rewrite E; [right; done|by left].
          + rewrite H2 by done. destruct (Hs1 q) as [->|(Hq & ? & ?)]; [by left|right]. split; [by apply prefix_app_r|done]. }
      destruct Hn1 as [Hn1|Hn1]; rewrite Hn1.
      * rewrite parent_snoc, dirs_at by done. cbn [is_dir]. eexists. split; [done|]. split; [done|]. apply Hfin.
        -- apply lookup_insert_eq.
        -- intros q Hq. by apply lookup_insert_ne.
      * rewrite Hw, at_ne, Hn1 by by destruct (base ++ rev up). cbn [is_dir]. exists d1. split; [done|]. split; [done|]. by apply Hfin.
Qed.

Lemma dirs_app (s : fs) c r : dirs s (c ++ r) -> dirs s c.
Proof. intros H q x Hq. apply H. by apply prefix_app_r. Qed.

Lemma MkdirAll_free d p l :
  goes (cwd d) p l -> dirs (nodes d) (cwd d) -> free (nodes d) l ->
  exists d', MkdirAll d p = (d', None) /\ cwd d' = cwd d /\ dirs_made (nodes d) (nodes d') l.
Proof using NF.
  intros Hg Hc Hf. unfold MkdirAll, from. destruct Hg as [(Ha & <- & Hs)|(k & r & Ha & _ & -> & Hr & Hs & ->)]; rewrite Ha.
  - destruct (mkdir_all_free [] 0 (rev (comps p)) d) as (d' & E & Hw & Hm); rewrite ?rev_involutive; try done.
    { intros q x Hq. by apply prefix_nil_inv in Hq; destruct q. }
    cbn [repeat] in E. rewrite app_nil_r in E. rewrite rev_involutive in Hm. eauto.
  - rewrite rev_app_distr, rev_repeat.
    destruct (mkdir_all_free (cwd d) k (rev r) d) as (d' & E & Hw & Hm); rewrite ?rev_involutive; try done.
    rewrite rev_involutive in Hm. eauto.
Qed.

(** ** Fetching a file *)

(** A destination: where its path and its directory lead from [c]. *)
Definition placed (c : path) (out : string) (l : path) : Prop :=
  goes c out l /\ l <> [] /\ goes c (Dir_of out) (parent l) /\ Dir_of out <> "".

(** A place a file can be put. *)
Definition open_place (s : fs) (l : path) : Prop := free s (parent l) /\ file_or_none (s !! l).

(** What putting a file there changes. *)
Definition landed (s s' : fs) (l : path) (b : bytes) : Prop :=
  (exists k, s' !! l = Some (File b k)) /\
  forall q, q <> l -> s' !! q = s !! q \/ (q `prefix_of` parent l /\ s !! q = None /\ s' !! q = Some Dir).

Lemma made_dirs s s' l c : dirs_made s s' l -> dirs s c -> dirs s' c.
Proof. intros [_ H] Hd q x Hq. specialize (Hd q x Hq). destruct (H (q ++ [x])) as [->|(_ & _ & ->)]; done. Qed.

Lemma fetchFile_lands g src out l b :
  answer (trace g) (get ("http://cwd/" ++ src)) = Ok (mkResponse 200 b None) ->
  placed (cwd (disk_of g)) out l -> dirs (nodes (disk_of g)) (cwd (disk_of g)) -> open_place (nodes (disk_of g)) l ->
  exists g', fetchFile g src out = (g', None) /\ cwd (disk_of g') = cwd (disk_of g) /\
    landed (nodes (disk_of g)) (nodes (disk_of g')) l b.
Proof using NF.
  intros Ha (Hg & Hne & Hgd & Hde) Hc [Hf Hn]. set (d := disk_of g) in *.
  assert (Hp : exists d1, make_parent d out = (d1, None) /\ cwd d1 = cwd d /\ dirs_made (nodes d) (nodes d1) (parent l)).
  { unfold make_parent. destruct (decide (Dir_of out = ".")) as [E|E].
    - rewrite E in *. cbn. exists d. split; [done|]. split; [done|]. apply dirs_made_refl.
      destruct Hgd as [(H & _)|(k & r & _ & _ & E2 & Hr & _ & ->)]; [done|].
      destruct r as [|x r]; [by rewrite app_nil_r|]. exfalso. change (comps ".") with ["."] in E2.
      destruct k as [|[|k] ]; cbn in E2; [|done..]. injection E2 as <- _. apply Forall_cons in Hr as [ [? _] _]. done.
    - rewrite bool_decide_eq_false_2 by done. rewrite bool_decide_eq_false_2 by done. by apply MkdirAll_free. }
  destruct Hp as (d1 & E1 & Hw1 & Hm1). unfold fetchFile. fold d. rewrite E1. unfold do_http. cbn [set_disk trace]. rewrite Ha.
  cbn [status disk_of negb]. unfold create_copy. cbn [Z.eqb Pos.eqb negb body read_err].
  destruct l as [|c l _] using rev_ind; [done|]. rewrite parent_snoc in *.
  assert (Hn1 : nodes d1 !! (l ++ [c]) = nodes d !! (l ++ [c])).
  { destruct Hm1 as [_ Hm]. destruct (Hm (l ++ [c])) as [?|(Hq & _)]; [done|]. apply prefix_length in Hq. rewrite length_app in Hq. cbn in Hq. lia. }
  destruct (WriteFile_place d1 out b 438 l c) as [k Ew].
  { by rewrite Hw1. } { rewrite Hw1. by eapply made_dirs. } { apply Hm1. } { by rewrite Hn1. }
  change (disk_of (set_disk g d1)) with d1. rewrite Ew. eexists. split; [done|]. cbn [disk_of set_disk cwd nodes put with_nodes].
  split; [done|]. split; [exists k; apply lookup_insert_eq|]. intros q Hq. rewrite lookup_insert_ne by done. rewrite parent_snoc. by apply Hm1.
Qed.

(** ** Running the commands *)

(** The directories of [ds] are made and the files of [fs] put, some of them. *)
Section Growing.
Variables (s0 : fs) (ds : list path) (fs : list (path * bytes)).

Definition grown (s : GuestFs.fs) : Prop := forall q,
  s !! q = s0 !! q \/
  (exists l, l ∈ ds /\ q `prefix_of` l /\ s0 !! q = None /\ s !! q = Some Dir) \/
  (exists b k, (q, b) ∈ fs /\ s !! q = Some (File b k)).

Definition put_in (s : GuestFs.fs) (lb : path * bytes) : Prop := exists k, s !! lb.1 = Some (File lb.2 k).

(** The directories can be made, no file is put where a directory goes, and no
    two different ones in one place. *)
Definition apart : Prop :=
  (forall l, l ∈ ds -> free s0 l) /\
  (forall l b, (l, b) ∈ fs -> file_or_none (s0 !! l) /\ parent l ∈ ds /\ forall m, m ∈ ds -> ~ l `prefix_of` m) /\
  (forall l b b', (l, b) ∈ fs -> (l, b') ∈ fs -> b = b').

Lemma grown_refl : grown s0.
Proof. by left. Qed.

Context (A : apart).

Lemma grown_free s l : grown s -> l ∈ ds -> free s l.
Proof using A.
  destruct A as (Ha & Hb & _). intros Hg Hl q x Hq. destruct (Hg (q ++ [x])) as [->|[(? & _ & _ & _ & ->)|(b & k & Hf & _)] ].
  - by apply (Ha l Hl).
  - by right.
  - exfalso. by destruct (Hb _ _ Hf) as (_ & _ & H); apply (H l).
Qed.

Lemma grown_open s l b : grown s -> (l, b) ∈ fs -> open_place s l.
Proof using A.
  intros Hg Hl. pose proof A as (_ & Hb & _). destruct (Hb _ _ Hl) as (Hn & Hp & Ho). split; [by apply grown_free|].
  destruct (Hg l) as [->|[(m & Hm & Hq & _)|(b' & k & _ & ->)] ]; [done|by destruct (Ho m)|done].
Qed.

Lemma grown_landed s s' l b : grown s -> (l, b) ∈ fs -> landed s s' l b ->
  grown s' /\ put_in s' (l, b) /\ forall lb, lb ∈ fs -> put_in s lb -> put_in s' lb.
Proof using A.
  intros Hg Hl [ [k Hk] Ho]. pose proof A as (_ & Hb & Hu). split; [|split; [by exists k|] ].
  - intros q. destruct (decide (q = l)) as [->|Hne]; [right; right; by exists b, k|].
    destruct (Ho q Hne) as [E|(Hq & E & E')]; [rewrite E; apply Hg|].
    destruct (Hg q) as [F|[(m & _ & _ & _ & F)|(b' & k' & _ & F)] ]; [|congruence..].
    right; left. exists (parent l). split; [by apply (Hb l b)|]. split; [done|]. by rewrite <- F.
  - intros [m c] Hm [k' Hk']. cbn in *. destruct (decide (m = l)) as [->|Hne].
    + rewrite (Hu l c b) by done. by exists k.
    + destruct (Ho m Hne) as [E|(_ & E & _)]; [|by rewrite Hk' in E]. exists k'. cbn. by rewrite E.
Qed.

Lemma grown_made s s' l : grown s -> l ∈ ds -> dirs_made s s' l ->
  grown s' /\ forall lb, put_in s lb -> put_in s' lb.
Proof using A.
  intros Hg Hl [_ Ho]. split.
  - intros q. destruct (Ho q) as [E|(Hq & E & E')]; [rewrite E; apply Hg|].
    destruct (Hg q) as [F|[(m & _ & _ & _ & F)|(b' & k' & _ & F)] ]; [|congruence..].
    right; left. exists l. split; [done|]. split; [done|]. by rewrite <- F.
  - intros lb [k Hk]. exists k. destruct (Ho lb.1) as [E|(_ & E & _)]; congruence.
Qed.

Lemma grown_dirs s c : grown s -> dirs s0 c -> Forall (fun lb => ~ lb.1 `prefix_of` c) fs -> dirs s c.
Proof.
  intros Hg Hd Hf q x Hq. specialize (Hd q x Hq). destruct (Hg (q ++ [x])) as [->|[(_ & _ & _ & _ & ->)|(b & k & Hin & _)] ]; [done..|].
  rewrite Forall_forall in Hf. by destruct (Hf _ Hin).
Qed.
End Growing.

(** What the shell runs a command for, when it is [mkdir -p] or the agent, and
    whether it succeeded. *)
Definition run_one (g : guest) (c : list string) : option (guest * bool) :=
  match c with
  | w :: sub :: args =>
      if decide (w = "warden-io") then let '(g, e) := main g (sub :: args) in Some (g, bool_decide (e = Exit 0))
      else match args with
           | [p] =>
               if decide (w = "mkdir" /\ sub = "-p") then
                 let '(d, e) := MkdirAll (disk_of g) p in Some (set_disk g d, match e with None => true | _ => false end)
               else None
           | _ => None
           end
  | _ => None
  end.

(** Under [set -e]. *)
Fixpoint run_e (g : guest) (cs : list (list string)) : option (guest * bool) :=
  match cs with
  | [] => Some (g, true)
  | c :: cs => match run_one g c with Some (g, true) => run_e g cs | r => r end
  end.

(** The places of the commands of a COPY: the directory of a [mkdir -p], and
    what a fetch fetches with where it puts it. *)
Inductive task := Make (p : string) (l : path) | Fetch (f out : string) (l : path).

Definition command (t : task) : list string :=
  match t with Make p _ => ["mkdir"; "-p"; p] | Fetch f out _ => ["warden-io"; "fetch"; f; "-o"; out] end.

Definition made_by (t : task) : path := match t with Make _ l => l | Fetch _ _ l => parent l end.

(** A name the agent takes for one file, and a destination it takes for one. *)
Definition file_name (f : string) : Prop := f <> "-o" /\ f <> "." /\ HasSuffix f "/" = false.
Definition file_dest (out : string) : Prop := out <> "" /\ HasSuffix out "/" = false.

Definition task_ok (c : path) (t : task) : Prop :=
  match t with
  | Make p l => goes c p l
  | Fetch f out l => placed c out l /\ file_name f /\ file_dest out
  end.

Lemma runFetch_one g f out : file_name f -> file_dest out ->
  forall g', fetchFile g f out = (g', None) -> runFetch g [f; "-o"; out] = (g', 0).
Proof.
  intros (H1 & H2 & H3) [H4 H5] g' H. unfold runFetch.
  assert (fetch_args [f; "-o"; out] = Some (Some out, [f])) as ->.
  { cbn [fetch_args]. rewrite (bool_decide_eq_false_2 (f = "-o")), (bool_decide_eq_true_2 ("-o" = "-o")) by done. done. }
  change (default "" (Some out)) with out. change (1 <? len [f]) with false. cbn [fetch_all]. unfold fetch_one. rewrite H3, (bool_decide_eq_false_2 (f = ".")) by done. cbn [orb].
  rewrite (bool_decide_eq_false_2 (out = "")) by done. by rewrite H5, H.
Qed.

(** Tasks one after the other: all are done, and nothing else is. *)
Lemma run_tasks content s0 ds fs c ts : forall g,
  apart s0 ds fs -> Forall (fun lb => ~ lb.1 `prefix_of` c) fs -> dirs s0 c -> cwd (disk_of g) = c -> grown s0 ds fs (nodes (disk_of g)) ->
  Forall (fun t : task => task_ok c t /\ made_by t ∈ ds /\
    match t with Fetch f out l => (l, content f) ∈ fs /\
      forall tr, answer tr (get ("http://cwd/" ++ f)) = Ok (mkResponse 200 (content f) None) | Make _ _ => True end) ts ->
  exists g', run_e g (command <$> ts) = Some (g', true) /\ grown s0 ds fs (nodes (disk_of g')) /\
    (forall lb, lb ∈ fs -> put_in (nodes (disk_of g)) lb -> put_in (nodes (disk_of g')) lb) /\
    Forall (fun t : task => match t with Fetch f _ l => put_in (nodes (disk_of g')) (l, content f) | _ => True end) ts.
Proof using NF.
  induction ts as [|t ts IH]; intros g A Hfc Hc0 Hc Hg Hts; [by exists g|].
  apply Forall_cons in Hts as [(Ht & Hin & Hf) Hts]. pose proof (grown_dirs _ _ _ _ c Hg Hc0 Hfc) as Hd.
  rewrite fmap_cons. destruct t as [p l|f out l]; cbn [command run_e run_one made_by task_ok] in *.
  - rewrite decide_False, decide_True by done.
    destruct (MkdirAll_free (disk_of g) p l) as (d' & E & Hw & Hm); [by rewrite Hc|by rewrite Hc|by eapply grown_free|].
    rewrite E. destruct (grown_made _ _ _ A _ _ _ Hg Hin Hm) as [Hg' Hk].
    destruct (IH (set_disk g d') A Hfc Hc0 ltac:(cbn; congruence) Hg' Hts) as (g' & E' & Hgr & Hkeep & Hall).
    exists g'. split; [done|]. split; [done|]. split; [|by constructor]. intros lb Hlb Hp. apply Hkeep; [done|]. by apply Hk.
  - destruct Ht as (Hp & Hfn & Hfd). destruct Hf as [Hlf Ha]. rewrite decide_True by done.
    destruct (fetchFile_lands g f out l (content f) (Ha _)) as (g1 & E & Hw & Hl);
      [by rewrite Hc|by rewrite Hc|by eapply grown_open|].
    change (main g ("fetch" :: ?args)) with (exits (runFetch g args)).
    rewrite (runFetch_one g f out Hfn Hfd _ E). cbn [exits fst snd]. rewrite bool_decide_eq_true_2 by done.
    destruct (grown_landed _ _ _ A _ _ _ _ Hg Hlf Hl) as (Hg' & Hput & Hk).
    destruct (IH g1 A Hfc Hc0 ltac:(congruence) Hg' Hts) as (g' & E' & Hgr & Hkeep & Hall).
    exists g'. split; [done|]. split; [done|]. split; [|constructor; [by apply Hkeep|done] ].
    intros lb Hlb Hpl. apply Hkeep; [done|]. by apply Hk.
Qed.

(** ** A COPY *)

(** The place a path without ".." names. *)
Definition spot (c : path) (p : string) : path := (if absolute p then [] else c) ++ filter (fun n => n <> ".") (comps p).

(** The task of a command. *)
Definition task_of (c : path) (cmd : list string) : option task :=
  match cmd with
  | [w; sub; p] => if decide (w = "mkdir" /\ sub = "-p") then Some (Make p (spot c p)) else None
  | [w; sub; f; flag; out] =>
      if decide (w = "warden-io" /\ sub = "fetch" /\ flag = "-o") then Some (Fetch f out (spot c out)) else None
  | _ => None
  end.
Definition tasks (c : path) (cs : list (list string)) : list task := omap (task_of c) cs.

Definition put_by (content : string -> bytes) (t : task) : option (path * bytes) :=
  match t with Fetch f _ l => Some (l, content f) | Make _ _ => None end.

(** The guest can take what the tasks put: its working directory is there, the
    places are apart and sound, and the relay serves the files. *)
Definition ready (g : guest) (content : string -> bytes) (ts : list task) : Prop :=
  let c := cwd (disk_of g) in
  dirs (nodes (disk_of g)) c /\
  Forall (task_ok c) ts /\
  apart (nodes (disk_of g)) (made_by <$> ts) (omap (put_by content) ts) /\
  Forall (fun lb => ~ lb.1 `prefix_of` c) (omap (put_by content) ts) /\
  Forall (fun t => match t with
                   | Fetch f _ _ => forall tr, answer tr (get ("http://cwd/" ++ f)) = Ok (mkResponse 200 (content f) None)
                   | Make _ _ => True
                   end) ts.

Lemma task_of_command c cmd t : task_of c cmd = Some t -> command t = cmd.
Proof.
  unfold task_of. intros H. destruct cmd as [|w [|sub [|p [|flag [|out [|? ?] ] ] ] ] ]; try done; case_decide as Hd; try done; injection H as <-.
  - by destruct Hd as [-> ->].
  - by destruct Hd as (-> & -> & ->).
Qed.

Lemma command_tasks c cs : Forall (fun cmd => is_Some (task_of c cmd)) cs -> command <$> tasks c cs = cs.
Proof.
  induction 1 as [|cmd cs [t Ht] _ IH]; [done|]. unfold tasks. cbn [omap list_omap]. rewrite Ht, fmap_cons, (task_of_command _ _ _ Ht).
  by f_equal.
Qed.

Lemma fetch_commands_tasks c files dest : Forall (fun cmd => is_Some (task_of c cmd)) (Shell.fetch_commands files dest).
Proof.
  unfold Shell.fetch_commands. destruct (HasSuffix dest "/").
  - constructor; [by eexists|]. induction files as [|f files IH]; [done|]. rewrite fmap_cons, mjoin_cons. apply Forall_app. split; [|done].
    unfold Shell.into_commands. destruct (decide _); repeat constructor; by eexists.
  - apply Forall_app. split; [destruct (decide _); repeat constructor; by eexists|]. destruct files; repeat constructor; by eexists.
Qed.

(** The fetches among commands are tasks. *)
Lemma fetched_task c cs f out : (f, out) ∈ Shell.fetched cs -> Fetch f out (spot c out) ∈ tasks c cs.
Proof.
  unfold Shell.fetched, tasks. rewrite !list_elem_of_omap. intros (cmd & Hin & H). exists cmd. split; [done|].
  destruct cmd as [|w [|sub [|p [|flag [|o [|? ?] ] ] ] ] ]; try done. cbn [task_of]. by case_decide; [injection H as -> ->|].
Qed.

Lemma run_ready g content cs :
  Forall (fun cmd => is_Some (task_of (cwd (disk_of g)) cmd)) cs -> ready g content (tasks (cwd (disk_of g)) cs) ->
  exists g', run_e g cs = Some (g', true) /\
    Forall (fun fo => put_in (nodes (disk_of g')) (spot (cwd (disk_of g)) fo.2, content fo.1)) (Shell.fetched cs) /\
    grown (nodes (disk_of g)) (made_by <$> tasks (cwd (disk_of g)) cs) (omap (put_by content) (tasks (cwd (disk_of g)) cs)) (nodes (disk_of g')).
Proof using NF.
  intros Hcs (Hc & Hok & A & Hfc & Ha). set (c := cwd (disk_of g)) in *. set (ts := tasks c cs) in *.
  destruct (run_tasks content (nodes (disk_of g)) (made_by <$> ts) (omap (put_by content) ts) c ts g A Hfc Hc eq_refl (grown_refl _ _ _))
    as (g' & E & Hg & _ & Hall).
  - rewrite Forall_forall in *. intros t Ht. split; [by apply Hok|]. split; [by apply list_elem_of_fmap_2|].
    specialize (Ha t Ht). destruct t as [|f out l]; [done|]. split; [|done]. apply list_elem_of_omap. by exists (Fetch f out l).
  - unfold ts in E. rewrite command_tasks in E by done. exists g'. split; [done|]. split; [|done]. apply Forall_forall.
    intros [f out] Hfo. rewrite Forall_forall in Hall. exact (Hall _ (fetched_task c cs f out Hfo)).
Qed.
End Copy.

End CopySpec.
