(* ===== verification/AgentExamples.v ===== *)
(** * The guest agent on concrete guests

    A guest laid out as RHEL is, /etc/ssl/certs and one of the bundles links,
    and a relay that answers it; each theorem about the agent applied there. *)
From S2P Require Import Prelude Text Crypto Writer Translate Session GuestFs Trust TrustSpec Baseline Agent AgentSpec CopySpec.

#[local] Open Scope string_scope.
#[local] Open Scope Z_scope.

Module AgentExamples.
Import GuestFs GuestFsSpec Trust TrustSpec Baseline Bootstrap Agent AgentSpec CopySpec.
#[local] Existing Instance Toy.hashes.
#[local] Existing Instance Toy.hash_laws.
#[local] Existing Instance Translate.TranslateExamples.ex_order.

(** ** What surrounds the agent *)
#[local] Instance ex_os : OS := {| fault _ _ := None; written _ b := b; survives _ _ := false |}.

(** A PEM block is its certificate, whose subject is a common name. *)
#[local] Instance ex_x509 : X509Ops := {|
  pem_decode b := Some b;
  ParseCertificate der := Ok (mkCert der 1000 der);
  unmarshal_subject b := Ok [[([2; 5; 4; 3], Some (string_of b))]];
  marshal_set l := Ok (mjoin ((fun a => bytes_of a.2) <$> l)) |}.

#[local] Instance ex_tool : CaTool := {| has_update _ := false; run_update d := (d, None) |}.
#[local] Instance ex_codec : ConfigCodec := fun _ => Ok (1, "exclusive", false).

Definition ex_pem : bytes := bytes_of "Warden  CA".

(** The build context the relay serves. *)
Definition ex_content (f : string) : bytes := bytes_of ("contents of " ++ f).

Definition ex_answer (r : request) : response :=
  mkResponse 200
    (if bool_decide (url r = "http://artifacts/ca.pem") then ex_pem
     else if bool_decide (url r = "http://artifacts/bootstrap") then bytes_of "{...}"
     else if bool_decide (url r = "http://artifacts/build-script") then bytes_of "make"
     else match CutPrefix (url r) "http://cwd/" with Some f => ex_content f | None => [] end) None.

Definition ex_steps : list step := [Output (bytes_of "hello"); Tick; Output (bytes_of "world")].

#[local] Instance ex_outside : Outside.
Proof.
  refine {| answer _ r := Ok (ex_answer r); took _ _ := 1000;
            script_does _ _ d := (d, ex_steps, Exited 3);
            executable := Some "/usr/bin/warden-io" |}.
  intros _ _. lia.
Defined.

(** ** The guest *)
Definition ex_nodes : fs := list_to_map (
  ((fun p => (comps p, Dir)) <$>
     ["/etc"; "/etc/ssl"; "/etc/pki"; "/etc/pki/tls"; "/etc/pki/tls/certs"; "/etc/pki/ca-trust"; "/etc/pki/ca-trust/extracted";
      "/etc/pki/ca-trust/extracted/pem"; "/usr"; "/usr/local"; "/usr/local/share"; "/bin"; "/tmp"]) ++
  [(comps "/etc/ssl/certs", Link "../pki/tls/certs");
   (comps "/etc/pki/tls/certs/ca-bundle.crt", Link "/etc/pki/ca-trust/extracted/pem/tls-ca-bundle.pem");
   (comps "/etc/pki/ca-trust/extracted/pem/tls-ca-bundle.pem", File (bytes_of "Public CAs") 420);
   (comps "/bin/sh", File (bytes_of "sh") 493)])%list.
Definition ex_disk : disk := mkDisk ex_nodes ["tmp"].
Definition ex_guest : guest := mkGuest ex_disk ["PATH=/bin"] 0 [].
Definition ex_cert : Cert := mkCert ex_pem 1000 ex_pem.

(** ** Checking what is assumed of a guest *)
Definition link_free (s : fs) (p : path) : bool :=
  forallb (fun k => match s !! take k p with Some (Link _) => false | _ => true end) (seq 0 (S (length p))).

Lemma link_free_clear s p : link_free s p = true -> clear s p.
Proof.
  unfold link_free. rewrite forallb_forall. intros H q t [r ->] E.
  specialize (H (length q)). rewrite take_app_length, E in H. discriminate H. apply in_seq. rewrite length_app. lia.
Qed.

Lemma wf_by_list (s : fs) : forallb (fun e => bool_decide (at_ s (parent e.1) = Some Dir)) (map_to_list s) = true -> wf s.
Proof.
  rewrite forallb_forall. intros H q c n E. specialize (H (q ++ [c], n)%list). cbn [fst] in H. rewrite parent_snoc in H.
  eapply bool_decide_eq_true_1, H, list_elem_of_In, elem_of_map_to_list, E.
Qed.

Lemma ex_linux : linux_guest ex_nodes.
Proof.
  split; [apply wf_by_list; vm_compute; reflexivity|apply link_free_clear; vm_compute; reflexivity..|].
  repeat (apply Forall_cons_2; [split; [apply link_free_clear; vm_compute; reflexivity|vm_compute; congruence]|]). by apply Forall_nil.
Qed.

Lemma ex_agent_guest : agent_guest ex_nodes.
Proof. split; [exact ex_linux|split; apply link_free_clear; vm_compute; reflexivity]. Qed.

Lemma ex_remove : Forall (fun b => fault "remove" b = None) otherBundles.
Proof. by repeat constructor. Qed.

(** The flags, in both forms; an unknown one and a missing value are ignored. *)
Example parse_flags :
  parseInitArgs ["--gateway=10.0.0.1"; "--other=x"; "--workdir"; "/a=b"; "--script="; "--hold"; "--ip"] =
  mkArgs "10.0.0.1" "" "" "/a=b" true.
Proof. vm_compute. reflexivity. Qed.

Lemma done_as {A B} (p : A * B) b : p.2 = b -> p = (p.1, b).
Proof. by destruct p as [a ?]; intros <-. Qed.

(** ** Witnesses *)


(** A disk where the CA is installed, and ca-certificates came back. *)
Definition reinstalled : disk :=
  let d := (installCA ex_disk ex_pem ex_cert TrustExclusive).1 in
  put d (comps "/etc/ssl/certs/public.pem") (File (bytes_of "Public CAs") 420).

Lemma hook_restores_witness :
  exists hash cs d' es, script_commands (trustHook wardenCAPath hash) = Some cs /\
    run_commands reinstalled cs = (d', es) /\ certs_replaced (nodes reinstalled) (nodes d') ex_pem hash.
Proof.
  assert (Hg : linux_guest (nodes reinstalled)).
  { split; [apply wf_by_list; vm_compute; reflexivity|apply link_free_clear; vm_compute; reflexivity..|].
    repeat (apply Forall_cons_2; [split; [apply link_free_clear; vm_compute; reflexivity|vm_compute; congruence]|]). by apply Forall_nil. }
  destruct (subjectHash ex_cert) as [hash|] eqn:Eh; [|vm_compute in Eh; discriminate Eh].
  destruct (hook_restores ex_cert hash reinstalled ex_pem Eh Hg) as (cs & Hcs & Hrun); [vm_compute; reflexivity|].
  exists hash, cs. destruct (run_commands reinstalled cs) as [d' es] eqn:Er. exists d', es. split; [exact Hcs|]. split; [reflexivity|].
  apply (Hrun d' es eq_refl). vm_compute in Eh. injection Eh as <-. vm_compute in Hcs. injection Hcs as <-.
  apply (f_equal snd) in Er. cbn [snd] in Er. rewrite <- Er. vm_compute. repeat constructor.
Defined.

Lemma jks_roundtrip_witness :
  exists b, writeJKS jksAlias ex_cert jksPassword = Ok b /\
    read_jks jksPassword b = Some [mkEntry "warden" 1000 "X.509" ex_pem].
Proof. apply (jks_roundtrip jksAlias ex_cert jksPassword); vm_compute; (split; congruence) || reflexivity. Defined.

Definition ex_env : gmap string string := <["B" := "it's $HOME"]> (<["A" := ""]> ∅).

Lemma shell_env_exact_witness :
  exists l, l ≡ₚ map_to_list ex_env /\
    Shell.commands (shellEnvScript ex_env "/src dir") =
      Some (((fun kv => ["export"; (kv.1 ++ "=" ++ kv.2)%string]) <$> l) ++ [["cd"; "/src dir"]])%list.
Proof.
  destruct (shell_env_exact ex_env "/src dir") as (l & Hp & _ & Hc); [|by exists l].
  intros k v H. unfold ex_env in H. apply lookup_insert_Some in H as [ [<- _]|[_ H] ]; [done|].
  apply lookup_insert_Some in H as [ [<- _]|[_ H] ]; [done|]. by rewrite lookup_empty in H.
Defined.

Lemma output_streamed_witness :
  exists g' sent, execScript ex_guest "/tmp/build.sh" "10.0.0.1" = (g', 3) /\
    mjoin (posted (outputURL "10.0.0.1") sent) = bytes_of "helloworld" /\ beats sent = 1%nat.
Proof.
  destruct (output_streamed (OU := ex_outside) ex_guest "/tmp/build.sh" "10.0.0.1" ex_disk ex_steps (Exited 3) eq_refl ltac:(done)) as (g' & sent & rest & E & _ & _ & Hb & Hw & _ & Hall).
  exists g', sent. split; [exact E|]. rewrite (Hall ltac:(done) (fun _ _ => eq_refl)), app_nil_r in Hw. by split.
Defined.

Definition ex_args : list string := ["--gateway=10.0.0.1"; "--workdir"; "/build"].



(** ** A COPY into the work directory *)
#[local] Instance ex_context : Translate.BuildContext := {|
  Translate.ctx_isDir s := bool_decide (s = "src");
  Translate.ctx_walk _ := Translate.TDir "src" [Translate.TFile "src/main.c"; Translate.TDir "src/d" [Translate.TFile "src/d/x.h"]];
  Translate.ctx_glob s := Ok [(s, true)] |}.

(** A file of the context and where it goes below the destination. *)
Definition ex_files : list Translate.fetchFile := [Translate.mkFetch "src/main.c" "main.c"; Translate.mkFetch "src/d/x.h" "d/x.h"].
Definition ex_tasks : list task := tasks ["tmp"] (Shell.fetch_commands ex_files "./").

(** Checking what holds of every name on a path. *)
Lemma by_prefix (P : path -> bool) l q x :
  forallb (fun k => P (take (S k) l)) (seq 0 (length l)) = true -> (q ++ [x])%list `prefix_of` l -> P (q ++ [x])%list = true.
Proof.
  rewrite forallb_forall. intros H [r E]. specialize (H (length q)). rewrite E, length_app, length_app in H.
  replace (S (length q)) with (length (q ++ [x])) in H by (rewrite length_app; cbn; lia).
  rewrite take_app_length in H. apply H, in_seq. cbn. lia.
Qed.

Lemma dirs_check (s : fs) l : forallb (fun k => bool_decide (s !! take (S k) l = Some Dir)) (seq 0 (length l)) = true -> dirs s l.
Proof. intros H q x Hq. by apply (by_prefix (fun q => bool_decide (s !! q = Some Dir)) _ _ _ H), bool_decide_eq_true_1 in Hq. Qed.

Lemma free_check (s : fs) l :
  forallb (fun k => match s !! take (S k) l with None | Some Dir => true | _ => false end) (seq 0 (length l)) = true -> free s l.
Proof.
  intros H q x Hq. apply (by_prefix (fun q => match s !! q with None | Some Dir => true | _ => false end) _ _ _ H) in Hq.
  destruct (s !! (q ++ [x])%list) as [ [b m| |t]|]; [discriminate Hq|by right|discriminate Hq|by left].
Qed.

Lemma guest_ready : ready ex_guest ex_content ex_tasks.
Proof.
  assert (Hs : forall l, forallb (fun n => negb (bool_decide (n = ".")) && negb (bool_decide (n = ".."))) l = true -> Forall sname l).
  { intros l H. rewrite forallb_forall in H. apply Forall_forall. intros n Hn%list_elem_of_In. specialize (H n Hn). cbn in H.
    by rewrite andb_true_iff, !negb_true_iff, !bool_decide_eq_false in H. }
  assert (Hg : forall k r p, absolute p = false -> p <> "" -> comps p = (repeat "." k ++ r)%list ->
    forallb (fun n => negb (bool_decide (n = ".")) && negb (bool_decide (n = ".."))) r = true -> goes ["tmp"] p ("tmp" :: r)).
  { intros k r p Ha Hne Hc Hr. right. exists k, r. split; [done|]. split; [done|]. split; [done|]. split; [by apply Hs|].
    split; [by apply Hs|done]. }
  split; [apply dirs_check; vm_compute; reflexivity|]. split; [|split; [split; [|split]|split] ].
  - change ex_tasks with [Make "./" ["tmp"]; Fetch "src/main.c" "./main.c" ["tmp"; "main.c"]; Make "d" ["tmp"; "d"];
      Fetch "src/d/x.h" "./d/x.h" ["tmp"; "d"; "x.h"] ].
    apply Forall_cons_2; [by apply (Hg 1%nat [])|]. apply Forall_cons_2.
    { split; [|by split_and!]. split; [by apply (Hg 1%nat)|]. split; [done|]. split; [by apply (Hg 1%nat [])|done]. }
    apply Forall_cons_2; [by apply (Hg 0%nat)|]. apply Forall_cons_2; [|by apply Forall_nil].
    split; [|by split_and!]. split; [by apply (Hg 1%nat)|]. split; [done|]. split; [by apply (Hg 0%nat)|done].
  - apply Forall_forall. repeat (apply Forall_cons_2; [apply free_check; vm_compute; reflexivity|]). by apply Forall_nil.
  - intros l b Hl. assert (Hin : (l, b) ∈ [(["tmp"; "main.c"], ex_content "src/main.c"); (["tmp"; "d"; "x.h"], ex_content "src/d/x.h")]) by exact Hl.
    rewrite !elem_of_cons, elem_of_nil in Hin. destruct Hin as [ [= -> ->]|[ [= -> ->]|[] ] ]; (split; [vm_compute; exact I|]).
    + split; [by apply (list_elem_of_lookup_2 _ 0)|]. apply Forall_forall. repeat (apply Forall_cons_2; [apart|]). by apply Forall_nil.
    + split; [by apply (list_elem_of_lookup_2 _ 2)|]. apply Forall_forall. repeat (apply Forall_cons_2; [apart|]). by apply Forall_nil.
  - intros l b b' H1 H2. assert (Hin : (l, b) ∈ [(["tmp"; "main.c"], ex_content "src/main.c"); (["tmp"; "d"; "x.h"], ex_content "src/d/x.h")]) by exact H1.
    assert (Hin' : (l, b') ∈ [(["tmp"; "main.c"], ex_content "src/main.c"); (["tmp"; "d"; "x.h"], ex_content "src/d/x.h")]) by exact H2.
    rewrite !elem_of_cons, elem_of_nil in Hin, Hin'. destruct Hin as [ [= -> ->]|[ [= -> ->]|[] ] ], Hin' as [ [= ?]|[ [= ?]|[] ] ]; congruence.
  - repeat (apply Forall_cons_2; [apart|]). by apply Forall_nil.
  - repeat (apply Forall_cons_2; [done|]). by apply Forall_nil.
Qed.

End AgentExamples.
