(* ===== verification/Isolation.v ===== *)
(** * The container driver's network (src/driver/subnet.go, and isolationRules in
    src/driver/container/container.go)

    The addresses a build's network is given, and the script that makes the
    relay the only way out of a network namespace: its text is read as the
    iptables commands it holds, and their rules as the kernel reads them. *)
From S2P Require Import Prelude Text Netip.

#[local] Open Scope string_scope.
#[local] Open Scope Z_scope.

(** ** Subnets (subnet.go) *)
Module Subnet.

Definition WardenBaseNet : string := "100.64.87".
Definition ContainerBaseCIDR : string := WardenBaseNet ++ ".0/24".

Record Subnet := mkSubnet { CIDR : string; RelayIP : string; BuildIP : string }.
Definition zero : Subnet := mkSubnet "" "" "".

(** The addresses of the [block]th of 32. *)
Definition base_addr (n : Z) : string := WardenBaseNet ++ "." ++ Itoa n.
Definition subnet_of (block : Z) : Subnet :=
  let base := block * 8 in
  mkSubnet (base_addr base ++ "/29") (base_addr (base + 2)) (base_addr (base + 3)).

Definition blocks : list Z := seqZ 0 32.
End Subnet.

(** ** The rules *)
Module Isolation.
Import Netip.

Definition text_line (s : string) : string := s ++ String "010" "".

(** [isolationRules] with its argument *)
Definition isolationRules (relay : string) : string :=
  text_line "set -e" ++
  text_line "iptables-legacy -t nat -F DOCKER_OUTPUT 2>/dev/null || true" ++
  text_line "iptables-legacy -t nat -F DOCKER_POSTROUTING 2>/dev/null || true" ++
  text_line ("iptables -t nat -A OUTPUT -p udp --dport 53 -j DNAT --to-destination " ++ relay ++ ":53") ++
  text_line ("iptables -t nat -A OUTPUT -p tcp --dport 53 -j DNAT --to-destination " ++ relay ++ ":53") ++
  text_line ("iptables -t nat -A OUTPUT -p tcp --dport 80 -j DNAT --to-destination " ++ relay ++ ":80") ++
  text_line ("iptables -t nat -A OUTPUT -p tcp --dport 443 -j DNAT --to-destination " ++ relay ++ ":443") ++
  text_line ("iptables -A OUTPUT -d " ++ relay ++ " -j ACCEPT") ++
  text_line "iptables -A OUTPUT -d 127.0.0.0/8 -j ACCEPT" ++
  text_line "iptables -A OUTPUT -j DROP".

(** *** As iptables(8) reads them *)
Inductive target := ACCEPT | DROP | DNAT (addr port : Z).

(** A rule's matches, [None] where it has none, and its target. *)
Record rule := mkRule { m_proto : option string; m_dport : option Z; m_dst : option Prefix; r_target : target }.

#[export] Instance target_eq_dec : EqDecision target.
Proof. solve_decision. Defined.
#[export] Instance Prefix_eq_dec : EqDecision Prefix.
Proof. solve_decision. Defined.
#[export] Instance rule_eq_dec : EqDecision rule.
Proof. solve_decision. Defined.

(** A destination: a network, or a host. *)
Definition parse_dst (s : string) : option Prefix :=
  match ParsePrefix s with
  | Ok p => Some p
  | Err _ => match ParseAddr s with Ok a => Some (mkPrefix a (BitLen a)) | Err _ => None end
  end.

Definition parse_to (s : string) : option target :=
  match Split s ":" with
  | [a; p] => match ParseAddr a, parse_dec p with Ok (A4 v), Some n => Some (DNAT v n) | _, _ => None end
  | _ => None
  end.

(** The options after the chain's name. *)
Fixpoint parse_spec (r : rule) (ws : list string) : option rule :=
  match ws with
  | k :: v :: ws =>
      if String.eqb k "-p" then parse_spec (mkRule (Some v) (m_dport r) (m_dst r) (r_target r)) ws
      else if String.eqb k "--dport" then n ← parse_dec v; parse_spec (mkRule (m_proto r) (Some n) (m_dst r) (r_target r)) ws
      else if String.eqb k "-d" then d ← parse_dst v; parse_spec (mkRule (m_proto r) (m_dport r) (Some d) (r_target r)) ws
      else if String.eqb k "-j" then
        match ws with
        | [] => if String.eqb v "ACCEPT" then Some (mkRule (m_proto r) (m_dport r) (m_dst r) ACCEPT)
                else if String.eqb v "DROP" then Some (mkRule (m_proto r) (m_dport r) (m_dst r) DROP) else None
        | [o; a] => if String.eqb v "DNAT" && String.eqb o "--to-destination"
                    then t ← parse_to a; Some (mkRule (m_proto r) (m_dport r) (m_dst r) t) else None
        | _ => None
        end
      else None
  | _ => None
  end.
Definition any_rule : rule := mkRule None None None ACCEPT.

(** What a command does: it appends to a chain OUTPUT, or flushes a chain of the
    legacy tables. *)
Inductive op := AppendNat (r : rule) | AppendFilter (r : rule) | FlushLegacy (chain : string).

#[export] Instance op_eq_dec : EqDecision op.
Proof. solve_decision. Defined.

Definition parse_command (ws : list string) : option op :=
  match ws with
  | w :: t :: n :: a :: c :: spec =>
      if decide (w = "iptables-legacy" /\ t = "-t" /\ n = "nat" /\ a = "-F" /\ spec = []) then Some (FlushLegacy c)
      else if decide (w = "iptables" /\ t = "-t" /\ n = "nat" /\ a = "-A" /\ c = "OUTPUT") then AppendNat <$> parse_spec any_rule spec
      else if decide (w = "iptables" /\ t = "-A" /\ n = "OUTPUT") then AppendFilter <$> parse_spec any_rule (a :: c :: spec)
      else None
  | _ => None
  end.

(** A line of the script under [set -e], with whether its failure is let pass. *)
Definition ignored : list string := ["2>/dev/null"; "||"; "true"].
Definition parse_line (l : string) : option (op * bool) :=
  let ws := Fields l in
  let n := (length ws - 3)%nat in
  if decide (drop n ws = ignored) then o ← parse_command (take n ws); Some (o, true)
  else o ← parse_command ws; Some (o, false).

(** The commands of a script that starts with [set -e]. *)
Definition script_ops (script : string) : option (list (op * bool)) :=
  match filter (fun l => l <> "") (Split script "010") with
  | first :: ls => if decide (first = "set -e") then mapM parse_line ls else None
  | [] => None
  end.

(** *** A network namespace *)

(** The OUTPUT chains of the nat and filter tables, and the nat chains the
    runtime left in the legacy tables, which packets meet first. *)
Record netns := mkNetns { legacy : gmap string (list rule); nat_out : list rule; filter_out : list rule }.

(** One command; a legacy one fails where the tool or the chain is missing. *)
Definition run_op (has_legacy : bool) (s : netns) (o : op) : option netns :=
  match o with
  | AppendNat r => Some (mkNetns (legacy s) (nat_out s ++ [r])%list (filter_out s))
  | AppendFilter r => Some (mkNetns (legacy s) (nat_out s) (filter_out s ++ [r])%list)
  | FlushLegacy c =>
      if has_legacy && bool_decide (is_Some (legacy s !! c))
      then Some (mkNetns (<[c := []]> (legacy s)) (nat_out s) (filter_out s))
      else None
  end.

(** The script's exit status is 0 exactly when this is [Some]. *)
Fixpoint run_ops (has_legacy : bool) (s : netns) (os : list (op * bool)) : option netns :=
  match os with
  | [] => Some s
  | (o, tolerated) :: os =>
      match run_op has_legacy s o with
      | Some s => run_ops has_legacy s os
      | None => if tolerated then run_ops has_legacy s os else None
      end
  end.
Definition run_script (has_legacy : bool) (s : netns) (script : string) : option netns :=
  os ← script_ops script; run_ops has_legacy s os.

(** *** Packets

    What leaves a process of the namespace over IPv4: DNAT first, the filter on
    what it made of the packet. *)
Record packet := mkPacket { proto : string; dst : Z; dport : Z }.

Definition matches (r : rule) (p : packet) : bool :=
  match m_proto r with None => true | Some x => bool_decide (proto p = x) end &&
  match m_dport r with None => true | Some n => dport p =? n end &&
  match m_dst r with None => true | Some d => Contains d (A4 (dst p)) end.

Definition first_match (rs : list rule) (p : packet) : option rule := List.find (fun r => matches r p) rs.

(** The rules of the chain the runtime hooks into the legacy OUTPUT. *)
Definition docker_output (s : netns) : list rule := default [] (legacy s !! "DOCKER_OUTPUT").

Definition translated (s : netns) (p : packet) : packet :=
  match first_match (docker_output s ++ nat_out s)%list p with
  | Some (mkRule _ _ _ (DNAT a n)) => mkPacket (proto p) a n
  | _ => p
  end.

(** The packet as it leaves, [None] when it is dropped; a chain accepts what no
    rule of it matches. *)
Definition leaves (s : netns) (p : packet) : option packet :=
  let p := translated s p in
  match first_match (filter_out s) p with
  | Some (mkRule _ _ _ DROP) => None
  | _ => Some p
  end.

(** ** What leaves the namespace *)

(** The destinations the rules redirect. *)
Definition redirected (p : packet) : bool :=
  (bool_decide (proto p = "udp") && (dport p =? 53)) ||
  (bool_decide (proto p = "tcp") && ((dport p =? 53) || (dport p =? 80) || (dport p =? 443))).
Definition loopback (a : Z) : bool := a / 2 ^ 24 =? 127.

(** What the documentation of the isolation says. *)
Definition isolated (relay : Z) (p : packet) : option packet :=
  if redirected p then Some (mkPacket (proto p) relay (dport p))
  else if (dst p =? relay) || loopback (dst p) then Some p
  else None.

Import Subnet.
Definition relay_addr (block : Z) : Z := AddrFrom4 100 64 87 (block * 8 + 2).

Definition isolation_nat (relay : Z) : list rule :=
  (fun pn => mkRule (Some pn.1) (Some pn.2) None (DNAT relay pn.2)) <$> [("udp", 53); ("tcp", 53); ("tcp", 80); ("tcp", 443)].
Definition isolation_filter (relay : Z) : list rule :=
  [mkRule None None (Some (mkPrefix (A4 relay) 32)) ACCEPT;
   mkRule None None (Some (mkPrefix (A4 (127 * 2 ^ 24)) 8)) ACCEPT; mkRule None None None DROP].
Definition isolation_ops (relay : Z) : list (op * bool) :=
  ((FlushLegacy "DOCKER_OUTPUT", true) :: (FlushLegacy "DOCKER_POSTROUTING", true) ::
   ((fun r => (AppendNat r, false)) <$> isolation_nat relay) ++ ((fun r => (AppendFilter r, false)) <$> isolation_filter relay))%list.

Lemma script_read block : block ∈ blocks ->
  script_ops (isolationRules (RelayIP (subnet_of block))) = Some (isolation_ops (relay_addr block)).
Proof.
  intros Hb. assert (H : forallb (fun b => bool_decide
    (script_ops (isolationRules (RelayIP (subnet_of b))) = Some (isolation_ops (relay_addr b)))) blocks = true) by (vm_compute; reflexivity).
  rewrite forallb_forall in H. by apply list_elem_of_In, H, bool_decide_eq_true_1 in Hb.
Qed.

(** A flush; afterwards the runtime's rules are gone where it could work. *)
Lemma flushed s c has_legacy os :
  exists s', run_ops has_legacy s ((FlushLegacy c, true) :: os) = run_ops has_legacy s' os /\
    nat_out s' = nat_out s /\ filter_out s' = filter_out s /\
    (docker_output s = [] \/ (has_legacy = true /\ c = "DOCKER_OUTPUT") -> docker_output s' = []).
Proof.
  cbn [run_ops run_op]. destruct (has_legacy && _) eqn:E; cbn iota.
  - eexists. split; [done|]. split; [done|]. split; [done|]. unfold docker_output. cbn [legacy].
    destruct (decide (c = "DOCKER_OUTPUT")) as [->|Hc]; [by rewrite lookup_insert_eq|].
    rewrite lookup_insert_ne by done. by intros [?|[_ ?] ].
  - exists s. split; [done|]. split; [done|]. split; [done|]. intros [?|[-> ->] ]; [done|]. cbn [andb] in E.
    apply bool_decide_eq_false_1 in E. unfold docker_output. destruct (legacy s !! "DOCKER_OUTPUT"); [|done].
    exfalso. apply E. by eexists.
Qed.

Lemma run_appends has_legacy nats filters : forall s,
  run_ops has_legacy s (((fun r => (AppendNat r, false)) <$> nats) ++ ((fun r => (AppendFilter r, false)) <$> filters))%list =
  Some (mkNetns (legacy s) (nat_out s ++ nats)%list (filter_out s ++ filters)%list).
Proof.
  induction nats as [|r nats IH]; intros s.
  - revert s. induction filters as [|r filters IH]; intros [l n f]; cbn; [by rewrite !app_nil_r|].
    cbn in IH. rewrite IH. cbn. by rewrite <- app_assoc.
  - rewrite fmap_cons. cbn [app run_ops run_op]. rewrite IH. cbn [legacy nat_out filter_out]. by rewrite <- app_assoc.
Qed.

Lemma match_port pr n relay p : matches (mkRule (Some pr) (Some n) None (DNAT relay n)) p = bool_decide (proto p = pr) && (dport p =? n).
Proof. unfold matches. cbn [m_proto m_dport m_dst]. by rewrite andb_true_r. Qed.

Lemma match_dst d t p : matches (mkRule None None (Some d) t) p = Contains d (A4 (dst p)).
Proof. done. Qed.

Lemma nat_match relay p :
  first_match (isolation_nat relay) p =
  if redirected p then Some (mkRule (Some (proto p)) (Some (dport p)) None (DNAT relay (dport p))) else None.
Proof.
  unfold first_match, isolation_nat, redirected. cbn [fmap list_fmap fst snd List.find]. rewrite !match_port.
  destruct p as [pr d n]. cbn [proto dport].
  destruct (bool_decide_reflect (pr = "udp")) as [->|Hu]; cbn [andb orb].
  - destruct (Z.eqb_spec n 53) as [->|]; [done|]. by rewrite !bool_decide_eq_false_2 by done.
  - destruct (bool_decide_reflect (pr = "tcp")) as [->|Ht]; cbn [andb orb]; [|done].
    destruct (Z.eqb_spec n 53) as [->|]; [done|]. destruct (Z.eqb_spec n 80) as [->|]; [done|].
    destruct (Z.eqb_spec n 443) as [->|]; done.
Qed.

Lemma contains_host relay d : Contains (mkPrefix (A4 relay) 32) (A4 d) = (d =? relay).
Proof. unfold Contains. cbn [pBits pAddr]. change (2 ^ (32 - 32)) with 1. rewrite !Z.div_1_r. apply Z.eqb_sym. Qed.

Lemma contains_loopback d : Contains (mkPrefix (A4 (127 * 2 ^ 24)) 8) (A4 d) = loopback d.
Proof. unfold Contains, loopback. cbn [pBits pAddr]. change (127 * 2 ^ 24 / 2 ^ (32 - 8)) with 127. apply Z.eqb_sym. Qed.

Lemma filter_match relay p :
  match first_match (isolation_filter relay) p with Some (mkRule _ _ _ DROP) => None | _ => Some p end =
  if (dst p =? relay) || loopback (dst p) then Some p else None.
Proof.
  unfold first_match, isolation_filter. cbn [List.find]. rewrite !match_dst, contains_host, contains_loopback.
  destruct (dst p =? relay); [done|]. by destruct (loopback (dst p)).
Qed.

(** The isolation script leaves one way out: run in a namespace with nothing
    in its OUTPUT chains, where what the runtime put in the legacy tables can be
    flushed, it succeeds, and afterwards every IPv4 packet of the namespace is
    treated as documented.  DNS, HTTP and HTTPS go to the relay whatever their
    destination; anything else leaves only for the relay or the loopback. *)
Lemma isolation_exact block has_legacy s :
  block ∈ blocks -> nat_out s = [] -> filter_out s = [] -> docker_output s = [] \/ has_legacy = true ->
  exists s', run_script has_legacy s (isolationRules (RelayIP (subnet_of block))) = Some s' /\
    forall p, leaves s' p = isolated (relay_addr block) p.
Proof.
  intros Hb Hn Hf Hl. unfold run_script. rewrite script_read by done. cbn [mbind option_bind]. unfold isolation_ops.
  destruct (flushed s "DOCKER_OUTPUT" has_legacy ((FlushLegacy "DOCKER_POSTROUTING", true) ::
    ((fun r => (AppendNat r, false)) <$> isolation_nat (relay_addr block)) ++
    ((fun r => (AppendFilter r, false)) <$> isolation_filter (relay_addr block)))%list) as (s1 & -> & Hn1 & Hf1 & Hd1).
  destruct (flushed s1 "DOCKER_POSTROUTING" has_legacy
    (((fun r => (AppendNat r, false)) <$> isolation_nat (relay_addr block)) ++
    ((fun r => (AppendFilter r, false)) <$> isolation_filter (relay_addr block)))%list) as (s2 & -> & Hn2 & Hf2 & Hd2).
  rewrite run_appends, Hn2, Hf2, Hn1, Hf1, Hn, Hf. cbn [app]. eexists. split; [done|]. intros p. unfold leaves, isolated.
  assert (Ht : translated (mkNetns (legacy s2) (isolation_nat (relay_addr block)) (isolation_filter (relay_addr block))) p =
    if redirected p then mkPacket (proto p) (relay_addr block) (dport p) else p).
  { unfold translated. change (docker_output _) with (docker_output s2). rewrite Hd2 by (left; apply Hd1; destruct Hl; auto).
    cbn [app nat_out]. rewrite nat_match. by destruct (redirected p). }
  rewrite Ht. cbn [filter_out]. rewrite filter_match. destruct (redirected p); [|done]. cbn [dst]. by rewrite Z.eqb_refl.
Qed.

(** ** The subnets *)
Definition subnet_ok (b : Z) : bool :=
  match ParsePrefix (CIDR (subnet_of b)), ParseAddr (RelayIP (subnet_of b)), ParseAddr (BuildIP (subnet_of b)), ParsePrefix ContainerBaseCIDR with
  | Ok net, Ok (A4 r), Ok (A4 g), Ok base =>
      let first := addr_val (pAddr net) in
      (r =? relay_addr b) && Contains net (A4 r) && Contains net (A4 g) && Contains base (pAddr net) && (first + 1 <? r) && (r <? g) && (g <? first + 7)
  | _, _, _, _ => false
  end.

Definition overlap (b c : Z) : bool :=
  match ParsePrefix (CIDR (subnet_of b)), ParsePrefix (CIDR (subnet_of c)) with Ok p, Ok q => Overlaps p q | _, _ => true end.

(** The subnets a build may get: the relay's and the build's addresses are
    different hosts of the network, neither of them the bridge's own (the first
    host) nor the broadcast address; the networks lie in the documented range
    and no two of them overlap. *)
Lemma subnets_disjoint b c : b ∈ blocks -> c ∈ blocks ->
  subnet_ok b = true /\ (overlap b c = true -> b = c).
Proof.
  intros Hb Hc. assert (H : forallb (fun b => subnet_ok b && forallb (fun c => negb (overlap b c) || (b =? c)) blocks) blocks = true)
    by (vm_compute; reflexivity).
  rewrite forallb_forall in H. apply list_elem_of_In, H, andb_true_iff in Hb as [Hs Hb]. split; [done|]. intros Ho.
  rewrite forallb_forall in Hb. apply list_elem_of_In, Hb in Hc. rewrite Ho in Hc. cbn in Hc. lia.
Qed.

Lemma isolation_exact_witness :
  exists s', run_script true (mkNetns {["DOCKER_OUTPUT" := [mkRule None (Some 53) None (DNAT (AddrFrom4 127 0 0 11) 35000)]]} [] [])
      (isolationRules (RelayIP (subnet_of 5))) = Some s' /\
    leaves s' (mkPacket "udp" (AddrFrom4 127 0 0 11) 53) = Some (mkPacket "udp" (AddrFrom4 100 64 87 42) 53) /\
    leaves s' (mkPacket "tcp" (AddrFrom4 140 82 112 3) 22) = None.
Proof.
  destruct (isolation_exact 5 true (mkNetns {["DOCKER_OUTPUT" := [mkRule None (Some 53) None (DNAT (AddrFrom4 127 0 0 11) 35000)]]} [] []))
    as (s' & Hr & Hp); [apply elem_of_seqZ; lia|done|done|by right|].
  exists s'. split; [exact Hr|]. rewrite !Hp. split; vm_compute; reflexivity.
Defined.
End Isolation.
