(* ===== verification/Container.v ===== *)
(** * The container driver (src/driver/container/container.go, environment.go,
    images.go, exitcode.go; AllocateNetwork of src/driver/subnet.go)

    A build in containers: a holder's network namespace isolated by a privileged
    sidecar, the relay beside it, and the build container created in the
    holder's namespace and started last.  The container runtime, the host and
    the session are asked by [call]s, whose answers are arbitrary; a run carries
    the driver's own record of the build, which its teardown works from. *)
From S2P Require Import Prelude Text Crypto Writer Translate Session Environment BuildLink Slots Isolation.

#[local] Open Scope string_scope.
#[local] Open Scope Z_scope.

Module Container.
Import Session.Session Environment Subnet Isolation.

#[local] Abbreviation outcome := Session.Session.outcome.
Abbreviation R A := (A + outcome)%type.

(** ** The request and the driver *)
Record request := mkRequest { ContextDir : string; Containerfile : string; OutputDir : string; RelayImage : string; Compress : bool }.
Record driver := mkDriver { Runtime : string; Version : string }.

(** What the build of warden brings: its support images by digest, when it is a
    release, and the embedded files they are built from otherwise. *)
Record release := mkRelease {
  holderImageRef : string; netnsImageRef : string; holderContainerfile : bytes; netnsContainerfile : bytes; GOARCH : string }.

(** *** The state of a build *)
Record build := mkBuild {
  buildContainer : string; holderContainer : string; relayContainer : string; relayImage : string; relayBuiltLocal : bool;
  holderImage : string; netnsImage : string; baseImage : string; buildID : string; sess : bool; outputDir : string;
  subnet : Subnet; isolatedNetwork : string; workDir : string }.
Definition new_build : build := mkBuild "" "" "" "" false "" "" "" "" false "" Subnet.zero "" "".
Definition set_buildContainer (x : string) (b : build) : build := mkBuild x (holderContainer b) (relayContainer b) (relayImage b) (relayBuiltLocal b) (holderImage b) (netnsImage b) (baseImage b) (buildID b) (sess b) (outputDir b) (subnet b) (isolatedNetwork b) (workDir b).
Definition set_holderContainer (x : string) (b : build) : build := mkBuild (buildContainer b) x (relayContainer b) (relayImage b) (relayBuiltLocal b) (holderImage b) (netnsImage b) (baseImage b) (buildID b) (sess b) (outputDir b) (subnet b) (isolatedNetwork b) (workDir b).
Definition set_relayContainer (x : string) (b : build) : build := mkBuild (buildContainer b) (holderContainer b) x (relayImage b) (relayBuiltLocal b) (holderImage b) (netnsImage b) (baseImage b) (buildID b) (sess b) (outputDir b) (subnet b) (isolatedNetwork b) (workDir b).
Definition set_relayImage (x : string) (b : build) : build := mkBuild (buildContainer b) (holderContainer b) (relayContainer b) x (relayBuiltLocal b) (holderImage b) (netnsImage b) (baseImage b) (buildID b) (sess b) (outputDir b) (subnet b) (isolatedNetwork b) (workDir b).
Definition set_relayBuiltLocal (x : bool) (b : build) : build := mkBuild (buildContainer b) (holderContainer b) (relayContainer b) (relayImage b) x (holderImage b) (netnsImage b) (baseImage b) (buildID b) (sess b) (outputDir b) (subnet b) (isolatedNetwork b) (workDir b).
Definition set_holderImage (x : string) (b : build) : build := mkBuild (buildContainer b) (holderContainer b) (relayContainer b) (relayImage b) (relayBuiltLocal b) x (netnsImage b) (baseImage b) (buildID b) (sess b) (outputDir b) (subnet b) (isolatedNetwork b) (workDir b).
Definition set_netnsImage (x : string) (b : build) : build := mkBuild (buildContainer b) (holderContainer b) (relayContainer b) (relayImage b) (relayBuiltLocal b) (holderImage b) x (baseImage b) (buildID b) (sess b) (outputDir b) (subnet b) (isolatedNetwork b) (workDir b).
Definition set_baseImage (x : string) (b : build) : build := mkBuild (buildContainer b) (holderContainer b) (relayContainer b) (relayImage b) (relayBuiltLocal b) (holderImage b) (netnsImage b) x (buildID b) (sess b) (outputDir b) (subnet b) (isolatedNetwork b) (workDir b).
Definition set_buildID (x : string) (b : build) : build := mkBuild (buildContainer b) (holderContainer b) (relayContainer b) (relayImage b) (relayBuiltLocal b) (holderImage b) (netnsImage b) (baseImage b) x (sess b) (outputDir b) (subnet b) (isolatedNetwork b) (workDir b).
Definition set_sess (x : bool) (b : build) : build := mkBuild (buildContainer b) (holderContainer b) (relayContainer b) (relayImage b) (relayBuiltLocal b) (holderImage b) (netnsImage b) (baseImage b) (buildID b) x (outputDir b) (subnet b) (isolatedNetwork b) (workDir b).
Definition set_outputDir (x : string) (b : build) : build := mkBuild (buildContainer b) (holderContainer b) (relayContainer b) (relayImage b) (relayBuiltLocal b) (holderImage b) (netnsImage b) (baseImage b) (buildID b) (sess b) x (subnet b) (isolatedNetwork b) (workDir b).
Definition set_subnet (x : Subnet) (b : build) : build := mkBuild (buildContainer b) (holderContainer b) (relayContainer b) (relayImage b) (relayBuiltLocal b) (holderImage b) (netnsImage b) (baseImage b) (buildID b) (sess b) (outputDir b) x (isolatedNetwork b) (workDir b).
Definition set_isolatedNetwork (x : string) (b : build) : build := mkBuild (buildContainer b) (holderContainer b) (relayContainer b) (relayImage b) (relayBuiltLocal b) (holderImage b) (netnsImage b) (baseImage b) (buildID b) (sess b) (outputDir b) (subnet b) x (workDir b).
Definition set_workDir (x : string) (b : build) : build := mkBuild (buildContainer b) (holderContainer b) (relayContainer b) (relayImage b) (relayBuiltLocal b) (holderImage b) (netnsImage b) (baseImage b) (buildID b) (sess b) (outputDir b) (subnet b) (isolatedNetwork b) x.

(** ** What is asked *)

(** A runtime command that failed: its exit code, when it ran, and its stderr. *)
Record cli_failure := mkCliFailure { exit : option Z; stderr : string }.

Definition exit_error (f : cli_failure) : error :=
  match exit f with Some c => Errorf "exit status %d" [Itoa c] | None => Sentinel "exec" end.

(** [fmt.Errorf("%w: %s", err, stderr)] *)
Definition with_stderr (f : cli_failure) : error := Wrap (TrimSpace (stderr f)) (exit_error f).

Record environment := mkEnv { envType : string; envPayload : bytes; envMetadata : bytes }.

(** An entry of a tar stream, owned by root. *)
Record tar_entry := mkTar { tarDir : bool; tarName : string; tarMode : Z; tarBody : bytes }.

(** What [waitBuild]'s selects receive; an exit with the runtime's answer to
    [container wait]. *)
Inductive first := Done (o : outcome) | Exited (r : string + cli_failure) | Cancelled (e : error).
Inductive second := DoneLate (o : outcome) | GraceOver.

Inductive call : Type -> Type :=
  | CCli (args : list string) : call (string + cli_failure)
  | CCliIn (args : list string) (stdin : list tar_entry) : call (unit + cli_failure)
  | CLogs (container : string) : call (string * bool)
  | CNetworkCreate (cidr name : string) : call (R unit)
  | CNetworkRm (name : string) : call (R unit)
  | CContainerStart (container : string) : call (R unit)
  | CContainerStop (container : string) : call (R unit)
  | CContainerRm (volumes : bool) (container : string) : call (R unit)
  | CContainerCp (src dst : string) : call (R unit)
  | CContainerExec (tty : bool) (container : string) (args : list string) : call (string + cli_failure)
  | CImageBuild (tag file arg dir : string) : call (R unit)
  | CImageRm (tag : string) : call (R unit)
  | CHostLock (name : string) : call (R unit)
  | CUnlock (name : string) : call unit
  | CRandAlphaNum (n : Z) : call string
  | CRandomToken : call (R string)
  | CFreeLoopbackPort : call (R Z)
  | CNewWorkDir (name : string) : call (R string)
  | CMkdirAll (path : string) : call (R unit)
  | CWriteFile (path : string) (content : bytes) : call (R unit)
  | CReadFile (path : string) : call (R bytes)
  | CRemoveAll (path : string) : call unit
  | CExecutable : call (R string)
  | CTranslate (containerfile context : string) : call (R (string * string))
  | CGoBuildLinux (pkg out : string) : call (R unit)
  | CRecordInputs (out script : string) : call (R unit)
  | CStartSession (out context script : string) : call (R unit)
  | CClaimRelay (addr token : string) (env : option environment) : call (R unit)
  | CCloseSession : call unit
  | CFinalizeOutput (out : string) (compress : bool) : call unit
  | CWaitFirst (container : string) : call first
  | CWaitGrace : call second
  | CBefore (deadline : string) : call bool
  | CSleep : call (R unit).

Inductive ev : Type := | Ev (A : Type) (c : call A) (r : A).
Arguments Ev {A} c r.
Abbreviation trace := (list ev).

(** ** Running *)
Definition M (A : Type) : Type := build -> trace -> build * trace * A.

Definition ret {A} (a : A) : M A := fun b t => (b, t, a).
Definition bind {A B} (m : M A) (k : A -> M B) : M B := fun b t => let '(b, t, a) := m b t in k a b t.
Definition get {A} (f : build -> A) : M A := fun b t => (b, t, f b).
Definition modify (f : build -> build) : M unit := fun b t => (f b, t, tt).
Definition andThen {A B} (m : M (R A)) (k : A -> M (R B)) : M (R B) :=
  bind m (fun r => match r with inl a => k a | inr f => ret (inr f) end).
Definition ok {A} (a : A) : M (R A) := ret (inl a).
Definition failed {A} (o : outcome) : M (R A) := ret (inr o).
Definition wrapped {A} (ctx : string) (m : M (R A)) : M (R A) :=
  bind m (fun r => ret match r with
    | inr (Failure e) => inr (Failure (Wrap ctx e))
    | inr (Fixable f e) => inr (Fixable f (Wrap ctx e))
    | r => r end).
Definition when_ (c : bool) (m : M unit) : M unit := if c then m else ret tt.

Notation "'let!' x := m 'in' k" := (andThen m (fun x => k)) (at level 10, x name, m at level 100, k at level 200).
Notation "'do!' x := m 'in' k" := (bind m (fun x => k)) (at level 10, x name, m at level 100, k at level 200).
Notation "m ';;' k" := (bind m (fun _ => k)) (at level 100, k at level 200, right associativity).

(** JSON of the runtime's image listings: their members' raw values, and a value
    decoded and encoded again. *)
Class JsonImages := { json_images : bytes -> option (list (gmap string bytes)); json_compact : bytes -> option bytes }.

Section Build.
Context {HO : HashOps} {CB : CborOps} {JO : JsonOps} {JI : JsonImages}.
Context (answer : forall A, trace -> call A -> A) (D : driver) (req : request) (rel : release).

Definition do_ {A} (c : call A) : M A := fun b t => let r := answer A t c in (b, (t ++ [Ev c r])%list, r).
Definition ignore {A} (c : call A) : M unit := do! _ := do_ c in ret tt.

(** [runCLI]: stderr is in the error of a command that ran. *)
Definition runCLI (args : list string) : M (R string) :=
  do! r := do_ (CCli args) in
  ret (match r with
       | inl out => inl (TrimSpace out)
       | inr f => inr (Failure (if decide (is_Some (exit f) /\ stderr f <> "") then with_stderr f else exit_error f))
       end).
(** A command run for its effect. *)
Definition cli_ok (args : list string) : M (R unit) :=
  do! r := do_ (CCli args) in ret (match r with inl _ => inl tt | inr f => inr (Failure (exit_error f)) end).

(** ** Paths *)
Definition executorPath : string := "/.warden/warden-io".
Definition stagePath (b : build) : string := Join (workDir b) "stage".
Definition scriptPath (b : build) : string := Join (stagePath b) "build.sh".
Definition executorStagePath (b : build) : string := Join (Join (workDir b) "executor") (Translate.path_Base executorPath).

(** ** Images (images.go, container.go) *)
Definition contentHash (parts : list bytes) : string := substring 0 16 (Writer.hex_encode (sha256 (mjoin parts))).

Definition imageExists (ref : string) : M bool :=
  do! r := do_ (CCli ["image"; "inspect"; ref]) in ret (match r with inl _ => true | inr _ => false end).

Definition buildSupportImage (tag dir : string) (containerfile : bytes) (arg : string) : M (R unit) :=
  do! there := imageExists tag in
  if there then ok tt
  else
    let file := Join dir "Containerfile" in
    let! _ := do_ (CWriteFile file containerfile) in
    do_ (CImageBuild tag file arg dir).

Definition buildHolderImage : M (R string) :=
  do! b := get id in
  let dir := Join (workDir b) "holder-image" in
  let! _ := do_ (CMkdirAll dir) in
  let bin := Join dir ("warden-pause-" ++ GOARCH rel) in
  let! _ := do_ (CGoBuildLinux "./cmd/warden-pause" bin) in
  let! data := do_ (CReadFile bin) in
  let tag := "warden-holder:" ++ contentHash [holderContainerfile rel; data] in
  let! _ := buildSupportImage tag dir (holderContainerfile rel) ("TARGETARCH=" ++ GOARCH rel) in
  ok tag.

Definition buildNetnsImage : M (R string) :=
  do! b := get id in
  let dir := Join (workDir b) "netns-image" in
  let! _ := do_ (CMkdirAll dir) in
  let tag := "warden-netns:" ++ contentHash [netnsContainerfile rel] in
  let! _ := buildSupportImage tag dir (netnsContainerfile rel) "" in
  ok tag.

Definition supportImage (ref : string) (build_ : M (R string)) : M (R string) :=
  if decide (ref = "") then build_
  else
    do! there := imageExists ref in
    if there then ok ref
    else let! _ := wrapped ("pulling " ++ ref) (cli_ok ["pull"; ref]) in ok ref.

Definition resolveSupportImages : M (R unit) :=
  let! h := wrapped "holder image" (supportImage (holderImageRef rel) buildHolderImage) in
  modify (set_holderImage h) ;;
  let! n := wrapped "network isolation image" (supportImage (netnsImageRef rel) buildNetnsImage) in
  modify (set_netnsImage n) ;; ok tt.

Definition pullImage (image : string) : M (R unit) := wrapped ("error pulling image " ++ image) (cli_ok ["pull"; image]).

Definition relayImageRepo : string := "ghcr.io/buildwarden/relay".
Definition relayContainerfile : string :=
  text_line "FROM alpine:latest" ++ text_line "RUN apk add --no-cache ca-certificates" ++
  text_line "COPY relay /usr/local/bin/relay" ++ text_line "RUN chmod 0755 /usr/local/bin/relay" ++
  text_line "EXPOSE 53/udp 80 443 8301" ++
  text_line ("ENTRYPOINT [" ++ String "034" ("relay" ++ String "034" "]")).

Definition buildRelayFromSource : M (R unit) :=
  do! b := get id in
  let tmpBase := Join (workDir b) "relay-image" in
  let! _ := wrapped "error creating relay image dir" (do_ (CMkdirAll tmpBase)) in
  let! _ := do_ (CGoBuildLinux "./cmd/relay" (Join tmpBase "relay")) in
  let! _ := wrapped "error writing relay Containerfile" (do_ (CWriteFile (Join tmpBase "Containerfile") (bytes_of relayContainerfile))) in
  let tag := "warden-relay:" ++ buildID b in
  modify (set_relayImage tag) ;;
  wrapped "error building relay image" (do_ (CImageBuild tag (Join tmpBase "Containerfile") "" tmpBase)).

Definition resolveRelayImage : M (R unit) :=
  let img := RelayImage req in
  if decide (img = "dev" \/ (img = "" /\ Version D = "dev")) then
    modify (set_relayBuiltLocal true) ;; buildRelayFromSource
  else if decide (img <> "") then modify (set_relayImage img) ;; pullImage img
  else modify (set_relayImage (relayImageRepo ++ ":latest")) ;; pullImage (relayImageRepo ++ ":latest").

(** ** The environment record (environment.go) *)

(** [strings.Trim] of brackets, on both sides *)
Definition bracket (c : ascii) : bool := bool_decide (c = "["%char) || bool_decide (c = "]"%char).
Fixpoint trim_left_brackets (s : string) : string :=
  match s with String c s' => if bracket c then trim_left_brackets s' else s | "" => "" end.
Definition trim_brackets (s : string) : string := str_rev (trim_left_brackets (str_rev (trim_left_brackets s))).

(** From the first "sha256:" on. *)
Fixpoint from_digest (s : string) : option string :=
  if HasPrefix s "sha256:" then Some s else match s with String _ s' => from_digest s' | "" => None end.

(** Up to the first of the bytes [IndexAny] looks for. *)
Definition digest_end (c : ascii) : bool :=
  bool_decide (c ∈ [" "%char; "009"%char; "010"%char; "013"%char; "]"%char; "034"%char; "'"%char]).
Fixpoint until_end (s : string) : string :=
  match s with String c s' => if digest_end c then "" else String c (until_end s') | "" => "" end.

Definition parseDigestFromInspect (output : string) : string :=
  match from_digest (trim_brackets output) with
  | Some d => let d := until_end d in if slen d =? 71 then d else ""
  | None => ""
  end.

Definition extractNativeManifest (out : bytes) : option bytes :=
  match json_images out with
  | Some (img :: _) =>
      raw ← img !! "Manifest";
      if decide (raw = []) then None else json_compact raw
  | _ => None
  end.

Definition manifestMediaType : string := "application/vnd.oci.image.manifest.v1+json".

Definition getImageManifest (image : string) : M (bytes * string) :=
  do! m := do_ (CCli ["manifest"; "inspect"; image]) in
  let native :=
    do! n := do_ (CCli ["image"; "inspect"; "--mode=native"; image]) in
    match match n with inl out => extractNativeManifest (bytes_of out) | inr _ => None end with
    | Some m => ret (m, manifestMediaType)
    | None =>
        do! i := do_ (CCli ["image"; "inspect"; "--format"; "{{json .}}"; image]) in
        ret (match i with
             | inl out => (bytes_of out, "application/vnd.buildwarden.image-inspect.v1+json")
             | inr _ => (bytes_of "{}", "")
             end)
    end in
  match m with
  | inl out => if decide (out = "") then native else ret (bytes_of out, manifestMediaType)
  | inr _ => native
  end.

Definition ociEnvironment (image digest mediaType : string) (payload : bytes) : R environment :=
  match EnvironmentType payload with
  | Ok t =>
      if decide (t = EnvTypeOCIImage) then
        match cbor_marshal_map [("type", AText EnvTypeOCIImage); ("reference", AText image); ("digest", AText digest); ("mediaType", AText mediaType)] with
        | Ok meta => inl (mkEnv EnvTypeOCIImage payload meta)
        | Err e => inr (Failure (Wrap "encoding environment metadata" e))
        end
      else inr (Failure (Errorf "container runtime returned no image manifest for %s" [image]))
  | Err _ => inr (Failure (Errorf "container runtime returned no image manifest for %s" [image]))
  end.

Definition imageEnvironment (image : string) : M (R environment) :=
  do! out := do_ (CCli ["image"; "inspect"; "--format"; "{{json .RepoDigests}}"; image]) in
  match out with inr f => failed (Failure (Wrap "inspecting image" (exit_error f))) | inl out =>
  let digest := parseDigestFromInspect (TrimSpace out) in
  if decide (digest = "") then failed (Failure (Errorf "could not resolve digest for %s" [image]))
  else do! pm := getImageManifest image in ret (ociEnvironment image digest pm.2 pm.1)
  end.

(** [prepareEnvironment]; without a record the build goes on. *)
Definition prepareEnvironment : M (R (option environment)) :=
  do! image := get baseImage in
  let! _ := pullImage image in
  do! e := imageEnvironment image in
  ok (match e with inl env => Some env | inr _ => None end).

(** ** Setting up (container.go) *)
Definition stageBuildScript : M (R unit) :=
  let! r := wrapped "translating dockerfile" (do_ (CTranslate (Containerfile req) (ContextDir req))) in
  modify (set_baseImage r.1) ;;
  do! p := get scriptPath in
  wrapped "writing build script" (do_ (CWriteFile p (bytes_of r.2))).

(** [buildWardenIO] *)
Definition releasedWardenIO : M (option bytes) :=
  if decide (Version D = "dev") then ret None
  else do! e := do_ CExecutable in
       match e with
       | inl exe => do! data := do_ (CReadFile (Join (Translate.path_Dir exe) "warden-io")) in
                    ret (match data with inl d => Some d | inr _ => None end)
       | inr _ => ret None
       end.

Definition buildWardenIO : M (R unit) :=
  do! dest := get executorStagePath in
  let! _ := do_ (CMkdirAll (Translate.path_Dir dest)) in
  do! data := releasedWardenIO in
  match data with
  | Some d => do_ (CWriteFile dest d)
  | None => do_ (CGoBuildLinux "./cmd/warden-io" dest)
  end.

(** [driver.AllocateNetwork]: the first block the runtime takes, under the
    host's lock. *)
Fixpoint first_free (name : string) (bs : list Z) : M (R Subnet) :=
  match bs with
  | [] => failed (Failure (Errorf "no available /29 subnet in %s.0/24" [WardenBaseNet]))
  | b :: bs =>
      do! r := do_ (CNetworkCreate (CIDR (subnet_of b)) name) in
      match r with inl _ => ok (subnet_of b) | inr _ => first_free name bs end
  end.
Definition AllocateNetwork (name : string) : M (R Subnet) :=
  let! _ := do_ (CHostLock "network") in
  do! r := first_free name blocks in
  ignore (CUnlock "network") ;; ret r.

(** *** The relay *)
Definition relayPublishAttempts : nat := 8.

Definition to_lower (s : string) : string := str_map (fun c => if is_upper c then ascii_of_Z (code c + 32) else c) s.
Definition isPortConflict (stderr : string) : bool :=
  let s := to_lower stderr in
  Text.Contains s "port is already allocated" || Text.Contains s "address already in use" || Text.Contains s "bind for".

Definition TokenEnv : string := "WARDEN_CLAIM_TOKEN".

Definition relay_args (b : build) (name token : string) (port : Z) : list string :=
  ["container"; "run"; "--detach"; "--name"; name; "--network"; "warden-" ++ buildID b; "--ip"; RelayIP (subnet b);
   "--publish"; "127.0.0.1:" ++ Itoa port ++ ":" ++ Itoa Slots.Slots.DefaultPort; "--env"; TokenEnv ++ "=" ++ token; relayImage b].

Fixpoint relay_attempts (n : nat) (token : string) (lastErr : error) : M (R string) :=
  match n with
  | O => failed (Failure (Wrap "error starting relay container" lastErr))
  | S n =>
      do! b := get id in
      let name := "warden-relay-" ++ buildID b in
      let! port := wrapped "finding a free loopback port" (do_ CFreeLoopbackPort) in
      do! r := do_ (CCli (relay_args b name token port)) in
      match r with
      | inl out => modify (set_relayContainer (TrimSpace out)) ;; ok ("127.0.0.1:" ++ Itoa port)
      | inr f =>
          if isPortConflict (stderr f)
          then ignore (CContainerRm false name) ;; relay_attempts n token (with_stderr f)
          else failed (Failure (Wrap "error starting relay container" (with_stderr f)))
      end
  end.
Definition startRelayContainer (token : string) : M (R string) :=
  relay_attempts relayPublishAttempts token (Sentinel "nil").

Definition startSessionAndRelay (env : option environment) : M (R unit) :=
  do! b := get id in
  let! _ := do_ (CStartSession (outputDir b) (ContextDir req) (scriptPath b)) in
  modify (set_sess true) ;;
  let! token := do_ CRandomToken in
  let! addr := startRelayContainer token in
  do_ (CClaimRelay addr token env).

(** *** [setup] *)
Definition default_output : string := if decide (OutputDir req = "") then "warden-output" else OutputDir req.

Definition stage_inputs : M (R unit) :=
  do! id_ := do_ (CRandAlphaNum 8) in
  modify (set_buildID id_) ;;
  let! work := do_ (CNewWorkDir ("container-" ++ id_)) in
  modify (set_workDir work) ;;
  do! stage := get stagePath in
  let! _ := wrapped ("error creating " ++ stage) (do_ (CMkdirAll stage)) in
  let! _ := stageBuildScript in
  let! _ := buildWardenIO in
  modify (set_outputDir default_output) ;;
  let! _ := wrapped "error creating output dir" (do_ (CMkdirAll default_output)) in
  do! script := get scriptPath in
  wrapped "recording inputs" (do_ (CRecordInputs default_output script)).

Definition setup : M (R unit) :=
  let! _ := stage_inputs in
  let! _ := resolveRelayImage in
  let! _ := resolveSupportImages in
  let! env := prepareEnvironment in
  do! id_ := get buildID in
  let! sub := AllocateNetwork ("warden-" ++ id_) in
  modify (fun b => set_isolatedNetwork ("warden-" ++ id_) (set_subnet sub b)) ;;
  startSessionAndRelay env.

(** ** Starting the environment *)
Definition buildWorkdir : string := "/work".

Definition holder_args (b : build) : list string :=
  ["container"; "run"; "--detach"; "--name"; "warden-holder-" ++ buildID b; "--network"; isolatedNetwork b;
   "--dns"; RelayIP (subnet b); "--add-host"; "artifacts:" ++ RelayIP (subnet b); "--add-host"; "cwd:" ++ RelayIP (subnet b);
   "--cap-drop"; "ALL"; "--read-only"; "--security-opt"; "no-new-privileges"; holderImage b].
Definition startHolder : M (R unit) :=
  do! b := get id in
  let! out := wrapped "error starting namespace holder" (runCLI (holder_args b)) in
  modify (set_holderContainer out) ;; ok tt.

Definition isolate_args (b : build) : list string :=
  ["container"; "run"; "--rm"; "--network"; "container:" ++ holderContainer b; "--privileged"; netnsImage b;
   isolationRules (RelayIP (subnet b))].
Definition isolate : M (R unit) :=
  do! b := get id in wrapped "network isolation failed" (cli_ok (isolate_args b)).

Definition create_args (b : build) (hold : bool) : list string :=
  app ["container"; "create"; "--name"; "warden-build-" ++ buildID b; "--network"; "container:" ++ holderContainer b;
       "--user"; "0"; "--entrypoint"; executorPath; baseImage b; "initialize"; "--gateway=" ++ RelayIP (subnet b);
       "--workdir=" ++ buildWorkdir] (if hold then ["--hold"] else []).
Definition createBuildContainer (hold : bool) : M (R unit) :=
  do! b := get id in
  let! out := wrapped "error creating build container" (runCLI (create_args b hold)) in
  modify (set_buildContainer out) ;; ok tt.

(** [executorTar] *)
Definition executorTar (bin : bytes) : list tar_entry :=
  [mkTar true (TrimPrefix (Translate.path_Dir executorPath) "/" ++ "/") 493 []; mkTar false (TrimPrefix executorPath "/") 493 bin].

Definition copying : string := "error copying warden-io into the build container".
Definition copyExecutor : M (R unit) :=
  do! b := get id in
  if decide (Translate.path_Base (Runtime D) ∈ ["finch"; "nerdctl"]) then
    wrapped copying (do_ (CContainerCp (Translate.path_Dir (executorStagePath b) ++ "/.") (buildContainer b ++ ":" ++ Translate.path_Dir executorPath)))
  else
    let! bin := do_ (CReadFile (executorStagePath b)) in
    do! r := do_ (CCliIn ["container"; "cp"; "-"; buildContainer b ++ ":/"] (executorTar bin)) in
    ret (match r with inl _ => inl tt | inr f => inr (Failure (Wrap copying (with_stderr f))) end).

Definition startEnvironment (hold : bool) : M (R unit) :=
  let! _ := startHolder in
  let! _ := isolate in
  let! _ := createBuildContainer hold in
  let! _ := copyExecutor in
  do! c := get buildContainer in
  wrapped "error starting build container" (do_ (CContainerStart c)).

(** ** Waiting *)

(** The last 20 lines of the console. *)
Definition tail_lines (out : string) : string :=
  let lines := Split (TrimRightByte out "010") "010" in
  Text.Join (drop (length lines - 20) lines) (String "010" "").
Definition consoleTail : M string :=
  do! c := get buildContainer in do! l := do_ (CLogs c) in ret (tail_lines l.1).

Definition containerWait (r : string + cli_failure) : Z :=
  match r with inl out => default (-1) (BuildLink.BuildLink.Atoi (TrimSpace out)) | inr _ => -1 end.

Definition below (s : string) : string := s ++ ":" ++ String "010" "%s".

Definition waitBuild : M (R unit) :=
  do! c := get buildContainer in
  do! w := do_ (CWaitFirst c) in
  let early code := do! tail_ := consoleTail in
    failed (Failure (Errorf (below "build environment failed before the build ran (warden-io exited with code %d)") [Itoa code; tail_])) in
  match w with
  | Done Success => ok tt
  | Done o => failed o
  | Exited r =>
      let code := containerWait r in
      do! l := do_ CWaitGrace in
      match l with
      | DoneLate Success => ok tt
      | DoneLate (ExitError n d) => failed (ExitError n d)
      | DoneLate _ | GraceOver => early code
      end
  | Cancelled e => ignore (CContainerStop c) ;; failed (Failure e)
  end.

Definition shellEnvFile : string := "/etc/warden/shell.env".
Definition shellExitFile : string := "/.warden/shell-exit".

Definition containerRunning : M bool :=
  do! c := get buildContainer in
  do! r := do_ (CCli ["container"; "inspect"; "--format"; "{{.State.Running}}"; c]) in
  ret (match r with inl out => bool_decide (TrimSpace out = "true") | inr _ => false end).

(** [waitHeld]: two minutes hold 480 waits of a quarter of a second. *)
Definition held_passes : nat := 481.
Fixpoint held_loop (n : nat) : M (R unit) :=
  let timed_out := do! tail_ := consoleTail in failed (Failure (Errorf (below "build environment setup timed out") [tail_])) in
  match n with
  | O => timed_out
  | S n =>
      do! before := do_ (CBefore "held") in
      if before then
        do! c := get buildContainer in
        do! r := do_ (CContainerExec false c ["test"; "-f"; shellEnvFile]) in
        match r with
        | inl _ => ok tt
        | inr _ =>
            do! running := containerRunning in
            if running then let! _ := do_ CSleep in held_loop n
            else do! tail_ := consoleTail in failed (Failure (Errorf (below "build environment setup failed") [tail_]))
        end
      else timed_out
  end.
Definition waitHeld : M (R unit) := held_loop held_passes.

(** ** Tearing down *)
Definition collectLogs : M unit :=
  do! b := get id in
  do! l := do_ (CLogs (relayContainer b)) in
  when_ (l.2 && negb (bool_decide (l.1 = ""))) (ignore (CWriteFile (Join (outputDir b) "relay.log") (bytes_of l.1))) ;;
  if decide (buildContainer b = "") then ret tt
  else do! c := do_ (CLogs (buildContainer b)) in
       when_ (negb (bool_decide (c.1 = ""))) (ignore (CWriteFile (Join (outputDir b) "console.log") (bytes_of c.1))).

Fixpoint remove_containers (cs : list string) : M unit :=
  match cs with
  | [] => ret tt
  | c :: cs => when_ (negb (bool_decide (c = ""))) (ignore (CContainerRm true c)) ;; remove_containers cs
  end.

Definition teardown : M unit :=
  do! b := get id in
  when_ (sess b) (ignore CCloseSession) ;;
  when_ (negb (bool_decide (relayContainer b = "")) && negb (bool_decide (outputDir b = ""))) collectLogs ;;
  when_ (sess b) (ignore (CFinalizeOutput (outputDir b) (Compress req))) ;;
  when_ (negb (bool_decide (workDir b = ""))) (ignore (CRemoveAll (workDir b))) ;;
  remove_containers [buildContainer b; relayContainer b; holderContainer b] ;;
  when_ (relayBuiltLocal b && negb (bool_decide (relayImage b = ""))) (ignore (CImageRm (relayImage b))) ;;
  when_ (negb (bool_decide (isolatedNetwork b = ""))) (ignore (CNetworkRm (isolatedNetwork b))).

Definition torn_down {A} (m : M A) : M A := do! r := m in teardown ;; ret r.

(** ** The driver *)

(** [StartBuild]: the output directory, or why the build failed. *)
Definition StartBuild : M (R string) :=
  torn_down
    (let! _ := setup in
     let! _ := startEnvironment false in
     let! _ := waitBuild in
     do! out := get outputDir in ok out).

(** [execExitCode] (exitcode.go): the last "exec failed with exit code N" of
    what nerdctl prints, or the runtime's own status. *)
Definition exec_failed : string := "exec failed with exit code ".
Fixpoint digits_of (s : string) : string :=
  match s with String c s' => if is_digit c then String c (digits_of s') else "" | "" => "" end.
Fixpoint last_exit (s : string) : option string :=
  match s with
  | "" => None
  | String _ s' =>
      match last_exit s' with
      | Some d => Some d
      | None => match CutPrefix s exec_failed with
                | Some r => if decide (digits_of r = "") then None else Some (digits_of r)
                | None => None
                end
      end
  end.
Definition execExitCode (f : cli_failure) (stderrTail : string) : option Z :=
  match exit f with
  | None => None
  | Some c => match last_exit stderrTail ≫= BuildLink.BuildLink.Atoi with Some n => Some n | None => Some c end
  end.

Definition shellExitCode (f : cli_failure) : M (option Z) :=
  do! c := get buildContainer in
  do! r := do_ (CContainerExec false c ["cat"; shellExitFile]) in
  ret (match match r with inl out => BuildLink.BuildLink.Atoi (TrimSpace out) | inr _ => None end with
       | Some n => Some n
       | None => execExitCode f ""
       end).

Definition shell_command : string := ". " ++ shellEnvFile ++ "; sh; s=$?; echo $s > " ++ shellExitFile ++ "; exit $s".

(** [Exec] *)
Definition Exec : M (R unit) :=
  torn_down
    (let! _ := setup in
     let! _ := startEnvironment true in
     let! _ := waitHeld in
     do! c := get buildContainer in
     do! r := do_ (CContainerExec true c ["sh"; "-c"; shell_command]) in
     match r with
     | inl _ => ok tt
     | inr f => do! code := shellExitCode f in
                failed (match code with Some n => ExitError n "" | None => Failure (exit_error f) end)
     end).
End Build.
End Container.
