(* ===== verification/ContainerSafe.v ===== *)
(** * The network a container build runs in

    What the runtime's commands make of the containers' network namespaces, and
    that the build container never runs anything but in one that was isolated
    for it, with a relay claimed beside it. *)
From S2P Require Import Prelude Text Netip Crypto Session Environment Isolation Container ContainerSpec.

#[local] Open Scope string_scope.
#[local] Open Scope Z_scope.
#[local] Open Scope list_scope.

Module ContainerSafe.
Import Session.Session Environment Subnet Isolation Container ContainerSpec.

(** ** Network namespaces *)

(** The namespaces, by the container they were made for, and the containers
    that were put into another's. *)
Record spaces := mkSpaces { owned : gmap string netns; joined : gmap string string }.

Fixpoint option_value (k : string) (ws : list string) : option string :=
  match ws with
  | w :: ws => if String.eqb w k then head ws else option_value k ws
  | [] => None
  end.
(** [--network container:ID] *)
Definition joins (args : list string) : option string := v ← option_value "--network" args; CutPrefix v "container:".

(** The last argument is the script of a sidecar whose entrypoint is [sh -c]. *)
Definition sidecar (args : list string) : option (string * string) :=
  if decide (take 3 args = ["container"; "run"; "--rm"] /\ "--privileged" ∈ args)
  then h ← joins args; s ← last args; Some (h, s) else None.

Section Runtime.
Context (fresh : string -> netns) (has_legacy : bool).

(** The container that owns the namespace a container is in. *)
Definition owner (s : spaces) (c : string) : string := default c (joined s !! c).
Definition netns_of (s : spaces) (c : string) : option netns := owned s !! owner s c.

(** A command that succeeded. *)
Definition ran (s : spaces) (args : list string) (out : string) : spaces :=
  if leaves_container args then
    let c := TrimSpace out in
    match joins args with
    | Some h => mkSpaces (owned s) (<[c := owner s h]> (joined s))
    | None => mkSpaces (<[c := fresh c]> (owned s)) (delete c (joined s))
    end
  else
    match sidecar args with
    | Some (h, script) => mkSpaces (alter (fun ns => default ns (run_script has_legacy ns script)) (owner s h) (owned s)) (joined s)
    | None => s
    end.
Definition spaces_step (s : spaces) (e : ev) : spaces :=
  match e with
  | Ev c r => match c in call A return A -> spaces with
              | CCli args => fun r => match r with inl out => ran s args out | inr _ => s end
              | _ => fun _ => s
              end r
  end.
Definition after (t : trace) : spaces := foldl spaces_step (mkSpaces ∅ ∅) t.

(** The container in which an event runs something of the build's image. *)
Definition runs_in (e : ev) : option string :=
  match e with Ev c _ => match c with CContainerStart x => Some x | CContainerExec _ x _ => Some x | _ => None end end.

(** The container's packets go where the relay's address and the loopback are,
    on a network made for this build, whose relay was claimed. *)
Definition isolated_ns (blk : Z) (ns : netns) : Prop := forall p, leaves ns p = isolated (relay_addr blk) p.
Definition confined (t : trace) (c : string) : Prop :=
  claimed t /\ exists blk name ns, blk ∈ blocks /\ created blk name t /\ netns_of (after t) c = Some ns /\ isolated_ns blk ns.

(** Up to the end of the trace, whatever ran in a container ran confined, and
    what was started is confined still. *)
Definition safe (t : trace) : Prop := forall t1 e t2 c, t = t1 ++ e :: t2 -> runs_in e = Some c -> confined t1 c /\ confined t c.

(** Commands of the host in the container, only for the interactive shell. *)
Definition from_inside (shell : bool) (e : ev) : Prop :=
  match e with Ev c _ => match c with CContainerExec _ _ _ => shell = true | _ => True end end.

(** *** Events that change no namespace *)
Definition inert (e : ev) : Prop := forall s, spaces_step s e = s.

Lemma after_snoc t e : after (t ++ [e]) = spaces_step (after t) e.
Proof. unfold after. by rewrite foldl_app. Qed.

Lemma claimed_snoc t e : claimed t -> claimed (t ++ [e]).
Proof. intros (a & k & v & H). exists a, k, v. apply elem_of_app. by left. Qed.

Lemma created_snoc blk n t e : created blk n t -> created blk n (t ++ [e]).
Proof. intros H. apply elem_of_app. by left. Qed.

Lemma confined_inert t e c : inert e -> confined t c -> confined (t ++ [e]) c.
Proof.
  intros Hi (Hc & blk & n & ns & Hb & Hn & Ho & Hs). split; [by apply claimed_snoc|]. exists blk, n, ns.
  split; [done|]. split; [by apply created_snoc|]. by rewrite after_snoc, Hi.
Qed.

Lemma snoc_split {A} (t : list A) e t1 x t2 : t ++ [e] = t1 ++ x :: t2 -> (t2 = [] /\ t1 = t /\ x = e) \/ exists t3, t2 = t3 ++ [e] /\ t = t1 ++ x :: t3.
Proof.
  destruct t2 as [|y t2' _] using rev_ind.
  - intros H%app_inj_tail. left. naive_solver.
  - intros H. right. exists t2'. rewrite app_comm_cons, app_assoc in H. apply app_inj_tail in H as [H ->]. done.
Qed.

(** What has run, ran in [c]. *)
Definition only (c : string) (t : trace) : Prop := forall e x, e ∈ t -> runs_in e = Some x -> x = c.

Lemma safe_snoc c t e : inert e -> safe t -> only c t -> confined t c -> (forall x, runs_in e = Some x -> x = c) ->
  safe (t ++ [e]) /\ only c (t ++ [e]) /\ confined (t ++ [e]) c.
Proof.
  intros Hi Hs Ho Hc He. pose proof (confined_inert t e c Hi Hc) as Hc'. split; [|split; [|done] ].
  - intros t1 x t2 y Heq Hr. destruct (snoc_split _ _ _ _ _ Heq) as [(-> & -> & ->)|(t3 & -> & ->)].
    + rewrite (He y Hr). done.
    + destruct (Hs t1 x t3 y eq_refl Hr) as [H1 H2]. split; [done|by apply confined_inert].
  - intros x y [Hx|Hx%list_elem_of_singleton]%elem_of_app Hr; [by eapply Ho|]. subst x. by apply He.
Qed.

(** Events that run nothing in a container and change no namespace. *)
Definition harmless (e : ev) : Prop := runs_in e = None /\ inert e.
Class Steady (P : assertion) := { steady : forall b t e, harmless e -> P b t -> P b (t ++ [e]) }.

Lemma quiet_none e : quiet e <-> runs_in e = None.
Proof. destruct e as [A c r]. by destruct c. Qed.

Lemma quiet_inside shell e : quiet e -> from_inside shell e.
Proof. destruct e as [A c r]. by destruct c. Qed.

Definition Fquiet : assertion := fun _ t => Forall quiet t.

Lemma quiet_snoc t e : runs_in e = None -> Forall quiet t -> Forall quiet (t ++ [e]).
Proof. intros He Ht. apply Forall_app. split; [done|]. apply Forall_cons_2; [by apply quiet_none|by apply Forall_nil]. Qed.

#[local] Instance steady_quiet : Steady Fquiet.
Proof. split. intros b t e [He _] Ht. by apply quiet_snoc. Qed.

(** The build container [x] is up, or may be started. *)
Definition Up (shell : bool) (x : string) : assertion := fun b t =>
  buildContainer b = x /\ safe t /\ only x t /\ confined t x /\ Forall (from_inside shell) t.

Lemma up_snoc shell x b t e : inert e -> (forall y, runs_in e = Some y -> y = x) -> from_inside shell e -> Up shell x b t -> Up shell x b (t ++ [e]).
Proof.
  intros Hi He Hf (Hb & Hs & Ho & Hc & Hin). destruct (safe_snoc x t e Hi Hs Ho Hc He) as (? & ? & ?).
  split_and!; try done. apply Forall_app. split; [done|]. apply Forall_cons_2; [done|by apply Forall_nil].
Qed.

#[local] Instance steady_up shell x : Steady (Up shell x).
Proof.
  split. intros b t e [He Hi] H. apply up_snoc; [done|by rewrite He| |done]. by apply quiet_inside, quiet_none.
Qed.

Lemma quiet_up shell x b t : buildContainer b = x -> Forall quiet t -> confined t x -> Up shell x b t.
Proof.
  intros Hb Hq Hc. rewrite Forall_forall in Hq. split_and!; [done| | |done|].
  - intros t1 e t2 c -> Hr. specialize (Hq e). rewrite quiet_none in Hq. rewrite Hq in Hr; [done|]. apply elem_of_app. right. by left.
  - intros e y He Hr. apply Hq, quiet_none in He. by rewrite He in Hr.
  - apply Forall_forall. intros e He. by apply quiet_inside, Hq.
Qed.
End Runtime.

(** ** The programs *)
Section Programs.
Context (answer : forall A, trace -> call A -> A).
Context {HO : HashOps} {CB : CborOps} {JO : JsonOps} {JI : JsonImages} (D : driver) (req : request) (rel : release).
Context (fresh : string -> netns) (has_legacy : bool).

(** A namespace the runtime makes has nothing in its OUTPUT chains, and what the
    runtime puts in the legacy tables can be flushed. *)
Definition clean : Prop := forall c, nat_out (fresh c) = [] /\ filter_out (fresh c) = [] /\ (docker_output (fresh c) = [] \/ has_legacy = true).
Context (Hclean : clean).

#[local] Abbreviation inert := (inert fresh has_legacy).
#[local] Abbreviation after := (after fresh has_legacy).
#[local] Abbreviation confined := (confined fresh has_legacy).
#[local] Abbreviation Up := (Up fresh has_legacy).
#[local] Abbreviation Steady := (Steady fresh has_legacy).
#[local] Abbreviation harmless := (harmless fresh has_legacy).
#[local] Existing Instances steady_quiet steady_up.

(** *** Steps that change nothing *)
Lemma s_do {A} P `{!Steady P} (c : call A) : (forall r, harmless (Ev c r)) -> hoare P (do_ answer c) (fun _ => P).
Proof using Type. intros Hc b t H. exact (steady _ _ b t _ (Hc _) H). Qed.

Lemma s_step {A B} P `{!Steady P} (c : call A) (k : A -> M B) Q :
  (forall r, harmless (Ev c r)) -> (forall a, hoare P (k a) Q) -> hoare P (bind (do_ answer c) k) Q.
Proof using Type. intros Hc Hk. eapply h_bind; [by apply s_do|done]. Qed.

Lemma s_ignore {A} P `{!Steady P} (c : call A) : (forall r, harmless (Ev c r)) -> hoare P (ignore answer c) (fun _ => P).
Proof using Type. intros Hc. apply s_step; [exact _|done|]. by intros r b t H. Qed.

Lemma s_when P c (m : M unit) : hoare P m (fun _ => P) -> hoare P (when_ c m) (fun _ => P).
Proof using Type. intros Hm. destruct c; [done|]. by intros b t H. Qed.

Lemma s_seq P (m k : M unit) : hoare P m (fun _ => P) -> hoare P k (fun _ => P) -> hoare P (bind m (fun _ => k)) (fun _ => P).
Proof using Type. intros Hm Hk. eapply h_bind; [exact Hm|]. by intros u. Qed.

Lemma s_remove P `{!Steady P} cs : hoare P (remove_containers answer cs) (fun _ => P).
Proof using Type. induction cs as [|c cs IH]; [by intros b t H|]. apply s_seq; [|exact IH]. apply s_when. by apply s_ignore. Qed.

Lemma s_collectLogs P `{!Steady P} : hoare P (collectLogs answer) (fun _ => P).
Proof using Type.
  apply h_get_any. intros bb. apply s_step; [exact _|done|]. intros l. apply s_seq; [apply s_when; by apply s_ignore|].
  destruct (decide _); [by intros b t H|]. apply s_step; [exact _|done|]. intros c. apply s_when. by apply s_ignore.
Qed.

Lemma s_teardown P `{!Steady P} : hoare P (teardown answer req) (fun _ => P).
Proof using Type.
  apply h_get_any. intros bb. repeat first [by apply s_ignore | apply s_remove; exact _ | apply s_collectLogs; exact _ | apply s_when | apply s_seq].
Qed.

Lemma s_consoleTail P `{!Steady P} : hoare P (consoleTail answer) (fun _ => P).
Proof using Type. apply h_get_any. intros c. apply s_step; [exact _|done|]. by intros l b t H. Qed.

Lemma s_failing {A} P `{!Steady P} (k : string -> outcome) : hoare P (do! tail_ := consoleTail answer in failed (A := A) (k tail_)) (fun _ => P).
Proof using Type. eapply h_bind; [by apply s_consoleTail|]. by intros l b t H. Qed.

Lemma s_waitBuild P `{!Steady P} : hoare P (waitBuild answer) (fun _ => P).
Proof using Type.
  apply h_get_any. intros c. apply s_step; [exact _|done|]. intros [o|code|e]; cbv zeta.
  - destruct o; by intros b t H.
  - apply s_step; [exact _|done|]. intros [o|]; [destruct o; first [by intros b t H | by apply s_failing]|by apply s_failing].
  - eapply h_bind; [by apply s_ignore|]. by intros u b t H.
Qed.

(** *** Starting the environment *)
Definition Fset : assertion := fun b t => Forall quiet t /\ net b t /\ claimed t.

(** The holder has a namespace of its own. *)
Definition owns (b : build) (t : trace) (ns : netns) : Prop :=
  owned (after t) !! holderContainer b = Some ns /\ owner (after t) (holderContainer b) = holderContainer b.
Definition Fheld : assertion := fun b t => Fset b t /\ owns b t (fresh (holderContainer b)).
Definition Fisolated : assertion := fun b t =>
  Fset b t /\ exists blk ns, blk ∈ blocks /\ subnet b = subnet_of blk /\ created blk (isolatedNetwork b) t /\ owns b t ns /\ isolated_ns blk ns.
Definition Fready : assertion := fun b t => Forall quiet t /\ confined t (buildContainer b).

#[local] Instance steady_ready : Steady Fready.
Proof using Type. split. intros b t e [He Hi] [Hq Hc]. split; [by apply quiet_snoc|by apply confined_inert]. Qed.

Lemma fset_snoc b b' t e : runs_in e = None -> subnet b' = subnet b -> isolatedNetwork b' = isolatedNetwork b -> Fset b t -> Fset b' (t ++ [e]).
Proof using Type.
  intros He Hs Hi (Hq & (Hn & blk & Hb & Hsub & Hc) & Hcl). split; [by apply quiet_snoc|]. split; [|by apply claimed_snoc].
  split; [by rewrite Hi|]. exists blk. rewrite Hs, Hi. split; [done|]. split; [done|by apply created_snoc].
Qed.

Lemma s_runCLI args P (Q : string -> assertion) E :
  (forall b t out, P b t -> Q (TrimSpace out) b (t ++ [Ev (CCli args) (inl out)])) ->
  (forall b t f, P b t -> E b (t ++ [Ev (CCli args) (inr f)])) ->
  hoare P (runCLI answer args) (orelse E Q).
Proof using Type.
  intros HQ HE b t H. unfold runCLI, bind, Container.do_, ret. cbn [fst snd].
  destruct (answer _ t (CCli args)) as [out|f]; [by apply HQ|by apply HE].
Qed.

Lemma s_startHolder : hoare Fset (startHolder answer) (orelse Fquiet (fun _ => Fheld)).
Proof using Type.
  apply h_get_bind. intros bb. eapply h_andThen.
  - apply h_wrapped, (s_runCLI _ _ (fun out b t => Fset b t /\ owned (after t) !! out = Some (fresh out) /\ owner (after t) out = out)).
    + intros b t out [-> H]. split; [by apply fset_snoc with b|]. rewrite after_snoc. cbn [id spaces_step].
      assert (Hj : joins (holder_args b) = None) by (destruct H as (_ & (Hn & _) & _); exact Hn).
      unfold ran. change (leaves_container (holder_args b)) with true. cbv iota zeta. rewrite Hj. unfold owner. cbn [owned joined].
      by rewrite lookup_insert_eq, lookup_delete_eq.
    + intros b t f [-> H]. apply quiet_snoc; [done|]. by destruct H.
  - intros out b t (H & Ho & Hw). destruct H as (Hq & Hn & Hc). split; [|by split]. by split_and!.
Qed.

Lemma s_isolate : hoare Fheld (isolate answer) (orelse Fquiet (fun _ => Fisolated)).
Proof using Hclean.
  apply h_get_bind. intros bb. apply h_wrapped. intros b t [-> (Hset & Ho & Hw)]. unfold cli_ok, bind, Container.do_, ret. cbn [fst snd].
  destruct (answer _ t _) as [out|f]; [|apply quiet_snoc; [done|by destruct Hset] ].
  split; [by apply fset_snoc with b|]. destruct Hset as (_ & (_ & blk & Hb & Hs & Hc) & _).
  destruct (Hclean (holderContainer b)) as (Hnat & Hfil & Hleg).
  destruct (isolation_exact blk has_legacy (fresh (holderContainer b)) Hb Hnat Hfil Hleg) as (ns & Hrun & Hns).
  exists blk, ns. split; [done|]. split; [done|]. split; [by apply created_snoc|]. split; [|exact Hns].
  assert (Hsc : sidecar (isolate_args b) = Some (holderContainer b, isolationRules (RelayIP (subnet b)))).
  { unfold sidecar. rewrite decide_True; [|split; [done|unfold isolate_args; set_solver] ].
    assert (Hj : joins (isolate_args b) = Some (holderContainer b)) by done. by rewrite Hj. }
  unfold owns. rewrite after_snoc. cbn [id spaces_step]. unfold ran. change (leaves_container (isolate_args b)) with false. cbv iota.
  rewrite Hsc, Hw. unfold owner. cbn [owned joined]. rewrite lookup_alter_eq, Ho, Hs. cbn [fmap option_fmap option_map]. by rewrite Hrun.
Qed.

Lemma s_create hold : hoare Fisolated (createBuildContainer answer hold) (orelse Fquiet (fun _ => Fready)).
Proof using Type.
  apply h_get_bind. intros bb. eapply h_andThen.
  - apply h_wrapped, (s_runCLI _ _ (fun out b t => Forall quiet t /\ confined t out)).
    + intros b t out [-> ((Hq & _ & Hcl) & blk & ns & Hb & Hs & Hc & (Ho & Hw) & Hns)]. split; [by apply quiet_snoc|].
      split; [by apply claimed_snoc|]. exists blk, (isolatedNetwork b), ns. split; [done|]. split; [by apply created_snoc|]. split; [|done].
      rewrite after_snoc. cbn [id spaces_step]. unfold ran. assert (Hl : leaves_container (create_args b hold) = true) by (by destruct hold).
      assert (Hj : joins (create_args b hold) = Some (holderContainer b)) by (by destruct hold). rewrite Hl, Hj. cbv zeta iota. rewrite Hw.
      unfold netns_of, owner. cbn [owned joined]. by rewrite lookup_insert_eq.
    + intros b t f [-> H]. apply quiet_snoc; [done|]. by destruct H as [ [? _] _].
  - intros out b t (Hq & Hc). by split.
Qed.

Lemma s_wrapped {A} ctx P (m : M (R A)) : hoare P m (fun _ => P) -> hoare P (wrapped ctx m) (fun _ => P).
Proof using Type. intros Hm. eapply h_bind; [exact Hm|]. by intros r b t H. Qed.

Lemma s_always {A} P E (m : M (R A)) : hoare P m (fun _ => P) -> (forall b t, P b t -> E b t) -> hoare P m (orelse E (fun _ => P)).
Proof using Type. intros Hm HE. eapply h_mono; [exact Hm|done|]. intros [a|f] b t H; [done|by apply HE]. Qed.

Lemma s_copyExecutor P `{!Steady P} : hoare P (copyExecutor answer D) (fun _ => P).
Proof using Type.
  apply h_get_any. intros bb. destruct (decide _); [apply s_wrapped; by apply s_do|].
  eapply h_bind; [by apply s_do|]. intros [bin|f]; [|by intros b t H]. apply s_step; [exact _|done|]. by intros r b t H.
Qed.

(** A command in the build container itself. *)
Lemma s_inside shell x {A} (c : call A) : (forall r, inert (Ev c r)) -> (forall r, runs_in (Ev c r) = Some x) -> (forall r, from_inside shell (Ev c r)) ->
  hoare (Up shell x) (do_ answer c) (fun _ => Up shell x).
Proof using Type. intros Hi Hr Hf b t H. apply (up_snoc fresh has_legacy shell x b t (Ev c _)); [done| |done|done]. intros y. rewrite Hr. congruence. Qed.

(** Either nothing ran in a container, or the build's is up. *)
Definition Ends (shell : bool) : assertion := fun b t => Forall quiet t \/ exists x, Up shell x b t.
#[local] Instance steady_ends shell : Steady (Ends shell).
Proof using Type.
  split. intros b t e He [H|[x H] ]; [left; exact (steady (P := Fquiet) fresh has_legacy b t e He H)|right; exists x; exact (steady (P := Up shell x) fresh has_legacy b t e He H)].
Qed.

Definition Fup (shell : bool) : assertion := fun b t => Up shell (buildContainer b) b t.
#[local] Instance steady_fup shell : Steady (Fup shell).
Proof using Type. split. intros b t e He H. exact (steady (P := Up shell (buildContainer b)) fresh has_legacy b t e He H). Qed.

Lemma fup_ends shell b t : Fup shell b t -> Ends shell b t.
Proof using Type. intros H. right. by eexists. Qed.

Lemma s_startEnvironment shell hold : hoare Fset (startEnvironment answer D hold) (orelse (Ends shell) (fun _ => Fup shell)).
Proof using Hclean.
  assert (HE : forall {A} P (m : M (R A)) Q, hoare P m (orelse Fquiet Q) -> hoare P m (orelse (Ends shell) Q)).
  { intros A P m Q H. eapply h_mono; [exact H|done|]. intros [a|f] b t Hb; [exact Hb|by left]. }
  eapply h_andThen; [apply HE, s_startHolder|]. intros ?. eapply h_andThen; [apply HE, s_isolate|]. intros ?.
  eapply h_andThen; [apply HE, s_create|]. intros ?.
  eapply h_andThen; [apply HE, s_always; [apply s_copyExecutor; exact _|by intros b t [? _] ]|]. intros ?. apply h_get_bind. intros c.
  apply h_wrapped.
  eapply h_mono; [apply (s_inside shell c); by try intros ?|intros b t [-> [Hq Hc] ]; by apply quiet_up|].
  intros [u|f] b t H; [|right; by exists c]. destruct H as [Hb H]. change (Up shell (buildContainer b) b t). rewrite Hb. by split.
Qed.

(** *** Setting up *)
Lemma s_setup : hoare (fun b t => b = new_build /\ t = []) (setup answer D req rel) (orelse Fquiet (fun _ => Fset)).
Proof using Type.
  eapply h_mono; [apply (t_setup answer [] quiet (fun _ H => H))|intros b t [-> ->]|].
  - split; [exists []; split; [done|by apply Forall_nil]|]. split; [by intros x Hx%elem_of_nil|]. by split_and!.
  - intros [u|f] b t H.
    + destruct H as [ ((l & -> & Hq) & _ & (_ & Hn)) Hc]. by split.
    + destruct H as ((l & -> & Hq) & _). exact Hq.
Qed.

Lemma s_run {A} shell hold (k : unit -> M (R A)) : (hoare (Fup shell) (k tt) (fun _ => Fup shell)) ->
  hoare (fun b t => b = new_build /\ t = []) (let! _ := setup answer D req rel in let! u := startEnvironment answer D hold in k u) (fun _ => Ends shell).
Proof using Hclean.
  intros Hk. eapply (h_mono _ _ _ (orelse (Ends shell) (fun _ => Ends shell))); [|intros b t H; exact H|by intros [a|f] ].
  eapply h_andThen; [eapply h_mono; [apply s_setup|done|intros [u|f] b t H; [exact H|by left] ]|]. intros ?.
  eapply h_andThen; [apply s_startEnvironment|]. intros []. eapply h_mono; [exact Hk|intros b t H; exact H|]. intros [a'|f] b t H; by apply fup_ends.
Qed.

Lemma s_torn_down {A} shell P (m : M (R A)) : hoare P m (fun _ => Ends shell) -> hoare P (torn_down answer req m) (fun _ => Ends shell).
Proof using Type. intros Hm. eapply h_bind; [exact Hm|]. intros r. eapply h_bind; [apply s_teardown; exact _|]. by intros u b t H. Qed.

Lemma harmless_cli args : leaves_container args = false -> take 3 args <> ["container"; "run"; "--rm"] -> forall r, harmless (Ev (CCli args) r).
Proof using Type.
  intros Hl Ht [out|f]; split; try done. intros s. cbn [spaces_step]. unfold ran, sidecar. rewrite Hl, decide_False; [done|by intros [? _] ].
Qed.

Lemma s_held n x : hoare (Up true x) (held_loop answer n) (fun _ => Up true x).
Proof using Type.
  induction n as [|n IH]; cbn [held_loop]; cbv zeta; [apply s_failing; exact _|].
  apply s_step; [exact _|done|]. intros [|]; [|apply s_failing; exact _]. apply h_get_bind. intros c.
  eapply (h_bind _ _ _ (fun _ => Up true x)).
  - intros b t [-> H]. pose proof (proj1 H) as Hb. rewrite Hb. by apply (s_inside true x).
  - intros [out|f]; [by intros b t H|]. eapply (h_bind _ _ _ (fun _ => Up true x)).
    + apply h_get_any. intros c'. apply s_step; [exact _|by apply harmless_cli|by intros r b t H].
    + intros [|]; [|apply s_failing; exact _]. apply s_step; [exact _|done|]. intros [u|f']; [exact IH|by intros b t H].
Qed.

Lemma fup_up {A} (m : string -> M A) : (forall x, hoare (Up true x) (m x) (fun _ => Up true x)) ->
  hoare (Fup true) (do! c := get buildContainer in m c) (fun _ => Fup true).
Proof using Type.
  intros Hm b t H. pose proof (Hm _ b t H) as H'. change (Up true (buildContainer (m (buildContainer b) b t).1.1) (m (buildContainer b) b t).1.1 (m (buildContainer b) b t).1.2).
  rewrite (proj1 H'). exact H'.
Qed.

Lemma s_at_any {A} (m : M A) : (forall x, hoare (Up true x) m (fun _ => Up true x)) -> hoare (Fup true) m (fun _ => Fup true).
Proof using Type. intros Hm. apply (fup_up (fun _ => m)). exact Hm. Qed.

Lemma s_StartBuild : hoare (fun b t => b = new_build /\ t = []) (StartBuild answer D req rel) (fun _ => Ends false).
Proof using Hclean.
  eapply s_torn_down, (s_run false false (fun _ => let! _ := waitBuild answer in do! out := get outputDir in ok out)).
  eapply h_bind; [apply s_waitBuild; exact _|]. intros [u|f]; [|by intros b t H]. by intros b t H.
Qed.

Lemma s_shell x :
  hoare (Up true x) (do! r := do_ answer (CContainerExec true x ["sh"; "-c"; shell_command]) in match r with
     | inl _ => ok tt
     | inr f => do! code := shellExitCode answer f in failed (match code with Some n => ExitError n "" | None => Failure (exit_error f) end)
     end) (fun _ => Up true x).
Proof using Type.
  eapply h_bind; [by apply s_inside|]. intros [out|f]; [by intros b t H|]. eapply (h_bind _ _ _ (fun _ => Up true x)); [|by intros code b t H].
  apply h_get_bind. intros c. eapply (h_bind _ _ _ (fun _ => Up true x)); [|by intros r b t H].
  intros b t [-> H]. pose proof (proj1 H) as Hb. rewrite Hb. by apply (s_inside true x).
Qed.

Lemma s_Exec : hoare (fun b t => b = new_build /\ t = []) (Exec answer D req rel) (fun _ => Ends true).
Proof using Hclean.
  eapply s_torn_down, (s_run true true (fun _ => let! _ := waitHeld answer in do! c := get buildContainer in
     do! r := do_ answer (CContainerExec true c ["sh"; "-c"; shell_command]) in match r with
     | inl _ => ok tt
     | inr f => do! code := shellExitCode answer f in failed (match code with Some n => ExitError n "" | None => Failure (exit_error f) end)
     end)).
  eapply h_bind; [apply s_at_any, s_held|]. intros [u|f]; [|by intros b t H].
  apply fup_up. intros x. apply s_shell.
Qed.

Lemma ends_all shell b t : Ends shell b t -> safe fresh has_legacy t /\ Forall (from_inside shell) t /\ exists x, only x t.
Proof using Type.
  intros [Hq|(x & _ & Hs & Ho & _ & Hin)]; [|by eauto]. rewrite Forall_forall in Hq.
  assert (Hn : forall e y, e ∈ t -> runs_in e = Some y -> False) by (intros e y He; rewrite (proj1 (quiet_none e) (Hq e He)); done).
  split; [|split; [|by exists ""; intros e y He Hr; destruct (Hn e y He Hr)] ].
  - intros t1 e t2 c -> Hr. destruct (Hn e c); [|done]. apply elem_of_app. right. by left.
  - apply Forall_forall. intros e He. by apply quiet_inside, Hq.
Qed.
End Programs.

(** C8.  A build container is confined from its first instruction on: where the
    runtime makes a container's network namespace without rules of its own that
    cannot be flushed, a build starts its container only after a relay was
    claimed, and in the namespace of a holder on the build's own network whose
    rules let packets leave only as the isolation is documented, and they are
    these until the end of the run, whatever fails.  The host runs nothing in
    the container of a build, and the interactive shell's commands in the one
    container it started. *)
Theorem build_isolated (answer : forall A, trace -> call A -> A) {HO : HashOps} {CB : CborOps} {JO : JsonOps} {JI : JsonImages}
  (D : driver) (req : request) (rel : release) (fresh : string -> netns) (has_legacy : bool) :
  clean fresh has_legacy ->
  let built := (StartBuild answer D req rel new_build []).1.2 in
  let shell := (Exec answer D req rel new_build []).1.2 in
  (safe fresh has_legacy built /\ Forall (from_inside false) built) /\ (safe fresh has_legacy shell /\ exists x, only x shell).
Proof.
  intros Hc built shell.
  destruct (ends_all fresh has_legacy _ _ _ (s_StartBuild answer D req rel fresh has_legacy Hc new_build [] (conj eq_refl eq_refl))) as (? & ? & _).
  destruct (ends_all fresh has_legacy _ _ _ (s_Exec answer D req rel fresh has_legacy Hc new_build [] (conj eq_refl eq_refl))) as (? & _ & ?).
  by split_and!.
Qed.

(** ** A run *)
Section Example_run.
Import Crypto.Toy.
#[local] Instance ex_container_json : JsonOps := {
  json_object := fun _ => Err (Sentinel "json"); json_decode_chain := fun _ => Err (Sentinel "json"); json_marshal_chain := fun _ => Err (Sentinel "json") }.
#[local] Instance ex_images_json : JsonImages := { json_images := fun _ => None; json_compact := fun _ => None }.

(** Everything succeeds; a container's id is made of its name. *)
Definition ex_cli (args : list string) : string :=
  if leaves_container args then "id-" ++ default "" (option_value "--name" args) else "".
Definition ex_answer (A : Type) (t : trace) (c : call A) : A :=
  match c in call A return A with
  | CCli args => inl (ex_cli args)
  | CCliIn _ _ => inl tt
  | CLogs _ => ("console", true)
  | CNetworkCreate cidr _ => if decide (cidr = CIDR (subnet_of 0)) then inr (Failure (Sentinel "overlap")) else inl tt
  | CNetworkRm _ | CContainerStart _ | CContainerStop _ | CContainerRm _ _ | CContainerCp _ _ => inl tt
  | CContainerExec _ _ _ => inl ""
  | CImageBuild _ _ _ _ | CImageRm _ | CHostLock _ => inl tt
  | CUnlock _ | CRemoveAll _ | CCloseSession | CFinalizeOutput _ _ => tt
  | CRandAlphaNum _ => "k3f9q2ab"
  | CRandomToken => inl "token"
  | CFreeLoopbackPort => inl 40001
  | CNewWorkDir name => inl ("/var/warden/" ++ name)
  | CMkdirAll _ | CWriteFile _ _ | CGoBuildLinux _ _ | CRecordInputs _ _ | CStartSession _ _ _ | CClaimRelay _ _ _ | CSleep => inl tt
  | CReadFile _ => inl []
  | CExecutable => inl "/usr/bin/warden"
  | CTranslate _ _ => inl ("alpine:3", "set -e")
  | CWaitFirst _ => Done Success
  | CWaitGrace => GraceOver
  | CBefore _ => true
  end%string.

Definition ex_request : request := mkRequest "." "Containerfile" "" "relay:1" false.
Definition ex_driver : driver := mkDriver "docker" "1.0".
Definition ex_release : release := mkRelease "holder:1" "netns:1" [] [] "amd64".
Definition ex_fresh (c : string) : netns := mkNetns {["DOCKER_OUTPUT" := [mkRule None (Some 53) None (DNAT (Netip.AddrFrom4 127 0 0 11) 35000)]]} [] [].
Definition ex_trace : trace := (StartBuild ex_answer ex_driver ex_request ex_release new_build []).1.2.

(** The build container was started, in the second network. *)
Example ex_started :
  existsb (fun e => bool_decide (runs_in e = Some "id-warden-build-k3f9q2ab")) ex_trace = true /\
  pending ex_trace = [] /\ length ex_trace = 43%nat.
Proof. vm_compute. split_and!; reflexivity. Qed.

Lemma build_isolated_witness :
  clean ex_fresh true /\ existsb (fun e => bool_decide (runs_in e = Some "id-warden-build-k3f9q2ab")) ex_trace = true /\
  safe ex_fresh true ex_trace.
Proof.
  assert (Hc : clean ex_fresh true) by (intros c; split_and!; [done|done|by right]).
  split; [exact Hc|]. split; [vm_compute; reflexivity|]. exact (proj1 (proj1 (build_isolated ex_answer ex_driver ex_request ex_release ex_fresh true Hc))).
Defined.
End Example_run.
End ContainerSafe.
