(* ===== verification/Command.v ===== *)
(** * The warden command (src/cmd/warden/main.go, config.go; src/driver/age.go)

    From the configuration files, the environment and the flags to the request
    a driver gets, and from a build's outcome to warden's exit status.  The
    files' TOML, the host's files and programs, and the drivers' runs are asked;
    the flags are as the command line library set them. *)
From S2P Require Import Prelude Text Netip BuildLink Translate Session Isolation Slots Failure.

#[local] Open Scope string_scope.
#[local] Open Scope Z_scope.

Module Command.
Import Netip BuildLink Failure Subnet.

Abbreviation outcome := Session.Session.outcome.
Abbreviation R A := (A + failure)%type.

Definition try {A B} (r : R A) (k : A -> R B) : R B := match r with inl a => k a | inr f => inr f end.
Notation "'let+' x := r 'in' k" := (try r (fun x => k)) (at level 10, x name, r at level 100, k at level 200).

(** ** Configuration (config.go) *)
Record RuntimeConfig := mkRuntime { CLI : string; Driver : string; rRelayImage : string }.
Record RelayConfig := mkRelayConfig { rUpstreamCACerts : list string; SystemCABundle : option bool }.
Record BuildCfg := mkBuildCfg {
  Dockerfile : string; bContext : string; Capture : string; bOutputDir : string; bCompress : option bool; bTempDir : string }.
Record VMConfig := mkVM {
  vCPUs : Z; vMemoryMB : Z; vNetwork : string; vImageRefreshAfter : string; vImageMinGrace : string;
  WindowsImage : string; WindowsImageUpdate : string; vBuildLink : string; BuildLinkSource : string }.
Record OutputConfig := mkOutput { Color : string; Verbose : bool }.
Record Config := mkConfig { Runtime : RuntimeConfig; Relay : RelayConfig; Build : BuildCfg; VM : VMConfig; Output : OutputConfig }.

Definition default_config : Config :=
  mkConfig (mkRuntime "" "" "") (mkRelayConfig [] None) (mkBuildCfg "" "" "" "" None "")
    (mkVM 0 0 "" "" "" "" "" "" "") (mkOutput "auto" false).

(** A file's keys, [None] where it does not define one. *)
Record doc := mkDoc {
  d_cli : option string; d_driver : option string; d_relay_image : option string;
  d_upstream_ca_certs : option (list string); d_system_ca_bundle : option bool;
  d_dockerfile : option string; d_context : option string; d_capture : option string; d_output_dir : option string;
  d_compress : option bool; d_tmpdir : option string;
  d_cpus : option Z; d_memory_mb : option Z; d_network : option string; d_image_refresh_after : option string;
  d_image_min_grace : option string; d_windows_image : option string; d_windows_image_update : option string;
  d_build_link : option string; d_color : option string; d_verbose : option bool }.

Definition over {A} (d : option A) (old : A) : A := default old d.
Definition over_ptr {A} (d : option A) (old : option A) : option A := match d with Some x => Some x | None => old end.

(** Decoding into a configuration: keys a file does not define keep their value. *)
Definition decode_into (d : doc) (c : Config) : Config :=
  let r := Runtime c in let y := Relay c in let b := Build c in let v := VM c in let o := Output c in
  mkConfig
    (mkRuntime (over (d_cli d) (CLI r)) (over (d_driver d) (Driver r)) (over (d_relay_image d) (rRelayImage r)))
    (mkRelayConfig (over (d_upstream_ca_certs d) (rUpstreamCACerts y)) (over_ptr (d_system_ca_bundle d) (SystemCABundle y)))
    (mkBuildCfg (over (d_dockerfile d) (Dockerfile b)) (over (d_context d) (bContext b)) (over (d_capture d) (Capture b))
       (over (d_output_dir d) (bOutputDir b)) (over_ptr (d_compress d) (bCompress b)) (over (d_tmpdir d) (bTempDir b)))
    (mkVM (over (d_cpus d) (vCPUs v)) (over (d_memory_mb d) (vMemoryMB v)) (over (d_network d) (vNetwork v))
       (over (d_image_refresh_after d) (vImageRefreshAfter v)) (over (d_image_min_grace d) (vImageMinGrace v))
       (over (d_windows_image d) (WindowsImage v)) (over (d_windows_image_update d) (WindowsImageUpdate v))
       (over (d_build_link d) (vBuildLink v)) (BuildLinkSource v))
    (mkOutput (over (d_color d) (Color o)) (over (d_verbose d) (Verbose o))).

Definition set_runtime (r : RuntimeConfig) (c : Config) : Config := mkConfig r (Relay c) (Build c) (VM c) (Output c).
Definition set_relay (r : RelayConfig) (c : Config) : Config := mkConfig (Runtime c) r (Build c) (VM c) (Output c).
Definition set_output (o : OutputConfig) (c : Config) : Config := mkConfig (Runtime c) (Relay c) (Build c) (VM c) o.
Definition set_source (s : string) (c : Config) : Config :=
  let v := VM c in
  mkConfig (Runtime c) (Relay c) (Build c)
    (mkVM (vCPUs v) (vMemoryMB v) (vNetwork v) (vImageRefreshAfter v) (vImageMinGrace v) (WindowsImage v) (WindowsImageUpdate v)
       (vBuildLink v) s) (Output c).

(** *** The build link *)
Definition exampleBuildLink : string := "100.126.255.252/30".
Definition DefaultNATPrefix : string := "192.168.240.0/20".
Definition UserNetCIDR : string := "10.0.2.0/24".

Definition quoted (s : string) : string := String "034" (s ++ String "034" "").

Definition linkRanges : list Range :=
  [mkRange "the container driver's network" ContainerBaseCIDR;
   mkRange "the firecracker driver's upstream range" Slots.upstreamNet;
   mkRange "the hyperv driver's default NAT" DefaultNATPrefix;
   mkRange "qemu's user-mode network" UserNetCIDR].

Definition checkBuildLink (s : string) : result Link :=
  match BuildLink.Parse s with
  | Err e => Err e
  | Ok link => match Disjoint link linkRanges with Some e => Err e | None => Ok link end
  end.

(** *** The host *)
Class Host := {
  getenv : string -> string;
  UserHomeDir : result string;
  (** whether a path is there, and a directory *)
  stat : string -> result bool;
  DecodeFile : string -> result doc;
  Getwd : result string;
  LookPath : string -> bool;
  (** [NAME info], within three seconds *)
  info : string -> bool }.

(** What the standard library computes with floating point: the nanoseconds of
    a decimal fraction of a unit; the sign and nanoseconds of a number of days. *)
Class Floats := { fraction_ns : string -> Z -> Z; days_ns : string -> option (bool * Z) }.

Section Load.
Context {H : Host}.

Definition there (path : string) : bool := is_ok (stat path).

Definition loadTOML (path : string) (cfg : Config) : R Config :=
  if there path then
    match DecodeFile path with
    | Err e => inr (Fixable ("fix the TOML syntax in " ++ path) (Wrap ("parsing " ++ path) e))
    | Ok d =>
        let cfg := decode_into d cfg in
        if decide (is_Some (d_build_link d)) then
          match checkBuildLink (vBuildLink (VM cfg)) with
          | Err e => inr (Fixable ("set [vm] build_link in " ++ path ++ " to a valid /30, e.g. build_link = " ++ quoted exampleBuildLink ++
                                   ", or remove it to use the default") (Wrap ("[vm] build_link in " ++ path) e))
          | Ok _ => inl (set_source (Translate.path_Base path) cfg)
          end
        else inl cfg
    end
  else inl cfg.

Definition set_cli (s : string) (c : Config) : Config := set_runtime (mkRuntime s (Driver (Runtime c)) (rRelayImage (Runtime c))) c.
Definition set_driver (s : string) (c : Config) : Config := set_runtime (mkRuntime (CLI (Runtime c)) s (rRelayImage (Runtime c))) c.
Definition set_image (s : string) (c : Config) : Config := set_runtime (mkRuntime (CLI (Runtime c)) (Driver (Runtime c)) s) c.
Definition add_certs (s : string) (c : Config) : Config :=
  set_relay (mkRelayConfig (rUpstreamCACerts (Relay c) ++ Split s ":")%list (SystemCABundle (Relay c))) c.
Definition set_color (s : string) (c : Config) : Config := set_output (mkOutput s (Verbose (Output c))) c.
Definition set_verbose (c : Config) : Config := set_output (mkOutput (Color (Output c)) true) c.

(** [if s != "" { ... }] *)
Definition if_set (s : string) (f : string -> Config -> Config) (c : Config) : Config := if decide (s = "") then c else f s c.

Definition apply_env (cfg : Config) : Config :=
  let cfg := if_set (getenv "WARDEN_CTR_CLI") set_cli cfg in
  let cfg := if_set (getenv "WARDEN_DRIVER") set_driver cfg in
  let cfg := if_set (getenv "WARDEN_IMAGE") set_image cfg in
  let cfg := if_set (getenv "WARDEN_UPSTREAM_CA_CERTS") add_certs cfg in
  let cfg := if_set (getenv "NO_COLOR") (fun _ => set_color "never") cfg in
  if_set (getenv "WARDEN_VERBOSE") (fun _ => set_verbose) cfg.

Definition userPath (home : string) : string := Session.Session.Join (Session.Session.Join (Session.Session.Join home ".config") "warden") "config.toml".

Definition LoadConfig : R Config :=
  let+ cfg := match UserHomeDir with Ok home => loadTOML (userPath home) default_config | Err _ => inl default_config end in
  let+ cfg := loadTOML "warden.toml" cfg in
  inl (apply_env cfg).

(** *** The container runtime *)
Definition runtimeStartHint (name : string) : string :=
  if String.eqb name "finch" then "start its VM: finch vm start (or finch vm init the first time)"
  else if String.eqb name "podman" then "start its machine: podman machine start (or podman machine init the first time)"
  else "start Docker (Docker Desktop, or the docker service)".

Fixpoint probe (names installed : list string) : R string :=
  match names with
  | name :: names =>
      if LookPath name then
        if info name then inl name else probe names (installed ++ [name])%list
      else probe names installed
  | [] =>
      match installed with
      | [] => inr (Fixable "install Finch (brew install --cask finch && finch vm init), Docker or Podman, or use a VM driver (--driver qemu or vz)"
                     (Msg "no container runtime found (tried finch, docker, podman)"))
      | first :: _ => inr (Fixable (runtimeStartHint first)
                        (Errorf "container runtime %s is installed but not running (`%s info` failed)" [Join installed ", "; first]))
      end
  end.
Definition DetectRuntime : R string := probe ["finch"; "docker"; "podman"] [].

(** *** What to build *)
Definition Abs (p : string) : result string :=
  if HasPrefix p "/" then Ok (Translate.path_Clean p)
  else match Getwd with Ok cwd => Ok (Session.Session.Join cwd p) | Err e => Err e end.

(** [filepath.Ext] *)
Definition path_Ext (p : string) : string :=
  match rev (Split (List.last (Split p "/") "") ".") with
  | e :: _ :: _ => "." ++ e
  | _ => ""
  end.
Definition to_lower (s : string) : string := str_map (fun c => if is_upper c then ascii_of_Z (code c + 32) else c) s.
Definition isScriptName (p : string) : bool := let e := to_lower (path_Ext p) in String.eqb e ".sh" || String.eqb e ".ps1".

Definition no_access (path : string) (e : error) : failure := Fixable "" (Wrap ("cannot access " ++ path) e).

Definition discoverDockerfile (dir : string) : R string :=
  match filter (fun p => there p = true) (Session.Session.Join dir <$> ["Dockerfile"; "Containerfile"]) with
  | candidate :: _ => inl candidate
  | [] => inr (Fixable "pass the Dockerfile's path, or the directory that holds it"
                 (Errorf "no Dockerfile or Containerfile found in %s" [dir]))
  end.

Definition or_here (path : string) : string := if decide (path = "") then "." else path.

Definition ResolvePath (path : string) : R (string * string) :=
  let path := or_here path in
  match stat path with
  | Err e => inr (no_access path e)
  | Ok isDir =>
      let+ abs := attempt (Abs path) in
      if isDir then let+ df := discoverDockerfile abs in inl (df, abs)
      else inl (abs, Translate.path_Dir abs)
  end.

Definition vmDockerfile (abs contextDir : string) (isDir : bool) : string :=
  if negb isDir && negb (isScriptName abs) then abs
  else match discoverDockerfile contextDir with inl df => df | inr _ => "" end.

Definition requireBuildFile (contextDir : string) (windows : bool) : R unit :=
  let want := if windows then "build.ps1" else "build.sh" in
  if there (Session.Session.Join contextDir want) then inl tt
  else inr (Fixable "" (Errorf "nothing to build in %s: pass --script, or add %s%s"
              [contextDir; want; if windows then "" else " or a Dockerfile"])).

Definition resolveVMBuildInput (path guestOS script : string) : R (string * string * string) :=
  let path := or_here path in
  let+ abs := attempt (Abs path) in
  match stat abs with
  | Err e => inr (no_access path e)
  | Ok isDir =>
      let contextDir := if isDir then abs else Translate.path_Dir abs in
      let script := if negb isDir && isScriptName abs && bool_decide (script = "") then abs else script in
      let windows := String.eqb guestOS "windows" in
      let dockerfile := if windows then "" else vmDockerfile abs contextDir isDir in
      if decide (script <> "" \/ dockerfile <> "") then inl (dockerfile, contextDir, script)
      else let+ _ := requireBuildFile contextDir windows in inl ("", contextDir, "")
  end.

Definition resolveBuildInput (path driverName guestOS script : string) : R (string * string * string) :=
  if decide (driverName = "" \/ driverName = "container")
  then let+ dc := ResolvePath path in inl (dc.1, dc.2, "")
  else resolveVMBuildInput path guestOS script.

(** ** Flags (main.go) *)
Record Flags := mkFlags {
  flagRuntime : string; flagDriver : string; flagVerbose : bool; flagColor : string; flagCapture : string; flagOutput : string;
  flagNoCompress : bool; flagScript : string; flagImage : string; flagGuestOS : string; flagTimeout : string; flagQuiet : bool;
  flagCPUs : Z; flagMemoryMB : Z; flagNetwork : string; flagKeepVMs : bool; flagTempDir : string; flagBuildLink : string }.

Section Flagged.
Context {F : Floats} (fl : Flags).

Definition known_drivers : list string := ["container"; "qemu"; "vz"; "hyperv"; "firecracker"].
Definition validateDriver (d : string) : R unit :=
  if decide (d = "" \/ d ∈ known_drivers) then inl tt
  else inr (Fixable "" (Errorf "unknown driver %q (valid: container, qemu, vz, hyperv, firecracker)" [d])).

Definition captures : list string := ["none"; "headers"; "bodies"; "all"].
Definition validateCapture (c : string) : R unit :=
  if decide (c = "" \/ c ∈ captures) then inl tt
  else inr (Fixable "" (Errorf "invalid capture mode %q (valid: none, headers, bodies, all)" [c])).

Definition isVMDriver (d : string) : bool := bool_decide (d ∈ ["qemu"; "vz"; "hyperv"; "firecracker"]).

Definition set_ (s : string) : bool := negb (bool_decide (s = "")).
Definition vm_flags : list (bool * string) :=
  [(set_ (flagScript fl), "--script"); (set_ (flagImage fl), "--image"); (negb (flagCPUs fl =? 0), "--cpus");
   (negb (flagMemoryMB fl =? 0), "--memory"); (flagKeepVMs fl, "--keep-vms"); (set_ (flagBuildLink fl), "--build-link")].

Definition validateFlagsForDriver (d : string) : R unit :=
  match filter (fun f => f.1 && negb (isVMDriver d) = true) vm_flags with
  | f :: _ => inr (Fixable "" (Errorf "%s requires a VM driver (--driver qemu, vz, hyperv or firecracker)" [f.2]))
  | [] =>
      if decide (flagNetwork fl <> "" /\ d <> "hyperv") then
        inr (Fixable (if String.eqb d "firecracker"
                      then "drop --network: firecracker builds use the slots 'warden setup --driver firecracker' made" else "")
               (Msg "--network is only used by --driver hyperv"))
      else inl tt
  end.

Definition validateGuestOS (guestOS driverName : string) : R unit :=
  if decide (guestOS ∉ [""; "linux"; "windows"]) then
    inr (Fixable "" (Errorf "invalid --guest-os %q (want %q or %q)" [guestOS; "linux"; "windows"]))
  else if decide (guestOS = "windows" /\ driverName <> "qemu" /\ driverName <> "hyperv") then
    inr (Fixable "" (Msg "--guest-os windows is currently only supported by --driver qemu or --driver hyperv"))
  else inl tt.

Definition resolveConfig : R Config :=
  let+ cfg := LoadConfig in
  let cfg := if_set (flagRuntime fl) set_cli cfg in
  let cfg := if_set (flagDriver fl) set_driver cfg in
  let cfg := if flagVerbose fl then set_verbose cfg else cfg in
  let cfg := if_set (flagColor fl) set_color cfg in
  let+ _ := validateDriver (Driver (Runtime cfg)) in inl cfg.

Definition resolveRuntime (cfg : Config) : R string := if decide (CLI (Runtime cfg) = "") then DetectRuntime else inl (CLI (Runtime cfg)).

Definition or_else (flag conf : string) : string := if decide (flag = "") then conf else flag.

Definition resolveCapture (cfg : Config) : R string :=
  let capture := or_else (flagCapture fl) (Capture (Build cfg)) in
  let+ _ := validateCapture capture in inl capture.
Definition resolveOutputDir (cfg : Config) : string := or_else (flagOutput fl) (or_else (bOutputDir (Build cfg)) "warden-output").
Definition resolveCompress (cfg : Config) : bool :=
  match bCompress (Build cfg) with Some false => false | _ => negb (flagNoCompress fl) end.
Definition resolveSystemCA (cfg : Config) : bool := default true (SystemCABundle (Relay cfg)).
Definition resolveNetwork (cfg : Config) (d : string) : string :=
  if decide (flagNetwork fl = "" /\ d = "hyperv") then vNetwork (VM cfg) else flagNetwork fl.
Definition vmFlagOr (flag conf : Z) (isVM : bool) : Z := if negb (flag =? 0) || negb isVM then flag else conf.

Definition resolveTempDir (cfg : Config) : R string :=
  let tempDir := or_else (flagTempDir fl) (bTempDir (Build cfg)) in
  if decide (tempDir = "") then inl ""
  else match Abs tempDir with Ok abs => inl abs | Err e => inr (Fixable "" (Wrap "invalid --tmpdir" e)) end.

Definition resolveBuildLink (cfg : Config) : R (Link * string) :=
  if decide (flagBuildLink fl <> "") then
    match checkBuildLink (flagBuildLink fl) with
    | Ok link => inl (link, "--build-link")
    | Err e => inr (Fixable ("pass --build-link a valid /30, e.g. --build-link " ++ exampleBuildLink) (Wrap "--build-link" e))
    end
  else if decide (vBuildLink (VM cfg) <> "") then
    match checkBuildLink (vBuildLink (VM cfg)) with
    | Ok link => inl (link, BuildLinkSource (VM cfg))
    | Err e => inr (Fixable "" (Wrap ("[vm] build_link in " ++ BuildLinkSource (VM cfg)) e))
    end
  else inl (Default, "default").

(** *** Durations, in nanoseconds *)
Definition units : list (string * Z) :=
  [("ns", 1); ("us", 10 ^ 3); (String "194" (String "181" "s"), 10 ^ 3); (String "206" (String "188" "s"), 10 ^ 3);
   ("ms", 10 ^ 6); ("s", 10 ^ 9); ("m", 60 * 10 ^ 9); ("h", 3600 * 10 ^ 9)].
Definition unit_of (u : string) : option Z := snd <$> List.find (fun p => String.eqb p.1 u) units.

Fixpoint take_digits (s : string) : string * string :=
  match s with
  | String c s' => if is_digit c then let '(d, r) := take_digits s' in (String c d, r) else ("", s)
  | "" => ("", "")
  end.
(** Up to the next number. *)
Fixpoint take_unit (s : string) : string * string :=
  match s with
  | String c s' => if is_digit c || bool_decide (c = "."%char) then ("", s) else let '(u, r) := take_unit s' in (String c u, r)
  | "" => ("", "")
  end.

(** One number with its unit, and what follows. *)
Definition duration_part (s : string) : option (Z * string) :=
  let '(whole, s) := take_digits s in
  let '(frac, s) := match s with
                    | String c s' => if decide (c = "."%char) then take_digits s' else ("", s)
                    | "" => ("", "")
                    end in
  if decide (whole = "" /\ frac = "") then None else
  let '(u, s) := take_unit s in
  unit ← unit_of u;
  v ← (if decide (whole = "") then Some 0 else digits_val 0 whole);
  if v >? 2 ^ 63 / unit then None else
  let v := v * unit + (if decide (frac = "") then 0 else fraction_ns frac unit) in
  if v >? 2 ^ 63 then None else Some (v, s).

Fixpoint duration_parts (n : nat) (d : Z) (s : string) : option Z :=
  match n with
  | O => None
  | S n => if decide (s = "") then Some d
           else '(v, s) ← duration_part s; if d + v >? 2 ^ 63 then None else duration_parts n (d + v) s
  end.

(** [time.ParseDuration] *)
Definition ParseDuration (s : string) : result Z :=
  let invalid := Err (Errorf "time: invalid duration %q" [s]) in
  let '(neg, body) := match s with
                      | String c s' => if decide (c = "-"%char) then (true, s') else if decide (c = "+"%char) then (false, s') else (false, s)
                      | "" => (false, "")
                      end in
  if decide (body = "0") then Ok 0
  else if decide (body = "") then invalid
  else match duration_parts (S (String.length body)) 0 body with
       | Some d => if neg then Ok (- d) else if d >? 2 ^ 63 - 1 then invalid else Ok d
       | None => invalid
       end.

(** [driver.ParseAge] *)
Definition ParseAge (s : string) : result Z :=
  let s := TrimSpace s in
  let invalid := Err (Errorf "invalid age %q" [s]) in
  match CutSuffix s "d" with
  | Some days => match days_ns days with Some (false, n) => Ok n | _ => invalid end
  | None => match ParseDuration s with Ok d => if d <? 0 then invalid else Ok d | Err _ => invalid end
  end.

Definition resolveTimeout : R Z :=
  if decide (flagTimeout fl = "") then inl 0
  else match ParseDuration (flagTimeout fl) with
       | Ok t => inl t
       | Err e => inr (Fixable "give a Go duration such as 30s, 10m or 1h" (Wrap "invalid --timeout" e))
       end.

Definition configAge (key v : string) : R Z :=
  if decide (v = "") then inl 0
  else match ParseAge v with
       | Ok d => inl d
       | Err e => inr (Fixable ("set it to an age such as " ++ quoted "7d" ++ " or " ++ quoted "36h") (Wrap ("warden.toml [vm] " ++ key) e))
       end.

(** ** The request *)
Record BuildRequest := mkRequest {
  qImageRefreshAfter : Z; qImageMinGrace : Z; qScript : string; qContextDir : string; qImage : string; qGuestOS : string;
  qContainerfile : string; qOutputDir : string; qCaptureMode : string; qCompress : bool; qQuiet : bool; qTimeout : Z;
  qCPUs : Z; qMemoryMB : Z; qNetwork : string; qKeepVMs : bool; qBuildLink : Link; qTempDir : string; qRelayImage : string;
  qUpstreamCACerts : list string; qUpstreamSystemCA : bool }.

Definition newRequest (cfg : Config) (args : list string) : R BuildRequest :=
  let d := Driver (Runtime cfg) in
  let+ _ := validateFlagsForDriver d in
  let+ _ := validateGuestOS (flagGuestOS fl) d in
  let+ capture := resolveCapture cfg in
  let+ timeout := resolveTimeout in
  let+ tempDir := resolveTempDir cfg in
  let isVM := isVMDriver d in
  let+ link := if isVM then (let+ ls := resolveBuildLink cfg in inl ls.1) else inl zeroLink in
  let+ input := resolveBuildInput (List.hd "" args) d (flagGuestOS fl) (flagScript fl) in
  let '(dockerfile, contextDir, script) := input in
  let+ refreshAfter := configAge "image_refresh_after" (vImageRefreshAfter (VM cfg)) in
  let+ minGrace := configAge "image_min_grace" (vImageMinGrace (VM cfg)) in
  inl (mkRequest refreshAfter minGrace script contextDir (flagImage fl) (flagGuestOS fl) dockerfile (resolveOutputDir cfg) capture
         (resolveCompress cfg) (flagQuiet fl) timeout (vmFlagOr (flagCPUs fl) (vCPUs (VM cfg)) isVM)
         (vmFlagOr (flagMemoryMB fl) (vMemoryMB (VM cfg)) isVM) (resolveNetwork cfg d) (flagKeepVMs fl) link tempDir
         (rRelayImage (Runtime cfg)) (rUpstreamCACerts (Relay cfg)) (resolveSystemCA cfg)).

(** A driver, by its name; the container driver with its runtime. *)
Inductive drv := Vz | Qemu | Hyperv | Firecracker | Container (runtime : string).
Definition drv_name (d : drv) : string :=
  match d with Vz => "vz" | Qemu => "qemu" | Hyperv => "hyperv" | Firecracker => "firecracker" | Container _ => "container" end.

Definition newDriver (cfg : Config) : R drv :=
  let d := Driver (Runtime cfg) in
  if String.eqb d "vz" then inl Vz
  else if String.eqb d "qemu" then inl Qemu
  else if String.eqb d "hyperv" then inl Hyperv
  else if String.eqb d "firecracker" then inl Firecracker
  else let+ runtime := resolveRuntime cfg in inl (Container runtime).

Definition prepare (args : list string) : R (drv * BuildRequest) :=
  let+ cfg := resolveConfig in
  let+ req := newRequest cfg args in
  let+ d := newDriver cfg in
  inl (d, req).

(** ** The outcome *)
Definition exitTimedOut : Z := 124.
Definition exitInterrupted : Z := 130.
Definition DeadlineExceeded : error := Sentinel "context.DeadlineExceeded".
Definition ErrExecNotSupported : error := Sentinel "driver does not support interactive exec".

(** How a command ends: nothing to report, [exitStatusError], or a failure. *)
Inductive ending := Done | Status (code : Z) | Failed (f : failure).

Definition as_failure (o : outcome) : failure :=
  match o with
  | Session.Session.Fixable f e => Fixable f e
  | Session.Session.Failure e => Plain e
  | Session.Session.ExitError n _ => Plain (Errorf "build exited with code %d" [Itoa n])
  | Session.Session.Success => Plain (Sentinel "nil")
  end.
(** [errors.Is]: a fixable error holds no other. *)
Definition is_error (o : outcome) (target : error) : bool :=
  match o with Session.Session.Failure e => errors_Is e target | _ => false end.

(** What a run took, and whether it was interrupted. *)
Record run_facts := mkFacts { elapsed : Z; interrupted : bool }.

Definition buildFailed (req : BuildRequest) (facts : run_facts) (o : outcome) : ending :=
  match o with
  | Session.Session.ExitError n _ => Status n
  | _ => if (0 <? qTimeout req) && (qTimeout req <=? elapsed facts) && is_error o DeadlineExceeded then Status exitTimedOut
         else if interrupted facts then Status exitInterrupted
         else Failed (as_failure o)
  end.

Definition runBuild (start : drv -> BuildRequest -> outcome * run_facts) (args : list string) : ending :=
  match prepare args with
  | inr f => Failed f
  | inl (d, req) => let '(o, facts) := start d req in
                    match o with Session.Session.Success => Done | _ => buildFailed req facts o end
  end.

Definition runShell (exec : drv -> BuildRequest -> outcome) (args : list string) : ending :=
  match prepare args with
  | inr f => Failed f
  | inl (d, req) =>
      match exec d req with
      | Session.Session.Success => Done
      | Session.Session.Failure e =>
          if decide (e = ErrExecNotSupported) then
            Failed (Fixable "use warden build, or --driver container for an interactive shell"
                      (Errorf "warden shell is not supported by --driver %s" [drv_name d]))
          else Failed (Plain e)
      | Session.Session.ExitError n _ => Status n
      | o => Failed (as_failure o)
      end
  end.

(** [main], with the status as the operating system keeps it: its low byte. *)
Definition exit_status (e : ending) : Z := match e with Done => 0 | Status n => n mod 256 | Failed _ => 1 end.
End Flagged.
End Load.
End Command.
