(* ===== verification/CommandSpec.v ===== *)
(** * What the warden command promises

    Which source each setting of a build's request comes from, what every
    request a driver gets satisfies, and what warden's exit status says. *)
From S2P Require Import Prelude Text Netip BuildLink Translate Session Isolation Slots Failure Command.

#[local] Open Scope string_scope.
#[local] Open Scope Z_scope.

Module CommandSpec.
Import Netip LinkClaim BuildLink Failure Command.

Lemma try_inl {A B} (r : R A) (k : A -> R B) b : try r k = inl b <-> exists a, r = inl a /\ k a = inl b.
Proof. destruct r as [a|f]; cbn; [|naive_solver]. split; [eauto|]. by intros (a' & [= <-] & ?). Qed.

(** ** Sources *)
Section Sources.
Context {H : Host} {F : Floats} (fl : Flags).

(** A file's keys, when it is there. *)
Definition file_doc (path : string) : option doc :=
  if there path then match DecodeFile path with Ok d => Some d | Err _ => None end else None.
Definition user_doc : option doc := match UserHomeDir with Ok home => file_doc (userPath home) | Err _ => None end.
Definition project_doc : option doc := file_doc "warden.toml".

(** The project's file, then the user's, then [dflt]. *)
Definition from_files {A} (k : doc -> option A) (dflt : A) : A :=
  match project_doc ≫= k with Some x => x | None => match user_doc ≫= k with Some x => x | None => dflt end end.

Definition from_ptr {A} (k : doc -> option A) : option A := over_ptr (project_doc ≫= k) (over_ptr (user_doc ≫= k) None).

(** The first that is set. *)
Definition first_set (ss : list string) : string := default "" (head (filter (fun s => s <> "") ss)).

Lemma first_set_cons s ss : first_set (s :: ss) = or_else s (first_set ss).
Proof.
  unfold first_set, or_else. destruct (decide (s = "")) as [->|Hs]; [by rewrite filter_cons_False by naive_solver|].
  by rewrite filter_cons_True by done.
Qed.

Lemma first_set_one s : first_set [s] = s.
Proof. rewrite first_set_cons. unfold or_else. by case_decide. Qed.

Lemma first_set_three a b c : first_set [a; b; c] = or_else a (or_else b c).
Proof. by rewrite first_set_cons, first_set_cons, first_set_one. Qed.

Lemma loadTOML_doc path c c' : loadTOML path c = inl c' ->
  exists src, c' = set_source src (match file_doc path with Some d => decode_into d c | None => c end) /\
    (forall d, file_doc path = Some d -> is_Some (d_build_link d) -> is_ok (checkBuildLink (vBuildLink (VM c'))) = true).
Proof.
  unfold loadTOML, file_doc. assert (Hid : forall c0 : Config, c0 = set_source (BuildLinkSource (VM c0)) c0) by (by intros [? ? ? [] ?]).
  destruct (there path); [|intros [= <-]; exists (BuildLinkSource (VM c)); by split].
  destruct (DecodeFile path) as [d|e]; [|done]. cbv zeta.
  destruct (decide (is_Some (d_build_link d))) as [Hs|Hs].
  - destruct (checkBuildLink _) eqn:E; [|done]. intros [= <-]. eexists. split; [done|]. intros d' [= <-] _.
    destruct c as [? ? ? [] ?]. cbn in *. by rewrite E.
  - intros [= <-]. exists (BuildLinkSource (VM (decode_into d c))). split; [done|]. by intros d' [= <-] Hd.
Qed.

(** ** Where a configuration's fields come from *)

(** Both files, decoded one over the other. *)
Definition overlaid : Config :=
  let c := match user_doc with Some d => decode_into d default_config | None => default_config end in
  match project_doc with Some d => decode_into d c | None => c end.

Lemma LoadConfig_overlaid c : LoadConfig = inl c -> exists s1, c = apply_env (set_source s1 overlaid).
Proof.
  unfold LoadConfig. intros (c1 & H1 & H2)%try_inl. apply try_inl in H2 as (c2 & H2 & [= <-]).
  assert (Hu : exists src, c1 = set_source src (match user_doc with Some d => decode_into d default_config | None => default_config end)).
  { unfold user_doc. destruct UserHomeDir as [home|e].
    - apply loadTOML_doc in H1 as (src & -> & _). by eexists.
    - injection H1 as <-. by exists "". }
  destruct Hu as (src & ->). apply loadTOML_doc in H2 as (src2 & -> & _). unfold overlaid.
  fold project_doc. destruct project_doc as [d|]; by eexists.
Qed.

Lemma overlaid_fields :
  Runtime overlaid = mkRuntime (from_files d_cli "") (from_files d_driver "") (from_files d_relay_image "") /\
  Relay overlaid = mkRelayConfig (from_files d_upstream_ca_certs []) (from_ptr d_system_ca_bundle) /\
  Build overlaid = mkBuildCfg (from_files d_dockerfile "") (from_files d_context "") (from_files d_capture "")
    (from_files d_output_dir "") (from_ptr d_compress) (from_files d_tmpdir "") /\
  exists src, VM overlaid = mkVM (from_files d_cpus 0) (from_files d_memory_mb 0) (from_files d_network "")
    (from_files d_image_refresh_after "") (from_files d_image_min_grace "") (from_files d_windows_image "")
    (from_files d_windows_image_update "") (from_files d_build_link "") src.
Proof.
  unfold overlaid, from_files, from_ptr. destruct project_doc as [d|], user_doc as [d'|]; split_and!; try reflexivity; eexists; reflexivity.
Qed.

Lemma apply_env_fields c :
  Runtime (apply_env c) = mkRuntime (or_else (getenv "WARDEN_CTR_CLI") (CLI (Runtime c)))
    (or_else (getenv "WARDEN_DRIVER") (Driver (Runtime c))) (or_else (getenv "WARDEN_IMAGE") (rRelayImage (Runtime c))) /\
  Relay (apply_env c) = mkRelayConfig (rUpstreamCACerts (Relay c) ++
    (if decide (getenv "WARDEN_UPSTREAM_CA_CERTS" = "") then [] else Split (getenv "WARDEN_UPSTREAM_CA_CERTS") ":"))%list (SystemCABundle (Relay c)) /\
  Build (apply_env c) = Build c /\ VM (apply_env c) = VM c.
Proof.
  destruct c as [ [] [] b v o]. unfold apply_env, if_set, or_else.
  repeat case_decide; cbn; rewrite ?app_nil_r; repeat split.
Qed.

(** The settings after the flags. *)
Lemma resolveConfig_fields c : resolveConfig fl = inl c ->
  Runtime c = mkRuntime (first_set [flagRuntime fl; getenv "WARDEN_CTR_CLI"; from_files d_cli ""])
    (first_set [flagDriver fl; getenv "WARDEN_DRIVER"; from_files d_driver ""]) (first_set [getenv "WARDEN_IMAGE"; from_files d_relay_image ""]) /\
  Relay c = mkRelayConfig (from_files d_upstream_ca_certs [] ++
    (if decide (getenv "WARDEN_UPSTREAM_CA_CERTS" = "") then [] else Split (getenv "WARDEN_UPSTREAM_CA_CERTS") ":"))%list (from_ptr d_system_ca_bundle) /\
  Build c = mkBuildCfg (from_files d_dockerfile "") (from_files d_context "") (from_files d_capture "")
    (from_files d_output_dir "") (from_ptr d_compress) (from_files d_tmpdir "") /\
  (exists src, VM c = mkVM (from_files d_cpus 0) (from_files d_memory_mb 0) (from_files d_network "")
    (from_files d_image_refresh_after "") (from_files d_image_min_grace "") (from_files d_windows_image "")
    (from_files d_windows_image_update "") (from_files d_build_link "") src) /\
  (Driver (Runtime c) = "" \/ Driver (Runtime c) ∈ known_drivers).
Proof.
  unfold resolveConfig. intros (c0 & H0 & H1)%try_inl. cbv zeta in H1. apply try_inl in H1 as (u & Hv & [= <-]).
  apply LoadConfig_overlaid in H0 as (src & ->). destruct overlaid_fields as (Hr & Hy & Hb & src' & Hm).
  destruct (apply_env_fields (set_source src overlaid)) as (Er & Ey & Eb & Em). cbn [set_source Runtime Relay Build VM] in Er, Ey, Eb, Em.
  rewrite Hr in Er. rewrite Hy in Ey. rewrite Hb in Eb. rewrite Hm in Em. cbn in Er, Ey, Eb, Em.
  set (c1 := apply_env (set_source src overlaid)) in *. clearbody c1. destruct c1 as [r y b v o]. cbn in Er, Ey, Eb, Em. subst r y b v.
  unfold validateDriver in Hv. destruct (decide _) as [Hd|]; [|done]. split_and!; [|..|exact Hd].
  - rewrite !(first_set_cons (flagRuntime fl)), !(first_set_cons (flagDriver fl)), !(first_set_cons (getenv _)), !first_set_one.
    unfold if_set, or_else. repeat case_decide; cbn; destruct (flagVerbose fl); done.
  - unfold if_set. repeat case_decide; destruct (flagVerbose fl); reflexivity.
  - unfold if_set. repeat case_decide; destruct (flagVerbose fl); reflexivity.
  - exists src. unfold if_set. repeat case_decide; destruct (flagVerbose fl); reflexivity.
Qed.

(** ** The parts of a request *)
Definition is_vm (d : drv) : bool := match d with Container _ => false | _ => true end.

Lemma newDriver_kind c d : newDriver c = inl d -> Driver (Runtime c) = "" \/ Driver (Runtime c) ∈ known_drivers ->
  drv_name d = or_else (Driver (Runtime c)) "container" /\ isVMDriver (Driver (Runtime c)) = is_vm d /\
  forall rt, d = Container rt -> CLI (Runtime c) <> "" -> rt = CLI (Runtime c).
Proof.
  intros Hd Hk. unfold newDriver, resolveRuntime in Hd. set (n := Driver (Runtime c)) in *. clearbody n.
  assert (Hn : n ∈ ["vz"; "qemu"; "hyperv"; "firecracker"; "container"; ""]) by (unfold known_drivers in Hk; set_solver).
  rewrite !elem_of_cons in Hn. destruct Hn as [->|[->|[->|[->|[->|[->|Hn%elem_of_nil] ] ] ] ] ]; [..|done];
    cbn in Hd; try (injection Hd as <-; by split_and!);
    (apply try_inl in Hd as (rt & Hr & [= <-]); split_and!; [done|done|]; intros rt' [= <-] Hc;
     rewrite decide_False in Hr by done; by injection Hr as <-).
Qed.

Lemma newRequest_parts c args req : newRequest fl c args = inl req ->
  let n := Driver (Runtime c) in
  (validateFlagsForDriver fl n = inl tt /\ validateGuestOS (flagGuestOS fl) n = inl tt) /\
  (resolveCapture fl c = inl (qCaptureMode req) /\ resolveTimeout fl = inl (qTimeout req) /\ resolveTempDir fl c = inl (qTempDir req)) /\
  (if isVMDriver n then exists s, resolveBuildLink fl c = inl (qBuildLink req, s) else qBuildLink req = zeroLink) /\
  resolveBuildInput (List.hd "" args) n (flagGuestOS fl) (flagScript fl) = inl (qContainerfile req, qContextDir req, qScript req) /\
  req = mkRequest (qImageRefreshAfter req) (qImageMinGrace req) (qScript req) (qContextDir req) (flagImage fl) (flagGuestOS fl)
    (qContainerfile req) (resolveOutputDir fl c) (qCaptureMode req) (resolveCompress fl c) (flagQuiet fl) (qTimeout req)
    (vmFlagOr (flagCPUs fl) (vCPUs (VM c)) (isVMDriver n)) (vmFlagOr (flagMemoryMB fl) (vMemoryMB (VM c)) (isVMDriver n))
    (resolveNetwork fl c n) (flagKeepVMs fl) (qBuildLink req) (qTempDir req) (rRelayImage (Runtime c)) (rUpstreamCACerts (Relay c)) (resolveSystemCA c).
Proof.
  unfold newRequest. cbv zeta. intros ([] & H1 & H2)%try_inl. apply try_inl in H2 as ([] & H2 & H3).
  apply try_inl in H3 as (capture & H3 & H4). apply try_inl in H4 as (timeout & H4 & H5). apply try_inl in H5 as (tmp & H5 & H6).
  apply try_inl in H6 as (link & H6 & H7). apply try_inl in H7 as ([ [df ctx] script] & H7 & H8).
  apply try_inl in H8 as (ra & H8 & H9). apply try_inl in H9 as (mg & H9 & [= <-]). cbn.
  split; [done|]. split; [done|]. split; [|by split]. destruct (isVMDriver _); [|by injection H6].
  apply try_inl in H6 as ([l s] & H6 & [= <-]). by exists s.
Qed.

Lemma prepare_parts args d req : prepare fl args = inl (d, req) ->
  exists c, resolveConfig fl = inl c /\ newRequest fl c args = inl req /\ newDriver c = inl d.
Proof.
  unfold prepare. intros (c & H1 & H2)%try_inl. apply try_inl in H2 as (r & H2 & H3). apply try_inl in H3 as (d' & H3 & [= <- <-]). by exists c.
Qed.

(** VM flags given to another driver are refused. *)
Lemma validateFlags_exact n : validateFlagsForDriver fl n = inl tt ->
  (isVMDriver n = false -> flagScript fl = "" /\ flagImage fl = "" /\ flagCPUs fl = 0 /\ flagMemoryMB fl = 0 /\ flagKeepVMs fl = false /\ flagBuildLink fl = "") /\
  (flagNetwork fl <> "" -> n = "hyperv").
Proof.
  unfold validateFlagsForDriver. intros Hv. destruct (filter _ (vm_flags fl)) as [|f fs] eqn:E; [|done].
  split; [|destruct (decide _) as [|Hn]; [done|]; intros Hs; destruct (decide (n = "hyperv")); [done|]; exfalso; by apply Hn].
  intros Hvm. rewrite Hvm in E.
  assert (Hall : Forall (fun f : bool * string => f.1 = false) (vm_flags fl)).
  { apply Forall_forall. intros f Hf. destruct f.1 eqn:Ef; [|done]. assert (f ∈ ([] : list (bool * string))) as []%elem_of_nil.
    rewrite <- E. apply list_elem_of_filter. by rewrite Ef. }
  unfold vm_flags in Hall. rewrite !Forall_cons in Hall. cbn [fst] in Hall. destruct Hall as (Hs & Hi & Hc & Hm & Hk & Hb & _).
  assert (Hset : forall s, set_ s = false -> s = "") by (intros s; unfold set_; by case_bool_decide).
  apply negb_false_iff, Z.eqb_eq in Hc, Hm. auto 10.
Qed.

(** *** The link *)
Lemma resolveBuildLink_sources c l s : resolveBuildLink fl c = inl (l, s) ->
  checkBuildLink (first_set [flagBuildLink fl; vBuildLink (VM c); DefaultCIDR]) = Ok l.
Proof.
  rewrite !first_set_cons. unfold resolveBuildLink, or_else.
  destruct (decide (flagBuildLink fl <> "")) as [Hf|Hf].
  - rewrite decide_False by done. destruct (checkBuildLink (flagBuildLink fl)); [by intros [= <- _]|done].
  - apply dec_stable in Hf. rewrite (decide_True _ _ Hf).
    destruct (decide (vBuildLink (VM c) <> "")) as [Hv|Hv].
    + rewrite decide_False by done. destruct (checkBuildLink _); [by intros [= <- _]|done].
    + apply dec_stable in Hv. rewrite (decide_True _ _ Hv). intros [= <- _]. vm_compute. reflexivity.
Qed.

Lemma checkBuildLink_Parse s l : checkBuildLink s = Ok l -> BuildLink.Parse s = Ok l.
Proof. unfold checkBuildLink. destruct (BuildLink.Parse s); [|done]. by destruct (Disjoint _ _). Qed.


(** *** Paths *)
Definition rooted (p : string) : Prop := exists r, p = "/" ++ r.

Lemma clean_rooted p : rooted p -> rooted (Translate.path_Clean p).
Proof. intros (r & ->). eexists. cbn [String.append Translate.path_Clean]. rewrite decide_True by done. reflexivity. Qed.

Lemma join_rooted a b : rooted a -> rooted (Session.Session.Join a b).
Proof. intros (r & ->). apply clean_rooted. by eexists. Qed.

Lemma dir_rooted p : rooted p -> rooted (Translate.path_Dir p).
Proof.
  intros (r & ->). apply clean_rooted. unfold Translate.through_slash. cbn [String.append].
  change (Split (String "/" r) "/") with ("" :: Split r "/"). destruct (Split r "/") as [|x l] eqn:E; [by apply Split_nonnil in E|].
  destruct (rev (x :: l)) as [|y m] eqn:Er; [apply (f_equal (@length string)) in Er; by rewrite length_rev in Er|].
  cbn [rev]. cbn [rev] in Er. rewrite Er. cbn [app]. destruct (m ++ [""])%list as [|z m'] eqn:Em; [by destruct m|].
  rewrite <- Em, rev_app_distr. cbn [rev app]. unfold Text.Join. destruct (rev m); by eexists.
Qed.

(** The process's working directory is an absolute path. *)
Definition absolute_cwd : Prop := forall cwd, Getwd = Ok cwd -> rooted cwd.

Lemma Abs_rooted p a : absolute_cwd -> Abs p = Ok a -> rooted a.
Proof.
  intros Hc. unfold Abs. destruct (HasPrefix p "/") eqn:E.
  - intros [= <-]. apply clean_rooted. unfold HasPrefix in E. apply bool_decide_eq_true_1 in E as (r & Hr%CutPrefix_Some). by exists r.
  - destruct Getwd as [cwd|] eqn:Ew; [|done]. intros [= <-]. by apply join_rooted, Hc.
Qed.

(** *** The input *)
Lemma discover_there dir df : discoverDockerfile dir = inl df ->
  there df = true /\ (df = Session.Session.Join dir "Dockerfile" \/ df = Session.Session.Join dir "Containerfile").
Proof.
  unfold discoverDockerfile. destruct (filter _ _) as [|x l] eqn:E; [done|]. intros [= ->].
  assert (Hin : df ∈ df :: l) by by left. rewrite <- E in Hin. apply list_elem_of_filter in Hin as [Ht Hin]. split; [done|].
  cbn in Hin. rewrite !elem_of_cons in Hin. destruct Hin as [->|[->|[]%elem_of_nil] ]; auto.
Qed.

(** The script a guest runs when it is given none. *)
Definition build_file (guest : string) : string := if String.eqb guest "windows" then "build.ps1" else "build.sh".

Lemma container_input path df ctx : absolute_cwd -> ResolvePath path = inl (df, ctx) -> rooted ctx /\ rooted df.
Proof.
  intros Hc. unfold ResolvePath. cbv zeta. destruct (stat _) as [isDir|]; [|done]. intros (abs & Ha & Hi)%try_inl.
  assert (Hr : rooted abs) by (unfold attempt in Ha; destruct (Abs _) eqn:E; [|done]; injection Ha as <-; by eapply Abs_rooted).
  destruct isDir; [|injection Hi as <- <-; split; [by apply dir_rooted|done] ].
  apply try_inl in Hi as (d & (_ & Hd)%discover_there & [= <- <-]). split; [done|]. destruct Hd as [->| ->]; by apply join_rooted.
Qed.

Lemma vm_input path guest script df ctx script' : absolute_cwd -> resolveVMBuildInput path guest script = inl (df, ctx, script') ->
  rooted ctx /\ (guest = "windows" -> df = "") /\
  (script' <> "" \/ df <> "" \/ there (Session.Session.Join ctx (build_file guest)) = true) /\ (script <> "" -> script' = script).
Proof.
  intros Hc. unfold resolveVMBuildInput. cbv zeta. intros (abs & Ha & Hi)%try_inl.
  assert (Hr : rooted abs) by (unfold attempt in Ha; destruct (Abs _) eqn:E; [|done]; injection Ha as <-; by eapply Abs_rooted).
  destruct (stat abs) as [isDir|]; [|done]. set (c := if isDir then abs else _) in Hi.
  assert (Hctx : rooted c) by (unfold c; destruct isDir; [done|by apply dir_rooted]). clearbody c.
  set (sc := if negb isDir && isScriptName abs && bool_decide (script = "") then abs else script) in Hi.
  assert (Hsc : script <> "" -> sc = script) by (intros Hs; unfold sc; rewrite bool_decide_eq_false_2 by done; by rewrite andb_false_r).
  clearbody sc. set (f := if String.eqb guest "windows" then "" else _) in Hi.
  assert (Hf : guest = "windows" -> f = "") by (unfold f; by intros ->). clearbody f.
  destruct (decide (sc <> "" \/ f <> "")) as [Hd|Hd]; [injection Hi as <- <- <-; naive_solver|].
  apply try_inl in Hi as ([] & Hb & [= <- <- <-]). split; [done|]. split; [done|]. split; [|intros Hs; exfalso; apply Hd; left; by rewrite (Hsc Hs)].
  right; right. unfold requireBuildFile in Hb. unfold build_file.
  by destruct (there _).
Qed.

(** A link a relay and a guest can share with every network warden makes. *)
Definition link_sound (l : Link) : Prop := exists v,
  l = mkLink (mkPrefix (A4 v) 30) (A4 (v + 1)) (A4 (v + 2)) /\ v mod 4 = 0 /\ unicast v /\
  Forall (fun r => exists p, ParsePrefix (rCIDR r) = Ok p /\ forall a, ~ (Contains p (A4 a) = true /\ Contains (Net l) (A4 a) = true)) linkRanges.

Lemma checkBuildLink_sound s l : checkBuildLink s = Ok l -> link_sound l.
Proof.
  unfold checkBuildLink. destruct (BuildLink.Parse s) as [l'|] eqn:Hp; [|done]. destruct (Disjoint l' linkRanges) eqn:Hd; [done|].
  intros [= ->]. apply Parse_spec in Hp as (v & Hp & Hm & Hu & ->). apply ParsePrefix_v4 in Hp as [Hv _].
  exists v. split; [done|]. split; [done|]. split; [done|]. by apply (Disjoint_exact _ v).
Qed.


(** ** The exit status *)

(** warden exits with 0 exactly for a build that succeeded, or whose code's low
    byte is 0: a code of 256, which a Windows guest's process can have, is
    reported as success on a host that keeps eight bits. *)
Lemma exit_status_zero start args :
  exit_status (runBuild fl start args) = 0 <->
  exists d req o facts, prepare fl args = inl (d, req) /\ start d req = (o, facts) /\
    (o = Session.Session.Success \/ exists n why, o = Session.Session.ExitError n why /\ n mod 256 = 0).
Proof.
  unfold runBuild. destruct (prepare fl args) as [ [d req]|f]; [|cbn; split; [done|naive_solver] ].
  destruct (start d req) as [o facts] eqn:E.
  assert (Hfail : forall o', (forall n w, o' <> Session.Session.ExitError n w) -> exit_status (buildFailed req facts o') <> 0).
  { intros o' Ho. unfold buildFailed. destruct o' as [|n w|f e|e]; [|by destruct (Ho n w)|..];
      destruct (_ && _); try done; destruct (interrupted facts); done. }
  destruct o as [|n w|f e|e]; [split; [intros _; exists d, req; eauto 10|done]| | |].
  - cbn. split; [intros Hn; exists d, req; eauto 10|]. intros (d' & req' & o & fs & [= <- <-] & Ho & Hc). rewrite E in Ho. injection Ho as <- <-. naive_solver.
  - split; [intros Hz; by destruct (Hfail (Session.Session.Fixable f e))|]. intros (d' & req' & o & fs & [= <- <-] & Ho & Hc). rewrite E in Ho. injection Ho as <- <-. naive_solver.
  - split; [intros Hz; by destruct (Hfail (Session.Session.Failure e))|]. intros (d' & req' & o & fs & [= <- <-] & Ho & Hc). rewrite E in Ho. injection Ho as <- <-. naive_solver.
Qed.

(** A script's code from 1 to 255 is warden's own. *)
Lemma exit_code_kept start args d req n why facts : prepare fl args = inl (d, req) -> start d req = (Session.Session.ExitError n why, facts) ->
  0 < n < 256 -> exit_status (runBuild fl start args) = n.
Proof. intros Hp Hs Hn. unfold runBuild. rewrite Hp, Hs. cbn. apply Z.mod_small. lia. Qed.
End Sources.

(** ** A host *)
Section Example_host.
Definition ex_user : doc :=
  mkDoc None None None None None None None (Some "headers") (Some "results") None None (Some 4) (Some 2048) None None None None None None None None.
Definition ex_project : doc :=
  mkDoc None (Some "hyperv") None None None (Some "Other") (Some "elsewhere") None None (Some false) None (Some 8) None None None None None None
    (Some "100.126.255.252/30") None None.
#[local] Instance ex_host : Host := {
  getenv := fun k => if String.eqb k "WARDEN_DRIVER" then "qemu" else "";
  UserHomeDir := Ok "/home/u";
  stat := fun p => if decide (p ∈ ["/home/u/.config/warden/config.toml"; "warden.toml"; "/src/app/build.ps1"]) then Ok false
                   else if String.eqb p "/src/app" then Ok true else Err (Sentinel "ENOENT");
  DecodeFile := fun p => Ok (if String.eqb p "warden.toml" then ex_project else ex_user);
  Getwd := Ok "/src/app"; LookPath := fun _ => false; info := fun _ => false }.
#[local] Instance ex_floats : Floats := {
  fraction_ns := fun ds unit => default 0 (digits_val 0 ds) * unit / 10 ^ slen ds;
  days_ns := fun s => n ← parse_dec s; Some (false, n * 86400 * 10 ^ 9) }.
Definition ex_flags : Flags := mkFlags "" "" false "" "" "" false "" "" "windows" "1h1.5m" false 0 8192 "" false "" "".

Example ex_durations :
  ParseDuration "1h1.5m" = Ok 3690000000000 /\ ParseDuration "-2ms" = Ok (-2000000) /\ is_ok (ParseDuration "10") = false /\
  is_ok (ParseDuration "9223372036854775808ns") = false /\ ParseAge " 7d" = Ok 604800000000000 /\ is_ok (ParseAge "-1h") = false.
Proof. vm_compute. repeat split; reflexivity. Qed.

Example ex_statuses : exit_status (Status 3) = 3 /\ exit_status (Status 256) = 0.
Proof. split; reflexivity. Qed.


End Example_host.
End CommandSpec.
